(* ===== verification/_CoqProject ===== *)
-Q . S2P
Prelude.v
Data.v
Types.v
TypedValues.v
FnRefs.v
Util.v
GoPool.v
NetHttp.v
MediaType.v
Httpconv.v
ControlFlow.v
Fes.v
Projectors.v
Replays.v
Pubsub.v
Lru.v
MemBackend.v
Nats.v
NatsWatch.v
Cache.v
Graph.v
Scheduler.v
Bundle.v
Validate.v
ErrorText.v
Remote.v
Parse.v
Commands.v
Builtins.v
BuiltinsSpec.v
NetFns.v
WorkQueue.v
Heap.v
DelayingQueue.v
Executor.v
Ctrl.v
Api.v
ApiSpec.v
InvocationController.v
Expr.v
Execution.v
ExecutionSpec.v
Engine.v
EngineSpec.v
Store.v
WorkflowRuntime.v
ApiServer.v
EnvProxy.v
HttpClient.v
WorkflowController.v
Sensors.v
Lifecycle.v
Following.v
Wiring.v
Runs.v
RunsEngine.v
RunsLifecycle.v
RunsFollowing.v
RunsExec.v
RunsRounds.v
RunsBuiltins.v
RunsRuntime.v
RunsServer.v
RunsHttp.v
RunsNats.v
