(* ===== verification/Prelude.v ===== *)
(** * Fission Workflows: a verification development

    Fission Workflows runs workflows of serverless functions.  Everything that
    changes is an event in an event store; entities (workflows, invocations, task
    runs) are folds of their events; controllers look at snapshots of the entities
    and decide what to run next.  This library models that core in Rocq and proves
    it correct.  The names of the definitions are those of the Go code, and the
    comment before each definition names the file and the lines it translates.

    ** The program and the files that model it

    Data.
    - [Data]: the protobuf messages (types.proto, typedvalues.proto, flow.proto,
      fes.proto, events.proto) as the generated structs declare them, the error
      values, and the classes [Proto] and [PTypes] of the protobuf library.
    - [Types]: pkg/types/extensions.go, helpers.go, fnref.go: the methods of the messages.
    - [FnRefs]: the parser of function references, with what it uses of net/url.
    - [TypedValues], [ControlFlow]: pkg/types/typedvalues and its controlflow package:
      Go values as typed values, expressions, tasks and workflows as values.
    - [Graph], [Validate]: pkg/types/graph and pkg/types/validate: the dependency
      graph of the tasks, the validation of specifications.

    The event-sourced core.
    - [Fes]: pkg/fes: events, aggregates, validation, notifications, and the class
      [Projector] through which the caches see the projectors.
    - [Projectors]: pkg/api/projectors: the state of each entity as a fold of its events.
      [Replays]: the events of an invocation as assignments to its fields.
    - [Pubsub]: pkg/util/labels and pkg/util/pubsub.
    - [Lru], [MemBackend]: the LRU library as a class, and pkg/fes/backend/mem, the
      event store in memory.
    - [Cache]: pkg/fes/cache: the LRU cache, the cache that loads missing entities
      from the event store, the cache that follows the notifications.  The Go
      interfaces [CacheReaderWriter] and [Backend] are the classes of those names;
      the caches are proved against the laws of the classes, and the LRU cache and
      the event store in memory discharge them.
      [Following]: a cache, its subscription and the store interleaved with everything else that uses them.
    - [Api], [ApiSpec]: pkg/api and pkg/fnenv: the calls that append events, the
      resolution of functions, the running of a task, dynamic workflows.
    - [Store]: pkg/api/store: typed access to the caches.

    The engine.
    - [Scheduler]: pkg/scheduler: what to run next.
    - [WorkQueue], [DelayingQueue]: pkg/util/workqueue.  [Heap]: the binary heap of container/heap,
      on which the delaying queue is built.
    - [Executor]: pkg/controller/executor: the workers and their groups.
    - [Ctrl]: pkg/controller/ctrl: the loop that hands events to controllers.
    - [InvocationController], [WorkflowController], [Sensors]: pkg/controller: the
      controllers of one invocation and of one workflow, and what polls for work.
      [Lifecycle]: the subscriptions of pkg/api/store, the goroutines of the sensors, the meta
      controllers that start and stop a control system with its executor and its sensors.
    - [Expr]: pkg/controller/expr: the scopes expressions see, the resolver that replaces
      the expressions in a value, the look-ups expressions can call, the store of scopes.
      The JavaScript engine is the class [Otto], the library that merges scopes [Mergo].
    - [Execution], [ExecutionSpec]: the closures the controllers submit: resolving the
      inputs of a task, running it, transforming its outputs, preparing it.
    - [Engine], [EngineSpec]: these parts put together: rounds in which the history of an
      invocation is read and projected, the controller evaluates it, and the executor runs the
      closures it submitted, which append to the history.

    Functions and front ends.
    - [Builtins], [BuiltinsSpec]: pkg/fnenv/native and its built-in functions, the
      control flow of workflows.
    - [WorkflowRuntime]: pkg/fnenv/workflows: a task that runs a workflow and waits for it.
    - [Parse]: pkg/parse: from the values of the YAML reader to a specification.
    - [NetHttp]: what the program uses of net/http, net/url and mime: headers, queries, media
      type parameters.  [MediaType]: pkg/util/mediatype.  [Httpconv]: pkg/types/typedvalues/httpconv,
      HTTP messages as typed values and back.  [ErrorText]: the texts of the errors.
    - [Remote]: pkg/fnenv/fission, pkg/fnenv/http and pkg/util/backoff: functions invoked
      over HTTP, with retries.  [NetFns]: the built-in functions [http] and [javascript], the
      options of invocations and the mock runtime.
    - [ApiServer]: pkg/apiserver: the handlers of the gRPC service.  [HttpClient]:
      pkg/apiserver/httpclient, its client.  [EnvProxy]: pkg/apiserver/fission, the proxy through
      which Fission calls workflows.

    The event store on NATS streaming.
    - [Nats]: pkg/fes/backend/nats: subjects, ranges of messages, the wildcard subscriptions, the
      event store; the server is the class [Stan], its codecs [EventCodecs].
      [NatsWatch]: appends and deliveries interleaved.

    Utilities and commands.
    - [Util], [GoPool]: pkg/util, pkg/util/fsm and pkg/util/gopool.
    - [Bundle]: cmd/fission-workflows-bundle: the options, what they start, shutting down.
      [Wiring]: its caches on one event store, its controllers.
      [Commands]: cmd/fission-workflows: what the commands do with the answers of the API.

    Concrete runs.
    - [Runs], [RunsEngine], [RunsLifecycle], [RunsFollowing], [RunsExec], [RunsRounds], [RunsRuntime]: a workflow of two tasks, its events, the
      states they lead to, the engine and its closures at work on it, its invocation from the
      creation to the end, and a task that runs it.  [RunsBuiltins]: runs of the built-in functions.  [RunsServer], [RunsHttp], [RunsNats]:
      runs of the service, of the HTTP conversions and the proxy, and of the event store on NATS.  The theorems that have
      hypotheses are applied there, with concrete libraries in place of the parameters.

    An invocation flows through the parts like this: a sensor or a notification
    submits its event to the control system ([Ctrl]); the control system evaluates
    the controller of that invocation ([InvocationController]); the controller asks
    the scheduler ([Scheduler]) and submits closures to the executor ([Executor]);
    the closures resolve inputs and call the API ([Api]); the API validates
    ([Validate]), runs the function, and appends events to the store ([MemBackend]); the
    store publishes them ([Pubsub]); the caches ([Cache]) apply them with the
    projectors ([Projectors]), and the notification of the updated entity starts
    the next evaluation.

    ** Conventions

    A Go call that can fail is a [res E A]: a value, an error or a panic, which
    are different observations.  A call that changes state is a state-passing
    function in [st S E A := S → res E A * S]: a failing call keeps the changes it
    made.  Both live in this file, with the loops ([foldM], [loopM]) and their lemmas.
    Integers of a machine width are [Z] with their wrap-around written
    out ([to_i32] and its kin); instants and durations are nanoseconds in [Z].
    A pointer is an [option] where the program stores or tests [nil].  A map is a
    [gmap]; a loop over a map takes the order of its keys from the class [MapRange],
    about which only that it is a permutation of the keys is known, so a theorem
    holds for every order Go may choose.  Objects that are shared and mutated
    (subscriptions, the loop variable a closure captures, the events whose
    addresses the work queue compares) have an identity of their own.  Methods that
    run under a mutex are atomic steps, and concurrency is the arbitrary sequence of
    such steps: the reachability relations of [MemBackend], [WorkQueue], [Executor],
    [Ctrl], [Lifecycle], [Following], [GoPool] and [NatsWatch].

    Code that is not part of the repository is a class or a section variable with
    its documented behaviour as laws: protobuf ([Proto], [PTypes]), hashicorp's LRU
    ([LRU]), gonum's graphs ([DirectedGraph]), the NATS streaming server ([Stan]), the weighted
    semaphore ([Semaphore]), the function runtimes, the random
    identifiers, the clock (an argument [now]).  Each class has an instance, so
    that the laws are seen to be consistent.

    ** What is proved

    - From the creation of an invocation to its end.  [EngineSpec.engine_completes] composes the
      event store, the projectors, the controller, the scheduler, the executor and the
      closures: every task runs at most once and after the tasks it waits for, and after more
      rounds than there are tasks the history shows the end of the invocation, with the verdict
      its tasks call for.  It needs that the closures manage to record what they did: otherwise
      the invocation may stay as it is for ever, as [ExecutionSpec.lost_task_blocks] shows.  The
      runtimes are those that return no workflows; rounds of one invocation follow each other.
    - The engine.  [InvocationController.Eval_judged] characterises what an evaluation
      does in every case against an independent description of the verdict;
      [tasks_start_once] shows that no task is started twice over any sequence of
      evaluations, [Eval_progress] that an invocation that can move on does.
      [Scheduler.HorizonPolicy_exact] and [Prewarm_partition] say exactly what is
      scheduled, [Ctrl.run_refines] that the control system implements one
      controller per entity, [Executor.GetGroupTasks_counts] that the group counts
      are those of the open tasks, [WorkQueue.workqueue_invariant] and
      [workqueue_delivery] that no item is lost or processed twice at a time, [DelayingQueue.waitingLoop_due] that a delayed
      item is added when it is due, the heap being kept in order.
    - Between the caches and the controllers.  An event that reaches a cache makes the sensor submit
      an event for the controller of its entity ([Lifecycle.event_wakes_controller]); whatever others do with the
      publisher, a sensor forwards the updates of its entities in order, and misses one only when its buffer was
      full ([Lifecycle.sensor_forwards]); a meta controller starts its parts once and closes them
      ([Lifecycle.meta_lifecycle]).
    - The work itself.  A task that was run is recorded as finished with its outcome
      ([ExecutionSpec.execTask_finishes_run]), its inputs are resolved in the order of their
      priorities, each seeing the ones before it ([resolveInputs_in_order]); an expression is replaced by its
      value wherever it occurs and nothing else changes ([Expr.Resolve_substitutes]).
    - Event sourcing.  The projections of [Projectors] refine the life cycles of the
      entities and never panic on events the API made; an append to the store is
      read back ([MemBackend.Append_Get]), the store keeps its invariants
      ([reachable_store_ok]) and its eviction loop ends ([fit_loop_terminates]); the
      caches read what the store holds ([Cache.LoadingCache_reads_through]) and stay
      in step with it ([applyEvent_in_step]).  In a replay the last event that assigns a field decides it
      ([Replays.Project_last_writer_wins]); therefore the cache of invocations, which may load an invocation while some of its
      events are on their way, catches up with the store in every interleaving ([Wiring.invocations_catch_up]).
    - The same promises on NATS.  Reading back an entity yields the events appended to it
      ([Nats.nats_history]), listing yields what was announced ([Nats.nats_List_announced]), and
      watching publishes every event once and in order, whatever the interleaving of
      appends and deliveries ([NatsWatch.Watch_publishes]).
    - The API.  Every call is one event whose projection is the state the call is
      named after ([ApiSpec.invocation_call_effect], [Task_Invoke_outcome],
      [addDynamicWorkflow_adds_child]).
    - Data.  Graph parsing and validation are equivalent to declarative
      specifications ([Graph.Parse_dependencies], [Validate.validate_WorkflowSpec_correct]),
      wrapping round-trips ([TypedValues.Wrap_Unwrap_roundtrip]), and so does the text of a
      function reference ([FnRefs.ParseFnRef_Format]); the resolution of
      dynamic outputs ends with the right value ([ControlFlow.ResolveTaskOutput_resolves]).
    - Functions.  The workflows [repeat], [foreach] and [while] generate are the loops they are
      named after; [While_bounded] of [BuiltinsSpec] shows that they end; the native runtime contains the failures of
      its functions ([FunctionEnv_Invoke_contains]); waiting for an invocation ends with its
      result or its cancellation ([WorkflowRuntime.await_answers], [Runtime_Invoke_reports])
      whatever the rest of the engine does meanwhile.
    - Parsing.  A translated workflow says what its definition says
      ([Parse.parseWorkflow_reads]); the recursion ends ([Parse.parseInput_terminates]).
    - The outside.  A request an HTTP mapper formats is read back as its inputs
      ([Httpconv.FormatRequest_ParseRequest]), media types round-trip ([MediaType.Parse_String]);
      a remote function is called until it answers or the attempts are used up
      ([Remote.remote_Invoke_outcome]); creating a workflow and waiting for it always
      answers ([ApiServer.CreateSync_answers]); the proxy lets through what its condition says
      and forwards it as an invocation ([EnvProxy.handleRequest_gate], [forward_invokes]); the caches
      of the bundle hear the events of their entities ([Bundle.caches_hear]).
    - The pool of goroutines keeps its bound and its count ([GoPool.GoPool_bounded]).
    - Flaws.  Where the code does not do what it means to, a theorem says what it does
      instead: [ExecutionSpec.lost_task_blocks], [ExecutionSpec.prewarm_prepares_last],
      [RunsFollowing.reads_go_back],
      [Parse.Parse_second_format_lost], [Parse.parseInput_panics],
      [Httpconv.FormatResponse_sends], [Httpconv.structured_request_refused], [Util.Truncate_length],
      [Util.Len_panics], [Util.TransitionTo_blocks], [EnvProxy.specialize_one_id],
      [ApiServer.Invocation_Events_foreign], [Bundle.proxy_flag_inverted],
      [WorkflowRuntime.poll_workflow_cancels_invocation],
      [Sensors.WorkflowStorePollSensor_ineffective], [Executor.merged_task_leaks],
      [Validate.validate_WorkflowSpec_panics], [Ctrl.nil_event_crashes],
      [MemBackend.store_overcommitted].

    ** Fuel

    A loop that does not recurse on its data takes fuel, and a theorem shows that a
    given amount is enough: [MemBackend.fit_loop_terminates] (the number of stored
    streams), [ControlFlow.ResolveTaskOutput_resolves] (one more than the length of
    the chain of dynamic tasks), the peeling of the graph in [Graph] (the number of
    its nodes).  [Wrap], [Unwrap] and the validators recurse on the nesting of
    their argument.
    [Engine.drain] has as much as there are tasks in the queue, [drain_loaded] shows that it empties it.
    [Expr.Resolve] and the copies of scopes recurse on the nesting of values too, and their
    theorems ask for more fuel than that nesting.  [Parse.parseInput] needs two units, on
    any input.  The polls of [WorkflowRuntime] need as much as there are pauses until the
    context is done, and so do those of [ApiServer] and [HttpClient].  The loop over the parameters
    of a media type in [NetHttp] has the length of the text, and those of [Heap] as much as there are
    positions.  The fuel of [Wrap] and [Unwrap] in [Builtins] and [Parse] is a
    parameter.

    ** Not modelled

    Logging, metrics and tracing; String, Reset and wire encoding of generated
    code (the class [Proto] stands for the latter) and the generated gRPC stubs and gateway;
    connecting to NATS and watching the connection, and the redelivery of messages that were
    not acknowledged; the readers of YAML and protobuf
    text (parameters of [Parse]); the execution of JavaScript (the class [Otto]) and the
    timer that should interrupt it; the sockets under an HTTP request (the transport is a
    parameter); the wiring of the servers in the bundle; printing, port forwarding
    and reading of files in the commands; the helpers of the tests (pkg/fes/testutil);
    tickers and goroutines as such (their bodies are the steps of the models, taken in any order). *)

From stdpp Require Import base tactics option list gmap strings relations sorting pretty.

(** ** Outcomes of a Go call

    A Go function with an [error] result either returns a value ([Ret]),
    returns an error ([Throw]) or panics ([Panic]); panics and errors are
    different observations, since only [recover] stops a panic. *)

Inductive res (E A : Type) : Type :=
| Ret (a : A)
| Throw (e : E)
| Panic (why : string).

Arguments Ret {E A} a.
Arguments Throw {E A} e.
Arguments Panic {E A} why.

#[export] Instance res_ret E : MRet (res E) := λ A a, Ret a.

#[export] Instance res_bind E : MBind (res E) := λ A B k m,
  match m with
  | Ret a => k a
  | Throw e => Throw e
  | Panic w => Panic w
  end.

#[export] Instance res_fmap E : FMap (res E) := λ A B f m,
  match m with
  | Ret a => Ret (f a)
  | Throw e => Throw e
  | Panic w => Panic w
  end.

Definition no_panic {E A} (m : res E A) : Prop :=
  match m with Panic _ => False | _ => True end.

Definition is_ret {E A} (m : res E A) : Prop :=
  match m with Ret _ => True | _ => False end.

(** Dereferencing a Go pointer: [nil] panics. *)
Definition deref {E A} (p : option A) : res E A :=
  match p with
  | Some a => Ret a
  | None => Panic "nil pointer dereference"
  end.

(** A loop whose body may fail, left to right. *)
Fixpoint foldM {E S X} (f : S → X → res E S) (s : S) (l : list X) : res E S :=
  match l with
  | [] => Ret s
  | x :: l' => s' ← f s x; foldM f s' l'
  end.

Section res_lemmas.
  Context {E A B : Type}.
  Implicit Types m : res E A.

Lemma bind_Ret_inv m (k : A → res E B) b :
  (x ← m; k x) = Ret b → ∃ a, m = Ret a ∧ k a = Ret b.
Proof. destruct m; simpl; naive_solver. Qed.

Lemma bind_no_panic m (k : A → res E B) :
  no_panic m → (∀ a, m = Ret a → no_panic (k a)) → no_panic (x ← m; k x).
Proof. destruct m; simpl; naive_solver. Qed.

Lemma bind_Ret_l (a : A) (k : A → res E B) : (x ← Ret a; k x) = k a.
Proof. done. Qed.

Lemma is_ret_no_panic m : is_ret m → no_panic m.
Proof. by destruct m. Qed.

Lemma is_ret_ex m : is_ret m → ∃ a, m = Ret a.
Proof. destruct m; naive_solver. Qed.
End res_lemmas.

Lemma foldM_app {E S X} (f : S → X → res E S) s l1 l2 :
  foldM f s (l1 ++ l2) = (s' ← foldM f s l1; foldM f s' l2).
Proof.
  revert s. induction l1 as [|x l1 IH]; intros s; [done|]; simpl.
  destruct (f s x); simpl; auto.
Qed.

(** An invariant carried by every successful iteration. *)
Lemma foldM_invariant {E S X} (P : S → Prop) (f : S → X → res E S) l s s' :
  (∀ s x s', x ∈ l → P s → f s x = Ret s' → P s') →
  P s → foldM f s l = Ret s' → P s'.
Proof.
  revert s. induction l as [|x l IH]; intros s Hf Hs H; simpl in H; [by simplify_eq|].
  apply bind_Ret_inv in H as (s1 & H1 & H2).
  apply (IH s1); [|eapply Hf; eauto; set_solver|done].
  intros; eapply Hf; eauto; set_solver.
Qed.

Lemma foldM_no_panic {E S X} (P : S → Prop) (f : S → X → res E S) l s :
  (∀ s x, x ∈ l → P s → no_panic (f s x)) →
  (∀ s x s', x ∈ l → P s → f s x = Ret s' → P s') →
  P s → no_panic (foldM f s l).
Proof.
  revert s. induction l as [|x l IH]; intros s Hf HP Hs; simpl; [done|].
  apply bind_no_panic; [apply Hf; [set_solver|done]|].
  intros s1 H1. apply IH; [intros; apply Hf; set_solver|intros; eapply HP; eauto; set_solver|].
  eapply HP; eauto; set_solver.
Qed.

Lemma foldM_ext {E S X} (f g : S → X → res E S) s l :
  (∀ s x, x ∈ l → f s x = g s x) → foldM f s l = foldM g s l.
Proof.
  revert s. induction l as [|x l IH]; intros s Hfg; simpl; [done|].
  rewrite Hfg by set_solver. destruct (g s x) as [s'| |]; simpl; [|done|done].
  apply IH. intros; apply Hfg; set_solver.
Qed.

(** A loop whose body always succeeds is a fold. *)
Lemma foldM_Ret {E S X} (f : S → X → res E S) (g : S → X → S) s l :
  (∀ s x, x ∈ l → f s x = Ret (g s x)) → foldM f s l = Ret (foldl g s l).
Proof.
  revert s. induction l as [|x l IH]; intros s Hf; simpl; [done|].
  rewrite Hf by set_solver. simpl. apply IH. intros; apply Hf; set_solver.
Qed.

(** ** Methods that change their receiver

    A method with an [error] result that changes the state [S] of its receiver:
    the state also moves when the method returns an error. *)

Definition st (S E A : Type) : Type := S → res E A * S.

#[export] Instance st_ret S E : MRet (st S E) := λ A a s, (Ret a, s).

#[export] Instance st_bind S E : MBind (st S E) := λ A B k m s,
  match m s with
  | (Ret a, s') => k a s'
  | (Throw e, s') => (Throw e, s')
  | (Panic w, s') => (Panic w, s')
  end.

Definition lift {S E A} (m : res E A) : st S E A := λ s, (m, s).
Definition throw {S E A} (e : E) : st S E A := λ s, (Throw e, s).
Definition getS {S E} : st S E S := λ s, (Ret s, s).
Definition modifyS {S E} (f : S → S) : st S E () := λ s, (Ret (), f s).

(** [x, err := m; if err != nil { h }]: a panic is not caught. *)
Definition catch {S E A} (m : st S E A) (h : E → st S E A) : st S E A := λ s,
  match m s with
  | (Throw e, s') => h e s'
  | r => r
  end.

Section st_lemmas.
  Context {S E A B : Type}.
  Implicit Types m : st S E A.

Lemma st_bind_Ret m (k : A → st S E B) s s' a :
  m s = (Ret a, s') → (x ← m; k x) s = k a s'.
Proof. intros Hm. unfold mbind, st_bind. by rewrite Hm. Qed.

Lemma st_bind_Throw m (k : A → st S E B) s s' e :
  m s = (Throw e, s') → (x ← m; k x) s = (Throw e, s').
Proof. intros Hm. unfold mbind, st_bind. by rewrite Hm. Qed.

Lemma st_bind_inv m (k : A → st S E B) s s' b :
  (x ← m; k x) s = (Ret b, s') → ∃ a s1, m s = (Ret a, s1) ∧ k a s1 = (Ret b, s').
Proof. unfold mbind, st_bind. destruct (m s) as [[] ?]; naive_solver. Qed.

Lemma st_lift_Ret (a : A) (k : A → st S E B) s : (x ← lift (Ret a); k x) s = k a s.
Proof. done. Qed.
End st_lemmas.

(** A loop in such a method: [f] updates the local variable [a] for every element. *)
Fixpoint loopM {S E A X} (f : A → X → st S E A) (a : A) (l : list X) : st S E A :=
  match l with
  | [] => mret a
  | x :: l' => a' ← f a x; loopM f a' l'
  end.

(** An iteration that ends normally or with an error, and not in a panic, in a state
    that satisfies [Q]. *)
Definition ends {S E A} (Q : A → S → Prop) (QE : S → Prop) (r : res E A * S) : Prop :=
  match r with
  | (Ret a, s) => Q a s
  | (Throw _, s) => QE s
  | (Panic _, _) => False
  end.

Lemma ends_bind {S E A B} (P : A → S → Prop) (Q : B → S → Prop) QE (m : st S E A) k s :
  ends P QE (m s) → (∀ a s', P a s' → ends Q QE (k a s')) → ends Q QE ((x ← m; k x) s).
Proof.
  unfold mbind, st_bind. destruct (m s) as [[a|e|w] s']; simpl; [|done|done].
  intros HP Hk. by apply Hk.
Qed.

Lemma ends_weaken {S E A} (P Q : A → S → Prop) (PE QE : S → Prop) (r : res E A * S) :
  ends P PE r → (∀ a s, P a s → Q a s) → (∀ s, PE s → QE s) → ends Q QE r.
Proof. destruct r as [[] ?]; simpl; auto. Qed.

(** The invariant of a loop relates the elements seen to the local variable. *)
Lemma loopM_ends {S E A X} (I : list X → A → S → Prop) QE (f : A → X → st S E A) l a s :
  I [] a s →
  (∀ seen x rest a s, l = seen ++ x :: rest → I seen a s → ends (I (seen ++ [x])) QE (f a x s)) →
  ends (I l) QE (loopM f a l s).
Proof.
  intros H0 Hstep.
  assert (∀ rest seen a s, l = seen ++ rest → I seen a s → ends (I l) QE (loopM f a rest s)) as Hall.
  { induction rest as [|x rest IH]; intros seen a' s' Hl HI.
    - rewrite app_nil_r in Hl. by subst.
    - cbn [loopM]. eapply ends_bind; [by eapply Hstep|]. intros a2 s2 HI2.
      apply (IH (seen ++ [x])); [by rewrite <- app_assoc|done]. }
  by apply (Hall l []).
Qed.

(** ** Iteration over Go maps

    [for k, v := range m] visits the entries in an order the language leaves
    open.  [range site m] is the order used by the [site]-th [range] statement
    of a function; theorems hold for every order. *)

Class MapRange := {
  range : nat → ∀ {K} `{Countable K} {A : Type}, gmap K A → list (K * A);
  range_perm : ∀ n {K} `{Countable K} {A} (m : gmap K A), range n m ≡ₚ map_to_list m;
}.

(** The order of stdpp's enumeration, for concrete runs. *)
#[refine] Definition plain_range : MapRange :=
  {| range := λ _ K _ _ A m, map_to_list m |}.
Proof. done. Defined.

Section range_lemmas.
  Context `{MapRange} {K : Type} `{Countable K} {A : Type}.
  Implicit Types m : gmap K A.

Lemma elem_of_range n m k a : (k, a) ∈ range n m ↔ m !! k = Some a.
Proof. by rewrite (range_perm n m), elem_of_map_to_list. Qed.

Lemma NoDup_range n m : NoDup (range n m).*1.
Proof. rewrite (range_perm n m). apply NoDup_fst_map_to_list. Qed.

Lemma range_list_to_map n m : list_to_map (range n m) = m.
Proof.
  rewrite (list_to_map_proper (range n m) (map_to_list m)).
  - apply list_to_map_to_list.
  - apply NoDup_range.
  - apply range_perm.
Qed.

Lemma elem_of_range_fst n m k : k ∈ (range n m).*1 ↔ is_Some (m !! k).
Proof.
  rewrite list_elem_of_fmap. split.
  - intros ([k' a] & -> & Hin). apply elem_of_range in Hin. by exists a.
  - intros [a Ha]. exists (k, a). split; [done|]. by apply elem_of_range.
Qed.

Lemma range_nil n m : range n m = [] ↔ m = ∅.
Proof.
  split.
  - intros Hnil. apply map_empty. intros i.
    destruct (m !! i) as [a|] eqn:Hi; [|done].
    apply (elem_of_range n) in Hi. rewrite Hnil in Hi. set_solver.
  - intros ->. destruct (range n ∅) as [|[k a] l] eqn:Hr; [done|].
    assert ((k, a) ∈ range n (∅ : gmap K A)) as Hin by (rewrite Hr; set_solver).
    by apply elem_of_range in Hin.
Qed.

Lemma range_empty n : range n (∅ : gmap K A) = [].
Proof. by apply range_nil. Qed.

Lemma length_range n m : length (range n m) = size m.
Proof. by rewrite (range_perm n m), length_map_to_list. Qed.
End range_lemmas.

(** ** Tactics and hints *)

Create HintDb wf.

(** Split a successful monadic computation in a hypothesis into its steps. *)
Ltac res_inv :=
  repeat match goal with
  | H : (mbind _ _ = Ret _) |- _ =>
      let a := fresh "x" in let H1 := fresh "Hr" in let H2 := fresh "Hr" in
      apply bind_Ret_inv in H as (a & H1 & H2)
  | H : Ret _ = Ret _ |- _ => injection H as H
  | H : Throw _ = Ret _ |- _ => discriminate H
  | H : Panic _ = Ret _ |- _ => discriminate H
  | H : Ret _ = Throw _ |- _ => discriminate H
  | H : Ret _ = Panic _ |- _ => discriminate H
  | H : deref ?p = Ret _ |- _ => destruct p eqn:?; simpl in H
  end; simplify_eq/=.

(** One step of a successful computation: [H] becomes the rest of it. *)
Tactic Notation "bind_inv" hyp(H) "as" ident(x) ident(Hx) :=
  apply bind_Ret_inv in H as (x & Hx & H).

(** Case analysis on the tests of the goal, closing the trivial branches. *)
Ltac cases := repeat (case_match || case_decide); simplify_eq/=; try done.

#[export] Hint Resolve range_perm NoDup_range : wf.

(** ** Lists *)

Lemma foldl_app_singletons {A B} (f : A → option B) (l : list A) (acc : list B) :
  foldl (λ acc a, match f a with Some b => acc ++ [b] | None => acc end) acc l =
  acc ++ omap f l.
Proof.
  revert acc. induction l as [|a l IH]; intros acc; simpl; [by rewrite app_nil_r|].
  rewrite IH. destruct (f a); simpl; [by rewrite <-app_assoc|done].
Qed.

Lemma Forall2_compose {A B C} (P : A → B → Prop) (Q : B → C → Prop) (R : A → C → Prop) l k k' :
  (∀ x y z, P x y → Q y z → R x z) → Forall2 P l k → Forall2 Q k k' → Forall2 R l k'.
Proof.
  intros HR HP. revert k'. induction HP; intros k' HQ; inversion HQ; subst; constructor; eauto.
Qed.

(** A sublist as long as the list is the list. *)
Lemma sublist_full {A} (l1 l2 : list A) : l1 `sublist_of` l2 → length l2 ≤ length l1 → l1 = l2.
Proof.
  induction 1 as [|x l1 l2 _ IH|x l1 l2 Hs _]; intros Hlen; [done| |].
  - f_equal. apply IH. cbn in Hlen. lia.
  - apply sublist_length in Hs. cbn in Hlen. lia.
Qed.

Lemma filter_all {A} (P : A → Prop) `{∀ x, Decision (P x)} (l : list A) :
  (∀ x, x ∈ l → P x) → filter P l = l.
Proof.
  induction l as [|x l IH]; intros Hl; [done|]. rewrite filter_cons.
  rewrite decide_True by (apply Hl; by left). f_equal. apply IH. intros y Hy. apply Hl. by right.
Qed.

Lemma filter_none {A} (P : A → Prop) `{∀ x, Decision (P x)} (l : list A) :
  (∀ x, x ∈ l → ¬ P x) → filter P l = [].
Proof.
  induction l as [|x l IH]; intros Hl; [done|]. rewrite filter_cons.
  rewrite decide_False by (apply Hl; by left). apply IH. intros y Hy. apply Hl. by right.
Qed.

(** ** Strings *)

Lemma string_length_app (s t : string) : String.length (s +:+ t) = String.length s + String.length t.
Proof. induction s as [|c s IH]; [done|]. exact (f_equal S IH). Qed.

(** ** 64-bit machine integers *)

Definition wrap_u64 (z : Z) : Z := z mod 2 ^ 64.

(** The conversion [int64(u)] of an unsigned 64-bit word. *)
Definition to_i64 (z : Z) : Z :=
  let u := wrap_u64 z in
  if decide (u < 2 ^ 63)%Z then u else (u - 2 ^ 64)%Z.

Lemma wrap_u64_range z : (0 ≤ wrap_u64 z < 2 ^ 64)%Z.
Proof. apply Z.mod_pos_bound. lia. Qed.

Lemma to_i64_range z : (- 2 ^ 63 ≤ to_i64 z < 2 ^ 63)%Z.
Proof.
  unfold to_i64. pose proof (wrap_u64_range z) as Hz.
  destruct (decide _); lia.
Qed.

Lemma to_i64_inj x y :
  to_i64 x = to_i64 y → wrap_u64 x = wrap_u64 y.
Proof.
  unfold to_i64. pose proof (wrap_u64_range x) as Hx. pose proof (wrap_u64_range y) as Hy.
  repeat case_decide; lia.
Qed.

(** ** 32-bit machine integers *)

(** The value an int32 has after an operation whose exact result is [z]. *)
Definition to_i32 (z : Z) : Z := ((z + 2 ^ 31) mod 2 ^ 32 - 2 ^ 31)%Z.

Lemma to_i32_range z : (- 2 ^ 31 ≤ to_i32 z < 2 ^ 31)%Z.
Proof.
  unfold to_i32. assert (0 ≤ (z + 2 ^ 31) mod 2 ^ 32 < 2 ^ 32)%Z as Hz
    by (apply Z.mod_pos_bound; lia). lia.
Qed.

Lemma to_i32_id z : (- 2 ^ 31 ≤ z < 2 ^ 31)%Z → to_i32 z = z.
Proof. intros Hz. unfold to_i32. rewrite Z.mod_small; lia. Qed.

Lemma to_i64_id z : (- 2 ^ 63 ≤ z < 2 ^ 63)%Z → to_i64 z = z.
Proof.
  intros Hz. unfold to_i64, wrap_u64. destruct (decide (0 ≤ z)%Z) as [Hp|Hn].
  - rewrite Z.mod_small by lia. case_decide; lia.
  - rewrite <- (Z_mod_plus_full z 1), Z.mod_small by lia. case_decide; lia.
Qed.

(** ** Maps filled by a loop *)

Section fill.
  Context `{MapRange} {K : Type} `{Countable K} {A B : Type}.
  Implicit Types acc : gmap K B.

Lemma foldl_insert_lookup (f : K → B) (l : list (K * A)) acc k :
  foldl (λ acc '(k, _), <[k := f k]> acc) acc l !! k =
  if decide (k ∈ l.*1) then Some (f k) else acc !! k.
Proof.
  revert acc. induction l as [|[k' a] l IH]; intros acc; simpl; [done|].
  rewrite IH. destruct (decide (k ∈ l.*1)) as [Hin|Hin].
  - rewrite decide_True by set_solver. done.
  - destruct (decide (k = k')) as [->|Hne].
    + rewrite lookup_insert_eq, decide_True by set_solver. done.
    + rewrite lookup_insert_ne by done. rewrite decide_False by set_solver. done.
Qed.

Lemma foldl_insert_new_lookup (f : K → B) (l : list (K * A)) acc k :
  foldl (λ acc '(k, _), match acc !! k with Some _ => acc | None => <[k := f k]> acc end) acc l !! k =
  match acc !! k with
  | Some b => Some b
  | None => if decide (k ∈ l.*1) then Some (f k) else None
  end.
Proof.
  revert acc. induction l as [|[k' a] l IH]; intros acc; simpl.
  - by destruct (acc !! k).
  - rewrite IH. destruct (decide (k = k')) as [->|Hne].
    + destruct (acc !! k') as [b|] eqn:Hk'; [by rewrite Hk'|].
      rewrite lookup_insert_eq. rewrite decide_True by set_solver. done.
    + assert ((match acc !! k' with Some _ => acc | None => <[k' := f k']> acc end) !! k = acc !! k)
        as -> by (destruct (acc !! k'); [done|by apply lookup_insert_ne]).
      destruct (acc !! k); [done|]. apply decide_ext. set_solver.
Qed.

Lemma foldl_insert_range (f : K → B) n (m : gmap K A) acc k :
  foldl (λ acc '(k, _), <[k := f k]> acc) acc (range n m) !! k =
  match m !! k with Some _ => Some (f k) | None => acc !! k end.
Proof.
  rewrite foldl_insert_lookup. pose proof (elem_of_range_fst n m k) as Hk.
  case_decide as Hin; destruct (m !! k); try done.
  - by apply Hk in Hin as [].
  - destruct Hin. apply Hk. eauto.
Qed.

Lemma foldl_insert_new_range (f : K → B) n (m : gmap K A) acc k :
  foldl (λ acc '(k, _), match acc !! k with Some _ => acc | None => <[k := f k]> acc end) acc
    (range n m) !! k =
  match acc !! k with
  | Some b => Some b
  | None => match m !! k with Some _ => Some (f k) | None => None end
  end.
Proof.
  rewrite foldl_insert_new_lookup. destruct (acc !! k); [done|].
  pose proof (elem_of_range_fst n m k) as Hk.
  case_decide as Hin; destruct (m !! k); try done.
  - by apply Hk in Hin as [].
  - destruct Hin. apply Hk. eauto.
Qed.

(** Entries stored under the identifier they carry themselves. *)
Lemma foldl_insert_by_id n (g : A → K) (h : A → B) (m : gmap K A) acc k :
  (∀ k a, m !! k = Some a → g a = k) →
  foldl (λ acc '(_, a), <[g a := h a]> acc) acc (range n m) !! k =
  match m !! k with Some a => Some (h a) | None => acc !! k end.
Proof.
  intros Hg.
  assert (∀ l, (∀ k a, (k, a) ∈ l → m !! k = Some a) → ∀ acc,
    foldl (λ acc '(_, a), <[g a := h a]> acc) acc l !! k =
    if decide (k ∈ l.*1) then h <$> m !! k else acc !! k) as Hl.
  { induction l as [|[k' a] l IH]; intros Hin acc'; simpl; [done|].
    rewrite IH by set_solver.
    assert (m !! k' = Some a) as Hk' by (apply Hin; set_solver).
    rewrite (Hg _ _ Hk'). destruct (decide (k ∈ l.*1)).
    - by rewrite decide_True by set_solver.
    - destruct (decide (k = k')) as [->|Hne].
      + rewrite lookup_insert_eq, decide_True by set_solver. by rewrite Hk'.
      + rewrite lookup_insert_ne by done. by rewrite decide_False by set_solver. }
  rewrite Hl by (intros ? ?; apply elem_of_range).
  destruct (m !! k) as [a|] eqn:Hk; simpl.
  - rewrite decide_True; [done|]. apply elem_of_range_fst. by exists a.
  - rewrite decide_False; [done|]. rewrite elem_of_range_fst, Hk. by intros [].
Qed.

(** A loop that stores what [f] makes of the entries it accepts. *)
Lemma foldl_omap_range n (f : K → A → option B) (m : gmap K A) acc k :
  foldl (λ acc '(k, a), match f k a with Some b => <[k := b]> acc | None => acc end) acc
    (range n m) !! k =
  match m !! k ≫= f k with Some b => Some b | None => acc !! k end.
Proof.
  assert (∀ l, NoDup l.*1 → (∀ k a, (k, a) ∈ l → m !! k = Some a) → ∀ acc,
    foldl (λ acc '(k, a), match f k a with Some b => <[k := b]> acc | None => acc end) acc l !! k =
    match (if decide (k ∈ l.*1) then m !! k ≫= f k else None) with
    | Some b => Some b | None => acc !! k end) as Hl.
  { induction l as [|[k' a] l IH]; intros Hnd Hin acc'; [done|]. cbn [foldl].
    rewrite fmap_cons in *. apply NoDup_cons in Hnd as [Hk' Hnd]. change ((k', a).1) with k' in *.
    rewrite IH; [|done|set_solver].
    assert (m !! k' = Some a) as Hma by (apply Hin; set_solver).
    destruct (decide (k = k')) as [->|Hne].
    - rewrite (decide_False (P := k' ∈ l.*1)) by done.
      rewrite (decide_True (P := k' ∈ k' :: l.*1)) by set_solver. rewrite Hma. simpl.
      destruct (f k' a); [by rewrite lookup_insert_eq|done].
    - assert ((match f k' a with Some b => <[k':=b]> acc' | None => acc' end) !! k = acc' !! k) as ->
        by (destruct (f k' a); [by apply lookup_insert_ne|done]).
      rewrite (decide_ext (k ∈ k' :: l.*1) (k ∈ l.*1) (m !! k ≫= f k) None); [done|set_solver]. }
  rewrite Hl; [|apply NoDup_range|intros ? ?; apply elem_of_range].
  case_decide as Hk; [done|]. rewrite elem_of_range_fst in Hk.
  destruct (m !! k); [|done]. destruct Hk; eauto.
Qed.
End fill.
