(* ===== verification/Data.v ===== *)
(** The data model: the protobuf messages of [pkg/types/types.proto],
    [pkg/types/typedvalues/typedvalues.proto],
    [pkg/types/typedvalues/controlflow/flow.proto], [pkg/fes/fes.proto] and
    [pkg/api/events/events.proto] as the generated Go structs declare them,
    the error values of the program, and the interface of the protobuf library.

    A pointer to a message is an [option]; a getter of the generated code
    ([GetSpec] and the like: the field, or [nil] on a [nil] receiver) is the
    field composed with [≫=].  A Go map is a [gmap]: [nil] and the empty map are
    not distinguished (nothing the program does tells them apart).  The values
    of a map are pointers; they are [option]s where the program itself stores or
    tests [nil] ([WorkflowSpec.Tasks], [TaskSpec.Requires]) and plain values
    elsewhere.  An enum keeps its declared values and the other int32 values
    proto3 admits. *)

From stdpp Require Import base gmap strings.
From S2P Require Import Prelude.

(** ** Well-known protobuf types *)

(** google.protobuf.Timestamp *)
Record Timestamp := MkTimestamp { Seconds : Z; Nanos : Z }.
#[export] Instance Timestamp_eq_dec : EqDecision Timestamp.
Proof. solve_decision. Defined.

(** google.protobuf.Duration *)
Record Duration := MkDuration { DurSeconds : Z; DurNanos : Z }.
#[export] Instance Duration_eq_dec : EqDecision Duration.
Proof. solve_decision. Defined.

(** google.protobuf.Any: a type URL and the serialized message. *)
Record Any := MkAny { TypeUrl : string; AnyValue : string }.
#[export] Instance Any_eq_dec : EqDecision Any.
Proof. solve_decision. Defined.

(** ** pkg/types *)

(** [pkg/types/typedvalues/typedvalues.pb.go:38-63] TypedValue *)
Record TypedValue := MkTypedValue {
  TypedValue_Value : option Any;
  TypedValue_Metadata : gmap string string }.
#[export] Instance TypedValue_eq_dec : EqDecision TypedValue.
Proof. solve_decision. Defined.

(** [pkg/types/types.pb.go:51-76] WorkflowStatus_Status *)
Inductive WorkflowStatus_Status :=
| WorkflowStatus_QUEUED
| WorkflowStatus_READY
| WorkflowStatus_FAILED
| WorkflowStatus_DELETED
| WorkflowStatus_unrecognized (n : Z).
#[export] Instance WorkflowStatus_Status_eq_dec : EqDecision WorkflowStatus_Status.
Proof. solve_decision. Defined.

(** [pkg/types/types.pb.go:78-111] WorkflowInvocationStatus_Status *)
Inductive WorkflowInvocationStatus_Status :=
| WorkflowInvocationStatus_UNKNOWN
| WorkflowInvocationStatus_SCHEDULED
| WorkflowInvocationStatus_IN_PROGRESS
| WorkflowInvocationStatus_SUCCEEDED
| WorkflowInvocationStatus_FAILED
| WorkflowInvocationStatus_ABORTED
| WorkflowInvocationStatus_unrecognized (n : Z).
#[export] Instance WorkflowInvocationStatus_Status_eq_dec :
  EqDecision WorkflowInvocationStatus_Status.
Proof. solve_decision. Defined.

(** [pkg/types/types.pb.go:113-135] TaskStatus_Status *)
Inductive TaskStatus_Status :=
| TaskStatus_STARTED
| TaskStatus_READY
| TaskStatus_FAILED
| TaskStatus_unrecognized (n : Z).
#[export] Instance TaskStatus_Status_eq_dec : EqDecision TaskStatus_Status.
Proof. solve_decision. Defined.

(** [pkg/types/types.pb.go:137-161] TaskDependencyParameters_DependencyType *)
Inductive TaskDependencyParameters_DependencyType :=
| TaskDependencyParameters_DATA
| TaskDependencyParameters_CONTROL
| TaskDependencyParameters_DYNAMIC_OUTPUT
| TaskDependencyParameters_unrecognized (n : Z).
#[export] Instance TaskDependencyParameters_DependencyType_eq_dec :
  EqDecision TaskDependencyParameters_DependencyType.
Proof. solve_decision. Defined.

(** [pkg/types/types.pb.go:163-199] TaskInvocationStatus_Status *)
Inductive TaskInvocationStatus_Status :=
| TaskInvocationStatus_UNKNOWN
| TaskInvocationStatus_SCHEDULED
| TaskInvocationStatus_IN_PROGRESS
| TaskInvocationStatus_SUCCEEDED
| TaskInvocationStatus_FAILED
| TaskInvocationStatus_ABORTED
| TaskInvocationStatus_SKIPPED
| TaskInvocationStatus_unrecognized (n : Z).
#[export] Instance TaskInvocationStatus_Status_eq_dec :
  EqDecision TaskInvocationStatus_Status.
Proof. solve_decision. Defined.

(** [pkg/types/types.pb.go:881-925] ObjectMetadata *)
Record ObjectMetadata := MkObjectMetadata {
  ObjectMetadata_Id : string;
  ObjectMetadata_Name : string;
  ObjectMetadata_CreatedAt : option Timestamp;
  ObjectMetadata_Generation : Z }.
#[export] Instance ObjectMetadata_eq_dec : EqDecision ObjectMetadata.
Proof. solve_decision. Defined.

(** [pkg/types/types.pb.go:927-941] Error (the message, not the Go interface) *)
Record Error := MkError { Error_Message : string }.
#[export] Instance Error_eq_dec : EqDecision Error.
Proof. solve_decision. Defined.

(** [pkg/types/types.pb.go:946-979] FnRef *)
Record FnRef := MkFnRef { FnRef_Runtime : string; FnRef_Namespace : string; FnRef_ID : string }.
#[export] Instance FnRef_eq_dec : EqDecision FnRef.
Proof. solve_decision. Defined.

(** [pkg/types/types.pb.go:700-722] TaskDependencyParameters *)
Record TaskDependencyParameters := MkTaskDependencyParameters {
  TaskDependencyParameters_Type : TaskDependencyParameters_DependencyType;
  TaskDependencyParameters_Alias : string }.
#[export] Instance TaskDependencyParameters_eq_dec : EqDecision TaskDependencyParameters.
Proof. solve_decision. Defined.

(** [pkg/types/types.pb.go:584-658] TaskSpec *)
Record TaskSpec := MkTaskSpec {
  TaskSpec_FunctionRef : string;
  TaskSpec_Inputs : gmap string TypedValue;
  TaskSpec_Requires : gmap string (option TaskDependencyParameters);
  TaskSpec_Await : Z;
  TaskSpec_Output : option TypedValue;
  TaskSpec_OutputHeaders : option TypedValue;
  TaskSpec_Timeout : option Duration }.
#[export] Instance TaskSpec_eq_dec : EqDecision TaskSpec.
Proof. solve_decision. Defined.

(** [pkg/types/types.pb.go:660-698] TaskStatus *)
Record TaskStatus := MkTaskStatus {
  TaskStatus_Status_ : TaskStatus_Status;
  TaskStatus_UpdatedAt : option Timestamp;
  TaskStatus_FnRef : option FnRef;
  TaskStatus_Error : option Error }.
#[export] Instance TaskStatus_eq_dec : EqDecision TaskStatus.
Proof. solve_decision. Defined.

(** [pkg/types/types.pb.go:548-578] Task *)
Record Task := MkTask {
  Task_Metadata : option ObjectMetadata;
  Task_Spec : option TaskSpec;
  Task_Status : option TaskStatus }.
#[export] Instance Task_eq_dec : EqDecision Task.
Proof. solve_decision. Defined.

(** [pkg/types/types.pb.go:241-312] WorkflowSpec *)
Record WorkflowSpec := MkWorkflowSpec {
  WorkflowSpec_ApiVersion : string;
  WorkflowSpec_Tasks : gmap string (option TaskSpec);
  WorkflowSpec_OutputTask : string;
  WorkflowSpec_Description : string;
  WorkflowSpec_ForceId : string;
  WorkflowSpec_Name : string;
  WorkflowSpec_Internal : bool }.
#[export] Instance WorkflowSpec_eq_dec : EqDecision WorkflowSpec.
Proof. solve_decision. Defined.

(** [pkg/types/types.pb.go:314-353] WorkflowStatus *)
Record WorkflowStatus := MkWorkflowStatus {
  WorkflowStatus_Status_ : WorkflowStatus_Status;
  WorkflowStatus_UpdatedAt : option Timestamp;
  WorkflowStatus_Tasks : gmap string Task;
  WorkflowStatus_Error : option Error }.
#[export] Instance WorkflowStatus_eq_dec : EqDecision WorkflowStatus.
Proof. solve_decision. Defined.

(** [pkg/types/types.pb.go:204-234] Workflow *)
Record Workflow := MkWorkflow {
  Workflow_Metadata : option ObjectMetadata;
  Workflow_Spec : option WorkflowSpec;
  Workflow_Status : option WorkflowStatus }.
#[export] Instance Workflow_eq_dec : EqDecision Workflow.
Proof. solve_decision. Defined.

(** [pkg/types/types.pb.go:391-451] WorkflowInvocationSpec *)
Record WorkflowInvocationSpec := MkWorkflowInvocationSpec {
  WorkflowInvocationSpec_WorkflowId : string;
  WorkflowInvocationSpec_Inputs : gmap string TypedValue;
  WorkflowInvocationSpec_ParentId : string;
  WorkflowInvocationSpec_Workflow : option Workflow;
  WorkflowInvocationSpec_Deadline : option Timestamp }.
#[export] Instance WorkflowInvocationSpec_eq_dec : EqDecision WorkflowInvocationSpec.
Proof. solve_decision. Defined.

(** [pkg/types/types.pb.go:760-826] TaskInvocationSpec *)
Record TaskInvocationSpec := MkTaskInvocationSpec {
  TaskInvocationSpec_FnRef : option FnRef;
  TaskInvocationSpec_TaskId : string;
  TaskInvocationSpec_Inputs : gmap string TypedValue;
  TaskInvocationSpec_InvocationId : string;
  TaskInvocationSpec_Task : option Task;
  TaskInvocationSpec_Deadline : option Timestamp }.
#[export] Instance TaskInvocationSpec_eq_dec : EqDecision TaskInvocationSpec.
Proof. solve_decision. Defined.

(** [pkg/types/types.pb.go:828-874] TaskInvocationStatus *)
Record TaskInvocationStatus := MkTaskInvocationStatus {
  TaskInvocationStatus_Status_ : TaskInvocationStatus_Status;
  TaskInvocationStatus_UpdatedAt : option Timestamp;
  TaskInvocationStatus_Output : option TypedValue;
  TaskInvocationStatus_Error : option Error;
  TaskInvocationStatus_OutputHeaders : option TypedValue }.
#[export] Instance TaskInvocationStatus_eq_dec : EqDecision TaskInvocationStatus.
Proof. solve_decision. Defined.

(** [pkg/types/types.pb.go:727-757] TaskInvocation *)
Record TaskInvocation := MkTaskInvocation {
  TaskInvocation_Metadata : option ObjectMetadata;
  TaskInvocation_Spec : option TaskInvocationSpec;
  TaskInvocation_Status : option TaskInvocationStatus }.
#[export] Instance TaskInvocation_eq_dec : EqDecision TaskInvocation.
Proof. solve_decision. Defined.

(** [pkg/types/types.pb.go:453-517] WorkflowInvocationStatus *)
Record WorkflowInvocationStatus := MkWorkflowInvocationStatus {
  WorkflowInvocationStatus_Status_ : WorkflowInvocationStatus_Status;
  WorkflowInvocationStatus_UpdatedAt : option Timestamp;
  WorkflowInvocationStatus_Tasks : gmap string TaskInvocation;
  WorkflowInvocationStatus_Output : option TypedValue;
  WorkflowInvocationStatus_DynamicTasks : gmap string Task;
  WorkflowInvocationStatus_Error : option Error;
  WorkflowInvocationStatus_OutputHeaders : option TypedValue }.
#[export] Instance WorkflowInvocationStatus_eq_dec : EqDecision WorkflowInvocationStatus.
Proof. solve_decision. Defined.

(** [pkg/types/types.pb.go:358-388] WorkflowInvocation *)
Record WorkflowInvocation := MkWorkflowInvocation {
  WorkflowInvocation_Metadata : option ObjectMetadata;
  WorkflowInvocation_Spec : option WorkflowInvocationSpec;
  WorkflowInvocation_Status : option WorkflowInvocationStatus }.
#[export] Instance WorkflowInvocation_eq_dec : EqDecision WorkflowInvocation.
Proof. solve_decision. Defined.

(** [pkg/types/typedvalues/controlflow/flow.pb.go:34-56] Flow *)
Record Flow := MkFlow {
  Flow_Workflow : option WorkflowSpec;
  Flow_Task : option TaskSpec }.
#[export] Instance Flow_eq_dec : EqDecision Flow.
Proof. solve_decision. Defined.

(** ** pkg/fes *)

(** [pkg/fes/fes.pb.go:34-56] Aggregate *)
Record Aggregate := MkAggregate { Aggregate_Id : string; Aggregate_Type : string }.
#[export] Instance Aggregate_eq_dec : EqDecision Aggregate.
Proof. solve_decision. Defined.
#[export] Instance Aggregate_countable : Countable Aggregate.
Proof.
  refine (inj_countable' (λ a, (Aggregate_Id a, Aggregate_Type a))
                         (λ p, MkAggregate p.1 p.2) _).
  by intros [].
Defined.

(** [pkg/fes/fes.pb.go:131-145] EventHints *)
Record EventHints := MkEventHints { EventHints_Completed : bool }.
#[export] Instance EventHints_eq_dec : EqDecision EventHints.
Proof. solve_decision. Defined.

(** [pkg/fes/fes.pb.go:58-128] Event *)
Record Event := MkEvent {
  Event_Id : string;
  Event_Type : string;
  Event_Aggregate : option Aggregate;
  Event_Timestamp : option Timestamp;
  Event_Data : option Any;
  Event_Parent : option Aggregate;
  Event_Hints : option EventHints;
  Event_Metadata : gmap string string }.
#[export] Instance Event_eq_dec : EqDecision Event.
Proof. solve_decision. Defined.

(** ** Go's [error] values

    [ErrNew] is a value of [errors.New]: the package-level sentinels are
    identified by their text.  [ErrFmt] is a value of [fmt.Errorf] (or of
    [errors.Wrapf]), never equal to a sentinel.  [ErrEventStore] is
    [fes.EventStoreErr] and [ErrInvalid] is [validate.Error]. *)
(** [pkg/fes/types.go:69-81] EventStoreErr *)
Inductive goerror :=
| ErrNew (text : string)
| ErrFmt (text : string)
| ErrEventStore (S : string) (K : option Aggregate) (E : option Event) (C : option goerror)
| ErrInvalid (subject : string) (errs : list goerror).

(** ** Protobuf messages the program marshals *)

(** [pkg/api/events/events.pb.go:44-58] WorkflowCreated, ..., TaskFailed; the
    [typedvalues] messages, the [wrappers] and the messages a flow carries *)
Inductive message :=
(* pkg/api/events *)
| WorkflowCreated (Spec : option WorkflowSpec)
| WorkflowDeleted
| WorkflowParsed (Tasks : gmap string TaskStatus)
| WorkflowParsingFailed (Error : option Error)
| InvocationCreated (Spec : option WorkflowInvocationSpec)
| InvocationCompleted (Output OutputHeaders : option TypedValue)
| InvocationCanceled (Error : option Error)
| InvocationTaskAdded (Task : Task) (* never nil: [AddTask] validates it *)
| InvocationFailed (Error : option Error)
| TaskStarted (Spec : option TaskInvocationSpec)
| TaskSucceeded (Result : option TaskInvocationStatus)
| TaskSkipped
| TaskFailed (Error : option Error)
(* pkg/types/typedvalues *)
| MapValue (Value : gmap string TypedValue)
| ArrayValue (Value : list TypedValue)
| Expression (Value : string)
| NilValue
(* google.protobuf wrappers; the floats by their IEEE bit patterns *)
| BoolValue (Value : bool)
| FloatValue (bits : Z)
| DoubleValue (bits : Z)
| Int32Value (Value : Z)
| Int64Value (Value : Z)
| UInt32Value (Value : Z)
| UInt64Value (Value : Z)
| StringValue (Value : string)
| BytesValue (Value : string)
(* messages carried by control-flow values *)
| WorkflowSpecMessage (spec : WorkflowSpec)
| TaskSpecMessage (spec : TaskSpec)
| FlowMessage (flow : Flow)
(* any other registered message *)
| OtherMessage (name : string) (body : string).
#[export] Instance message_eq_dec : EqDecision message.
Proof. solve_decision. Defined.

(** [proto.MessageName]: the names the generated files register. *)
Definition MessageName (m : message) : string :=
  match m with
  | WorkflowCreated _ => "fission.workflows.events.WorkflowCreated"
  | WorkflowDeleted => "fission.workflows.events.WorkflowDeleted"
  | WorkflowParsed _ => "fission.workflows.events.WorkflowParsed"
  | WorkflowParsingFailed _ => "fission.workflows.events.WorkflowParsingFailed"
  | InvocationCreated _ => "fission.workflows.events.InvocationCreated"
  | InvocationCompleted _ _ => "fission.workflows.events.InvocationCompleted"
  | InvocationCanceled _ => "fission.workflows.events.InvocationCanceled"
  | InvocationTaskAdded _ => "fission.workflows.events.InvocationTaskAdded"
  | InvocationFailed _ => "fission.workflows.events.InvocationFailed"
  | TaskStarted _ => "fission.workflows.events.TaskStarted"
  | TaskSucceeded _ => "fission.workflows.events.TaskSucceeded"
  | TaskSkipped => "fission.workflows.events.TaskSkipped"
  | TaskFailed _ => "fission.workflows.events.TaskFailed"
  | MapValue _ => "fission.workflows.types.MapValue"
  | ArrayValue _ => "fission.workflows.types.ArrayValue"
  | Expression _ => "fission.workflows.types.Expression"
  | NilValue => "fission.workflows.types.NilValue"
  | BoolValue _ => "google.protobuf.BoolValue"
  | FloatValue _ => "google.protobuf.FloatValue"
  | DoubleValue _ => "google.protobuf.DoubleValue"
  | Int32Value _ => "google.protobuf.Int32Value"
  | Int64Value _ => "google.protobuf.Int64Value"
  | UInt32Value _ => "google.protobuf.UInt32Value"
  | UInt64Value _ => "google.protobuf.UInt64Value"
  | StringValue _ => "google.protobuf.StringValue"
  | BytesValue _ => "google.protobuf.BytesValue"
  | WorkflowSpecMessage _ => "fission.workflows.types.WorkflowSpec"
  | TaskSpecMessage _ => "fission.workflows.types.TaskSpec"
  | FlowMessage _ => "fission.workflows.types.Flow"
  | OtherMessage name _ => name
  end.

(** ** The protobuf library (github.com/golang/protobuf)

    [marshal] is [proto.Marshal]; [unmarshal_any] is [ptypes.UnmarshalAny] into
    a [DynamicAny] (it resolves the message type from the part of the URL after
    its last slash).  [wire m] says that decoding reproduces [m] itself and not
    only an equal message (no [nil] map element, for instance). *)
Class Proto := {
  marshal : message → option string;
  unmarshal_any : option Any → option message;
  wire : message → Prop;
  unmarshal_marshal : ∀ prefix m b, wire m → marshal m = Some b →
    unmarshal_any (Some (MkAny (prefix +:+ "/" +:+ MessageName m) b)) = Some m;
  marshal_wire : ∀ m, wire m → is_Some (marshal m);
}.

(** [ptypes]: conversions between the well-known types and Go's [time].  A
    [time.Time] is a number of nanoseconds since the epoch; an error leaves a
    first result that is documented not to be the zero time. *)
Class PTypes := {
  pt_Timestamp : option Timestamp → Z * bool;
  pt_TimestampProto : Z → option Timestamp;
  pt_TimestampNow : Z → Timestamp;
  pt_Duration : option Duration → Z * bool;
  pt_Timestamp_nil : (pt_Timestamp None).2 = false;
  pt_TimestampProto_ok : ∀ t ts, pt_TimestampProto t = Some ts → pt_Timestamp (Some ts) = (t, true);
}.

(** ** Concrete libraries, for runs of the model on concrete inputs *)

Fixpoint unary (n : nat) : string :=
  match n with O => EmptyString | S n => ("x" +:+ unary n) end.

Lemma length_unary n : String.length (unary n) = n.
Proof. induction n as [|n IH]; [done|]. cbn. by rewrite <- IH at 2. Qed.

(** A codec for the messages of a table: a message is serialized as its index. *)
#[refine] Definition table_proto (l : list message) : Proto := {|
  marshal m := match list_find (m =.) l with Some (i, _) => Some (unary i) | None => None end;
  unmarshal_any a := match a with Some a => l !! String.length (AnyValue a) | None => None end;
  wire m := m ∈ l |}.
Proof.
  - intros prefix m b _. simpl. destruct (list_find (m =.) l) as [[i m']|] eqn:Hf; [|done].
    intros [= <-]. rewrite length_unary.
    apply list_find_Some in Hf as (Hi & -> & _). done.
  - intros m Hm. apply (list_find_elem_of (m =.)) in Hm as [[i m'] Hf]; [|done].
    rewrite Hf. eauto.
Defined.

Lemma table_marshal_wire l m b : @marshal (table_proto l) m = Some b → @wire (table_proto l) m.
Proof.
  cbn. destruct (list_find (m =.) l) as [[i m']|] eqn:Hf; [|done]. intros _.
  apply list_find_Some in Hf as (Hi & -> & _). by apply list_elem_of_lookup_2 with i.
Qed.

(** Timestamps between the years 1 and 9999, as [ptypes] validates them. *)
Definition minValidSeconds : Z := -62135596800.
Definition maxValidSeconds : Z := 253402300800.

Definition unix_Timestamp (ts : Timestamp) : Z * bool :=
  ((Seconds ts * 10 ^ 9 + Nanos ts)%Z,
   bool_decide (minValidSeconds ≤ Seconds ts < maxValidSeconds ∧ 0 ≤ Nanos ts < 10 ^ 9)%Z).

#[refine] Definition unix_ptypes : PTypes := {|
  pt_Timestamp ts := match ts with Some ts => unix_Timestamp ts | None => (0%Z, false) end;
  pt_TimestampProto t :=
    let ts := MkTimestamp (t / 10 ^ 9) (t mod 10 ^ 9) in
    if (unix_Timestamp ts).2 then Some ts else None;
  pt_TimestampNow t := MkTimestamp (t / 10 ^ 9) (t mod 10 ^ 9);
  pt_Duration d := match d with
                   | Some d => ((DurSeconds d * 10 ^ 9 + DurNanos d)%Z, true)
                   | None => (0%Z, false) end |}.
Proof.
  - done.
  - intros t ts. simpl. case_bool_decide as Hv; [|done]. intros [= <-].
    unfold unix_Timestamp. simpl. rewrite bool_decide_eq_true_2 by exact Hv.
    f_equal. rewrite Z.mul_comm. symmetry. apply Z_div_mod_eq_full.
Defined.
