(* ===== verification/Types.v ===== *)
(** Component [pkg/types]: the methods of [extensions.go], the constructors of
    [helpers.go] and the function references of [fnref.go], with what the rest
    of the development needs to know about them: [Task] and [Tasks] describe the
    same tasks, the lazily filled task objects are not observable, a task-run
    deadline never exceeds the deadline of its invocation. *)

From stdpp Require Import base gmap strings list.
From S2P Require Import Prelude Data.

(** ** Getters through pointers *)

Definition GetId (m : option ObjectMetadata) : string :=
  match m with Some o => ObjectMetadata_Id o | None => "" end.

Definition GetMessage (m : option Error) : string :=
  match m with Some e => Error_Message e | None => "" end.

(** ** Constants *)

(** [pkg/types/extensions.go:10-22] InputMain, ..., TypeTaskRun *)
Definition InputMain : string := "default".
Definition InputBody : string := "body".
Definition InputHeaders : string := "headers".
Definition InputQuery : string := "query".
Definition InputMethod : string := "method".
Definition InputParent : string := "_parent".
Definition WorkflowAPIVersion : string := "v1".
Definition TypeWorkflow : string := "workflow".
Definition TypeInvocation : string := "invocation".
Definition TypeTaskRun : string := "taskrun".

(** [pkg/types/extensions.go:26-30] invocationFinalStates *)
Definition invocationFinalStates : list WorkflowInvocationStatus_Status :=
  [WorkflowInvocationStatus_ABORTED; WorkflowInvocationStatus_SUCCEEDED;
   WorkflowInvocationStatus_FAILED].

(** [pkg/types/extensions.go:32-37] taskFinalStates *)
Definition taskFinalStates : list TaskInvocationStatus_Status :=
  [TaskInvocationStatus_FAILED; TaskInvocationStatus_ABORTED;
   TaskInvocationStatus_SKIPPED; TaskInvocationStatus_SUCCEEDED].

(** ** Identifiers *)

(** [pkg/types/extensions.go:51-53] WorkflowInvocation.ID *)
Definition WorkflowInvocation_ID (m : WorkflowInvocation) : string :=
  GetId (WorkflowInvocation_Metadata m).

(** [pkg/types/extensions.go:63-65] WorkflowInvocation.Workflow *)
Definition WorkflowInvocation_Workflow (m : WorkflowInvocation) : option Workflow :=
  WorkflowInvocation_Spec m ≫= WorkflowInvocationSpec_Workflow.

(** [pkg/types/extensions.go:151-153] TaskInvocation.ID *)
Definition TaskInvocation_ID (m : TaskInvocation) : string :=
  GetId (TaskInvocation_Metadata m).

(** [pkg/types/extensions.go:163-165] TaskInvocation.Task *)
Definition TaskInvocation_Task (m : TaskInvocation) : option Task :=
  TaskInvocation_Spec m ≫= TaskInvocationSpec_Task.

(** [pkg/types/extensions.go:188-190] Task.ID *)
Definition Task_ID (m : option Task) : string := GetId (m ≫= Task_Metadata).

(** [pkg/types/extensions.go:242-244] Workflow.ID *)
Definition Workflow_ID (m : option Workflow) : string := GetId (m ≫= Workflow_Metadata).

(** ** Statuses *)

(** [pkg/types/extensions.go:134-141] WorkflowInvocationStatus.Finished *)
Definition WorkflowInvocationStatus_Finished (m : WorkflowInvocationStatus) : bool :=
  existsb (λ event, bool_decide (event = WorkflowInvocationStatus_Status_ m))
          invocationFinalStates.

(** [pkg/types/extensions.go:143-145] WorkflowInvocationStatus.Successful *)
Definition WorkflowInvocationStatus_Successful (m : WorkflowInvocationStatus) : bool :=
  bool_decide (WorkflowInvocationStatus_Status_ m = WorkflowInvocationStatus_SUCCEEDED).

(** [pkg/types/extensions.go:171-178] TaskInvocationStatus.Finished *)
Definition TaskInvocationStatus_Finished (ti : TaskInvocationStatus) : bool :=
  existsb (λ event, bool_decide (event = TaskInvocationStatus_Status_ ti)) taskFinalStates.

(** [pkg/types/extensions.go:180-182] TaskInvocationStatus.Successful *)
Definition TaskInvocationStatus_Successful (ti : TaskInvocationStatus) : bool :=
  bool_decide (TaskInvocationStatus_Status_ ti = TaskInvocationStatus_SUCCEEDED).

(** The map literal [statusMapping]; a missing key yields the zero value. *)
(** [pkg/types/extensions.go:115-122] statusMapping *)
Definition statusMapping (s : WorkflowInvocationStatus_Status) : TaskInvocationStatus_Status :=
  match s with
  | WorkflowInvocationStatus_UNKNOWN => TaskInvocationStatus_UNKNOWN
  | WorkflowInvocationStatus_SCHEDULED => TaskInvocationStatus_SCHEDULED
  | WorkflowInvocationStatus_IN_PROGRESS => TaskInvocationStatus_IN_PROGRESS
  | WorkflowInvocationStatus_SUCCEEDED => TaskInvocationStatus_SUCCEEDED
  | WorkflowInvocationStatus_FAILED => TaskInvocationStatus_FAILED
  | WorkflowInvocationStatus_ABORTED => TaskInvocationStatus_ABORTED
  | WorkflowInvocationStatus_unrecognized _ => TaskInvocationStatus_UNKNOWN
  end.

(** [pkg/types/extensions.go:114-131] WorkflowInvocationStatus.ToTaskStatus *)
Definition ToTaskStatus (m : WorkflowInvocationStatus) : TaskInvocationStatus :=
  {| TaskInvocationStatus_Status_ := statusMapping (WorkflowInvocationStatus_Status_ m);
     TaskInvocationStatus_Error := WorkflowInvocationStatus_Error m;
     TaskInvocationStatus_UpdatedAt := WorkflowInvocationStatus_UpdatedAt m;
     TaskInvocationStatus_Output := WorkflowInvocationStatus_Output m;
     TaskInvocationStatus_OutputHeaders := WorkflowInvocationStatus_OutputHeaders m |}.

(** [pkg/types/extensions.go:369-371] WorkflowStatus.Ready *)
Definition WorkflowStatus_Ready (m : option WorkflowStatus) : bool :=
  match m with
  | Some s => bool_decide (WorkflowStatus_Status_ s = WorkflowStatus_READY)
  | None => bool_decide (WorkflowStatus_QUEUED = WorkflowStatus_READY)
  end.

(** ** Tasks of a workflow and of an invocation *)

(** [pkg/types/extensions.go:357-363] WorkflowSpec.TaskSpec *)
Definition WorkflowSpec_TaskSpec (m : option WorkflowSpec) (taskID : string) : option TaskSpec :=
  m ≫= λ s, WorkflowSpec_Tasks s !! taskID ≫= id.

(** [m.Metadata.CreatedAt] *)
Definition created_at {E} (m : option Workflow) : res E (option Timestamp) :=
  wf ← deref m;
  md ← deref (Workflow_Metadata wf);
  Ret (ObjectMetadata_CreatedAt md).

Definition task_metadata (id : string) (createdAt : option Timestamp) : ObjectMetadata :=
  {| ObjectMetadata_Id := id; ObjectMetadata_Name := "";
     ObjectMetadata_CreatedAt := createdAt; ObjectMetadata_Generation := 0 |}.

(** The result [(task, ok)] of [Task] is [Some task] when [ok]. *)
(** [pkg/types/extensions.go:256-310] Workflow.Task *)
Definition Workflow_Task {E} (m : option Workflow) (id : string) : res E (option Task) :=
  match (m ≫= Workflow_Status) ≫= λ s, WorkflowStatus_Tasks s !! id with
  | Some task =>
      meta ← (if decide (Task_ID (Some task) = "")
              then c ← created_at m; Ret (Some (task_metadata id c))
              else Ret (Task_Metadata task));
      let spec := match Task_Spec task with
                  | None => WorkflowSpec_TaskSpec (m ≫= Workflow_Spec) id
                  | Some s => Some s
                  end in
      Ret (Some (MkTask meta spec (Task_Status task)))
  | None =>
      match WorkflowSpec_TaskSpec (m ≫= Workflow_Spec) id with
      | Some spec =>
          c ← created_at m;
          Ret (Some (MkTask (Some (task_metadata id c)) (Some spec) None))
      | None => Ret None
      end
  end.

(** [Task] fills the missing metadata and spec of the task object of the status
    in place: the workflow object after the call. *)
(** [pkg/types/extensions.go:256-310] Workflow.Task *)
Definition Workflow_Task_store (m : Workflow) (id : string) : Workflow :=
  match Workflow_Status m with
  | Some st =>
      match WorkflowStatus_Tasks st !! id, Workflow_Task (E := unit) (Some m) id with
      | Some _, Ret (Some task) =>
          MkWorkflow (Workflow_Metadata m) (Workflow_Spec m)
            (Some (MkWorkflowStatus (WorkflowStatus_Status_ st) (WorkflowStatus_UpdatedAt st)
                     (<[id := task]> (WorkflowStatus_Tasks st)) (WorkflowStatus_Error st)))
      | _, _ => m
      end
  | None => m
  end.

Section tasks.
Context `{MapRange} {E : Type}.

(** [pkg/types/extensions.go:312-325] Workflow.Tasks *)
Definition Workflow_Tasks (m : option Workflow) : res E (gmap string (option Task)) :=
  tasks ← foldM (λ tasks '(id, _), task ← Workflow_Task m id; Ret (<[id := task]> tasks)) ∅
            (match m ≫= Workflow_Status with
             | Some st => range 0 (WorkflowStatus_Tasks st) | None => [] end);
  foldM (λ tasks '(id, _),
           match tasks !! id with
           | Some _ => Ret tasks
           | None => task ← Workflow_Task m id; Ret (<[id := task]> tasks)
           end) tasks
        (match m ≫= Workflow_Spec with
         | Some sp => range 1 (WorkflowSpec_Tasks sp) | None => [] end).

(** [pkg/types/extensions.go:68-71] WorkflowInvocation.TaskInvocation *)
Definition WorkflowInvocation_TaskInvocation (m : WorkflowInvocation) (id : string) :
    res E (option TaskInvocation) :=
  st ← deref (WorkflowInvocation_Status m);
  Ret (WorkflowInvocationStatus_Tasks st !! id).

(** [pkg/types/extensions.go:73-80] WorkflowInvocation.TaskInvocations *)
Definition WorkflowInvocation_TaskInvocations (m : WorkflowInvocation) :
    res E (gmap string TaskInvocation) :=
  st ← deref (WorkflowInvocation_Status m);
  foldM (λ tasks '(id, _),
           task ← WorkflowInvocation_TaskInvocation m id;
           Ret (match task with Some t => <[id := t]> tasks | None => tasks end)) ∅
        (range 0 (WorkflowInvocationStatus_Tasks st)).

(** [pkg/types/extensions.go:82-90] WorkflowInvocation.Task *)
Definition WorkflowInvocation_Task (m : WorkflowInvocation) (id : string) :
    res E (option Task) :=
  match WorkflowInvocation_Status m ≫= λ st, WorkflowInvocationStatus_DynamicTasks st !! id with
  | Some dtask => Ret (Some dtask)
  | None => Workflow_Task (WorkflowInvocation_Workflow m) id
  end.

(** [pkg/types/extensions.go:94-108] WorkflowInvocation.Tasks *)
Definition WorkflowInvocation_Tasks (m : option WorkflowInvocation) :
    res E (gmap string (option Task)) :=
  match m with
  | None => Ret ∅
  | Some m =>
      static ← (match WorkflowInvocation_Workflow m with
                | Some wf => wts ← Workflow_Tasks (Some wf);
                             Ret (foldl (λ tasks '(_, task), <[Task_ID task := task]> tasks) ∅
                                        (range 0 wts))
                | None => Ret ∅
                end);
      Ret (foldl (λ tasks '(_, task), <[Task_ID (Some task) := Some task]> tasks) static
             (match WorkflowInvocation_Status m with
              | Some st => range 1 (WorkflowInvocationStatus_DynamicTasks st)
              | None => [] end))
  end.

(** [pkg/types/extensions.go:205-216] TaskSpec.Parent *)
Definition TaskSpec_Parent (m : TaskSpec) : res E (string * bool) :=
  let fix go l : res E (string * bool) :=
    match l with
    | [] => Ret ("", false)
    | (id, params) :: l' =>
        p ← deref params;
        if decide (TaskDependencyParameters_Type p = TaskDependencyParameters_DYNAMIC_OUTPUT)
        then Ret (id, true) else go l'
    end in
  go (range 0 (TaskSpec_Requires m)).

(** [pkg/types/extensions.go:331-337] WorkflowSpec.TaskIds *)
Definition WorkflowSpec_TaskIds (m : WorkflowSpec) : list string :=
  (range 0 (WorkflowSpec_Tasks m)).*1.
End tasks.

(** ** Builders *)

Definition TaskSpec_with_Inputs (m : TaskSpec) i : TaskSpec :=
  MkTaskSpec (TaskSpec_FunctionRef m) i (TaskSpec_Requires m) (TaskSpec_Await m)
    (TaskSpec_Output m) (TaskSpec_OutputHeaders m) (TaskSpec_Timeout m).
Definition TaskSpec_with_Requires (m : TaskSpec) r : TaskSpec :=
  MkTaskSpec (TaskSpec_FunctionRef m) (TaskSpec_Inputs m) r (TaskSpec_Await m)
    (TaskSpec_Output m) (TaskSpec_OutputHeaders m) (TaskSpec_Timeout m).
Definition TaskSpec_with_FunctionRef (m : TaskSpec) f : TaskSpec :=
  MkTaskSpec f (TaskSpec_Inputs m) (TaskSpec_Requires m) (TaskSpec_Await m)
    (TaskSpec_Output m) (TaskSpec_OutputHeaders m) (TaskSpec_Timeout m).

(** [pkg/types/extensions.go:196-203] TaskSpec.Input *)
Definition TaskSpec_Input (m : TaskSpec) (key : string) (val : TypedValue) : TaskSpec :=
  TaskSpec_with_Inputs m (<[key := val]> (TaskSpec_Inputs m)).

(** [pkg/types/extensions.go:218-229] TaskSpec.Require *)
Definition TaskSpec_Require (m : TaskSpec) (taskID : string)
    (opts : list (option TaskDependencyParameters)) : TaskSpec :=
  let params := match opts with p :: _ => p | [] => None end in
  TaskSpec_with_Requires m (<[taskID := params]> (TaskSpec_Requires m)).

(** [pkg/types/extensions.go:349-355] WorkflowSpec.AddTask *)
Definition WorkflowSpec_AddTask (m : WorkflowSpec) (id : string) (task : option TaskSpec) :
    WorkflowSpec :=
  MkWorkflowSpec (WorkflowSpec_ApiVersion m) (<[id := task]> (WorkflowSpec_Tasks m))
    (WorkflowSpec_OutputTask m) (WorkflowSpec_Description m) (WorkflowSpec_ForceId m)
    (WorkflowSpec_Name m) (WorkflowSpec_Internal m).

(** [pkg/types/extensions.go:377-382] WorkflowStatus.AddTask *)
Definition WorkflowStatus_AddTask (m : WorkflowStatus) (id : string) (t : Task) : WorkflowStatus :=
  MkWorkflowStatus (WorkflowStatus_Status_ m) (WorkflowStatus_UpdatedAt m)
    (<[id := t]> (WorkflowStatus_Tasks m)) (WorkflowStatus_Error m).

(** [pkg/types/helpers.go:82-87] Requires.Add, Require *)
Definition Requires_Add (r : gmap string (option TaskDependencyParameters)) (s : list string) :=
  foldl (λ r v, <[v := None]> r) r s.
Definition Require_ (s : list string) : gmap string (option TaskDependencyParameters) :=
  Requires_Add ∅ s.

Section helpers.
Context `{PTypes}.

(** [pkg/types/helpers.go:63-68] NewObjectMetadata *)
Definition NewObjectMetadata (now : Z) (id : string) : ObjectMetadata :=
  task_metadata id (Some (pt_TimestampNow now)).

(** [pkg/types/helpers.go:51-55] NewTaskSpec *)
Definition NewTaskSpec (fn : string) : TaskSpec :=
  MkTaskSpec fn ∅ ∅ 0 None None None.

(** [pkg/types/helpers.go:57-61] NewTaskStatus *)
Definition NewTaskStatus (now : Z) : TaskStatus :=
  MkTaskStatus TaskStatus_STARTED (Some (pt_TimestampNow now)) None None.

(** [pkg/types/helpers.go:43-49] NewTask *)
Definition NewTask (now : Z) (id fn : string) : Task :=
  MkTask (Some (NewObjectMetadata now id)) (Some (NewTaskSpec fn)) (Some (NewTaskStatus now)).

(** The deadline part of [NewTaskInvocationSpec]; the error of the first
    conversion is overwritten by the second. *)
(** [pkg/types/helpers.go:108-133] NewTaskInvocationSpec *)
Definition task_deadline (deadline : option Timestamp) (timeout : option Duration) (startAt : Z) :
    option Timestamp :=
  match timeout with
  | None => deadline
  | Some _ =>
      let '(deadlineTime, _) := pt_Timestamp deadline in
      let '(maxRuntime, ok) := pt_Duration timeout in
      if ok then
        let taskMaxRuntime := (startAt + maxRuntime)%Z in
        if decide (taskMaxRuntime < deadlineTime)%Z
        then pt_TimestampProto taskMaxRuntime else deadline
      else deadline
  end.

(** [pkg/types/helpers.go:108-133] NewTaskInvocationSpec *)
Definition NewTaskInvocationSpec (invocation : WorkflowInvocation) (task : option Task)
    (startAt : Z) : TaskInvocationSpec :=
  let deadline := WorkflowInvocation_Spec invocation ≫= WorkflowInvocationSpec_Deadline in
  {| TaskInvocationSpec_InvocationId := WorkflowInvocation_ID invocation;
     TaskInvocationSpec_Task := task;
     TaskInvocationSpec_FnRef := (task ≫= Task_Status) ≫= TaskStatus_FnRef;
     TaskInvocationSpec_TaskId := Task_ID task;
     TaskInvocationSpec_Deadline :=
       task_deadline deadline ((task ≫= Task_Spec) ≫= TaskSpec_Timeout) startAt;
     TaskInvocationSpec_Inputs :=
       match task ≫= Task_Spec with Some s => TaskSpec_Inputs s | None => ∅ end |}.
End helpers.

(** ** Function references *)

(** [pkg/types/fnref.go:9-11] RuntimeDelimiter *)
Definition RuntimeDelimiter : string := "://".

(** [pkg/types/fnref.go:13-17] ErrFnRefNoRuntime, ErrFnRefNoID *)
Definition ErrFnRefNoRuntime : goerror := ErrNew "fnref has empty runtime".
Definition ErrFnRefNoID : goerror := ErrNew "fnref has empty ID".

(** [pkg/types/fnref.go:19-31] FnRef.Format *)
Definition FnRef_Format (m : FnRef) : string :=
  let runtime := if decide (FnRef_Runtime m = "") then ""
                 else FnRef_Runtime m +:+ RuntimeDelimiter in
  if decide (FnRef_Namespace m = "") then runtime +:+ FnRef_ID m
  else runtime +:+ FnRef_Namespace m +:+ "/" +:+ FnRef_ID m.

(** [pkg/types/fnref.go:52-61] ValidateFnRef *)
Definition ValidateFnRef (fnref : FnRef) (allowEmptyNamespace : bool) : option goerror :=
  if decide (FnRef_ID fnref = "") then Some ErrFnRefNoID
  else if negb allowEmptyNamespace && bool_decide (FnRef_Runtime fnref = "")
       then Some ErrFnRefNoRuntime else None.

(** [pkg/types/fnref.go:33-35] FnRef.IsValid *)
Definition FnRef_IsValid (m : FnRef) : bool :=
  match ValidateFnRef m false with None => true | Some _ => false end.

(** [pkg/types/fnref.go:41-50] NewFnRef *)
Definition NewFnRef {E} (runtime ns id : string) : res E FnRef :=
  if decide (id = "") then Panic "function reference needs a runtime id"
  else Ret (MkFnRef runtime ns id).

(** ** Lemmas *)

Lemma WorkflowInvocationStatus_Finished_iff st :
  WorkflowInvocationStatus_Finished st = true ↔
  WorkflowInvocationStatus_Status_ st ∈ invocationFinalStates.
Proof.
  unfold WorkflowInvocationStatus_Finished. rewrite existsb_exists.
  setoid_rewrite bool_decide_eq_true. setoid_rewrite <- list_elem_of_In.
  split; [by intros (x & ? & ->)|eauto].
Qed.

Lemma TaskInvocationStatus_Finished_iff st :
  TaskInvocationStatus_Finished st = true ↔
  TaskInvocationStatus_Status_ st ∈ taskFinalStates.
Proof.
  unfold TaskInvocationStatus_Finished. rewrite existsb_exists.
  setoid_rewrite bool_decide_eq_true. setoid_rewrite <- list_elem_of_In.
  split; [by intros (x & ? & ->)|eauto].
Qed.

(** The task run of a sub-workflow ends exactly when the invocation it proxies
    ends, and succeeds exactly when it succeeds. *)
Theorem ToTaskStatus_faithful (st : WorkflowInvocationStatus) :
  TaskInvocationStatus_Finished (ToTaskStatus st) = WorkflowInvocationStatus_Finished st ∧
  TaskInvocationStatus_Successful (ToTaskStatus st) = WorkflowInvocationStatus_Successful st ∧
  TaskInvocationStatus_Output (ToTaskStatus st) = WorkflowInvocationStatus_Output st ∧
  TaskInvocationStatus_Error (ToTaskStatus st) = WorkflowInvocationStatus_Error st.
Proof. by destruct st as [[] ? ? ? ? ? ?]. Qed.

(** What [Task] returns when the workflow object carries metadata. *)
Definition task_view (wf : Workflow) (id : string) : option Task :=
  let c := Workflow_Metadata wf ≫= ObjectMetadata_CreatedAt in
  match Workflow_Status wf ≫= λ s, WorkflowStatus_Tasks s !! id with
  | Some task =>
      Some (MkTask (if decide (Task_ID (Some task) = "") then Some (task_metadata id c)
                    else Task_Metadata task)
                   (match Task_Spec task with
                    | None => WorkflowSpec_TaskSpec (Workflow_Spec wf) id
                    | Some s => Some s end)
                   (Task_Status task))
  | None =>
      spec ← WorkflowSpec_TaskSpec (Workflow_Spec wf) id;
      Some (MkTask (Some (task_metadata id c)) (Some spec) None)
  end.

(** The identifiers under which a workflow defines tasks. *)
Definition task_ids (wf : Workflow) : gset string :=
  match Workflow_Status wf with Some st => dom (WorkflowStatus_Tasks st) | None => ∅ end ∪
  match Workflow_Spec wf with Some sp => dom (WorkflowSpec_Tasks sp) | None => ∅ end.

(** A workflow object as the projector and the API build it: it has metadata, and
    its task objects carry the identifier they are stored under (or none yet). *)
Record workflow_wf (wf : Workflow) : Prop := {
  workflow_wf_metadata : is_Some (Workflow_Metadata wf);
  workflow_wf_ids : ∀ st id t,
    Workflow_Status wf = Some st → WorkflowStatus_Tasks st !! id = Some t →
    Task_ID (Some t) = "" ∨ Task_ID (Some t) = id;
  workflow_wf_specs : ∀ sp id,
    Workflow_Spec wf = Some sp → WorkflowSpec_Tasks sp !! id ≠ Some None }.

Record invocation_wf (inv : WorkflowInvocation) : Prop := {
  invocation_wf_workflow : ∀ wf, WorkflowInvocation_Workflow inv = Some wf → workflow_wf wf;
  invocation_wf_status : is_Some (WorkflowInvocation_Status inv);
  invocation_wf_dynamic : ∀ st id t,
    WorkflowInvocation_Status inv = Some st →
    WorkflowInvocationStatus_DynamicTasks st !! id = Some t → Task_ID (Some t) = id;
  invocation_wf_runs : ∀ st id t,
    WorkflowInvocation_Status inv = Some st →
    WorkflowInvocationStatus_Tasks st !! id = Some t → TaskInvocation_ID t = id }.

Definition inv_task_view (inv : WorkflowInvocation) (id : string) : option Task :=
  match WorkflowInvocation_Status inv ≫= λ st, WorkflowInvocationStatus_DynamicTasks st !! id with
  | Some t => Some t
  | None => wf ← WorkflowInvocation_Workflow inv; task_view wf id
  end.

Section lemmas.
Context `{MapRange} {E : Type}.

Lemma Workflow_Task_view wf id :
  is_Some (Workflow_Metadata wf) →
  Workflow_Task (E := E) (Some wf) id = Ret (task_view wf id).
Proof.
  destruct wf as [md sp [st|]]; intros [m Hmd]; simpl in Hmd; subst md;
    unfold Workflow_Task, task_view; simpl.
  - destruct (WorkflowStatus_Tasks st !! id); simpl; [by case_decide|].
    by destruct (WorkflowSpec_TaskSpec sp id).
  - by destruct (WorkflowSpec_TaskSpec sp id).
Qed.

Lemma task_view_id wf id t : workflow_wf wf → task_view wf id = Some t → Task_ID (Some t) = id.
Proof.
  intros [_ Hids _]. unfold task_view.
  destruct (Workflow_Status wf ≫= _) as [t'|] eqn:Hst.
  - destruct (Workflow_Status wf) as [st|]; simpl in Hst; [|done].
    specialize (Hids _ _ _ eq_refl Hst).
    intros [= <-]. unfold Task_ID at 1; simpl. case_decide; [done|].
    destruct Hids as [Hi|Hi]; [done|exact Hi].
  - destruct (WorkflowSpec_TaskSpec _ _); intros; by simplify_eq/=.
Qed.

Lemma task_view_is_Some wf id :
  workflow_wf wf → is_Some (task_view wf id) ↔ id ∈ task_ids wf.
Proof.
  intros [_ _ Hspecs]. unfold task_view, task_ids, WorkflowSpec_TaskSpec.
  rewrite elem_of_union.
  assert (∀ A (m : gmap string A), id ∈ dom m ↔ is_Some (m !! id)) as Hk
    by (intros; apply elem_of_dom).
  destruct (Workflow_Status wf) as [st|], (Workflow_Spec wf) as [sp|]; simpl; rewrite ?Hk;
    try (destruct (WorkflowStatus_Tasks st !! id) as [t|]; simpl);
    try (specialize (Hspecs sp id eq_refl);
         destruct (WorkflowSpec_Tasks sp !! id) as [[spec|]|]; simpl);
    rewrite ?is_Some_alt; set_solver.
Qed.


Lemma Workflow_Tasks_spec wf :
  workflow_wf wf →
  ∃ M, Workflow_Tasks (E := E) (Some wf) = Ret M ∧
       ∀ id, M !! id = Some <$> task_view wf id.
Proof.
  intros Hwf. pose proof (workflow_wf_metadata _ Hwf) as Hmd. unfold Workflow_Tasks.
  rewrite (foldM_Ret _ (λ tasks '(id, _), <[id := task_view wf id]> tasks))
    by (intros s [id ?] _; by rewrite Workflow_Task_view).
  rewrite bind_Ret_l.
  rewrite (foldM_Ret _ (λ tasks '(id, _), match tasks !! id with Some _ => tasks
                                    | None => <[id := task_view wf id]> tasks end))
    by (intros s [id ?] _; destruct (s !! id); [done|by rewrite Workflow_Task_view]).
  eexists; split; [done|]. intros id. simpl.
  pose proof (task_view_is_Some wf id Hwf) as Hid. unfold task_ids in Hid.
  rewrite elem_of_union, is_Some_alt in Hid.
  destruct (Workflow_Status wf) as [st|], (Workflow_Spec wf) as [sp|]; simpl in *;
    rewrite ?foldl_insert_new_range, ?foldl_insert_range, ?lookup_empty;
    rewrite ?elem_of_dom, ?elem_of_empty in Hid;
    try destruct (WorkflowStatus_Tasks st !! id) as [?|];
    try destruct (WorkflowSpec_Tasks sp !! id) as [?|];
    destruct (task_view wf id) as [tv|]; simpl; try done;
    rewrite ?is_Some_alt in Hid; tauto.
Qed.

Lemma WorkflowInvocation_Task_view inv id :
  invocation_wf inv → is_Some (WorkflowInvocation_Workflow inv) →
  WorkflowInvocation_Task (E := E) inv id = Ret (inv_task_view inv id).
Proof.
  intros Hinv [wf Hw]. unfold WorkflowInvocation_Task, inv_task_view.
  destruct (WorkflowInvocation_Status inv ≫= _); [done|].
  rewrite Hw. simpl. apply Workflow_Task_view.
  by eapply workflow_wf_metadata, invocation_wf_workflow.
Qed.

Lemma inv_task_view_id inv id t :
  invocation_wf inv → inv_task_view inv id = Some t → Task_ID (Some t) = id.
Proof.
  intros [Hwf _ Hdyn _]. unfold inv_task_view.
  destruct (WorkflowInvocation_Status inv) as [st|] eqn:Hst; simpl.
  - destruct (WorkflowInvocationStatus_DynamicTasks st !! id) eqn:Hd;
      [intros; simplify_eq; eauto|].
    destruct (WorkflowInvocation_Workflow inv) as [wf|]; simpl; [|done].
    apply task_view_id; auto.
  - destruct (WorkflowInvocation_Workflow inv) as [wf|]; simpl; [|done].
    apply task_view_id; auto.
Qed.

Lemma WorkflowInvocation_Tasks_spec inv :
  invocation_wf inv →
  ∃ M, WorkflowInvocation_Tasks (E := E) (Some inv) = Ret M ∧
       ∀ id, M !! id = Some <$> inv_task_view inv id.
Proof.
  intros Hinv. pose proof Hinv as [Hwf [st Hst] Hdyn _].
  unfold WorkflowInvocation_Tasks, inv_task_view. rewrite Hst. simpl.
  assert (∃ M : gmap string (option Task), (match WorkflowInvocation_Workflow inv with
     | Some wf => wts ← Workflow_Tasks (E := E) (Some wf);
         Ret (foldl (λ tasks '(_, task), <[Task_ID task := task]> tasks) ∅ (range 0 wts))
     | None => Ret ∅ end) = Ret M ∧
     ∀ id, M !! id = Some <$> (WorkflowInvocation_Workflow inv ≫= λ wf, task_view wf id))
    as (M & -> & HM).
  { destruct (WorkflowInvocation_Workflow inv) as [wf|]; simpl; [|by exists ∅].
    destruct (Workflow_Tasks_spec wf) as (M & -> & HM); [auto|].
    eexists; split; [done|]. intros id.
    rewrite (foldl_insert_by_id 0 Task_ID (λ t, t)).
    - rewrite HM. by destruct (task_view wf id).
    - intros k t Hk. rewrite HM in Hk.
      destruct (task_view wf k) eqn:Hv; simplify_eq/=. eapply task_view_id; eauto. }
  simpl. eexists; split; [done|]. intros id.
  rewrite (foldl_insert_by_id 1 (λ t, Task_ID (Some t)) Some) by eauto.
  destruct (WorkflowInvocationStatus_DynamicTasks st !! id); [done|apply HM].
Qed.

Lemma WorkflowInvocation_TaskInvocations_spec inv st :
  WorkflowInvocation_Status inv = Some st →
  WorkflowInvocation_TaskInvocations (E := E) inv = Ret (WorkflowInvocationStatus_Tasks st).
Proof.
  intros Hst. unfold WorkflowInvocation_TaskInvocations, WorkflowInvocation_TaskInvocation.
  rewrite Hst. simpl.
  set (m := WorkflowInvocationStatus_Tasks st).
  rewrite (foldM_Ret _ (λ tasks '(id, t), <[id := t]> tasks)).
  2:{ intros s [id t] Hin. apply elem_of_range in Hin. simpl. by rewrite Hin. }
  f_equal. apply map_eq. intros k.
  assert (∀ l acc, (∀ k t, (k, t) ∈ l → m !! k = Some t) →
    foldl (λ (tasks : gmap string TaskInvocation) '(id, t), <[id := t]> tasks) acc l !! k =
    if decide (k ∈ l.*1) then m !! k else acc !! k) as Hl.
  { induction l as [|[k' t] l IH]; intros acc Hin; simpl; [done|].
    rewrite IH by set_solver. destruct (decide (k ∈ l.*1)).
    - by rewrite decide_True by set_solver.
    - destruct (decide (k = k')) as [->|].
      + rewrite lookup_insert_eq, decide_True by set_solver. symmetry. apply Hin. set_solver.
      + by rewrite lookup_insert_ne, decide_False by set_solver. }
  rewrite Hl by (intros ? ?; apply elem_of_range).
  case_decide as Hk; [done|]. rewrite elem_of_range_fst in Hk.
  rewrite lookup_empty. destruct (m !! k); [|done]. destruct Hk; eauto.
Qed.

(** The two views of the tasks of an invocation agree: [Tasks] lists exactly the
    tasks that [Task] finds, dynamic tasks shadowing static ones. *)
Theorem Tasks_Task_agree (inv : WorkflowInvocation) :
  invocation_wf inv → is_Some (WorkflowInvocation_Workflow inv) →
  ∃ M, WorkflowInvocation_Tasks (E := E) (Some inv) = Ret M ∧
       ∀ id, WorkflowInvocation_Task (E := E) inv id = Ret (M !! id ≫= (λ t, t)).
Proof.
  intros Hinv Hw. destruct (WorkflowInvocation_Tasks_spec inv Hinv) as (M & HM & HMid).
  exists M. split; [done|]. intros id. rewrite WorkflowInvocation_Task_view by done.
  f_equal. rewrite HMid. by destruct (inv_task_view inv id).
Qed.
End lemmas.

(** Filling a task object in place is invisible: every later [Task] call answers
    as it would have on the original object. *)
Theorem Workflow_Task_store_transparent {E} (wf : Workflow) (id id' : string) :
  is_Some (Workflow_Metadata wf) → id ≠ "" →
  Workflow_Task (E := E) (Some (Workflow_Task_store wf id)) id' =
  Workflow_Task (E := E) (Some wf) id'.
Proof.
  intros Hmd Hid. unfold Workflow_Task_store.
  destruct (Workflow_Status wf) as [st|] eqn:Hst; [|done].
  destruct (WorkflowStatus_Tasks st !! id) as [t|] eqn:Ht; [|done].
  rewrite (Workflow_Task_view (E := unit) wf id Hmd).
  destruct (task_view wf id) as [t'|] eqn:Hv; [|done].
  rewrite !Workflow_Task_view by done. f_equal.
  revert Hv. unfold task_view. rewrite Hst. simpl. rewrite Ht. simpl. intros [= <-].
  destruct (decide (id = id')) as [->|Hne].
  - rewrite lookup_insert_eq, Ht. simpl. f_equal. f_equal.
    + unfold Task_ID. simpl.
      by destruct (decide (GetId (Task_Metadata t) = "")); simpl; rewrite decide_False.
    + by destruct (Task_Spec t), (WorkflowSpec_TaskSpec (Workflow_Spec wf) id').
  - by rewrite lookup_insert_ne.
Qed.

(** The deadline of a task run never lies after the deadline of its invocation. *)
Theorem task_deadline_bounded `{PTypes} (deadline : Timestamp) (timeout : option Duration)
    (startAt d : Z) (dl : Timestamp) :
  pt_Timestamp (Some deadline) = (d, true) →
  task_deadline (Some deadline) timeout startAt = Some dl →
  ∃ d', pt_Timestamp (Some dl) = (d', true) ∧ (d' ≤ d)%Z.
Proof.
  intros Hd. unfold task_deadline.
  destruct timeout as [to|]; [|intros; simplify_eq; eauto with lia].
  rewrite Hd. destruct (pt_Duration (Some to)) as [mr ok]. destruct ok; [|intros; simplify_eq; eauto with lia].
  case_decide; [|intros; simplify_eq; eauto with lia].
  intros Hts. apply pt_TimestampProto_ok in Hts. exists (startAt + mr)%Z. split; [done|lia].
Qed.
