(* ===== verification/TypedValues.v ===== *)
(** Component [pkg/types/typedvalues]: Go values serialized as annotated protobuf
    values, expressions, and the order in which the inputs of a task are resolved. *)

From stdpp Require Import base gmap strings list sorting.
From S2P Require Import Prelude Data.
From Stdlib Require Import Ascii.

(** ** Go values *)

(** The values of type [interface{}] the program wraps and unwraps.  The floats are
    their IEEE bit patterns, [VOther] is a value of any other Go type. *)
Inductive gval :=
| VNil
| VBool (b : bool)
| VInt (n : Z)
| VInt32 (n : Z)
| VInt64 (n : Z)
| VUInt32 (n : Z)
| VUInt64 (n : Z)
| VFloat32 (bits : Z)
| VFloat64 (bits : Z)
| VString (s : string)
| VBytes (s : string)
| VMap (m : gmap string gval)
| VList (l : list gval)
| VTyped (tv : option TypedValue)
| VTypedList (l : list TypedValue)
| VTypedMap (m : gmap string TypedValue)
| VMessage (m : message)
| VOther (type : string).

Definition TypeUrlPrefix : string := "types.fission.io/".

(** [pkg/types/typedvalues/typedvalues.go:35-35] ErrIllegalTypeAssertion *)
Definition ErrIllegalTypeAssertion : goerror := ErrNew "illegal type assertion".
(** [pkg/types/typedvalues/typedvalues.go:36-36] ErrUnsupportedType *)
Definition ErrUnsupportedType : goerror := ErrNew "unsupported type".

(** [errors.Wrapf(err, text)]. *)
Definition wrapf (err : goerror) (text : string) : goerror := ErrFmt text.

(** [errors.Wrapf(ErrIllegalTypeAssertion, "failed to unwrap %s to ...")]. *)
Definition not_a {A} (type : string) : res goerror A :=
  Throw (wrapf ErrIllegalTypeAssertion ("failed to unwrap to " +:+ type)).

(** ** Value types *)

Fixpoint strip_prefix (p s : string) : option string :=
  match p, s with
  | EmptyString, _ => Some s
  | String c p, String d s => if decide (c = d) then strip_prefix p s else None
  | _, _ => None
  end.

(** [pkg/types/typedvalues/typedvalues.go:41-51] TypedValue.ValueType *)
Definition ValueType (m : option TypedValue) : string :=
  match m ≫= TypedValue_Value with
  | None => ""
  | Some a => match strip_prefix TypeUrlPrefix (TypeUrl a) with
              | Some rest => rest | None => TypeUrl a end
  end.

(** [pkg/types/typedvalues/valuetypes.go:27-64] init *)
Definition TypeBool : string := MessageName (BoolValue false).
Definition TypeInt32 : string := MessageName (Int32Value 0).
Definition TypeInt64 : string := MessageName (Int64Value 0).
Definition TypeUInt32 : string := MessageName (UInt32Value 0).
Definition TypeUInt64 : string := MessageName (UInt64Value 0).
Definition TypeFloat32 : string := MessageName (FloatValue 0).
Definition TypeFloat64 : string := MessageName (DoubleValue 0).
Definition TypeString : string := MessageName (StringValue "").
Definition TypeBytes : string := MessageName (BytesValue "").
Definition TypeNil : string := MessageName NilValue.
Definition TypeExpression : string := MessageName (Expression "").
Definition TypeMap : string := MessageName (MapValue ∅).
Definition TypeList : string := MessageName (ArrayValue []).
Definition Types : list string :=
  [TypeBool; TypeInt32; TypeInt64; TypeUInt32; TypeUInt64; TypeFloat32; TypeFloat64; TypeString;
   TypeBytes; TypeNil; TypeExpression; TypeMap; TypeList].

(** [pkg/types/typedvalues/valuetypes.go:41-48] init (part) *)
Definition TypeNumber : list string :=
  [TypeFloat64; TypeFloat32; TypeInt32; TypeInt64; TypeUInt32; TypeUInt64].

(** ** Metadata *)

(** [pkg/types/typedvalues/typedvalues.go:88-98] TypedValue.SetMetadata *)
Definition SetMetadata (m : option TypedValue) (k v : string) : option TypedValue :=
  match m with
  | None => None
  | Some m => Some (MkTypedValue (TypedValue_Value m) (<[k := v]> (TypedValue_Metadata m)))
  end.

(** [pkg/types/typedvalues/typedvalues.go:100-110] TypedValue.GetMetadataValue *)
Definition GetMetadataValue (m : option TypedValue) (k : string) : string * bool :=
  match m with
  | None => ("", false)
  | Some m => match TypedValue_Metadata m !! k with Some v => (v, true) | None => ("", false) end
  end.

(** ** Expressions *)

(** What [expressionRe] captures: the text between a leading brace and a closing brace
    at the end, if it has no line break ([.] does not match one). *)
Fixpoint expression_body (s : string) : option string :=
  match s with
  | EmptyString => None
  | String c EmptyString => if decide (c = "}"%char) then Some "" else None
  | String c s' => if decide (c = "010"%char) then None else String c <$> expression_body s'
  end.

Definition expressionRe (s : string) : option string :=
  match s with
  | String "{" s => expression_body s
  | _ => None
  end.

(** [pkg/types/typedvalues/typedvalues.go:467-469] IsExpression *)
Definition IsExpression (s : string) : bool := bool_decide (is_Some (expressionRe s)).

(** [pkg/types/typedvalues/typedvalues.go:463-465] RemoveExpressionDelimiters *)
Definition RemoveExpressionDelimiters (expr : string) : string :=
  match expressionRe expr with Some body => body | None => expr end.

(** ** Wrapping *)

Section values.
Context `{MapRange} `{Proto}.

(** [pkg/types/typedvalues/typedvalues.go:472-478] marshalAny *)
Definition marshalAny (pb : message) : res goerror Any :=
  match marshal pb with
  | None => Throw (ErrFmt "proto: marshal")
  | Some value => Ret (MkAny (TypeUrlPrefix +:+ MessageName pb) value)
  end.

(** Annotate the error of a nested value. *)
Definition wrap_err {A} (text : string) (m : res goerror A) : res goerror A :=
  match m with Throw e => Throw (wrapf e text) | _ => m end.

Definition seal (msg : message) : res goerror TypedValue :=
  marshaled ← marshalAny msg; Ret (MkTypedValue (Some marshaled) ∅).

(** The message of a value that contains no other value. *)
Definition leaf_message (val : gval) : option message :=
  match val with
  | VTypedList l => Some (ArrayValue l)
  | VTypedMap m => Some (MapValue m)
  | VMessage m => Some m
  | VString s => Some (if IsExpression s then Expression s else StringValue s)
  | VBool b => Some (BoolValue b)
  | VFloat32 x => Some (FloatValue x)
  | VFloat64 x => Some (DoubleValue x)
  | VInt64 n => Some (Int64Value n)
  | VInt n => Some (Int32Value (to_i32 n))
  | VInt32 n => Some (Int32Value n)
  | VUInt32 n => Some (UInt32Value n)
  | VUInt64 n => Some (UInt64Value n)
  | VBytes s => Some (BytesValue s)
  | VNil => Some NilValue
  | _ => None
  end.

(** A [nil] element of a map or an array: the protobuf library refuses to marshal it. *)
Definition non_nil {A} (tv : option A) : res goerror A :=
  match tv with Some tv => Ret tv | None => Throw (ErrFmt "proto: marshal") end.

(** [f] applied to the elements of a list, up to the first error. *)
Definition each {A B} (f : A → res goerror B) (l : list A) : res goerror (list B) :=
  foldM (λ out a, b ← f a; Ret (out ++ [b])) [] l.

(** The recursion goes down the value; [fuel] bounds its depth. *)
(** [pkg/types/typedvalues/typedvalues.go:178-246] Wrap *)
Fixpoint Wrap (fuel : nat) (val : gval) : res goerror (option TypedValue) :=
  match fuel with
  | O => Panic "fuel"
  | S fuel =>
      match val with
      | VTyped tv => Ret tv
      | VMap m =>
          values ← each (λ '(k, v),
            tv ← wrap_err ("failed to parse map[" +:+ k +:+ "]") (Wrap fuel v); Ret (k, tv)) (range 0 m);
          values ← each (λ '(k, tv), tv ← non_nil tv; Ret (k, tv)) values;
          tv ← seal (MapValue (list_to_map values)); Ret (Some tv)
      | VList l =>
          values ← each (λ v, wrap_err "failed to parse array" (Wrap fuel v)) l;
          values ← each non_nil values;
          tv ← seal (ArrayValue values); Ret (Some tv)
      | _ =>
          match leaf_message val with
          | Some msg => tv ← seal msg; Ret (Some tv)
          | None => Throw (wrapf ErrUnsupportedType "parse")
          end
      end
  end.

(** [panic(err)] *)
Definition must {A} (m : res goerror A) : res goerror A :=
  match m with Throw _ => Panic "error" | _ => m end.

(** [pkg/types/typedvalues/typedvalues.go:248-254] MustWrap *)
Definition MustWrap (fuel : nat) (val : gval) : res goerror (option TypedValue) :=
  must (Wrap fuel val).

(** ** Unwrapping *)

(** [pkg/types/typedvalues/typedvalues.go:281-289] UnwrapProto *)
Definition UnwrapProto (tv : TypedValue) : res goerror message :=
  match unmarshal_any (TypedValue_Value tv) with
  | Some m => Ret m
  | None => Throw (ErrFmt "proto: unmarshal")
  end.

(** [fuel] bounds the nesting of the values. *)
(** [pkg/types/typedvalues/typedvalues.go:116-176] Unwrap *)
Fixpoint Unwrap (fuel : nat) (tv : option TypedValue) : res goerror gval :=
  match fuel with
  | O => Panic "fuel"
  | S fuel =>
      match tv with
      | None => Ret VNil
      | Some tv =>
          msg ← UnwrapProto tv;
          match msg with
          | MapValue m =>
              values ← each (λ '(k, v),
                entry ← wrap_err ("failed to format map[" +:+ k +:+ "]") (Unwrap fuel (Some v));
                Ret (k, entry)) (range 1 m);
              Ret (VMap (list_to_map values))
          | ArrayValue l =>
              values ← each (λ v, wrap_err "failed to format array" (Unwrap fuel (Some v))) l;
              Ret (VList values)
          | Expression s | StringValue s => Ret (VString s)
          | BoolValue b => Ret (VBool b)
          | FloatValue x => Ret (VFloat32 x)
          | DoubleValue x => Ret (VFloat64 x)
          | Int32Value n => Ret (VInt32 n)
          | Int64Value n => Ret (VInt64 n)
          | UInt64Value n => Ret (VUInt64 n)
          | UInt32Value n => Ret (VUInt32 n)
          | BytesValue s => Ret (VBytes s)
          | NilValue => Ret VNil
          | _ => Ret (VMessage msg)
          end
      end
  end.

Section accessors.
Context (fuel : nat).
Implicit Types tv : option TypedValue.

(** [pkg/types/typedvalues/typedvalues.go:256-262] MustUnwrap *)
Definition MustUnwrap tv : res goerror gval := must (Unwrap fuel tv).

(** [pkg/types/typedvalues/typedvalues.go:53-58] TypedValue.Interface *)
Definition Interface tv : res goerror gval :=
  match tv ≫= TypedValue_Value with None => Ret VNil | Some _ => MustUnwrap tv end.

(** [pkg/types/typedvalues/typedvalues.go:264-279] UnwrapString *)
Definition UnwrapString tv : res goerror string :=
  i ← Unwrap fuel tv;
  match i with VString s | VBytes s => Ret s | _ => not_a "string" end.

(** [pkg/types/typedvalues/typedvalues.go:291-305] UnwrapBytes *)
Definition UnwrapBytes tv : res goerror string :=
  i ← Unwrap fuel tv;
  match i with VString s | VBytes s => Ret s | _ => not_a "bytes" end.

(** [pkg/types/typedvalues/typedvalues.go:307-318] UnwrapBool *)
Definition UnwrapBool tv : res goerror bool :=
  i ← Unwrap fuel tv; match i with VBool b => Ret b | _ => not_a "bool" end.

(** [pkg/types/typedvalues/typedvalues.go:320-331] UnwrapArray *)
Definition UnwrapArray tv : res goerror (list gval) :=
  i ← Unwrap fuel tv; match i with VList l => Ret l | _ => not_a "array" end.

(** [ptypes.UnmarshalAny] into an [ArrayValue]; a [nil] receiver is dereferenced. *)
(** [pkg/types/typedvalues/typedvalues.go:333-345] UnwrapTypedValueArray *)
Definition UnwrapTypedValueArray tv : res goerror (list TypedValue) :=
  tv ← deref tv;
  match unmarshal_any (TypedValue_Value tv) with
  | Some (ArrayValue l) => Ret l
  | _ => not_a "TypedValue-array"
  end.

(** [pkg/types/typedvalues/typedvalues.go:347-359] UnwrapTypedValueMap *)
Definition UnwrapTypedValueMap tv : res goerror (gmap string TypedValue) :=
  tv ← deref tv;
  match unmarshal_any (TypedValue_Value tv) with
  | Some (MapValue m) => Ret m
  | _ => not_a "TypedValue-map"
  end.

(** [pkg/types/typedvalues/typedvalues.go:389-400] UnwrapMap *)
Definition UnwrapMap tv : res goerror (gmap string gval) :=
  i ← Unwrap fuel tv; match i with VMap m => Ret m | _ => not_a "map" end.

(** [pkg/types/typedvalues/typedvalues.go:361-367] UnwrapMapTypedValue *)
Definition UnwrapMapTypedValue (tvs : gmap string TypedValue) : res goerror (gmap string gval) :=
  tv ← Wrap fuel (VTypedMap tvs); UnwrapMap tv.

(** [pkg/types/typedvalues/typedvalues.go:369-379] WrapMapTypedValue *)
Definition WrapMapTypedValue (tvs : gmap string gval) : res goerror (gmap string (option TypedValue)) :=
  entries ← each (λ '(k, v), e ← Wrap fuel v; Ret (k, e)) (range 2 tvs);
  Ret (list_to_map entries).

(** [pkg/types/typedvalues/typedvalues.go:381-387] MustWrapMapTypedValue *)
Definition MustWrapMapTypedValue (tvs : gmap string gval) :
    res goerror (gmap string (option TypedValue)) := must (WrapMapTypedValue tvs).

(** [pkg/types/typedvalues/typedvalues.go:451-461] UnwrapExpression *)
Definition UnwrapExpression tv : res goerror string :=
  s ← UnwrapString tv; if IsExpression s then Ret s else not_a "expression".

(** The conversions of floats to integers, which the language leaves to the
    implementation out of range. *)
Context (float32_int64 float64_int64 : Z → Z).

(** [pkg/types/typedvalues/typedvalues.go:403-425] UnwrapInt64 *)
Definition UnwrapInt64 tv : res goerror Z :=
  i ← Unwrap fuel tv;
  match i with
  | VInt64 n | VInt32 n | VUInt32 n => Ret n
  | VUInt64 n => Ret (to_i64 n)
  | VFloat32 x => Ret (float32_int64 x)
  | VFloat64 x => Ret (float64_int64 x)
  | _ => not_a "int64"
  end.
End accessors.
End values.

(** ** Priorities *)

Definition MetadataPriority : string := "priority".

(** [strconv.Atoi]: an optional sign and decimal digits, within 64 bits. *)
Fixpoint digits (s : string) (acc : Z) : option Z :=
  match s with
  | EmptyString => Some acc
  | String c s =>
      let d := Z.of_N (N_of_ascii c) in
      if decide (48 ≤ d ≤ 57)%Z then digits s (10 * acc + (d - 48)) else None
  end.

Definition Atoi (s : string) : option Z :=
  let '(sign, body) := match s with
                       | String "-" s => ((-1)%Z, s) | String "+" s => (1%Z, s) | _ => (1%Z, s) end in
  if decide (body = "") then None else
  n ← digits body 0;
  if decide (- 2 ^ 63 ≤ sign * n < 2 ^ 63)%Z then Some (sign * n)%Z else None.

(** [pkg/types/typedvalues/priority.go:32-43] priority *)
Definition priority (t : TypedValue) : Z :=
  match TypedValue_Metadata t !! MetadataPriority with
  | Some ps => match Atoi ps with Some i => i | None => 0 end
  | None => 0
  end.

(** [pkg/types/typedvalues/priority.go:15-18] NamedInput *)
Definition NamedInput : Type := string * TypedValue.

(** [sort.Sort(sort.Reverse(...))]: the order of equal elements is not specified; here
    it is the order they come in. *)
(** [pkg/types/typedvalues/priority.go:20-30] namedInputSlice *)
Fixpoint insert_named (x : NamedInput) (l : list NamedInput) : list NamedInput :=
  match l with
  | [] => [x]
  | y :: l' => if decide (priority y.2 < priority x.2)%Z then x :: l else y :: insert_named x l'
  end.

Definition sortNamedInputSlices (inputs : list NamedInput) : list NamedInput :=
  foldl (λ sorted x, insert_named x sorted) [] inputs.

Section prioritize.
Context `{MapRange}.

(** [pkg/types/typedvalues/priority.go:45-56] toNamedInputs *)
Definition toNamedInputs (inputs : gmap string TypedValue) : list NamedInput := range 0 inputs.

(** [pkg/types/typedvalues/priority.go:59-63] Prioritize *)
Definition Prioritize (inputs : gmap string TypedValue) : list NamedInput :=
  sortNamedInputSlices (toNamedInputs inputs).
End prioritize.

(** ** Round trip *)

(** What unwrapping gives back: an [int] comes back as an [int32]. *)
Fixpoint norm (v : gval) : gval :=
  match v with
  | VInt n => VInt32 (to_i32 n)
  | VMap m => VMap (norm <$> m)
  | VList l => VList (norm <$> l)
  | _ => v
  end.

(** The values of plain Go data; [depth n v]: of nesting at most [n]. *)
Inductive plain : nat → gval → Prop :=
| plain_leaf n v :
    match v with
    | VNil | VBool _ | VInt _ | VInt32 _ | VInt64 _ | VUInt32 _ | VUInt64 _ | VFloat32 _
    | VFloat64 _ | VString _ | VBytes _ => True | _ => False end → plain n v
| plain_map n m : (∀ k v, m !! k = Some v → plain n v) → plain (S n) (VMap m)
| plain_list n l : (∀ v, v ∈ l → plain n v) → plain (S n) (VList l).

(** The messages values are wrapped in. *)
Definition value_message (m : message) : Prop :=
  match m with
  | MapValue _ | ArrayValue _ | Expression _ | NilValue | BoolValue _ | FloatValue _ | DoubleValue _
  | Int32Value _ | Int64Value _ | UInt32Value _ | UInt64Value _ | StringValue _ | BytesValue _ => True
  | _ => False
  end.

Lemma each_app {A B} (f : A → res goerror B) l acc :
  foldM (λ out a, b ← f a; Ret (out ++ [b])) acc l =
  (out ← each f l; Ret (acc ++ out)).
Proof.
  unfold each. revert acc. induction l as [|a l IH]; intros acc; simpl; [by rewrite app_nil_r|].
  destruct (f a) as [b| |]; [|done|done]. simpl. rewrite IH, (IH [b]).
  destruct (foldM _ [] l); simpl; [by rewrite <- app_assoc|done|done].
Qed.

Lemma each_cons {A B} (f : A → res goerror B) a l :
  each f (a :: l) = (b ← f a; out ← each f l; Ret (b :: out)).
Proof.
  unfold each at 1. simpl. destruct (f a) as [b| |]; simpl; [|done|done]. apply (each_app f l [b]).
Qed.

(** The outcome of [each], when the body does not panic and its results satisfy [P]. *)
Lemma each_spec {A B} (P : A → B → Prop) (f : A → res goerror B) l :
  (∀ a, a ∈ l → match f a with Ret b => P a b | Throw _ => True | Panic _ => False end) →
  match each f l with Ret out => Forall2 P l out | Throw _ => True | Panic _ => False end.
Proof.
  induction l as [|a l IH]; intros Hf; [by constructor|]. rewrite each_cons.
  pose proof (Hf a ltac:(by left)) as Ha. destruct (f a) as [b| |]; simpl; [|done|done].
  assert (∀ a, a ∈ l → _) as Hf' by (intros a' Ha'; apply (Hf a'); by right). specialize (IH Hf').
  destruct (each f l); simpl; [by constructor|done|done].
Qed.

Lemma each_Ret {A B} (f : A → res goerror B) (g : A → B) l :
  (∀ a, a ∈ l → f a = Ret (g a)) → each f l = Ret (g <$> l).
Proof.
  induction l as [|a l IH]; intros Hf; [done|]. rewrite each_cons, Hf by by left. simpl.
  rewrite IH; [done|]. intros a' Ha'. apply Hf. by right.
Qed.

(** A list of entries of a map, key by key. *)
Lemma list_to_map_Forall2 `{MapRange} {A B} (P : string → A → B → Prop) n (m : gmap string A)
    (out : list (string * B)) k :
  Forall2 (λ x y, x.1 = y.1 ∧ P x.1 x.2 y.2) (range n m) out →
  match m !! k, (list_to_map out : gmap string B) !! k with
  | Some a, Some b => P k a b
  | None, None => True
  | _, _ => False
  end.
Proof.
  intros HF. pose proof (NoDup_range n m) as Hnd.
  assert (m !! k = (list_to_map (range n m) : gmap string A) !! k) as -> by by rewrite range_list_to_map.
  induction HF as [|[k1 a] [k2 b] l out [Hk Hp] HF IH]; simpl in *; [by rewrite !lookup_empty|].
  subst k2. apply NoDup_cons in Hnd as [_ Hnd]. destruct (decide (k1 = k)) as [->|Hne].
  - by rewrite !lookup_insert_eq.
  - rewrite !lookup_insert_ne by done. by apply IH.
Qed.

Lemma lookup_list_to_map_range `{MapRange} {A B} (h : string → B) n (m : gmap string A) k :
  (list_to_map ((λ x, (x.1, h x.1)) <$> range n m) : gmap string B) !! k = (λ _, h k) <$> m !! k.
Proof.
  pose proof (list_to_map_Forall2 (λ k _ b, b = h k) n m
    ((λ x, (x.1, h x.1)) <$> range n m) k) as Hk.
  rewrite Forall2_fmap_r in Hk. specialize (Hk ltac:(apply Forall2_same_length_lookup_2; naive_solver)).
  destruct (m !! k), (list_to_map _ !! k); simpl; naive_solver.
Qed.

Lemma strip_prefix_app p s : strip_prefix p (p +:+ s) = Some s.
Proof.
  induction p as [|c p IH]; [done|].
  change (strip_prefix (String c p) (String c p +:+ s))
    with (if decide (c = c) then strip_prefix p (p +:+ s) else None). by rewrite decide_True.
Qed.

Lemma seal_type `{Proto} msg tv : seal msg = Ret tv → ValueType (Some tv) = MessageName msg.
Proof.
  unfold seal, marshalAny. destruct (marshal msg); [|done]. intros [= <-]. unfold ValueType.
  cbn [mbind option_bind TypedValue_Value TypeUrl]. by rewrite strip_prefix_app.
Qed.

Section roundtrip.
Context `{MapRange} `{Proto}.
(** Decoding an encoded value message gives it back. *)
Context (marshal_faithful : ∀ m b, value_message m → marshal m = Some b → wire m).

Lemma seal_spec msg :
  value_message msg →
  match seal msg with
  | Ret tv => UnwrapProto tv = Ret msg | Throw _ => True | Panic _ => False end.
Proof.
  intros Hm. unfold seal, marshalAny. destruct (marshal msg) as [b|] eqn:Hb; simpl; [|done].
  unfold UnwrapProto. simpl.
  change (TypeUrlPrefix +:+ MessageName msg) with ("types.fission.io" +:+ "/" +:+ MessageName msg).
  by rewrite (unmarshal_marshal "types.fission.io" msg b (marshal_faithful _ _ Hm Hb) Hb).
Qed.

Definition roundtrips (n : nat) (v : gval) (tv : option TypedValue) : Prop :=
  is_Some tv ∧ ∀ fuel, n < fuel → Unwrap fuel tv = Ret (norm v).

Lemma leaf_roundtrip fuel n v :
  plain n v → (∀ m, v ≠ VMap m) → (∀ l, v ≠ VList l) → 0 < fuel →
  match Wrap fuel v with Ret tv => roundtrips n v tv | Throw _ => True | Panic _ => False end.
Proof.
  intros Hp Hm Hl Hf. destruct fuel as [|fuel]; [lia|].
  destruct Hp as [n v Hv|n m _|n l _]; [|by destruct (Hm m)|by destruct (Hl l)].
  assert (∃ msg, leaf_message v = Some msg ∧ value_message msg ∧
    ∀ fuel tv, UnwrapProto tv = Ret msg → Unwrap (S fuel) (Some tv) = Ret (norm v)) as (msg & Hlm & Hvm & Hu).
  { destruct v; try done; simpl; eexists; (split; [reflexivity|]);
      try (split; [done|intros ? ? Htv; simpl; by rewrite Htv]).
    destruct (IsExpression s); (split; [done|intros ? ? Htv; simpl; by rewrite Htv]). }
  pose proof (seal_spec msg Hvm) as Hs.
  assert (Wrap (S fuel) v = (tv ← seal msg; Ret (Some tv))) as ->
    by (destruct v; try done; simpl in *; by simplify_eq).
  destruct (seal msg) as [tv| |]; simpl; [|done|done]. split; [by eexists|].
  intros [|fuel'] Hf'; [lia|]. by apply Hu.
Qed.

Lemma Wrap_map fuel n m :
  (∀ k v, m !! k = Some v → match Wrap fuel v with
     Ret tv => roundtrips n v tv | Throw _ => True | Panic _ => False end) →
  match Wrap (S fuel) (VMap m) with
  | Ret tv => roundtrips (S n) (VMap m) tv | Throw _ => True | Panic _ => False end.
Proof.
  intros Hm. cbn [Wrap].
  pose proof (each_spec (λ x y, x.1 = y.1 ∧ roundtrips n x.2 y.2)
    (λ '(k, v), tv ← wrap_err ("failed to parse map[" +:+ k +:+ "]") (Wrap fuel v); Ret (k, tv))
    (range 0 m)
    ltac:(intros [k v] Hin%elem_of_range; specialize (Hm k v Hin); by destruct (Wrap fuel v))) as He.
  destruct (each _ (range 0 m)) as [values| |]; simpl; [|done|done].
  pose proof (each_spec (λ x y, x.1 = y.1 ∧ x.2 = Some y.2)
    (λ '(k, tv), tv ← non_nil tv; Ret (k, tv)) values
    ltac:(intros [k [tv|]] _; done)) as He2.
  destruct (each _ values) as [tvs| |]; simpl; [|done|done].
  assert (Forall2 (λ x y, x.1 = y.1 ∧ roundtrips n x.2 (Some y.2)) (range 0 m) tvs) as Htvs.
  { eapply Forall2_compose; [|exact He|exact He2].
    intros [k1 v] [k2 o] [k3 tv] [? ?] [? ?]; simpl in *; subst. done. }
  clear He He2. set (M := list_to_map tvs : gmap string TypedValue).
  assert (∀ k, match m !! k, M !! k with
    | Some v, Some tv => roundtrips n v (Some tv) | None, None => True | _, _ => False end) as HM
    by (intros k; by apply (list_to_map_Forall2 (λ _ v tv, roundtrips n v (Some tv)) 0 m tvs k)).
  pose proof (seal_spec (MapValue M) I) as Hs.
  destruct (seal (MapValue M)) as [tv| |]; simpl; [|done|done].
  split; [by eexists|]. intros [|fuel'] Hf; [lia|]. simpl. rewrite Hs. simpl.
  erewrite (each_Ret _ (λ x, (x.1, default VNil (norm <$> m !! x.1)))).
  - simpl. f_equal. f_equal. apply map_eq. intros k.
    rewrite (lookup_list_to_map_range (λ k, default VNil (norm <$> m !! k))), lookup_fmap.
    specialize (HM k). by destruct (m !! k), (M !! k).
  - intros [k t] Hin%elem_of_range. cbn [fst]. specialize (HM k). rewrite Hin in HM.
    destruct (m !! k) as [v|]; [|done]. destruct HM as [_ Hu]. rewrite Hu by lia. done.
Qed.

Lemma Wrap_spec n v fuel :
  plain n v → n < fuel →
  match Wrap fuel v with Ret tv => roundtrips n v tv | Throw _ => True | Panic _ => False end.
Proof.
  intros Hp. revert fuel. induction Hp as [n v Hv|n m Hm IH|n l Hl IH]; intros fuel Hf.
  - apply leaf_roundtrip; [by constructor|by destruct v|by destruct v|lia].
  - destruct fuel as [|fuel]; [lia|]. apply Wrap_map. intros k v Hk. apply (IH k v Hk). lia.
  - destruct fuel as [|fuel]; [lia|]. cbn [Wrap].
    pose proof (each_spec (λ x y, roundtrips n x y) (λ v, wrap_err "failed to parse array" (Wrap fuel v)) l
      ltac:(intros v Hin; specialize (IH v Hin fuel ltac:(lia)); cbv beta; by destruct (Wrap fuel v))) as He.
    destruct (each _ l) as [values| |]; simpl; [|done|done].
    pose proof (each_spec (λ x y, x = Some y) non_nil values ltac:(intros [tv|] _; done)) as He2.
    destruct (each non_nil values) as [tvs| |]; simpl; [|done|done].
    assert (Forall2 (λ x y, roundtrips n x (Some y)) l tvs) as Htvs.
    { eapply Forall2_compose; [|exact He|exact He2]. by intros v o tv Hv ->. }
    pose proof (seal_spec (ArrayValue tvs) I) as Hs.
    destruct (seal (ArrayValue tvs)) as [tv| |]; simpl; [|done|done].
    split; [by eexists|]. intros [|fuel'] Hf'; [lia|]. simpl. rewrite Hs. simpl.
    assert (each (λ v, wrap_err "failed to format array" (Unwrap fuel' (Some v))) tvs = Ret (norm <$> l)) as ->;
      [|done].
    clear -Htvs Hf'. induction Htvs as [|v tv l tvs [_ Hu] _ IH]; [done|]. rewrite each_cons, Hu by lia.
    simpl. by rewrite IH.
Qed.
End roundtrip.

(** ** Expressions *)

Fixpoint no_newline (s : string) : bool :=
  match s with EmptyString => true | String c s => bool_decide (c ≠ "010"%char) && no_newline s end.

Lemma expression_body_spec s body :
  expression_body s = Some body ↔ s = body +:+ "}" ∧ no_newline body = true.
Proof.
  revert body. induction s as [|c s IH]; intros body; [split; [done|intros [Hs _]; by destruct body]|].
  destruct s as [|c' s].
  - simpl. case_decide as Hc; [subst|].
    + split; [by intros [= <-]|]. intros [Hs _]. destruct body as [|d [|]]; by simplify_eq/=.
    + split; [done|]. intros [Hs _]. destruct body as [|d [|]]; by injection Hs.
  - change (expression_body (String c (String c' s))) with
      (if decide (c = "010"%char) then None else String c <$> expression_body (String c' s)).
    case_decide as Hc; [subst|].
    + split; [done|]. intros [Hs Hn]. destruct body as [|d body]; [by injection Hs|]. by injection Hs as <- _.
    + split.
      * intros Hb. apply fmap_Some in Hb as (b & Hb & ->). apply IH in Hb as [Hs Hn].
        split; [by rewrite Hs|]. simpl. by rewrite bool_decide_true.
      * intros [Hs Hn]. destruct body as [|d body]; [done|]. injection Hs as <- Hs.
        simpl in Hn. apply andb_prop in Hn as [_ Hn].
        apply fmap_Some. exists body. split; [|done]. by apply IH.
Qed.

(** A string is an expression exactly when it is a text without line breaks in braces;
    removing the delimiters gives that text, and leaves any other string alone. *)
Theorem expression_delimiters (s : string) :
  (IsExpression s = true ↔ ∃ body, s = "{" +:+ body +:+ "}" ∧ no_newline body = true) ∧
  (∀ body, no_newline body = true → RemoveExpressionDelimiters ("{" +:+ body +:+ "}") = body) ∧
  (IsExpression s = false → RemoveExpressionDelimiters s = s).
Proof.
  assert (∀ s body, expressionRe s = Some body ↔ s = "{" +:+ body +:+ "}" ∧ no_newline body = true) as He.
  { intros s' body. unfold expressionRe. destruct s' as [|c s']; [split; [done|by intros [? _]]|].
    destruct (decide (c = "{"%char)) as [->|Hc].
    - rewrite expression_body_spec. split; [by intros [-> ?]|intros [Hs ?]; by injection Hs as ->].
    - split; [|intros [Hs _]; by injection Hs]. intros Hx. exfalso.
      by destruct c as [[][][][][][][][]]. }
  unfold IsExpression, RemoveExpressionDelimiters. split_and!.
  - rewrite bool_decide_eq_true. unfold is_Some. by setoid_rewrite He.
  - intros body Hn. assert (expressionRe ("{" +:+ body +:+ "}") = Some body) as -> by by apply He.
    done.
  - rewrite bool_decide_eq_false. destruct (expressionRe s); [|done]. intros []. by eexists.
Qed.

(** ** Properties *)


Definition codec_1 : Proto :=
  let s := StringValue "x" in
  let e := Expression "{ 1 }" in
  let i := Int32Value (-2147483648) in
  let tv m n := MkTypedValue (Some (MkAny (TypeUrlPrefix +:+ MessageName m) (unary n))) ∅ in
  table_proto [s; e; i; MapValue {[ "s" := tv s 0; "i" := tv i 2 ]};
               ArrayValue [tv e 1; tv (MapValue ∅) 3]].

Definition value_1 : gval :=
  VList [VString "{ 1 }"; VMap {[ "s" := VString "x"; "i" := VInt 2147483648 ]}].

Lemma value_1_plain : plain 2 value_1.
Proof.
  apply plain_list. intros v Hv. apply elem_of_cons in Hv as [->|Hv]; [by constructor|].
  apply list_elem_of_singleton in Hv as ->. apply plain_map.
  intros k v [[_ <-]|[_ [_ <-]%lookup_singleton_Some]]%lookup_insert_Some; by constructor.
Qed.

Definition wrapped_1 : TypedValue :=
  MkTypedValue (Some (MkAny (TypeUrlPrefix +:+ MessageName (ArrayValue [])) (unary 4))) ∅.

Lemma value_1_wraps :
  (let _ := plain_range in let _ := codec_1 in Wrap 3 value_1) = Ret (Some wrapped_1).
Proof. by vm_compute. Qed.

(** ** Priorities *)

Lemma insert_named_perm x l : insert_named x l ≡ₚ x :: l.
Proof.
  induction l as [|y l IH]; simpl; [done|]. case_decide; [done|]. rewrite IH. apply Permutation_swap.
Qed.

Definition before (x y : NamedInput) : Prop := (priority y.2 ≤ priority x.2)%Z.

Lemma insert_named_sorted x l : Sorted before l → Sorted before (insert_named x l).
Proof.
  induction l as [|y l IH]; simpl; intros Hs; [by repeat constructor|].
  inversion Hs as [|? ? Hs' Hhd]; subst. unfold before in *. case_decide; constructor; auto.
  - constructor. lia.
  - destruct l as [|z l]; simpl; [constructor; lia|].
    inversion Hhd; subst. case_decide; constructor; lia.
Qed.

(** Every input is resolved exactly once, the inputs of a higher priority before those
    of a lower one; an input without a readable priority has priority 0. *)
Theorem Prioritize_sorted `{MapRange} (inputs : gmap string TypedValue) :
  Prioritize inputs ≡ₚ map_to_list inputs ∧
  ∀ i j x y, i < j → Prioritize inputs !! i = Some x → Prioritize inputs !! j = Some y →
    (priority y.2 ≤ priority x.2)%Z.
Proof.
  assert (∀ l acc, foldl (λ sorted x, insert_named x sorted) acc l ≡ₚ acc ++ l ∧
    (Sorted before acc → Sorted before (foldl (λ sorted x, insert_named x sorted) acc l))) as Hl.
  { induction l as [|x l IH]; intros acc; simpl; [by rewrite app_nil_r|].
    destruct (IH (insert_named x acc)) as [Hp Hs]. split.
    - by rewrite Hp, insert_named_perm, <- Permutation_middle.
    - intros Hacc. by apply Hs, insert_named_sorted. }
  destruct (Hl (toNamedInputs inputs) []) as [Hp Hs]. split.
  - unfold Prioritize, sortNamedInputSlices. rewrite Hp. simpl. apply range_perm.
  - specialize (Hs ltac:(constructor)). change (Sorted before (Prioritize inputs)) in Hs. intros i j x y Hij Hx Hy.
    assert (Transitive before) as Htr by (intros a b c; unfold before; lia).
    apply Sorted_StronglySorted in Hs; [|exact Htr].
    rewrite <- (take_drop j (Prioritize inputs)) in Hs.
    apply (StronglySorted_app_1_elem_of before _ _ x y Hs).
    + apply list_elem_of_lookup_2 with i. rewrite lookup_take_lt by done. exact Hx.
    + apply list_elem_of_lookup_2 with 0. rewrite lookup_drop, Nat.add_0_r. exact Hy.
Qed.

(** ** Runs *)

Lemma codec_1_faithful m b : value_message m → @marshal codec_1 m = Some b → @wire codec_1 m.
Proof. intros _. apply table_marshal_wire. Qed.

