(* ===== verification/FnRefs.v ===== *)
(** Component [pkg/types], the text of function references: what [url.Parse] of the Go
    standard library (1.12, the version of the build) makes of a text, and the parser of
    references that is built on it. *)

From stdpp Require Import base gmap strings list.
From S2P Require Import Prelude Data Types TypedValues.
From Stdlib Require Import Ascii.

(** ** net/url *)

Definition code (c : ascii) : N := N_of_ascii c.
Definition between (lo hi : ascii) (c : ascii) : bool := bool_decide (code lo ≤ code c ∧ code c ≤ code hi)%N.
Definition lower (c : ascii) : bool := between "a" "z" c.
Definition upper (c : ascii) : bool := between "A" "Z" c.
Definition digit (c : ascii) : bool := between "0" "9" c.
Definition one_of (s : string) (c : ascii) : bool := bool_decide (c ∈ String.list_ascii_of_string s).

Fixpoint all_chars (p : ascii → bool) (s : string) : bool :=
  match s with EmptyString => true | String c s => p c && all_chars p s end.

(** The text before the first [c], and the text after it if there is one. *)
Fixpoint cut (c : ascii) (s : string) : string * option string :=
  match s with
  | EmptyString => (EmptyString, None)
  | String d s => if decide (c = d) then (EmptyString, Some s)
                  else let '(before, after) := cut c s in (String d before, after)
  end.

(** The texts before and after the last [c]. *)
Fixpoint cut_last (c : ascii) (s : string) : option (string * string) :=
  match s with
  | EmptyString => None
  | String d s =>
      match cut_last c s with
      | Some (before, after) => Some (String d before, after)
      | None => if decide (c = d) then Some (EmptyString, s) else None
      end
  end.

Fixpoint to_lower (s : string) : string :=
  match s with
  | EmptyString => EmptyString
  | String c s => String (if upper c then ascii_of_N (code c + 32) else c) (to_lower s)
  end.

(** [getscheme]: no scheme, a scheme with the rest of the text, or an error. *)
Inductive scheme := NoScheme | Scheme (s rest : string) | BadScheme.

Fixpoint getscheme (first : bool) (s : string) : scheme :=
  match s with
  | EmptyString => NoScheme
  | String c s =>
      if decide (c = ":"%char) then if first then BadScheme else Scheme EmptyString s
      else if lower c || upper c || (negb first && (digit c || one_of "+-." c))
      then match getscheme false s with
           | Scheme p rest => Scheme (String c p) rest | r => r end
      else NoScheme
  end.

Definition unhex (c : ascii) : option N :=
  if digit c then Some (code c - 48)%N
  else if between "a" "f" c then Some (code c - 87)%N
  else if between "A" "F" c then Some (code c - 55)%N
  else None.

(** [shouldEscape] of a character of a host. *)
Definition host_char (c : ascii) : bool :=
  lower c || upper c || digit c || one_of "-_.~!$&'()*+,;=:[]<>" c || bool_decide (code c = 34%N) ||
  bool_decide (128 ≤ code c)%N.

(** [unescape] of a host ([host]) or of another part. *)
Fixpoint unescape (host : bool) (s : string) : option string :=
  match s with
  | EmptyString => Some EmptyString
  | String c s =>
      if decide (c = "%"%char) then
        match s with
        | String a (String b s) =>
            match unhex a, unhex b with
            | Some x, Some y =>
                if host && bool_decide (x < 8)%N && negb (bool_decide (x = 2 ∧ y = 5)%N) then None
                else String (ascii_of_N (16 * x + y)) <$> unescape host s
            | _, _ => None
            end
        | _ => None
        end
      else if host && negb (host_char c) then None
      else String c <$> unescape host s
  end.

Definition user_char (c : ascii) : bool := lower c || upper c || digit c || one_of "-._:~!$&'()*+,;=%@" c.

Section url.
(** [parseHost] of a host that starts with a bracket, an IP literal. *)
Context (parse_literal : string → option string).

Definition parseHost (host : string) : option string :=
  match host with
  | String "["%char _ => parse_literal host
  | _ => unescape true host
  end.

(** The user and the password are checked and dropped. *)
Definition parseAuthority (authority : string) : option string :=
  match cut_last "@" authority with
  | None => parseHost authority
  | Some (userinfo, host) =>
      host ← parseHost host;
      if negb (all_chars user_char userinfo) then None else
      let '(user, password) := cut ":" userinfo in
      _ ← unescape false user;
      _ ← unescape false (default "" password);
      Some host
  end.

(** The parts of a URL the program looks at. *)
Record URL := MkURL { URL_Scheme : string; URL_Host : string; URL_Path : string }.

Definition control (c : ascii) : bool := bool_decide (code c < 32 ∨ code c = 127)%N.

(** [setPath] *)
Definition with_path (scheme host rest : string) : option URL := MkURL scheme host <$> unescape false rest.

(** What follows the scheme. *)
Definition parse_rest (scheme rest : string) : option URL :=
  let rest := (cut "?" rest).1 in
  match rest with
  | String "/"%char (String "/"%char rest') =>
      if bool_decide (scheme = "") && match rest' with String "/"%char _ => true | _ => false end
      then with_path scheme "" rest else
      let '(authority, path) := cut "/" rest' in
      host ← parseAuthority authority;
      with_path scheme host (match path with Some p => String "/"%char p | None => "" end)
  | String "/"%char _ => with_path scheme "" rest
  | _ =>
      if decide (scheme ≠ "") then Some (MkURL scheme "" "")
      else if is_Some_dec (cut ":" (cut "/" rest).1).2 then None
      else with_path scheme "" rest
  end.

(** [url.Parse] *)
Definition url_Parse (s : string) : option URL :=
  let '(u, fragment) := cut "#" s in
  url ← (if negb (all_chars (λ c, negb (control c)) u) then None
         else if decide (u = "*") then Some (MkURL "" "" "*")
         else match getscheme true u with
              | BadScheme => None
              | NoScheme => parse_rest "" u
              | Scheme p rest => parse_rest (to_lower p) rest
              end);
  _ ← unescape false (default "" fragment);
  Some url.

(** ** References *)

(** [strings.Trim(s, "/")] *)
Fixpoint trim_left (s : string) : string :=
  match s with String "/"%char s' => trim_left s' | _ => s end.
Fixpoint trim_right (s : string) : string :=
  match s with
  | EmptyString => EmptyString
  | String c s => match trim_right s with
                  | EmptyString => if decide (c = "/"%char) then EmptyString else String c EmptyString
                  | s' => String c s'
                  end
  end.
Definition trim_slashes (s : string) : string := trim_right (trim_left s).

Definition ErrInvalidFnRef : goerror := ErrNew "invalid function reference".

(** [pkg/types/fnref.go:63-83] ParseFnRef *)
Definition ParseFnRef (s : string) : res goerror FnRef :=
  match url_Parse s with
  | None => Throw ErrInvalidFnRef
  | Some u =>
      let id := trim_slashes (URL_Path u) in
      let '(ns, id) := if decide (id = "") then ("", trim_slashes (URL_Host u)) else (URL_Host u, id) in
      if decide (id = "") then Throw ErrInvalidFnRef else Ret (MkFnRef (URL_Scheme u) ns id)
  end.
End url.

(** The cases of the tests of the repository. *)
Example ParseFnRef_cases :
  let parse := ParseFnRef (λ _, None) in
  parse "noRuntime" = Ret (MkFnRef "" "" "noRuntime") ∧ parse "a://b" = Ret (MkFnRef "a" "" "b") ∧
  parse "http://foobar" = Ret (MkFnRef "http" "" "foobar") ∧
  parse "fission://fission-function/foobar" = Ret (MkFnRef "fission" "fission-function" "foobar") ∧
  parse "" = Throw ErrInvalidFnRef ∧ parse "://" = Throw ErrInvalidFnRef ∧
  parse "://runtimeId" = Throw ErrInvalidFnRef ∧ parse "runtime://" = Throw ErrInvalidFnRef.
Proof. by vm_compute. Qed.

(** ** Round trip *)

(** The characters of names that mean nothing to a URL. *)
Definition plain (c : ascii) : bool := lower c || upper c || digit c || one_of "-_.~" c.
Definition scheme_char (c : ascii) : bool := lower c || digit c || one_of "+-." c.

Lemma plain_facts c : plain c = true →
  one_of ":/?#%@[" c = false ∧ control c = false ∧ host_char c = true.
Proof. by destruct c as [[][][][][][][][]]; vm_compute. Qed.

Lemma scheme_char_facts c : scheme_char c = true →
  one_of ":/?#%@[" c = false ∧ control c = false ∧ upper c = false ∧
  (lower c || upper c || (digit c || one_of "+-." c)) = true.
Proof. by destruct c as [[][][][][][][][]]; vm_compute. Qed.

Lemma not_one_of s c d : one_of s c = false → one_of s d = true → d ≠ c.
Proof. intros Hc Hd ->. congruence. Qed.

Section strings.
Implicit Types s t : string.

Lemma app_nil t : "" +:+ t = t.
Proof. done. Qed.
Lemma app_cons c s t : String c s +:+ t = String c (s +:+ t).
Proof. done. Qed.

Lemma app_nil_r s : s +:+ "" = s.
Proof. induction s as [|c s IH]; [done|]. by rewrite app_cons, IH. Qed.
Lemma app_assoc_r s t u : (s +:+ t) +:+ u = s +:+ (t +:+ u).
Proof. induction s as [|c s IH]; [done|]. by rewrite !app_cons, IH. Qed.

Lemma all_chars_app p s t : all_chars p (s +:+ t) = all_chars p s && all_chars p t.
Proof. induction s as [|c s IH]; [done|]. cbn. by rewrite <- andb_assoc, <- IH. Qed.

Lemma all_chars_impl (p q : ascii → bool) s :
  (∀ c, p c = true → q c = true) → all_chars p s = true → all_chars q s = true.
Proof. intros Hpq. induction s as [|c s IH]; [done|]. cbn. rewrite !andb_true_iff. naive_solver. Qed.

(** [d] does not occur in [s]. *)
Definition without (d : ascii) s : Prop := all_chars (λ c, bool_decide (d ≠ c)) s = true.

Lemma without_plain p d s :
  (∀ c, p c = true → one_of ":/?#%@[" c = false) → one_of ":/?#%@[" d = true →
  all_chars p s = true → without d s.
Proof.
  intros Hp Hd. apply all_chars_impl. intros c Hc. apply bool_decide_eq_true.
  by eapply not_one_of; [apply Hp|].
Qed.

Lemma without_app d s t : without d (s +:+ t) ↔ without d s ∧ without d t.
Proof. unfold without. by rewrite all_chars_app, andb_true_iff. Qed.

Lemma cut_without d s : without d s → cut d s = (s, None).
Proof.
  induction s as [|c s IH]; [done|]. unfold without. cbn. rewrite andb_true_iff, bool_decide_eq_true.
  intros [Hc Hs]. rewrite decide_False by done. by rewrite (IH Hs).
Qed.

Lemma cut_app d s t : without d s → cut d (s +:+ String d t) = (s, Some t).
Proof.
  induction s as [|c s IH]; [intros _; rewrite app_nil; cbn; by rewrite decide_True|].
  unfold without. rewrite app_cons. cbn. rewrite andb_true_iff, bool_decide_eq_true.
  intros [Hc Hs]. rewrite decide_False by done. by rewrite (IH Hs).
Qed.

Lemma cut_last_without d s : without d s → cut_last d s = None.
Proof.
  induction s as [|c s IH]; [done|]. unfold without. cbn. rewrite andb_true_iff, bool_decide_eq_true.
  intros [Hc Hs]. rewrite (IH Hs). by rewrite decide_False.
Qed.

Lemma unescape_plain host s : all_chars plain s = true → unescape host s = Some s.
Proof.
  induction s as [|c s IH]; [done|]. cbn. rewrite andb_true_iff. intros [Hc Hs].
  destruct (plain_facts c Hc) as (H1 & _ & Hh).
  rewrite decide_False by (apply not_eq_sym; by eapply not_one_of).
  rewrite Hh, andb_false_r. by rewrite (IH Hs).
Qed.

Lemma parseHost_plain literal s : all_chars plain s = true → parseHost literal s = Some s.
Proof.
  intros Hs. assert (without "[" s) as Hb by by apply (without_plain plain); [apply plain_facts| |].
  assert (parseHost literal s = unescape true s) as ->; [|by apply unescape_plain].
  destruct s as [|c s]; [done|]. unfold without in Hb. cbn in Hb.
  apply andb_prop in Hb as [Hc _]. apply bool_decide_eq_true in Hc.
  by destruct c as [[][][][][][][][]].
Qed.

Lemma trim_left_without s : without "/" s → trim_left s = s.
Proof.
  destruct s as [|c s]; [done|]. unfold without. cbn. rewrite andb_true_iff, bool_decide_eq_true.
  intros [Hc _]. by destruct c as [[][][][][][][][]].
Qed.

Lemma trim_right_without s : without "/" s → trim_right s = s.
Proof.
  induction s as [|c s IH]; [done|]. unfold without. cbn. rewrite andb_true_iff, bool_decide_eq_true.
  intros [Hc Hs]. rewrite (IH Hs). destruct s; [|done]. by rewrite decide_False.
Qed.

Lemma to_lower_scheme s : all_chars scheme_char s = true → to_lower s = s.
Proof.
  induction s as [|c s IH]; [done|]. cbn. rewrite andb_true_iff. intros [Hc Hs].
  destruct (scheme_char_facts c Hc) as (_ & _ & -> & _). by rewrite (IH Hs).
Qed.

Lemma getscheme_plain b s : without ":" s → getscheme b s = NoScheme.
Proof.
  revert b. induction s as [|c s IH]; intros b; [done|]. unfold without. cbn.
  rewrite andb_true_iff, bool_decide_eq_true. intros [Hc Hs].
  rewrite decide_False by done. rewrite (IH _ Hs). by destruct (_ || _).
Qed.

Lemma getscheme_later s t :
  all_chars scheme_char s = true → getscheme false (s +:+ String ":" t) = Scheme s t.
Proof.
  induction s as [|c s IH]; [done|]. rewrite app_cons. cbn. rewrite andb_true_iff. intros [Hc Hs].
  destruct (scheme_char_facts c Hc) as (H1 & _ & _ & Hl).
  rewrite decide_False by (apply not_eq_sym; by eapply not_one_of).
  rewrite Hl. by rewrite (IH Hs).
Qed.
End strings.

(** A runtime is a scheme in lower case. *)
Definition runtime_name (s : string) : Prop :=
  match s with EmptyString => False | String c s => lower c = true ∧ all_chars scheme_char s = true end.

Lemma getscheme_runtime r t : runtime_name r → getscheme true (r +:+ String ":" t) = Scheme r t.
Proof.
  destruct r as [|c r]; [done|]. intros [Hc Hr]. rewrite app_cons. cbn.
  rewrite decide_False by (intros ->; done). rewrite Hc. cbn. by rewrite getscheme_later.
Qed.

Lemma runtime_chars r : runtime_name r → all_chars scheme_char r = true.
Proof. destruct r as [|c r]; [done|]. intros [Hc Hr]. cbn. unfold scheme_char at 1. by rewrite Hc, Hr. Qed.

Section roundtrip.
Context (parse_literal : string → option string).
Notation url_Parse := (url_Parse parse_literal).
Notation parse_rest := (parse_rest parse_literal).

Lemma plain_without d s : one_of ":/?#%@[" d = true → all_chars plain s = true → without d s.
Proof. intros Hd. apply without_plain; [|done]. intros c Hc. by apply plain_facts. Qed.

Lemma plain_no_control s : all_chars plain s = true → all_chars (λ c, negb (control c)) s = true.
Proof. apply all_chars_impl. intros c Hc. by destruct (plain_facts c Hc) as (_ & -> & _). Qed.

(** A name alone is a path. *)
Lemma url_Parse_name s : s ≠ "" → all_chars plain s = true → url_Parse s = Some (MkURL "" "" s).
Proof.
  intros Hne Hs. unfold FnRefs.url_Parse. rewrite cut_without by by apply plain_without.
  rewrite plain_no_control by done. cbn [negb]. rewrite decide_False by (intros ->; done).
  rewrite getscheme_plain by by apply plain_without.
  assert (parse_rest "" s = Some (MkURL "" "" s)) as ->; [|done].
  unfold FnRefs.parse_rest. rewrite cut_without by by apply plain_without. cbn [fst].
  assert (without "/" s) as Hslash by by apply plain_without.
  assert (match s with String "/"%char _ => False | _ => True end) as Hhead.
  { destruct s as [|c s]; [done|]. unfold without in Hslash. cbn in Hslash.
    apply andb_prop in Hslash as [Hc _]. apply bool_decide_eq_true in Hc.
    by destruct c as [[][][][][][][][]]. }
  assert (is_Some (cut ":" (cut "/" s).1).2 → False) as Hcolon.
  { rewrite (cut_without "/" s) by done. cbn [fst]. rewrite cut_without by by apply plain_without.
    by intros []. }
  assert ((if decide ("" ≠ "") then Some (MkURL "" "" "") else
           if is_Some_dec (cut ":" (cut "/" s).1).2 then None else with_path "" "" s) =
          Some (MkURL "" "" s)) as Hthird.
  { rewrite decide_False by auto. destruct (is_Some_dec _) as [Hc|_]; [by destruct Hcolon|].
    unfold with_path. by rewrite unescape_plain. }
  destruct s as [|c s]; [done|]. by destruct c as [[][][][][][][][]].
Qed.

(** A name or a path after a runtime. *)
Lemma url_Parse_runtime r host path :
  runtime_name r → all_chars plain host = true →
  (path = "" ∨ ∃ p, path = String "/" p ∧ all_chars plain p = true) →
  url_Parse (r +:+ String ":" (String "/" (String "/" (host +:+ path)))) = Some (MkURL r host path).
Proof.
  intros Hr Hh Hp. pose proof (runtime_chars r Hr) as Hrc.
  assert (∀ d, d ≠ ":"%char → d ≠ "/"%char → one_of ":/?#%@[" d = true →
    without d (r +:+ String ":" (String "/" (String "/" (host +:+ path))))) as Hw.
  { intros d Hd1 Hd2 Hd. apply without_app. split.
    - apply (without_plain scheme_char); [|done|done]. intros c Hc. by apply scheme_char_facts.
    - unfold without. cbn. rewrite !bool_decide_true by done. cbn.
      rewrite all_chars_app, andb_true_iff. split; [by apply plain_without|].
      destruct Hp as [->|(p & -> & Hp)]; [done|]. cbn. rewrite bool_decide_true by done. by apply plain_without. }
  assert (without "?" (host +:+ path)) as Hq.
  { apply without_app. split; [by apply plain_without|].
    destruct Hp as [->|(p & -> & Hp)]; [done|]. unfold without. cbn. by apply plain_without. }
  unfold FnRefs.url_Parse. rewrite cut_without by by apply Hw.
  assert (all_chars (λ c, negb (control c)) (r +:+ String ":" (String "/" (String "/" (host +:+ path)))) = true) as ->.
  { rewrite all_chars_app, andb_true_iff. split.
    - revert Hrc. apply all_chars_impl. intros c Hc. by destruct (scheme_char_facts c Hc) as (_ & -> & _).
    - change (all_chars (λ c, negb (control c)) (host +:+ path) = true).
      rewrite all_chars_app, andb_true_iff. split; [by apply plain_no_control|].
      destruct Hp as [->|(p & -> & Hp)]; [done|].
      change (all_chars (λ c, negb (control c)) p = true). by apply plain_no_control. }
  cbn [negb]. rewrite decide_False; [|intros Hstar; destruct r as [|c [|]]; try done;
    rewrite app_cons in Hstar; by injection Hstar].
  rewrite getscheme_runtime, to_lower_scheme by done.
  assert (parse_rest r (String "/" (String "/" (host +:+ path))) = Some (MkURL r host path)) as ->; [|done].
  unfold FnRefs.parse_rest.
  rewrite cut_without by (unfold without; cbn; exact Hq). cbn [fst].
  rewrite bool_decide_false by (by destruct r). cbn [andb].
  assert (parseAuthority parse_literal host = Some host) as Ha.
  { unfold parseAuthority. rewrite cut_last_without by by apply plain_without. by apply parseHost_plain. }
  destruct Hp as [->|(p & -> & Hp)].
  - rewrite app_nil_r. rewrite cut_without by by apply plain_without. by rewrite Ha.
  - rewrite cut_app by by apply plain_without. rewrite Ha. cbn [mbind option_bind].
    unfold with_path. change (unescape false (String "/" p)) with (String "/" <$> unescape false p).
    by rewrite unescape_plain.
Qed.

(** The references whose names are plain: a runtime in lower case, and no namespace
    without a runtime. *)
Record plain_ref (ref : FnRef) : Prop := {
  plain_runtime : FnRef_Runtime ref = "" ∧ FnRef_Namespace ref = "" ∨ runtime_name (FnRef_Runtime ref);
  plain_namespace : all_chars plain (FnRef_Namespace ref) = true;
  plain_id : all_chars plain (FnRef_ID ref) = true ∧ FnRef_ID ref ≠ "" }.

Lemma trim_plain s : all_chars plain s = true → trim_slashes s = s.
Proof.
  intros Hs. unfold trim_slashes. rewrite trim_left_without by by apply plain_without.
  apply trim_right_without. by apply plain_without.
Qed.

(** Writing a reference with plain names and parsing the text gives the reference back, so
    that different references have different texts; and whatever text is parsed
    successfully, the reference names a function. *)
Theorem ParseFnRef_Format (ref : FnRef) :
  (plain_ref ref → ParseFnRef parse_literal (FnRef_Format ref) = Ret ref) ∧
  ∀ s, ParseFnRef parse_literal s = Ret ref → FnRef_ID ref ≠ "".
Proof.
  split.
  - intros [Hr Hn [Hid Hne]]. destruct ref as [r ns id]. cbn in Hr, Hn, Hid, Hne.
    unfold ParseFnRef, FnRef_Format. cbn [FnRef_Runtime FnRef_Namespace FnRef_ID].
    destruct Hr as [[-> ->]|Hr].
    { rewrite !decide_True by done. rewrite app_nil, url_Parse_name by done.
      cbn [URL_Path URL_Host URL_Scheme]. rewrite trim_plain by done. by rewrite !decide_False. }
    rewrite (decide_False (P := r = "")) by (by destruct r). unfold RuntimeDelimiter.
    destruct (decide (ns = "")) as [->|Hns].
    + rewrite app_assoc_r. change ("://" +:+ id) with (String ":" (String "/" (String "/" id))).
      rewrite <- (app_nil_r id) at 1. rewrite url_Parse_runtime by eauto.
      cbn [URL_Path URL_Host URL_Scheme]. change (trim_slashes "") with "". rewrite decide_True by done.
      rewrite trim_plain by done. by rewrite decide_False.
    + rewrite app_assoc_r.
      change ("://" +:+ (ns +:+ "/" +:+ id)) with
        (String ":" (String "/" (String "/" (ns +:+ String "/" id)))).
      rewrite url_Parse_runtime by eauto. cbn [URL_Path URL_Host URL_Scheme].
      change (trim_slashes (String "/" id)) with (trim_slashes id). rewrite trim_plain by done.
      by rewrite !decide_False.
  - intros s. unfold ParseFnRef. destruct (FnRefs.url_Parse parse_literal s) as [u|]; [|done].
    destruct (if decide _ then _ else _) as [ns id]. case_decide; [done|]. by intros [= <-].
Qed.
End roundtrip.

Lemma ParseFnRef_Format_witness :
  ParseFnRef (λ _, None) (FnRef_Format (MkFnRef "fission" "default" "hello-world")) =
    Ret (MkFnRef "fission" "default" "hello-world").
Proof.
  apply (ParseFnRef_Format (λ _, None) (MkFnRef "fission" "default" "hello-world")).
  split; [right; split; by vm_compute|by vm_compute|split; [by vm_compute|discriminate]].
Defined.

(** Names that mean something to a URL do not come back: a runtime in upper case, a
    namespace without a runtime, an identifier with a query. *)
Example ParseFnRef_lossy :
  let again ref := ParseFnRef (λ _, None) (FnRef_Format ref) in
  again (MkFnRef "Fission" "" "f") = Ret (MkFnRef "fission" "" "f") ∧
  again (MkFnRef "" "ns" "f") = Ret (MkFnRef "" "" "ns/f") ∧
  again (MkFnRef "fission" "" "f?x") = Ret (MkFnRef "fission" "" "f") ∧
  again (MkFnRef "" "" "wf:1") = Throw ErrInvalidFnRef.
Proof. by vm_compute. Qed.
