(* ===== verification/Util.v ===== *)
(** Component [pkg/util], small utilities: truncation, the map with a cached length, waiting with a
    timeout and the conversions of timestamps; and [pkg/util/fsm], finite state machines. *)

From stdpp Require Import base gmap strings list pretty.
From S2P Require Import Prelude Data Types TypedValues FnRefs.

(** ** pkg/util *)

(** The text of the value, [%v], is an argument. *)
(** [pkg/util/util.go:63-70] Truncate *)
Definition Truncate (s : string) (maxLen : Z) : res goerror string :=
  if decide (Z.of_nat (String.length s) ≤ maxLen)%Z then Ret s else
  let affix := "<truncated orig_len: " +:+ pretty (Z.of_nat (String.length s)) +:+ ">" in
  if decide (String.length s < String.length affix) then Panic "slice bounds out of range"
  else Ret (String.substring 0 (String.length s - String.length affix) s +:+ affix).

Lemma length_substring_0 n s : n ≤ String.length s → String.length (String.substring 0 n s) = n.
Proof.
  revert n. induction s as [|c s IH]; intros [|n]; cbn; [done|lia|done|].
  intros Hn. f_equal. apply IH. lia.
Qed.

(** Truncating does not shorten.  A text longer than the limit is returned at its own length, its
    end replaced by a note of that length; if it is shorter than the note, truncating it
    panics. *)
Theorem Truncate_length (s : string) (maxLen : Z) :
  (maxLen < Z.of_nat (String.length s))%Z →
  match Truncate s maxLen with
  | Ret t => String.length t = String.length s ∧
      ∃ kept, t = kept +:+ ("<truncated orig_len: " +:+ pretty (Z.of_nat (String.length s)) +:+ ">")
  | Throw _ => False
  | Panic _ => String.length s < 22 + String.length (pretty (Z.of_nat (String.length s)))
  end.
Proof.
  intros Hlen. unfold Truncate. rewrite decide_False by lia.
  set (affix := "<truncated orig_len: " +:+ pretty (Z.of_nat (String.length s)) +:+ ">").
  assert (String.length affix = 22 + String.length (pretty (Z.of_nat (String.length s)))) as Ha.
  { unfold affix. rewrite !string_length_app. cbn. lia. }
  case_decide as Hs; [lia|]. split; [|by eexists].
  rewrite string_length_app, length_substring_0 by lia. lia.
Qed.

Lemma Truncate_length_witness :
  Truncate "a text that is longer than the note itself" 10 = Ret "a text that is lon<truncated orig_len: 42>" ∧
  String.length "a text that is lon<truncated orig_len: 42>" = 42.
Proof.
  pose proof (Truncate_length "a text that is longer than the note itself" 10 ltac:(by vm_compute)) as Ht.
  assert (Truncate "a text that is longer than the note itself" 10 = Ret "a text that is lon<truncated orig_len: 42>") as Hr
    by (by vm_compute).
  rewrite Hr in Ht. split; [exact Hr|exact (proj1 Ht)].
Defined.

Section sync_map.
Context {K : Type} `{Countable K} {V : Type}.

(** The pointer [cachedLen] refers to a cell of its own. *)
(** [pkg/util/util.go:73-76] SyncMapLen *)
Record SyncMapLen := MkSyncMapLen { mp : gmap K V; cachedLen : option Z }.

Definition NewSyncMapLen : SyncMapLen := MkSyncMapLen ∅ None.

(** [atomic.StoreInt32(e.cachedLen, count)]: storing through the pointer it has just found
    to be [nil]. *)
(** [pkg/util/util.go:78-89] SyncMapLen.Len *)
Definition SyncMapLen_Len (e : SyncMapLen) : res goerror Z :=
  match cachedLen e with
  | None => Panic "nil pointer dereference"
  | Some n => Ret n
  end.

(** [pkg/util/util.go:91-97] SyncMapLen.LoadOrStore *)
Definition LoadOrStore (key : K) (value : V) (e : SyncMapLen) : (V * bool) * SyncMapLen :=
  match mp e !! key with
  | Some actual => ((actual, true), e)
  | None => ((value, false), MkSyncMapLen (<[key := value]> (mp e)) ((λ n, to_i32 (n + 1)) <$> cachedLen e))
  end.

(** [pkg/util/util.go:99-101] SyncMapLen.Load *)
Definition Load (key : K) (e : SyncMapLen) : option V := mp e !! key.

(** [pkg/util/util.go:103-106] SyncMapLen.Store *)
Definition Store (key : K) (value : V) (e : SyncMapLen) : SyncMapLen := MkSyncMapLen (<[key := value]> (mp e)) None.

(** [pkg/util/util.go:108-111] SyncMapLen.Delete *)
Definition Delete (key : K) (e : SyncMapLen) : SyncMapLen := MkSyncMapLen (delete key (mp e)) None.

Inductive map_op := OpLoadOrStore (key : K) (value : V) | OpStore (key : K) (value : V) | OpDelete (key : K).
Definition map_step (e : SyncMapLen) (o : map_op) : SyncMapLen :=
  match o with
  | OpLoadOrStore k v => (LoadOrStore k v e).2
  | OpStore k v => Store k v e
  | OpDelete k => Delete k e
  end.

(** The length of such a map cannot be asked for: after any operations on a new map, [Len]
    panics, since the only place that would set the cached length stores through it. *)
Theorem Len_panics (ops : list map_op) :
  SyncMapLen_Len (foldl map_step NewSyncMapLen ops) = Panic "nil pointer dereference".
Proof.
  assert (cachedLen (foldl map_step NewSyncMapLen ops) = None) as Hc; [|unfold SyncMapLen_Len; by rewrite Hc].
  induction ops as [|o ops IH] using rev_ind; [done|]. rewrite foldl_app. cbn [foldl].
  destruct o as [k v|k v|k]; [|done|done]. cbn. unfold LoadOrStore.
  destruct (_ !! k); cbn; [done|]. by rewrite IH.
Qed.
End sync_map.

(** [pkg/util/util.go:42-53] ConvertStructsToMap *)
Definition ConvertStructsToMap {I D M : Type} (json_Marshal : I → res goerror D) (json_Unmarshal : D → res goerror M)
    (i : I) : res goerror M :=
  ds ← json_Marshal i;
  json_Unmarshal ds.

(** [pkg/util/util.go:55-61] MustConvertStructsToMap *)
Definition MustConvertStructsToMap {I D M : Type} (json_Marshal : I → res goerror D) (json_Unmarshal : D → res goerror M)
    (i : I) : res goerror M :=
  match ConvertStructsToMap json_Marshal json_Unmarshal i with Throw err => Panic "error" | r => r end.

Section numbers.
(** The conversions of Go to 64-bit floats, by their bits. *)
Context (float64_of_float32 : Z → Z) (float64_of_int : Z → Z).

(** The types [int8] and [int16] are not among the values of the model. *)
(** [pkg/util/util.go:137-157] ToNumber *)
Definition ToNumber (val : gval) : res goerror Z :=
  match val with
  | VFloat64 t => Ret t
  | VFloat32 t => Ret (float64_of_float32 t)
  | VInt t | VInt32 t | VInt64 t => Ret (float64_of_int t)
  | _ => Throw (ErrNew "not a supported number (int, int8, int16, int32, int64, float32, and float64)")
  end.
End numbers.

Section timestamps.
Context `{PTypes}.

(** [pkg/util/util.go:168-174] MustTimestampProto *)
Definition MustTimestampProto (ts : Z) : res goerror Timestamp :=
  match pt_TimestampProto ts with Some protoTs => Ret protoTs | None => Panic "timestamp" end.

(** [pkg/util/util.go:176-182] MustTimestamp *)
Definition MustTimestamp (protoTs : option Timestamp) : res goerror Z :=
  let '(ts, ok) := pt_Timestamp protoTs in
  if ok then Ret ts else Panic "timestamp".
End timestamps.

(** [Wait] for a group that is done at a time, if it ever is: what is returned, and whether the
    goroutine that waits for the group panics later, sending on the channel that the return has
    closed.  With both at the same time either can be chosen. *)
(** [pkg/util/util.go:26-40] Wait *)
Inductive WaitResult (timeout : Z) : option Z → bool → bool → Prop :=
| wait_done t : (t ≤ timeout)%Z → WaitResult timeout (Some t) true false
| wait_timeout t : match t with Some t => (timeout ≤ t)%Z | None => True end →
    WaitResult timeout t false (match t with Some _ => true | None => false end).

(** ** pkg/util/fsm *)

Section fsm.
Context {A : Type} `{Countable A}.

(** [pkg/util/fsm/fsm.go:14-18] Transition *)
Record Transition := MkTransition { Tr_Event : A; Tr_Src : A; Tr_Dst : A }.

(** [pkg/util/fsm/fsm.go:9-12] Fsm *)
Record Fsm := MkFsm { Initial : A; Transitions : gmap A (list Transition) }.

Definition add_transition (nodes : gmap A (list Transition)) (t : Transition) : gmap A (list Transition) :=
  let nodes := <[Tr_Src t := match nodes !! Tr_Src t with Some existing => existing ++ [t] | None => [t] end]> nodes in
  match nodes !! Tr_Dst t with Some _ => nodes | None => <[Tr_Dst t := []]> nodes end.

(** [pkg/util/fsm/fsm.go:50-53] Fsm.NodeExists *)
Definition NodeExists (f : Fsm) (i : A) : bool := bool_decide (is_Some (Transitions f !! i)).

(** [pkg/util/fsm/fsm.go:20-48] New *)
Definition Fsm_New (initial : A) (transitions : list Transition) : res goerror Fsm :=
  let f := MkFsm initial (foldl add_transition ∅ transitions) in
  if NodeExists f initial then Ret f else Panic "Initial does not exist!".

Definition transitions_of (f : Fsm) (src : A) : list Transition := default [] (Transitions f !! src).

(** [pkg/util/fsm/fsm.go:55-62] Fsm.FindTransition *)
Definition FindTransition (f : Fsm) (src dst : A) : option Transition :=
  list_find (λ t, Tr_Dst t = dst) (transitions_of f src) ≫= λ p, Some p.2.

(** An instance, with the number of read locks that are held on its mutex; the write lock is
    never held between two operations. *)
(** [pkg/util/fsm/fsm.go:77-81] FsmInstance *)
Record FsmInstance := MkFsmInstance { Instance_Fsm : Fsm; readers : nat; current : A }.

(** [pkg/util/fsm/fsm.go:64-75] Fsm.NewInstance *)
Definition NewInstance (f : Fsm) (overrideInitial : list A) : FsmInstance :=
  MkFsmInstance f 0 (match overrideInitial with i :: _ => i | [] => Initial f end).

(** [f.mx.RLock()]; [defer f.mx.RLock()] takes a second read lock where the first was meant to be
    released. *)
Definition RLock (f : FsmInstance) : FsmInstance := MkFsmInstance (Instance_Fsm f) (S (readers f)) (current f).

(** [f.mx.Lock(); defer f.mx.Unlock()]: [None] is waiting forever for the readers. *)
Definition locked {B} (f : FsmInstance) (body : B) : option B := if decide (readers f = 0) then Some body else None.

(** [pkg/util/fsm/fsm.go:83-97] FsmInstance.CanTransitionTo *)
Definition CanTransitionTo (node : A) (f : FsmInstance) : bool * FsmInstance :=
  (if NodeExists (Instance_Fsm f) node
   then existsb (λ t, bool_decide (Tr_Dst t = node)) (transitions_of (Instance_Fsm f) (current f))
   else false, RLock (RLock f)).

(** [pkg/util/fsm/fsm.go:99-108] FsmInstance.TransitionTo *)
Definition TransitionTo (node : A) (f : FsmInstance) : option (res goerror () * FsmInstance) :=
  let '(can, f) := CanTransitionTo node f in
  if can then locked f (Ret (), MkFsmInstance (Instance_Fsm f) (readers f) node)
  else Some (Throw (ErrNew "cannot transition to next"), f).

(** The transitions are those of the state before the loop. *)
(** [pkg/util/fsm/fsm.go:110-120] FsmInstance.Evaluate *)
Definition Evaluate (input : A) (f : FsmInstance) : option FsmInstance :=
  locked f (foldl (λ f t, if decide (Tr_Event t = input) then MkFsmInstance (Instance_Fsm f) (readers f) (Tr_Dst t) else f)
              f (transitions_of (Instance_Fsm f) (current f))).

(** [pkg/util/fsm/fsm.go:122-126] FsmInstance.Current *)
Definition Current (f : FsmInstance) : A * FsmInstance := (current f, RLock (RLock f)).

(** *** Properties *)

Lemma add_transitions_lookup ts n :
  let nodes := foldl add_transition ∅ ts in
  default [] (nodes !! n) = filter (λ t, Tr_Src t = n) ts ∧
  (is_Some (nodes !! n) ↔ ∃ t, t ∈ ts ∧ (Tr_Src t = n ∨ Tr_Dst t = n)).
Proof.
  induction ts as [|t ts IH] using rev_ind.
  { cbn. rewrite lookup_empty. split; [done|]. split; [by intros []|]. intros (t & Ht & _). by apply elem_of_nil in Ht. }
  cbn zeta. rewrite foldl_app, filter_app. cbn [foldl]. set (nodes := foldl add_transition ∅ ts) in *.
  destruct IH as [IHl IHs]. unfold add_transition.
  set (nodes1 := <[Tr_Src t := _]> nodes).
  assert (default [] (nodes1 !! n) = filter (λ t, Tr_Src t = n) ts ++ filter (λ t, Tr_Src t = n) [t] ∧
          (is_Some (nodes1 !! n) ↔ Tr_Src t = n ∨ is_Some (nodes !! n))) as [H1l H1s].
  { unfold nodes1. rewrite filter_cons, filter_nil. destruct (decide (Tr_Src t = n)) as [Heq|Hne].
    - rewrite Heq, lookup_insert_eq, <- IHl. cbn [from_option id].
      destruct (nodes !! n); cbn; (split; [done|]); split; eauto.
    - rewrite lookup_insert_ne, List.app_nil_r by done. split; [done|]. naive_solver. }
  assert ((∃ t0, t0 ∈ ts ++ [t] ∧ (Tr_Src t0 = n ∨ Tr_Dst t0 = n)) ↔
          is_Some (nodes !! n) ∨ Tr_Src t = n ∨ Tr_Dst t = n) as ->.
  { rewrite IHs. setoid_rewrite elem_of_app. setoid_rewrite list_elem_of_singleton. naive_solver. }
  destruct (nodes1 !! Tr_Dst t) as [l|] eqn:Hdst.
  - split; [done|]. rewrite H1s. split; [tauto|]. intros [?|[?|Hd]]; [by right|by left|]. apply H1s. rewrite <- Hd. eauto.
  - destruct (decide (Tr_Dst t = n)) as [Heq|Hne].
    + rewrite Heq, lookup_insert_eq. rewrite Heq in Hdst. rewrite Hdst in H1l. cbn in *. split; [done|]. split; eauto.
    + rewrite lookup_insert_ne by done. split; [done|]. rewrite H1s. tauto.
Qed.

(** A transition that is allowed never ends.  In a machine made of a list of transitions, the ones
    that leave a state are those of the list, in its order; going to a state that none of
    them leads to is refused, and going to one that is reached by one of them waits forever for the
    read locks that asking took and did not release. *)
Theorem TransitionTo_blocks (initial : A) (ts : list Transition) (f : Fsm) (override : list A) (node : A) :
  Fsm_New initial ts = Ret f →
  let i := NewInstance f override in
  transitions_of f (current i) = filter (λ t, Tr_Src t = current i) ts ∧
  if decide (Exists (λ t, Tr_Src t = current i ∧ Tr_Dst t = node) ts)
  then TransitionTo node i = None
  else ∃ i', TransitionTo node i = Some (Throw (ErrNew "cannot transition to next"), i') ∧ current i' = current i.
Proof.
  unfold Fsm_New. set (f0 := MkFsm initial (foldl add_transition ∅ ts)).
  destruct (NodeExists f0 initial); [|done]. intros Hf. assert (f = f0) as -> by congruence.
  set (i := NewInstance f0 override). rename f0 into f.
  assert (transitions_of f (current i) = filter (λ t, Tr_Src t = current i) ts) as Hts.
  { unfold transitions_of. apply add_transitions_lookup. }
  split; [done|]. unfold TransitionTo, CanTransitionTo. cbn [Instance_Fsm i NewInstance].
  change (Instance_Fsm i) with f. rewrite Hts.
  assert (existsb (λ t, bool_decide (Tr_Dst t = node)) (filter (λ t, Tr_Src t = current i) ts) = true ↔
          Exists (λ t, Tr_Src t = current i ∧ Tr_Dst t = node) ts) as Hex.
  { rewrite existsb_exists, Exists_exists. setoid_rewrite bool_decide_eq_true. setoid_rewrite <- list_elem_of_In.
    setoid_rewrite list_elem_of_filter. naive_solver. }
  case_decide as Hd.
  - assert (NodeExists f node = true) as ->.
    { unfold NodeExists. apply bool_decide_eq_true. apply Exists_exists in Hd as (t & Ht & _ & Hdst).
      apply add_transitions_lookup. eauto. }
    by rewrite (proj2 Hex Hd).
  - assert ((if NodeExists f node then existsb (λ t, bool_decide (Tr_Dst t = node))
       (filter (λ t, Tr_Src t = current i) ts) else false) = false) as ->.
    { destruct (NodeExists f node); [|done]. apply not_true_is_false. by rewrite Hex. }
    by eexists.
Qed.
End fsm.

Arguments Transition : clear implicits. Arguments Fsm A {_ _}. Arguments FsmInstance A {_ _}.

Lemma TransitionTo_blocks_witness :
  transitions_of (MkFsm 1 {[ 1 := [MkTransition 9 1 2]; 2 := [] ]}) 1 = [MkTransition 9 1 2] ∧
  TransitionTo 2 (NewInstance (MkFsm 1 {[ 1 := [MkTransition 9 1 2]; 2 := [] ]}) []) = None.
Proof.
  destruct (TransitionTo_blocks 1 [MkTransition 9 1 2] (MkFsm 1 {[ 1 := [MkTransition 9 1 2]; 2 := [] ]}) [] 2) as [Ht Hb].
  - by vm_compute.
  - split; [exact Ht|]. rewrite decide_True in Hb; [exact Hb|]. apply Exists_cons. by left.
Defined.
