(* ===== verification/GoPool.v ===== *)
(** Component [pkg/util/gopool]: goroutines with bounded parallelism.  The weighted semaphore of
    [golang.org/x/sync] is a parameter; the callers of [Submit] and [GracefulStop] and the
    goroutines of the pool take their steps in any order. *)

From stdpp Require Import base strings list relations.
From S2P Require Import Prelude Data Types.

(** The semaphore: what can be acquired at once, and what is released; [None] is waiting, or
    releasing more than is held. *)
Class Semaphore := {
  semaphore : Type;
  sem_New : Z → semaphore;
  sem_TryAcquire : Z → semaphore → option semaphore;
  sem_Release : Z → semaphore → option semaphore;
  sem_size : semaphore → Z;
  sem_held : semaphore → Z }.

(** Its documented behaviour: an acquisition succeeds only if the weight is free. *)
Class SemaphoreLaws `{Semaphore} := {
  sem_New_spec : ∀ n, sem_size (sem_New n) = n ∧ sem_held (sem_New n) = 0%Z;
  sem_TryAcquire_spec : ∀ n s s', sem_TryAcquire n s = Some s' →
    sem_size s' = sem_size s ∧ sem_held s' = (sem_held s + n)%Z ∧ (sem_held s' ≤ sem_size s)%Z;
  sem_Release_spec : ∀ n s, (0 ≤ n ≤ sem_held s)%Z →
    ∃ s', sem_Release n s = Some s' ∧ sem_size s' = sem_size s ∧ sem_held s' = (sem_held s - n)%Z }.

(** [pkg/util/gopool/gopool.go:18-20] ErrPoolClosed *)
Definition ErrPoolClosed : goerror := ErrNew "gopool is closed".

(** Where the call of [Submit] for a function is, and then the function: the pool was seen open; it
    was refused; the goroutine was started; the function runs; it has returned; its permit is
    released. *)
Inductive Phase := Accepted | Refused (err : goerror) | Spawned | Running | Returned | Released.

Section pool.
Context `{Semaphore}.

(** [drained] says that a [GracefulStop] has returned without an error. *)
(** [pkg/util/gopool/gopool.go:23-28] GoPool *)
Record GoPool := MkGoPool {
  routines : semaphore;
  activeRoutines : Z;
  maxRoutines : Z;
  stopped : bool;
  jobs : list Phase;
  drained : bool }.

(** [pkg/util/gopool/gopool.go:32-40] New *)
Definition GoPool_New (size : Z) : res goerror GoPool :=
  if decide (size ≤ 0)%Z then Panic "invalid GoPool size"
  else Ret (MkGoPool (sem_New size) 0 size false [] false).

(** [pkg/util/gopool/gopool.go:43-45] GoPool.Max *)
Definition Max (g : GoPool) : Z := maxRoutines g.

(** [pkg/util/gopool/gopool.go:48-50] GoPool.Active *)
Definition Active (g : GoPool) : Z := activeRoutines g.

Definition set_job (i : nat) (ph : Phase) (g : GoPool) : GoPool :=
  MkGoPool (routines g) (activeRoutines g) (maxRoutines g) (stopped g) (<[i := ph]> (jobs g)) (drained g).
Definition set_routines (s : semaphore) (g : GoPool) : GoPool :=
  MkGoPool s (activeRoutines g) (maxRoutines g) (stopped g) (jobs g) (drained g).
(** [atomic.AddInt64(&g.activeRoutines, delta)] *)
Definition add_active (delta : Z) (g : GoPool) : GoPool :=
  MkGoPool (routines g) (to_i64 (activeRoutines g + delta)) (maxRoutines g) (stopped g) (jobs g) (drained g).

(** [Submit] reads whether the pool is stopped, and then waits for a permit or for its context. *)
(** [pkg/util/gopool/gopool.go:57-60] GoPool.Submit: the check *)
Definition submit_check (g : GoPool) : GoPool :=
  MkGoPool (routines g) (activeRoutines g) (maxRoutines g) (stopped g)
    (jobs g ++ [if stopped g then Refused ErrPoolClosed else Accepted]) (drained g).

(** [pkg/util/gopool/gopool.go:61-66] GoPool.Submit: the permit and the goroutine *)
Definition submit_acquire (i : nat) (g : GoPool) : option GoPool :=
  match jobs g !! i with
  | Some Accepted => s ← sem_TryAcquire 1 (routines g); Some (set_job i Spawned (set_routines s g))
  | _ => None
  end.
Definition submit_cancel (i : nat) (err : goerror) (g : GoPool) : option GoPool :=
  match jobs g !! i with Some Accepted => Some (set_job i (Refused err) g) | _ => None end.

(** The steps of the goroutine, before and after the function, which may run for any time; a
    function that panics takes the whole process down. *)
(** [pkg/util/gopool/gopool.go:82-87] GoPool.wrapRoutine *)
Definition wrapRoutine (i : nat) (g : GoPool) : option GoPool :=
  match jobs g !! i with
  | Some Spawned => Some (set_job i Running (add_active 1 g))
  | Some Running => Some (set_job i Returned (add_active (-1) g))
  | Some Returned => s ← sem_Release 1 (routines g); Some (set_job i Released (set_routines s g))
  | _ => None
  end.

(** [GracefulStop] closes the pool, and then waits for all permits or for its context; in the
    second case nothing more changes. *)
(** [pkg/util/gopool/gopool.go:70-71] GoPool.GracefulStop: closing *)
Definition stop (g : GoPool) : GoPool :=
  MkGoPool (routines g) (activeRoutines g) (maxRoutines g) true (jobs g) (drained g).
(** [pkg/util/gopool/gopool.go:72-73] GoPool.GracefulStop: waiting *)
Definition stop_acquire (g : GoPool) : option GoPool :=
  if stopped g then
    s ← sem_TryAcquire (maxRoutines g) (routines g);
    Some (MkGoPool s (activeRoutines g) (maxRoutines g) true (jobs g) true)
  else None.

Inductive step : relation GoPool :=
| step_check g : step g (submit_check g)
| step_acquire g i g' : submit_acquire i g = Some g' → step g g'
| step_cancel g i err g' : submit_cancel i err g = Some g' → step g g'
| step_routine g i g' : wrapRoutine i g = Some g' → step g g'
| step_stop g : step g (stop g)
| step_drain g g' : stop_acquire g = Some g' → step g g'.

(** ** The invariant *)

Definition holds_permit (ph : Phase) : bool := match ph with Spawned | Running | Returned => true | _ => false end.
Definition is_running (ph : Phase) : bool := match ph with Running => true | _ => false end.
Definition count (P : Phase → bool) (l : list Phase) : Z := Z.of_nat (length (filter (λ ph, P ph = true) l)).

Lemma count_jobs_app P l k : count P (l ++ k) = (count P l + count P k)%Z.
Proof. unfold count. rewrite filter_app, length_app. lia. Qed.

Lemma count_insert P l i x y : l !! i = Some x →
  count P (<[i := y]> l) = (count P l - (if P x then 1 else 0) + (if P y then 1 else 0))%Z.
Proof.
  intros Hi. rewrite insert_take_drop by (by eapply lookup_lt_Some).
  rewrite <- (take_drop_middle l i x Hi) at 3. rewrite !count_jobs_app.
  assert (∀ z k, count P (z :: k) = ((if P z then 1 else 0) + count P k)%Z) as Hcons.
  { intros z k. unfold count. rewrite filter_cons. destruct (decide (P z = true)) as [Hz|Hz%not_true_is_false]; rewrite Hz; cbn [length]; lia. }
  rewrite !Hcons. lia.
Qed.

Lemma count_nonneg P l : (0 ≤ count P l)%Z.
Proof. unfold count. lia. Qed.

Lemma count_running_holds l : (count is_running l ≤ count holds_permit l)%Z.
Proof.
  unfold count. induction l as [|ph l IH]; [done|]. rewrite !filter_cons.
  destruct ph; cbn; repeat case_decide; cbn; try done; lia.
Qed.

(** The permits held are those of the goroutines, and all of them once the pool is drained. *)
Record pool_ok (n : Z) (g : GoPool) : Prop := {
  ok_max : maxRoutines g = n;
  ok_size : sem_size (routines g) = n;
  ok_held : sem_held (routines g) = (if drained g then n else count holds_permit (jobs g))%Z;
  ok_fit : (count holds_permit (jobs g) ≤ n)%Z;
  ok_active : activeRoutines g = count is_running (jobs g);
  ok_drained : drained g = true → count holds_permit (jobs g) = 0%Z }.

Context {laws : SemaphoreLaws}.

Ltac pool_cases Hcase := split; cbn; destruct Hcase as [(Hd & ? & ?)|(Hd & ?)]; rewrite ?Hd; intros; try done; try lia.

Lemma pool_ok_cases n g : pool_ok n g →
  drained g = true ∧ sem_held (routines g) = n ∧ count holds_permit (jobs g) = 0%Z ∨
  drained g = false ∧ sem_held (routines g) = count holds_permit (jobs g).
Proof. intros [_ _ Hheld _ _ Hdr]. destruct (drained g); auto. Qed.

(** A job goes to another phase. *)
Lemma set_job_counts g i x y : jobs g !! i = Some x →
  count holds_permit (<[i := y]> (jobs g)) =
    (count holds_permit (jobs g) - (if holds_permit x then 1 else 0) + (if holds_permit y then 1 else 0))%Z ∧
  count is_running (<[i := y]> (jobs g)) =
    (count is_running (jobs g) - (if is_running x then 1 else 0) + (if is_running y then 1 else 0))%Z ∧
  (0 ≤ count holds_permit (<[i := y]> (jobs g)))%Z ∧ (0 ≤ count is_running (<[i := y]> (jobs g)))%Z ∧
  (count is_running (<[i := y]> (jobs g)) ≤ count holds_permit (<[i := y]> (jobs g)))%Z.
Proof.
  intros Hj. split_and!; [by apply count_insert|by apply count_insert|apply count_nonneg|apply count_nonneg|apply count_running_holds].
Qed.

Lemma pool_step_ok n g g' : (0 < n < 2 ^ 63)%Z → pool_ok n g → step g g' → pool_ok n g'.
Proof.
  intros Hn Hok Hstep. pose proof (pool_ok_cases n g Hok) as Hcase. destruct Hok as [Hmax Hsize _ Hfit Hact _].
  pose proof (count_nonneg is_running (jobs g)) as Hpos'. pose proof (count_running_holds (jobs g)) as Hle.
  destruct Hstep as [g|g i g' Hs|g i err g' Hs|g i g' Hs|g|g g' Hs].
  - assert (∀ P, P (if stopped g then Refused ErrPoolClosed else Accepted) = false →
      count P (jobs g ++ [if stopped g then Refused ErrPoolClosed else Accepted]) = count P (jobs g)) as Hc.
    { intros P HP. rewrite count_jobs_app. unfold count at 2. rewrite filter_cons, decide_False by congruence. cbn. lia. }
    pose proof (Hc holds_permit ltac:(by destruct (stopped g))) as Hc1.
    pose proof (Hc is_running ltac:(by destruct (stopped g))) as Hc2. pool_cases Hcase.
  - unfold submit_acquire in Hs. destruct (jobs g !! i) as [[| | | | |]|] eqn:Hj; try done.
    destruct (sem_TryAcquire 1 (routines g)) as [s|] eqn:Ha; [|done]. injection Hs as <-.
    apply sem_TryAcquire_spec in Ha as (Hs1 & Hs2 & Hs3).
    pose proof (set_job_counts g i _ Spawned Hj) as (Hc1 & Hc2 & Hc3 & Hc4 & Hc5). cbn in Hc1, Hc2. pool_cases Hcase.
  - unfold submit_cancel in Hs. destruct (jobs g !! i) as [[| | | | |]|] eqn:Hj; try done. injection Hs as <-.
    pose proof (set_job_counts g i _ (Refused err) Hj) as (Hc1 & Hc2 & Hc3 & Hc4 & Hc5). cbn in Hc1, Hc2. pool_cases Hcase.
  - unfold wrapRoutine in Hs. destruct (jobs g !! i) as [[| | | | |]|] eqn:Hj; try done.
    + injection Hs as <-. pose proof (set_job_counts g i _ Running Hj) as (Hc1 & Hc2 & Hc3 & Hc4 & Hc5). cbn in Hc1, Hc2.
      pose proof (to_i64_id (activeRoutines g + 1) ltac:(lia)) as Hi. pool_cases Hcase.
    + injection Hs as <-. pose proof (set_job_counts g i _ Returned Hj) as (Hc1 & Hc2 & Hc3 & Hc4 & Hc5). cbn in Hc1, Hc2.
      pose proof (to_i64_id (activeRoutines g + -1) ltac:(lia)) as Hi. pool_cases Hcase.
    + pose proof (set_job_counts g i _ Released Hj) as (Hc1 & Hc2 & Hc3 & Hc4 & Hc5). cbn in Hc1, Hc2.
      destruct (sem_Release_spec 1 (routines g)) as (s & Hr & Hs1 & Hs2); [lia|].
      rewrite Hr in Hs. injection Hs as <-. pool_cases Hcase.
  - pool_cases Hcase.
  - unfold stop_acquire in Hs. destruct (stopped g); [|done].
    destruct (sem_TryAcquire (maxRoutines g) (routines g)) as [s|] eqn:Ha; [|done]. injection Hs as <-.
    apply sem_TryAcquire_spec in Ha as (Hs1 & Hs2 & Hs3). pool_cases Hcase.
Qed.

(** C40: The pool bounds its parallelism, and stopping it stops it.  Whatever the callers and
    the goroutines do, the number of functions that run is the one [Active] reports and never exceeds
    [Max]; a permit that was taken can be released; and once [GracefulStop] has returned without an
    error, no function runs, and none starts any more, not even one whose caller had seen the
    pool open before it was closed. *)
Theorem GoPool_bounded (n : Z) (g0 g : GoPool) :
  (n < 2 ^ 63)%Z → GoPool_New n = Ret g0 → rtc step g0 g →
  Active g = count is_running (jobs g) ∧ (0 ≤ Active g ≤ Max g)%Z ∧ Max g = n ∧
  (∀ i, jobs g !! i = Some Returned → is_Some (wrapRoutine i g)) ∧
  (drained g = true → ∀ g', rtc step g g' → drained g' = true ∧ ∀ i ph, jobs g' !! i = Some ph → holds_permit ph = false).
Proof.
  intros Hlt Hnew Hrun. unfold GoPool_New in Hnew. case_decide as Hn; [done|]. injection Hnew as <-.
  assert (∀ g g', rtc step g g' → pool_ok n g → pool_ok n g') as Hreach.
  { clear -Hlt Hn laws. intros g g'. induction 1 as [|g1 g2 g3 H1 _ IH]; [done|]. intros Hok.
    apply IH. by eapply pool_step_ok; [lia| |]. }
  assert (∀ g g', rtc step g g' → drained g = true → drained g' = true) as Hdrain.
  { clear. intros g g'. induction 1 as [|g1 g2 g3 H1 _ IH]; [done|]. intros Hd. apply IH.
    destruct H1 as [|g i g' Hs|g i err g' Hs|g i g' Hs| |g g' Hs]; try done.
    - unfold submit_acquire in Hs. case_match; [|done]. case_match; try done.
      destruct (sem_TryAcquire _ _); [|done]. by injection Hs as <-.
    - unfold submit_cancel in Hs. case_match; [|done]. case_match; try done. by injection Hs as <-.
    - unfold wrapRoutine in Hs. case_match; [|done]. case_match; try done; [by injection Hs as <-|by injection Hs as <-|].
      destruct (sem_Release _ _); [|done]. by injection Hs as <-.
    - unfold stop_acquire in Hs. case_match; [|done]. destruct (sem_TryAcquire _ _); [|done]. by injection Hs as <-. }
  assert (pool_ok n g) as Hok.
  { eapply Hreach; [exact Hrun|]. destruct (sem_New_spec n) as [Hs Hh]. split; cbn; try done. unfold count. cbn. lia. }
  pose proof Hok as [Hmax Hsize Hheld Hfit Hact Hdr]. unfold Active, Max.
  pose proof (count_nonneg is_running (jobs g)) as Hpos'. pose proof (count_running_holds (jobs g)) as Hle.
  split_and!; [done|lia|lia|done| |].
  - intros i Hi. unfold wrapRoutine. rewrite Hi. pose proof (count_insert holds_permit _ _ _ Released Hi) as Hc.
    pose proof (count_nonneg holds_permit (<[i := Released]> (jobs g))) as Hp. cbn in Hc.
    assert (1 ≤ sem_held (routines g))%Z as Hh by (rewrite Hheld; destruct (drained g); lia).
    destruct (sem_Release_spec 1 (routines g)) as (s & Hr & _); [lia|]. rewrite Hr. eauto.
  - intros Hd g' Hrun'. specialize (Hdrain _ _ Hrun' Hd). split; [done|]. intros i ph Hi.
    pose proof (Hreach _ _ Hrun' Hok) as [_ _ _ _ _ Hdr']. specialize (Hdr' Hdrain).
    destruct (holds_permit ph) eqn:Hh; [|done]. exfalso.
    pose proof (count_insert holds_permit _ _ _ Released Hi) as Hc. rewrite Hh in Hc. cbn in Hc.
    pose proof (count_nonneg holds_permit (<[i := Released]> (jobs g'))) as Hp. lia.
Qed.
End pool.

(** ** A concrete pool *)

(** A semaphore that counts: its size, and what is held. *)
Definition counting : Semaphore := {|
  semaphore := Z * Z;
  sem_New n := (n, 0%Z);
  sem_TryAcquire n s := if decide (s.2 + n ≤ s.1)%Z then Some (s.1, s.2 + n)%Z else None;
  sem_Release n s := if decide (n ≤ s.2)%Z then Some (s.1, s.2 - n)%Z else None;
  sem_size := fst;
  sem_held := snd |}.

Lemma counting_laws : SemaphoreLaws (H := counting).
Proof.
  split; cbn.
  - done.
  - intros n [size held] s'. cbn. case_decide; intros [= <-]. cbn. lia.
  - intros n [size held] Hn. cbn in *. rewrite decide_True by lia. eexists. split; [done|]. cbn. lia.
Qed.

#[local] Existing Instance counting.

Definition new_pool : GoPool := MkGoPool (H := counting) (1, 0)%Z 0 1 false [] false.
(** A pool of one: two functions were accepted, the first runs, the pool is closed, the first
    ends, and stopping returns. *)
Definition stopped_pool : GoPool :=
  MkGoPool (H := counting) (1, 1)%Z 0 1 true [Released; Accepted] true.

Lemma stopped_pool_reachable : rtc step new_pool stopped_pool.
Proof.
  eapply rtc_l; [apply step_check|]. eapply rtc_l; [apply step_check|]. lazy [submit_check new_pool stopped jobs app routines activeRoutines maxRoutines drained].
  eapply rtc_l; [apply (step_acquire _ 0); lazy; reflexivity|]. eapply rtc_l; [apply (step_routine _ 0); lazy; reflexivity|].
  eapply rtc_l; [apply step_stop|]. lazy [stop routines activeRoutines maxRoutines jobs drained].
  eapply rtc_l; [apply (step_routine _ 0); lazy; reflexivity|]. eapply rtc_l; [apply (step_routine _ 0); lazy; reflexivity|].
  eapply rtc_l; [apply step_drain; lazy; reflexivity|]. apply rtc_refl.
Qed.

Lemma GoPool_bounded_witness :
  Active stopped_pool = 0%Z ∧ ∀ g', rtc step stopped_pool g' → drained g' = true ∧
    ∀ i ph, jobs g' !! i = Some ph → holds_permit ph = false.
Proof.
  destruct (GoPool_bounded (laws := counting_laws) 1 new_pool stopped_pool)
    as (Ha & _ & _ & _ & Hd).
  - done.
  - reflexivity.
  - apply stopped_pool_reachable.
  - split; [exact Ha|exact (Hd eq_refl)].
Defined.
