(* ===== verification/NetHttp.v ===== *)
(** What the program uses of the Go standard library for HTTP (1.12, the version of the
    build): the media types of [mime], the canonical names and the maps of headers of
    [net/textproto] and [net/http], and the queries of [net/url].  Texts are strings of
    bytes; the white space trimmed is that of ASCII. *)

From stdpp Require Import base gmap strings list sorting pretty.
From S2P Require Import Prelude Data TypedValues FnRefs.
From Stdlib Require Import Ascii.

(** ** Characters *)

Definition newline : string := String "010" EmptyString.
Definition quote : ascii := "034"%char.
Definition backslash : ascii := "092"%char.

(** [isTSpecial] *)
Definition isTSpecial (c : ascii) : bool :=
  one_of "()<>@,;:/[]?=" c || bool_decide (c = quote ∨ c = backslash).

(** [isTokenChar]; also [validHeaderFieldByte] of a header name. *)
Definition isTokenChar (c : ascii) : bool :=
  bool_decide (32 < code c ∧ code c < 127)%N && negb (isTSpecial c).

(** [isToken] *)
Definition isToken (s : string) : bool := negb (bool_decide (s = "")) && all_chars isTokenChar s.

(** [unicode.IsSpace] *)
Definition is_space (c : ascii) : bool := bool_decide (9 ≤ code c ∧ code c ≤ 13)%N || bool_decide (code c = 32%N).

Fixpoint trim_space_left (s : string) : string :=
  match s with String c s' => if is_space c then trim_space_left s' else s | _ => s end.

Fixpoint trim_space_right (s : string) : string :=
  match s with
  | EmptyString => EmptyString
  | String c s => match trim_space_right s with
                  | EmptyString => if is_space c then EmptyString else String c EmptyString
                  | s' => String c s'
                  end
  end.

Definition TrimSpace (s : string) : string := trim_space_right (trim_space_left s).

(** The longest prefix whose characters satisfy [p], and the rest. *)
Fixpoint span (p : ascii → bool) (s : string) : string * string :=
  match s with
  | EmptyString => (EmptyString, EmptyString)
  | String c s' => if p c then let '(a, b) := span p s' in (String c a, b) else (EmptyString, s)
  end.

(** ** mime *)

(** [mime.FormatMediaType] *)
Definition consumeToken : string → string * string := span isTokenChar.

(** The characters of a quoted value; [None] for a character outside ASCII. *)
Fixpoint quoted (s : string) : option string :=
  match s with
  | EmptyString => Some (String quote EmptyString)
  | String c s =>
      if bool_decide (128 ≤ code c)%N then None else
      rest ← quoted s;
      Some (if bool_decide (c = quote ∨ c = backslash) then String backslash (String c rest) else String c rest)
  end.

Definition format_param (k v : string) : option string :=
  if negb (isToken k) then None else
  value ← (if isToken v then Some v else String quote <$> quoted v);
  Some ("; " +:+ to_lower k +:+ "=" +:+ value).

Fixpoint format_params (l : list (string * string)) : option string :=
  match l with
  | [] => Some ""
  | (k, v) :: l => p ← format_param k v; rest ← format_params l; Some (p +:+ rest)
  end.

(** [sort.Strings] of the keys, with their values. *)
Definition sorted_entries {A} (m : gmap string A) : list (string * A) :=
  merge_sort (λ x y : string * A, String.le x.1 y.1) (map_to_list m).

Definition format_type (t : string) : option string :=
  match cut "/" t with
  | (_, None) => if isToken t then Some (to_lower t) else None
  | (major, Some sub) =>
      if isToken major && isToken sub then Some (to_lower major +:+ "/" +:+ to_lower sub) else None
  end.

(** The result is empty when the type or a parameter does not have a text. *)
Definition FormatMediaType (t : string) (param : gmap string string) : string :=
  default "" (b ← format_type t; ps ← format_params (sorted_entries param); Some (b +:+ ps)).

(** [checkMediaTypeDisposition] *)
Definition checkMediaTypeDisposition (s : string) : bool :=
  let '(typ, rest) := consumeToken s in
  negb (bool_decide (typ = "")) &&
  match rest with
  | EmptyString => true
  | String c rest =>
      bool_decide (c = "/"%char) &&
      let '(subtype, rest) := consumeToken rest in
      negb (bool_decide (subtype = "")) && bool_decide (rest = "")
  end.

(** The quoted string after its opening quote: the value and what follows it. *)
Fixpoint consume_quoted (s : string) : option (string * string) :=
  match s with
  | EmptyString => None
  | String c s =>
      if bool_decide (c = quote) then Some (EmptyString, s)
      else if bool_decide (c = backslash) then
        match s with
        | String d s' =>
            if isTSpecial d then '(v, rest) ← consume_quoted s'; Some (String d v, rest)
            else '(v, rest) ← consume_quoted s; Some (String c v, rest)
        | EmptyString => None
        end
      else if bool_decide (code c = 13 ∨ code c = 10)%N then None
      else '(v, rest) ← consume_quoted s; Some (String c v, rest)
  end.

(** [consumeValue]: an empty value that consumes nothing is an error. *)
Definition consumeValue (v : string) : option (string * string) :=
  match v with
  | EmptyString => None
  | String c s =>
      if bool_decide (c = quote) then consume_quoted s
      else let '(value, rest) := consumeToken v in
           if bool_decide (value = "") then None else Some (value, rest)
  end.

(** [consumeMediaParam]: [None] when there is no parameter. *)
Definition consumeMediaParam (v : string) : option (string * string * string) :=
  match trim_space_left v with
  | String ";" rest =>
      let '(param, rest) := consumeToken (trim_space_left rest) in
      if bool_decide (param = "") then None else
      match trim_space_left rest with
      | String "=" rest =>
          '(value, rest) ← consumeValue (trim_space_left rest);
          Some (to_lower param, value, rest)
      | _ => None
      end
  | _ => None
  end.

(** The continuations of RFC 2231, parameters whose name has a star: [stitch] makes the
    parameters they stand for of the pieces. *)
Class Rfc2231 := {
  stitch : gmap string string → gmap string string;
  stitch_empty : stitch ∅ = ∅;
}.

Definition has_star (k : string) : bool := match (cut "*" k).2 with Some _ => true | None => false end.

Section mime.
Context `{Rfc2231}.

(** The loop over the parameters: the parameters found, or an error.  [fuel] bounds their
    number. *)
Fixpoint parse_params (fuel : nat) (v : string) (params pieces : gmap string string) :
    res goerror (gmap string string) :=
  match fuel with
  | O => Panic "fuel"
  | S fuel =>
      let v := trim_space_left v in
      if bool_decide (v = "") then Ret (stitch pieces ∪ params) else
      match consumeMediaParam v with
      | None => if bool_decide (TrimSpace v = ";") then Ret params
                else Throw (ErrNew "mime: invalid media parameter")
      | Some (key, value, rest) =>
          if has_star key then
            match pieces !! key with
            | Some _ => Throw (ErrNew "mime: duplicate parameter name")
            | None => parse_params fuel rest params (<[key := value]> pieces)
            end
          else
            match params !! key with
            | Some _ => Throw (ErrNew "mime: duplicate parameter name")
            | None => parse_params fuel rest (<[key := value]> params) pieces
            end
      end
  end.

(** [mime.ParseMediaType] *)
Definition ParseMediaType (v : string) : res goerror (string * gmap string string) :=
  let '(base, params) := cut ";" v in
  let mediatype := TrimSpace (to_lower base) in
  if negb (checkMediaTypeDisposition mediatype) then Throw (ErrNew "mime: no media type") else
  let rest := match params with Some p => String ";" p | None => "" end in
  params ← parse_params (S (String.length rest)) rest ∅ ∅;
  Ret (mediatype, params).
End mime.

(** Programs that write no continuations. *)
#[refine] Definition no_continuations : Rfc2231 := {| stitch := λ _, ∅ |}.
Proof. done. Defined.

(** ** Headers *)

Notation Header := (gmap string (list string)) (only parsing).

Definition to_upper_char (c : ascii) : ascii := if lower c then ascii_of_N (code c - 32) else c.
Definition to_lower_char (c : ascii) : ascii := if upper c then ascii_of_N (code c + 32) else c.

Fixpoint canonical (up : bool) (s : string) : string :=
  match s with
  | EmptyString => EmptyString
  | String c s =>
      let c := if up then to_upper_char c else to_lower_char c in
      String c (canonical (bool_decide (c = "-"%char)) s)
  end.

(** [textproto.CanonicalMIMEHeaderKey] *)
Definition CanonicalHeaderKey (s : string) : string :=
  if all_chars isTokenChar s then canonical true s else s.

Definition Header_Get (h : Header) (k : string) : string :=
  match h !! CanonicalHeaderKey k with Some (v :: _) => v | _ => "" end.
Definition Header_Set (k v : string) (h : Header) : Header := <[CanonicalHeaderKey k := [v]]> h.
Definition Header_Add (k v : string) (h : Header) : Header :=
  <[CanonicalHeaderKey k := default [] (h !! CanonicalHeaderKey k) ++ [v]]> h.

Lemma Header_Get_Set k v h : Header_Get (Header_Set k v h) k = v.
Proof.
  unfold Header_Get, Header_Set.
  by rewrite lookup_insert_eq.
Qed.

(** ** Queries *)

Notation Values := (gmap string (list string)) (only parsing).

Definition Values_Add (k v : string) (q : Values) : Values := <[k := default [] (q !! k) ++ [v]]> q.

Definition hex_digit (n : N) : ascii := ascii_of_N (if bool_decide (n < 10)%N then 48 + n else 55 + n)%N.

(** The characters [QueryEscape] keeps. *)
Definition unreserved (c : ascii) : bool := lower c || upper c || digit c || one_of "-_.~" c.

(** [url.QueryEscape] *)
Fixpoint QueryEscape (s : string) : string :=
  match s with
  | EmptyString => EmptyString
  | String c s =>
      if unreserved c then String c (QueryEscape s)
      else if bool_decide (c = " "%char) then String "+" (QueryEscape s)
      else String "%" (String (hex_digit (code c / 16)) (String (hex_digit (code c mod 16)) (QueryEscape s)))
  end.

(** [url.QueryUnescape] *)
Fixpoint QueryUnescape (s : string) : option string :=
  match s with
  | EmptyString => Some EmptyString
  | String c s =>
      if bool_decide (c = "%"%char) then
        match s with
        | String a (String b s) =>
            match unhex a, unhex b with
            | Some x, Some y => String (ascii_of_N (16 * x + y)) <$> QueryUnescape s
            | _, _ => None
            end
        | _ => None
        end
      else String (if bool_decide (c = "+"%char) then " "%char else c) <$> QueryUnescape s
  end.

Fixpoint join (sep : string) (l : list string) : string :=
  match l with [] => "" | [s] => s | s :: l => s +:+ sep +:+ join sep l end.

(** [Values.Encode] *)
Definition Encode (q : Values) : string :=
  join "&" (flat_map (λ '(k, vs), map (λ v, QueryEscape k +:+ "=" +:+ QueryEscape v) vs) (sorted_entries q)).

(** The pairs of a query, separated by ampersands or semicolons. *)
Fixpoint split_query (s : string) : list string :=
  match s with
  | EmptyString => [EmptyString]
  | String c s =>
      if bool_decide (c = "&"%char ∨ c = ";"%char) then EmptyString :: split_query s
      else match split_query s with
           | p :: l => String c p :: l
           | [] => [String c EmptyString]
           end
  end.

Definition parse_pair (pair : string) : option (string * string) :=
  if bool_decide (pair = "") then None else
  let '(key, value) := cut "=" pair in
  key ← QueryUnescape key; value ← QueryUnescape (default "" value); Some (key, value).

(** [url.ParseQuery], of which the program ignores the error: pairs that cannot be
    decoded are dropped. *)
Definition ParseQuery (query : string) : Values :=
  foldl (λ q '(k, v), Values_Add k v q) ∅ (omap parse_pair (split_query query)).

(** ** Round trip of media types *)

Section strings.
Implicit Types s t : string.

Lemma span_app p s t :
  all_chars p s = true → match t with String c _ => p c = false | _ => True end →
  span p (s +:+ t) = (s, t).
Proof.
  intros Hs Ht. induction s as [|c s IH].
  - rewrite app_nil. destruct t as [|c t]; [done|]. cbn. by rewrite Ht.
  - cbn in Hs. apply andb_prop in Hs as [Hc Hs]. rewrite app_cons. cbn. by rewrite Hc, IH.
Qed.

Lemma isTokenChar_facts c : isTokenChar c = true →
  is_space c = false ∧ isTSpecial c = false ∧ c ≠ ";"%char ∧ c ≠ "="%char ∧ c ≠ "/"%char ∧ c ≠ quote.
Proof. by destruct c as [[][][][][][][][]]; vm_compute. Qed.

Lemma isToken_chars s : isToken s = true → all_chars isTokenChar s = true ∧ s ≠ "".
Proof. unfold isToken. rewrite andb_true_iff, negb_true_iff, bool_decide_eq_false. tauto. Qed.

Lemma isToken_head s t : isToken s = true → trim_space_left (s +:+ t) = s +:+ t.
Proof.
  intros [Hs Hne]%isToken_chars. destruct s as [|c s]; [done|]. cbn in Hs.
  apply andb_prop in Hs as [Hc _]. rewrite app_cons. cbn. by destruct (isTokenChar_facts c Hc) as [-> _].
Qed.

Lemma consumeToken_token s t :
  isToken s = true → match t with String c _ => isTokenChar c = false | _ => True end →
  consumeToken (s +:+ t) = (s, t).
Proof. intros [Hs _]%isToken_chars Ht. by apply span_app. Qed.

(** The values a quoted string can hold: ASCII without line breaks. *)
Definition value_char (c : ascii) : bool := bool_decide (code c < 128 ∧ code c ≠ 13 ∧ code c ≠ 10)%N.

Lemma value_char_facts c : value_char c = true →
  bool_decide (128 ≤ code c)%N = false ∧ bool_decide (code c = 13 ∨ code c = 10)%N = false.
Proof. by destruct c as [[][][][][][][][]]; vm_compute. Qed.

Lemma quoted_value s : all_chars value_char s = true → is_Some (quoted s).
Proof.
  induction s as [|c s IH]; [eauto|]. cbn. rewrite andb_true_iff. intros [Hc Hs].
  destruct (value_char_facts c Hc) as [-> _]. destruct (IH Hs) as [q ->]. simpl. eauto.
Qed.

Lemma consume_quoted_quoted s q t :
  all_chars value_char s = true → quoted s = Some q → consume_quoted (q +:+ t) = Some (s, t).
Proof.
  revert q. induction s as [|c s IH]; intros q Hs Hq.
  { injection Hq as <-. done. }
  cbn in Hs. apply andb_prop in Hs as [Hc Hs]. cbn in Hq.
  destruct (value_char_facts c Hc) as [Hlo Hbr]. rewrite Hlo in Hq.
  destruct (quoted s) as [r|] eqn:Hr; [|done]. cbn in Hq.
  specialize (IH r Hs eq_refl). destruct (decide (c = quote ∨ c = backslash)) as [Hsp|Hsp].
  - rewrite bool_decide_true in Hq by done. injection Hq as <-. rewrite !app_cons. cbn -[isTSpecial].
    assert (isTSpecial c = true) as -> by by destruct Hsp as [-> | ->]; vm_compute.
    by rewrite IH.
  - rewrite bool_decide_false in Hq by done. injection Hq as <-. rewrite app_cons. cbn -[isTSpecial].
    rewrite (bool_decide_false (c = quote)), (bool_decide_false (c = backslash)) by tauto.
    by rewrite Hbr, IH.
Qed.

(** A value as [FormatMediaType] writes it. *)
Definition value_text (v : string) : option string :=
  if isToken v then Some v else String quote <$> quoted v.

Lemma consumeValue_text v w t :
  all_chars value_char v = true → value_text v = Some w →
  match t with String c _ => isTokenChar c = false | _ => True end →
  trim_space_left (w +:+ t) = w +:+ t ∧ consumeValue (w +:+ t) = Some (v, t).
Proof.
  unfold value_text. intros Hv Hw Ht. destruct (isToken v) eqn:Htok.
  - injection Hw as <-. split; [by apply isToken_head|].
    pose proof (isToken_chars v Htok) as [Hc Hne].
    assert (consumeToken (v +:+ t) = (v, t)) as Hct by by apply consumeToken_token.
    destruct v as [|c v]; [done|]. cbn in Hc. apply andb_prop in Hc as [Hc _].
    rewrite app_cons in Hct |- *. unfold consumeValue.
    rewrite bool_decide_false by by destruct (isTokenChar_facts c Hc) as (_&_&_&_&_&?).
    rewrite Hct. by rewrite bool_decide_false.
  - destruct (quoted v) as [q|] eqn:Hq; [|done]. injection Hw as <-. rewrite app_cons.
    split; [done|]. cbn. by apply consume_quoted_quoted.
Qed.

(** The names of parameters: tokens in lower case that announce no continuation. *)
Definition param_name (k : string) : Prop := isToken k = true ∧ to_lower k = k ∧ has_star k = false.

Lemma consumeMediaParam_format k v p t :
  param_name k → all_chars value_char v = true → format_param k v = Some p →
  match t with String c _ => isTokenChar c = false | _ => True end →
  consumeMediaParam (p +:+ t) = Some (k, v, t).
Proof.
  intros (Hk & Hl & _) Hv Hp Ht. unfold format_param in Hp. rewrite Hk in Hp. cbn [negb] in Hp.
  fold (value_text v) in Hp. destruct (value_text v) as [w|] eqn:Hw; [|done].
  cbn in Hp. injection Hp as <-. rewrite Hl.
  change ("; " +:+ k +:+ "=" +:+ w) with (String ";" (String " " (k +:+ String "=" w))).
  rewrite !app_cons, app_assoc_r, app_cons.
  unfold consumeMediaParam. change (trim_space_left (String ";" ?s)) with (String ";" s).
  cbn match. change (trim_space_left (String " " ?s)) with (trim_space_left s).
  rewrite isToken_head, consumeToken_token by done. cbn match.
  rewrite bool_decide_false by by apply isToken_chars.
  change (trim_space_left (String "=" ?s)) with (String "=" s). cbn match.
  destruct (consumeValue_text v w t) as [-> ->]; [done..|]. cbn. by rewrite Hl.
Qed.

Lemma format_params_head l ps : format_params l = Some ps →
  ps = "" ∧ l = [] ∨ ∃ s, ps = String ";" s.
Proof.
  destruct l as [|[k v] l]; cbn; [intros [= <-]; by left|]. unfold format_param.
  destruct (negb (isToken k)); [done|]. destruct (if isToken v then _ else _) as [w|]; [|done].
  destruct (format_params l) as [r|]; [|done]. intros [= <-]. right. by eexists.
Qed.

Definition param_ok (kv : string * string) : Prop := param_name kv.1 ∧ all_chars value_char kv.2 = true.

Lemma format_params_ok l : Forall param_ok l → is_Some (format_params l).
Proof.
  induction 1 as [|[k v] l [(Hk & _ & _) Hv] _ [r IH]]; [by eexists|]. simpl in *.
  unfold format_param. rewrite Hk. cbn [negb].
  assert (is_Some (if isToken v then Some v else String quote <$> quoted v)) as [w ->].
  { destruct (isToken v); [eauto|]. destruct (quoted_value v Hv) as [q ->]. cbn. eauto. }
  cbn. rewrite IH. cbn. eauto.
Qed.

Context `{Rfc2231}.

Lemma parse_params_format l : ∀ ps fuel params,
  format_params l = Some ps → Forall param_ok l → NoDup l.*1 → (∀ k, k ∈ l.*1 → params !! k = None) →
  length l < fuel → parse_params fuel ps params ∅ = Ret (list_to_map l ∪ params).
Proof.
  induction l as [|[k v] l IH]; intros ps fuel params Hps Hok Hnd Hnew Hfuel;
    (destruct fuel as [|fuel]; [simpl in *; lia|]).
  { injection Hps as <-. cbn. rewrite stitch_empty. done. }
  cbn [format_params] in Hps. destruct (format_param k v) as [p|] eqn:Hp; [|done].
  cbn [mbind option_bind] in Hps. destruct (format_params l) as [r|] eqn:Hr; [|done].
  cbn [mbind option_bind] in Hps. injection Hps as <-.
  apply Forall_cons in Hok as [[Hk Hv] Hok]. cbn [fst snd] in Hk, Hv.
  rewrite fmap_cons in Hnd, Hnew. apply NoDup_cons in Hnd as [Hnin Hnd]. cbn [fst] in Hnin, Hnew.
  assert (consumeMediaParam (p +:+ r) = Some (k, v, r)) as Hc.
  { apply consumeMediaParam_format; [done..|].
    destruct (format_params_head l r Hr) as [[-> _]|[s ->]]; done. }
  assert (∃ s, p = String ";" s) as [s ->].
  { revert Hp. unfold format_param. destruct (negb (isToken k)); [done|].
    destruct (if isToken v then _ else _); [|done]. cbn. intros [= <-]. by eexists. }
  rewrite app_cons in Hc |- *. cbn [parse_params].
  change (trim_space_left (String ";" ?s)) with (String ";" s). rewrite bool_decide_false by done.
  rewrite Hc. cbn match. destruct Hk as (Hk & Hl & Hstar). rewrite Hstar.
  rewrite Hnew by set_solver. rewrite IH; [|done|done|done| |simpl in *; lia].
  - f_equal. cbn. rewrite <- insert_union_l, insert_union_r; [done|]. by apply not_elem_of_list_to_map_1.
  - intros k' Hk'. rewrite lookup_insert_ne by set_solver. apply Hnew. set_solver.
Qed.

(** Every turn of the loop reads at least one character: the fuel is enough. *)
Lemma trim_space_left_length s : String.length (trim_space_left s) ≤ String.length s.
Proof. induction s as [|c s IH]; [done|]. simpl. destruct (is_space c); simpl in *; lia. Qed.

Lemma span_length p s : String.length (span p s).2 ≤ String.length s.
Proof.
  induction s as [|c s IH]; [done|]. simpl. destruct (p c); [|done].
  destruct (span p s) as [a b]. simpl in *. lia.
Qed.

Lemma consume_quoted_length s : ∀ v r, consume_quoted s = Some (v, r) → String.length r ≤ String.length s.
Proof.
  enough (∀ n s, String.length s ≤ n → ∀ v r, consume_quoted s = Some (v, r) → String.length r ≤ String.length s)
    as Hall by by eapply Hall.
  intros n. induction n as [|n IH]; intros [|c s'] Hn v r Hc; try done; simpl in Hn; [lia|].
  assert (∀ x d, String.length x ≤ n →
    ('(v, rest) ← consume_quoted x; Some (String d v, rest)) = Some (v, r) → String.length r ≤ String.length x) as Hx.
  { intros x d Hx. destruct (consume_quoted x) as [[v' r']|] eqn:Hq; [|done].
    intros [= _ <-]. by eapply IH. }
  cbn -[isTSpecial] in Hc. simpl. destruct (bool_decide (c = quote)); [injection Hc as _ <-; lia|].
  destruct (bool_decide (c = backslash)).
  - destruct s' as [|d s']; [done|]. simpl in Hn.
    destruct (isTSpecial d); apply Hx in Hc; simpl in *; lia.
  - destruct (bool_decide _); [done|]. apply Hx in Hc; lia.
Qed.

Lemma consumeValue_length v w r : consumeValue v = Some (w, r) → String.length r ≤ String.length v.
Proof.
  destruct v as [|c s]; [done|]. unfold consumeValue. case_bool_decide.
  - intros Hq%consume_quoted_length. simpl. lia.
  - pose proof (span_length isTokenChar (String c s)) as Hl. unfold consumeToken.
    destruct (span _ _) as [a b]. case_bool_decide; [done|]. intros [= <- <-]. done.
Qed.

Lemma consumeMediaParam_length v k w r :
  consumeMediaParam v = Some (k, w, r) → String.length r < String.length v.
Proof.
  unfold consumeMediaParam. pose proof (trim_space_left_length v) as Hv.
  destruct (trim_space_left v) as [|c v1]; [done|]. intros Hm.
  assert (c = ";"%char) as -> by by destruct c as [[][][][][][][][]].
  cbn match in Hm. pose proof (span_length isTokenChar (trim_space_left v1)) as H1.
  pose proof (trim_space_left_length v1) as H1'. unfold consumeToken in Hm.
  destruct (span _ _) as [a v2]. cbn match in Hm. case_bool_decide; [done|].
  pose proof (trim_space_left_length v2) as H2. destruct (trim_space_left v2) as [|d v3]; [done|].
  assert (d = "="%char) as -> by by destruct d as [[][][][][][][][]].
  cbn match in Hm. pose proof (trim_space_left_length v3) as H3.
  destruct (consumeValue _) as [[w' r']|] eqn:Hc; [|done]. apply consumeValue_length in Hc.
  injection Hm as <- <- <-. simpl in *. lia.
Qed.

Lemma parse_params_no_panic fuel : ∀ v params pieces,
  String.length v < fuel → no_panic (parse_params fuel v params pieces).
Proof.
  induction fuel as [|fuel IH]; intros v params pieces Hf; [lia|]. cbn [parse_params].
  pose proof (trim_space_left_length v) as Hl.
  case_bool_decide; [done|]. destruct (consumeMediaParam _) as [[[k w] r]|] eqn:Hc.
  - apply consumeMediaParam_length in Hc.
    destruct (has_star k); case_match; try done; apply IH; lia.
  - by case_bool_decide.
Qed.

Lemma ParseMediaType_no_panic v : no_panic (ParseMediaType v).
Proof.
  unfold ParseMediaType. destruct (cut ";" v) as [base params]. destruct (negb _); [done|].
  apply bind_no_panic; [|done]. apply parse_params_no_panic. lia.
Qed.

(** The types with a text: one or two tokens in lower case. *)
Definition type_ok t : Prop :=
  to_lower t = t ∧
  match cut "/" t with
  | (_, None) => isToken t = true
  | (major, Some sub) => isToken major = true ∧ isToken sub = true
  end.

Lemma to_lower_app s t : to_lower (s +:+ t) = to_lower s +:+ to_lower t.
Proof. induction s as [|c s IH]; [done|]. rewrite app_cons. cbn. by rewrite IH. Qed.

Lemma cut_inv d s : match cut d s with
  | (a, None) => s = a ∧ without d s | (a, Some b) => s = a +:+ String d b ∧ without d a end.
Proof.
  induction s as [|c s IH]; [done|]. cbn. destruct (decide (d = c)) as [->|Hne]; [done|].
  destruct (cut d s) as [a [b|]]; destruct IH as [-> Ha]; (split; [done|]);
    unfold without in *; cbn; by rewrite bool_decide_true.
Qed.

Lemma trim_space_left_none s : all_chars (λ c, negb (is_space c)) s = true → trim_space_left s = s.
Proof. destruct s as [|c s]; [done|]. cbn. rewrite andb_true_iff, negb_true_iff. by intros [-> _]. Qed.

Lemma trim_space_right_none s : all_chars (λ c, negb (is_space c)) s = true → trim_space_right s = s.
Proof.
  induction s as [|c s IH]; [done|]. cbn. rewrite andb_true_iff, negb_true_iff. intros [Hc Hs].
  rewrite IH by done. destruct s; [by rewrite Hc|done].
Qed.

Lemma TrimSpace_none s : all_chars (λ c, negb (is_space c)) s = true → TrimSpace s = s.
Proof. intros Hs. unfold TrimSpace. by rewrite trim_space_left_none, trim_space_right_none. Qed.

Lemma token_no_space s : isToken s = true → all_chars (λ c, negb (is_space c)) s = true.
Proof.
  intros [Hs _]%isToken_chars. revert Hs. apply all_chars_impl. intros c Hc.
  by destruct (isTokenChar_facts c Hc) as [-> _].
Qed.

Lemma token_without d s : isTokenChar d = false → isToken s = true → without d s.
Proof.
  intros Hd [Hs _]%isToken_chars. revert Hs. apply all_chars_impl. intros c Hc.
  apply bool_decide_eq_true. intros ->. congruence.
Qed.

Lemma type_ok_facts t : type_ok t →
  format_type t = Some t ∧ without ";" t ∧ TrimSpace t = t ∧ checkMediaTypeDisposition t = true.
Proof.
  intros [Hl Ht]. unfold format_type, checkMediaTypeDisposition. pose proof (cut_inv "/" t) as Hcut.
  destruct (cut "/" t) as [major [sub|]].
  - destruct Hcut as [-> _], Ht as [Hma Hsu]. rewrite Hma, Hsu. cbn [andb].
    assert (to_lower major +:+ "/" +:+ to_lower sub = major +:+ String "/" sub) as ->.
    { rewrite <- Hl at 1. rewrite to_lower_app. done. }
    split_and!; [done| | |].
    + apply without_app. split; [by apply token_without|]. unfold without. cbn.
      by apply (token_without ";").
    + apply TrimSpace_none. rewrite all_chars_app, andb_true_iff. cbn. by rewrite !token_no_space.
    + rewrite consumeToken_token by done.
      rewrite (bool_decide_false (major = "")) by by apply isToken_chars.
      cbn. rewrite <- (app_nil_r sub), consumeToken_token by done.
      by rewrite (bool_decide_false (sub = "")) by by apply isToken_chars.
  - rewrite Ht, Hl. split_and!; [done|by apply token_without|by apply TrimSpace_none, token_no_space|].
    rewrite <- (app_nil_r t), consumeToken_token by done.
    by rewrite bool_decide_false by by apply isToken_chars.
Qed.

Lemma sorted_entries_perm {A} (m : gmap string A) : sorted_entries m ≡ₚ map_to_list m.
Proof. apply merge_sort_Permutation. Qed.

Lemma sorted_entries_NoDup {A} (m : gmap string A) : NoDup (sorted_entries m).*1.
Proof. rewrite (sorted_entries_perm m). apply NoDup_fst_map_to_list. Qed.

Lemma sorted_entries_to_map {A} (m : gmap string A) : list_to_map (sorted_entries m) = m.
Proof.
  rewrite (list_to_map_proper (sorted_entries m) (map_to_list m)).
  - apply list_to_map_to_list.
  - apply sorted_entries_NoDup.
  - apply sorted_entries_perm.
Qed.

(** A media type that has a text is read back from it. *)
Lemma ParseMediaType_Format t (params : gmap string string) :
  type_ok t → map_Forall (λ k v, param_ok (k, v)) params →
  ParseMediaType (FormatMediaType t params) = Ret (t, params).
Proof.
  intros Ht Hps. destruct (type_ok_facts t Ht) as (Hf & Hsemi & Htrim & Hcheck).
  assert (Forall param_ok (sorted_entries params)) as Hok.
  { apply Forall_forall. intros [k v] Hkv. apply Hps. apply elem_of_map_to_list.
    by rewrite <- (sorted_entries_perm params). }
  destruct (format_params_ok _ Hok) as [ps Hfp]. unfold FormatMediaType. rewrite Hf, Hfp.
  cbn [mbind option_bind].
  assert (∃ rest, cut ";" (t +:+ ps) = (t, rest) ∧
    match rest with Some p => String ";" p | None => "" end = ps) as (rest & Hcut & Hrest).
  { destruct (format_params_head _ _ Hfp) as [[-> _]|[s ->]].
    - exists None. rewrite app_nil_r. by rewrite cut_without.
    - exists (Some s). by rewrite cut_app. }
  unfold ParseMediaType. change (default "" (Some (t +:+ ps))) with (t +:+ ps). rewrite Hcut. destruct Ht as [Hl _]. rewrite Hl, Htrim, Hcheck. cbn [negb].
  rewrite Hrest. erewrite parse_params_format; [| |done|apply sorted_entries_NoDup|done|].
  - cbn. by rewrite map_union_empty, sorted_entries_to_map.
  - done.
  - clear -Hfp. enough (length (sorted_entries params) ≤ String.length ps) by lia.
    revert ps Hfp. generalize (sorted_entries params). intros l.
    induction l as [|[k v] l IH]; intros ps Hfp; [simpl; lia|].
    cbn in Hfp. destruct (format_param k v) as [p|] eqn:Hp; [|done].
    cbn in Hfp. destruct (format_params l) as [r|]; [|done]. injection Hfp as <-.
    specialize (IH r eq_refl). unfold format_param in Hp. destruct (negb (isToken k)); [done|].
    destruct (if isToken v then _ else _); [|done]. injection Hp as <-.
    rewrite !app_cons. simpl. rewrite string_length_app. lia.
Qed.
End strings.

(** ** Round trip of headers and queries *)

Lemma canonical_idem up s : canonical up (canonical up s) = canonical up s.
Proof.
  revert up. induction s as [|c s IH]; intros up; [done|]. cbn.
  assert ((if up then to_upper_char (if up then to_upper_char c else to_lower_char c)
           else to_lower_char (if up then to_upper_char c else to_lower_char c)) =
          (if up then to_upper_char c else to_lower_char c)) as ->.
  { destruct up; by destruct c as [[][][][][][][][]]; vm_compute. }
  by rewrite IH.
Qed.

Lemma canonical_token up s : all_chars isTokenChar s = true → all_chars isTokenChar (canonical up s) = true.
Proof.
  revert up. induction s as [|c s IH]; intros up; [done|]. cbn. rewrite !andb_true_iff. intros [Hc Hs].
  split; [|by apply IH]. revert Hc. destruct up; by destruct c as [[][][][][][][][]]; vm_compute.
Qed.

Lemma CanonicalHeaderKey_idem k : CanonicalHeaderKey (CanonicalHeaderKey k) = CanonicalHeaderKey k.
Proof.
  unfold CanonicalHeaderKey. destruct (all_chars isTokenChar k) eqn:Hk; [|by rewrite Hk].
  rewrite canonical_token by done. apply canonical_idem.
Qed.

Lemma QueryUnescape_Escape s : QueryUnescape (QueryEscape s) = Some s.
Proof.
  induction s as [|c s IH]; [done|]. cbn [QueryEscape]. destruct (unreserved c) eqn:Hu.
  - cbn [QueryUnescape]. rewrite IH.
    assert (bool_decide (c = "%"%char) = false ∧ bool_decide (c = "+"%char) = false) as [-> ->].
    { revert Hu. by destruct c as [[][][][][][][][]]; vm_compute. }
    done.
  - case_bool_decide as Hsp; [subst c; cbn; by rewrite IH|]. cbn -[hex_digit code].
    assert (unhex (hex_digit (code c / 16)) = Some (code c / 16)%N ∧
            unhex (hex_digit (code c mod 16)) = Some (code c mod 16)%N ∧
            ascii_of_N (16 * (code c / 16) + code c mod 16) = c) as (-> & -> & Hc).
    { clear. by destruct c as [[][][][][][][][]]; vm_compute. }
    rewrite IH. cbn -[code]. by rewrite Hc.
Qed.

(** The characters of an escaped text. *)
Definition escaped_char (c : ascii) : bool := unreserved c || bool_decide (c = "%"%char) || bool_decide (c = "+"%char).

Lemma escaped_char_facts c : escaped_char c = true →
  c ≠ "&"%char ∧ c ≠ ";"%char ∧ c ≠ "="%char.
Proof. by destruct c as [[][][][][][][][]]; vm_compute. Qed.

Lemma QueryEscape_chars s : all_chars escaped_char (QueryEscape s) = true.
Proof.
  induction s as [|c s IH]; [done|]. cbn [QueryEscape]. destruct (unreserved c) eqn:Hu.
  - cbn. rewrite IH, andb_true_r. unfold escaped_char. by rewrite Hu.
  - case_bool_decide; [done|].
    assert (escaped_char (hex_digit (code c / 16)) = true ∧ escaped_char (hex_digit (code c mod 16)) = true) as [H1 H2].
    { clear. by destruct c as [[][][][][][][][]]; vm_compute. }
    cbn -[code hex_digit escaped_char]. by rewrite H1, H2, IH.
Qed.

Definition pair_char (c : ascii) : bool := escaped_char c || bool_decide (c = "="%char).

Lemma pair_char_facts c : pair_char c = true → bool_decide (c = "&"%char ∨ c = ";"%char) = false.
Proof. by destruct c as [[][][][][][][][]]; vm_compute. Qed.

Lemma split_query_pair s : all_chars pair_char s = true → split_query s = [s].
Proof.
  induction s as [|c s IH]; [done|]. cbn -[pair_char]. rewrite andb_true_iff. intros [Hc Hs].
  by rewrite pair_char_facts, IH.
Qed.

Lemma split_query_app s t : all_chars pair_char s = true →
  split_query (s +:+ String "&" t) = s :: split_query t.
Proof.
  induction s as [|c s IH]; [done|]. rewrite app_cons. cbn -[pair_char]. rewrite andb_true_iff. intros [Hc Hs].
  by rewrite pair_char_facts, IH.
Qed.

Lemma split_query_join l : Forall (λ s, all_chars pair_char s = true) l → l ≠ [] →
  split_query (join "&" l) = l.
Proof.
  induction l as [|s l IH]; intros Hl Hne; [done|]. apply Forall_cons in Hl as [Hs Hl].
  destruct l as [|s' l]; [by apply split_query_pair|].
  change (join "&" (s :: s' :: l)) with (s +:+ String "&" (join "&" (s' :: l))).
  by rewrite split_query_app, IH.
Qed.

Definition pair_text (kv : string * string) : string := QueryEscape kv.1 +:+ "=" +:+ QueryEscape kv.2.

Lemma pair_text_chars kv : all_chars pair_char (pair_text kv) = true.
Proof.
  assert (∀ s, all_chars pair_char (QueryEscape s) = true) as Hq.
  { intros s. eapply all_chars_impl; [|apply QueryEscape_chars]. intros c Hc. unfold pair_char. by rewrite Hc. }
  unfold pair_text. rewrite all_chars_app, andb_true_iff. split; [apply Hq|].
  change (all_chars pair_char (QueryEscape kv.2) = true). apply Hq.
Qed.

Lemma parse_pair_text kv : parse_pair (pair_text kv) = Some kv.
Proof.
  destruct kv as [k v]. unfold parse_pair, pair_text. cbn [fst snd].
  rewrite bool_decide_false by (destruct (QueryEscape k); done).
  change ("=" +:+ QueryEscape v) with (String "=" (QueryEscape v)). rewrite cut_app.
  - rewrite QueryUnescape_Escape. cbn. by rewrite QueryUnescape_Escape.
  - eapply all_chars_impl; [|apply QueryEscape_chars]. intros c Hc. apply bool_decide_eq_true.
    apply not_eq_sym. by apply escaped_char_facts.
Qed.

(** A map of values, as a query has it. *)
Definition singles {A} (m : gmap string A) : gmap string (list A) := (λ v, [v]) <$> m.

Lemma omap_parse_pair_text (l : list (string * string)) : omap parse_pair (pair_text <$> l) = l.
Proof. induction l as [|kv l IH]; [done|]. cbn. by rewrite parse_pair_text, IH. Qed.

Lemma foldl_Values_Add (l : list (string * string)) (q : gmap string (list string)) : NoDup l.*1 → (∀ k, k ∈ l.*1 → q !! k = None) →
  foldl (λ q '(k, v), Values_Add k v q) q l = singles (list_to_map l) ∪ q.
Proof.
  revert q. induction l as [|[k v] l IH]; intros q Hnd Hnew.
  { unfold singles. cbn. by rewrite fmap_empty, (left_id_L ∅ (∪)). }
  rewrite fmap_cons in Hnd, Hnew. apply NoDup_cons in Hnd as [Hk Hnd]. cbn [fst] in *.
  cbn [foldl].
  assert (Values_Add k v q = <[k := [v]]> q) as -> by (unfold Values_Add; by rewrite Hnew by set_solver).
  rewrite IH; [|done|].
  - unfold singles. cbn. rewrite fmap_insert, <- insert_union_l, insert_union_r; [done|].
    rewrite lookup_fmap. by rewrite (not_elem_of_list_to_map_1 _ _ Hk).
  - intros k' Hk'. rewrite lookup_insert_ne by set_solver. apply Hnew. set_solver.
Qed.

Lemma sorted_singles (m : gmap string string) :
  flat_map (λ '(k, vs), map (λ v, QueryEscape k +:+ "=" +:+ QueryEscape v) vs) (sorted_entries (singles m)) ≡ₚ
  pair_text <$> sorted_entries m.
Proof.
  rewrite (sorted_entries_perm m).
  assert (∀ l l' : list (string * list string), l ≡ₚ l' →
    flat_map (λ '(k, vs), map (λ v, QueryEscape k +:+ "=" +:+ QueryEscape v) vs) l ≡ₚ
    flat_map (λ '(k, vs), map (λ v, QueryEscape k +:+ "=" +:+ QueryEscape v) vs) l') as Hperm.
  { intros l l' Hl. by apply Permutation_flat_map. }
  rewrite (Hperm _ _ (sorted_entries_perm _)). unfold singles. rewrite map_to_list_fmap.
  generalize (map_to_list m). intros l. induction l as [|[k v] l IH]; [done|]. cbn in *. by rewrite IH.
Qed.

(** A query with one value per key is read back from its text. *)
Lemma ParseQuery_Encode (m : gmap string string) : ParseQuery (Encode (singles m)) = singles m.
Proof.
  unfold ParseQuery, Encode. pose proof (sorted_singles m) as Hperm.
  revert Hperm. generalize (flat_map (λ '(k, vs), map (λ v, QueryEscape k +:+ "=" +:+ QueryEscape v) vs)
    (sorted_entries (singles m))). intros texts Hperm.
  assert (∃ l, texts = pair_text <$> l ∧ l ≡ₚ sorted_entries m) as (l & -> & Hl).
  { apply (Permutation_map_inv pair_text) in Hperm as (l & -> & Hl). exists l. split; [done|]. by symmetry. }
  assert (omap parse_pair (split_query (join "&" (pair_text <$> l))) = l) as ->.
  { destruct l as [|kv l]; [done|]. rewrite split_query_join; [apply omap_parse_pair_text| |done].
    apply Forall_fmap, Forall_forall. intros. apply pair_text_chars. }
  rewrite foldl_Values_Add; [|rewrite Hl; apply sorted_entries_NoDup|done].
  rewrite map_union_empty. f_equal.
  rewrite (list_to_map_proper l (sorted_entries m)); [apply sorted_entries_to_map| |done].
  rewrite Hl. apply sorted_entries_NoDup.
Qed.
