(* ===== verification/MediaType.v ===== *)
(** Component [pkg/util/mediatype]: media types with a suffix, on top of [mime].  A
    [*MediaType] is an [option]: the methods that accept a [nil] receiver say so. *)

From stdpp Require Import base gmap strings list.
From S2P Require Import Prelude Data TypedValues FnRefs NetHttp.
From Stdlib Require Import Ascii.

(** [pkg/util/mediatype/mediatype.go:23-28] MediaType *)
Record MediaType := MkMediaType {
  Parameters : gmap string string;
  Type_ : string;
  Subtype : string;
  Suffix : string }.
#[export] Instance MediaType_eq_dec : EqDecision MediaType.
Proof. solve_decision. Defined.

Implicit Types m : option MediaType.

(** [pkg/util/mediatype/mediatype.go:30-44] MediaType.Copy *)
Definition Copy m : MediaType :=
  match m with
  | None => MkMediaType ∅ "" "" ""
  | Some m => MkMediaType (Parameters m) (Type_ m) (Subtype m) (Suffix m)
  end.

(** [pkg/util/mediatype/mediatype.go:52-57] MediaType.Identifier *)
Definition Identifier m : string :=
  match m with None => "" | Some m => Type_ m +:+ "/" +:+ Subtype m end.

(** [pkg/util/mediatype/mediatype.go:59-63] MediaType.GetParam *)
Definition GetParam m (key : string) : res goerror (string * bool) :=
  m ← deref m;
  Ret (match Parameters m !! key with Some val => (val, true) | None => ("", false) end).

(** [pkg/util/mediatype/mediatype.go:65-70] MediaType.SetParam *)
Definition SetParam m (key val : string) : res goerror (MediaType * bool) :=
  m ← deref m;
  Ret (MkMediaType (<[key := val]> (Parameters m)) (Type_ m) (Subtype m) (Suffix m),
       bool_decide (is_Some (Parameters m !! key))).

(** The comparison of two [nil]s is that of the pointers. *)
(** [pkg/util/mediatype/mediatype.go:72-78] MediaType.TypeEquals *)
Definition TypeEquals m (other : option MediaType) : bool :=
  match m, other with
  | Some m, Some other => bool_decide (Type_ m = Type_ other) && bool_decide (Subtype m = Subtype other)
  | None, None => true
  | _, _ => false
  end.

(** [pkg/util/mediatype/mediatype.go:80-90] MediaType.String *)
Definition MediaType_String m : string :=
  match m with
  | None => ""
  | Some m =>
      let builder := Type_ m +:+ "/" +:+ Subtype m in
      let builder := if bool_decide (Suffix m = "") then builder else builder +:+ "+" +:+ Suffix m in
      FormatMediaType builder (Parameters m)
  end.

Section parse.
Context `{Rfc2231}.

(** [pkg/util/mediatype/mediatype.go:96-116] Parse *)
Definition Parse (s : string) : res goerror MediaType :=
  match ParseMediaType s with
  | Ret (identifier, params) =>
      let '(identifier, suffix) := match cut "+" identifier with
                                   | (identifier, Some suffix) => (identifier, suffix)
                                   | (_, None) => (identifier, "") end in
      let '(mediaType, subType) := match cut "/" identifier with
                                   | (mediaType, Some subType) => (mediaType, subType)
                                   | (_, None) => ("", "") end in
      Ret (MkMediaType params mediaType subType suffix)
  | Throw err => Throw (wrapf err "")
  | Panic w => Panic w
  end.

(** [pkg/util/mediatype/mediatype.go:118-124] MustParse *)
Definition MustParse (s : string) : res goerror MediaType := must (Parse s).

(** The media types that [String] writes so that [Parse] reads them back: a type and a
    subtype in lower case without a plus sign, any suffix in lower case, and parameters
    that [mime] can write. *)
Record well_formed (mt : MediaType) : Prop := {
  wf_type : isToken (Type_ mt) = true ∧ to_lower (Type_ mt) = Type_ mt ∧ without "+" (Type_ mt);
  wf_subtype : isToken (Subtype mt) = true ∧ to_lower (Subtype mt) = Subtype mt ∧ without "+" (Subtype mt);
  wf_suffix : Suffix mt = "" ∨ isToken (Suffix mt) = true ∧ to_lower (Suffix mt) = Suffix mt;
  wf_params : map_Forall (λ k v, param_ok (k, v)) (Parameters mt) }.

Lemma isToken_app s t : isToken s = true → isToken t = true → isToken (s +:+ t) = true.
Proof.
  intros [Hs Hne]%isToken_chars [Ht _]%isToken_chars. unfold isToken.
  rewrite all_chars_app, Hs, Ht, bool_decide_false; [done|]. by destruct s.
Qed.

Lemma Parse_written (mt : MediaType) : well_formed mt → Parse (MediaType_String (Some mt)) = Ret mt.
Proof.
  intros [(Ht & Htl & Htp) (Hs & Hsl & Hsp) Hx Hps]. destruct mt as [ps t s x]. cbn in *.
  assert (without "/" t) as Hslash by by apply token_without.
  assert (to_lower (t +:+ String "/" s) = t +:+ String "/" s) as Hl.
  { rewrite to_lower_app, Htl. cbn. by rewrite Hsl. }
  assert (without "+" (t +:+ String "/" s)) as Hplus.
  { apply without_app. split; [done|]. unfold without. cbn. exact Hsp. }
  unfold MediaType_String, Parse. cbn [Type_ Subtype Suffix Parameters].
  change (t +:+ "/" +:+ s) with (t +:+ String "/" s). destruct Hx as [->|[Hx Hxl]].
  + rewrite bool_decide_true by done. rewrite ParseMediaType_Format; [| |done].
    * rewrite cut_without by done. cbn match. by rewrite cut_app by done.
    * split; [done|]. by rewrite cut_app.
  + rewrite bool_decide_false by (by intros ->). change ("+" +:+ x) with (String "+" x).
    rewrite ParseMediaType_Format; [| |done].
    * rewrite cut_app by done. cbn match. by rewrite cut_app by done.
    * split; [rewrite to_lower_app, Hl; cbn [to_lower]; by rewrite Hxl|].
      rewrite app_assoc_r, app_cons, cut_app by done. split; [done|].
      apply isToken_app; [done|]. apply (isToken_app "+"); done.
Qed.

(** A well-formed media type is written as a text that is read back as the same media
    type: the type, the subtype, the suffix after the first plus sign and every
    parameter, however it has to be quoted; reading never panics, whatever the text; and
    setting a parameter shows in the one that is read, and in no other. *)
Theorem Parse_String (mt : MediaType) :
  (well_formed mt → Parse (MediaType_String (Some mt)) = Ret mt) ∧
  (∀ s, no_panic (Parse s)) ∧
  (∀ k v, ∃ mt', SetParam (Some mt) k v = Ret (mt', bool_decide (is_Some (Parameters mt !! k))) ∧
     ∀ k', GetParam (Some mt') k' = if decide (k' = k) then Ret (v, true) else GetParam (Some mt) k').
Proof.
  split_and!.
  - apply Parse_written.
  - intros s. unfold Parse. pose proof (ParseMediaType_no_panic s) as Hnp.
    destruct (ParseMediaType s) as [[identifier params]|e|w]; [|done|done].
    destruct (cut "+" identifier) as [? []]; destruct (cut "/" _) as [? []]; done.
  - intros k v. eexists. split; [reflexivity|]. intros k'. unfold GetParam. cbn.
    case_decide as Hk; [subst; by rewrite lookup_insert_eq|by rewrite lookup_insert_ne].
Qed.
End parse.

(** A structured type whose parameter has to be quoted. *)
Lemma Parse_String_witness :
  let mt := MkMediaType {[ "proto" := "types.fission.io/MapValue" ]} "application" "vnd.fission" "json" in
  @Parse no_continuations (MediaType_String (Some mt)) = Ret mt.
Proof.
  apply Parse_String. split.
  - by vm_compute.
  - by vm_compute.
  - right. by vm_compute.
  - apply map_Forall_singleton. by vm_compute.
Defined.

(** A plus sign in the type is taken for a suffix, and the type is lost. *)
Example Parse_plus_in_type :
  @Parse no_continuations (MediaType_String (Some (MkMediaType ∅ "a+b" "c" ""))) =
  Ret (MkMediaType ∅ "" "" "b/c").
Proof. by vm_compute. Qed.

(** The cases of the tests of the repository. *)
Example Parse_cases :
  let parse := @Parse no_continuations in
  parse "application/json" = Ret (MkMediaType ∅ "application" "json" "") ∧
  parse "text/plain; proto=org.some.Message" =
    Ret (MkMediaType {[ "proto" := "org.some.Message" ]} "text" "plain" "") ∧
  parse "application/protobuf+json; charset=utf-8" =
    Ret (MkMediaType {[ "charset" := "utf-8" ]} "application" "protobuf" "json") ∧
  parse "application/vnd.google.protobuf; proto=com.example.SomeMessage; zoo=bar" =
    Ret (MkMediaType {[ "proto" := "com.example.SomeMessage"; "zoo" := "bar" ]}
           "application" "vnd.google.protobuf" "").
Proof. by vm_compute. Qed.
