(* ===== verification/Httpconv.v ===== *)
(** Component [pkg/types/typedvalues/httpconv]: typed values as HTTP requests and
    responses.  Of a URL only the query is looked at, a body is what reading it gives;
    the state of a request or of a response writer is passed explicitly. *)

From stdpp Require Import base gmap strings list pretty.
From S2P Require Import Prelude Data Types TypedValues FnRefs NetHttp MediaType.
From Stdlib Require Import Ascii.

(** ** Libraries *)

(** encoding/json, jsonpb, the registry of protobuf messages and the decoding into a message
    of a registered name: [MessageType name] says whether the name is registered (names
    are dotted identifiers), [json_wire] of which values decoding gives back what was
    encoded. *)
Class Codecs := {
  json_Marshal : gval → option string;
  json_Unmarshal : string → option gval;
  MessageType : string → bool;
  json_Unmarshal_message : string → string → option gval;
  jsonpb_Unmarshal : string → string → option gval;
  proto_Unmarshal : string → string → option gval;
  json_wire : gval → Prop;
  json_Unmarshal_Marshal : ∀ v, json_wire v → ∃ b, json_Marshal v = Some b ∧ json_Unmarshal b = Some v;
  MessageType_dotted : ∀ name, MessageType name = true → without "/" name;
}.

(** The text [%v] gives a value and a float. *)
Class Fmt := {
  Sprint : gval → string;
  Sprint_string : ∀ s, Sprint (VString s) = s;
}.

Definition inputContentType : string := "content-type".
Definition headerContentType : string := "Content-Type".
Definition messageTypeParam : string := "proto".
Definition ErrMessageTypeNotFound : goerror := ErrNew "media type did not contain message type parameter".

Definition MediaTypeBytes : MediaType := MkMediaType ∅ "application" "octet-stream" "".
Definition MediaTypeJSON : MediaType := MkMediaType ∅ "application" "json" "".
Definition MediaTypeProtobuf : MediaType := MkMediaType ∅ "application" "protobuf" "".
Definition MediaTypeText : MediaType := MkMediaType ∅ "text" "plain" "".

Lemma media_types_parsed `{Rfc2231} :
  MustParse "application/octet-stream" = Ret MediaTypeBytes ∧
  MustParse "application/json" = Ret MediaTypeJSON ∧
  MustParse "application/protobuf" = Ret MediaTypeProtobuf ∧
  MustParse "text/plain" = Ret MediaTypeText.
Proof.
  unfold MustParse, Parse, ParseMediaType. cbn. rewrite stitch_empty, map_union_empty. done.
Qed.

(** ** Where a value is written *)

(** [http.ResponseWriter]. *)
Class ResponseWriter (W : Type) := {
  w_Header : W → Header;
  w_change_Header : (Header → Header) → W → W;
  w_Write : string → st W goerror ();
  w_WriteHeader : Z → W → W;
}.

(** A request: the query of its URL, [None] without a URL; the headers, [None] for a [nil]
    map; and what reading the body gives, [None] for a [nil] body. *)
Record Request := MkRequest {
  Req_Method : string;
  Req_RawQuery : option string;
  Req_Header : option Header;
  Req_Body : option (res goerror string) }.

(** The buffer [buf] is the one the body reads. *)
(** [pkg/types/typedvalues/httpconv/httpconv.go:433-436] requestWriter *)
Record requestWriter := MkRequestWriter { rw_req : Request; rw_buf : option string }.

(** [pkg/types/typedvalues/httpconv/httpconv.go:438-443] requestWriter.Header *)
Definition requestWriter_Header (rw : requestWriter) : Header := default ∅ (Req_Header (rw_req rw)).

Definition requestWriter_change_Header (f : Header → Header) (rw : requestWriter) : requestWriter :=
  let req := rw_req rw in
  MkRequestWriter (MkRequest (Req_Method req) (Req_RawQuery req) (Some (f (requestWriter_Header rw))) (Req_Body req))
    (rw_buf rw).

(** [pkg/types/typedvalues/httpconv/httpconv.go:445-456] requestWriter.Write *)
Definition requestWriter_Write (data : string) : st requestWriter goerror () := λ rw,
  let req := rw_req rw in
  let buf := default "" (rw_buf rw) +:+ data in
  let rw := MkRequestWriter (MkRequest (Req_Method req) (Req_RawQuery req) (Req_Header req) (Some (Ret buf))) (Some buf) in
  (Ret (), requestWriter_change_Header (Header_Set "Content-Length" (pretty (String.length buf))) rw).

(** [pkg/types/typedvalues/httpconv/httpconv.go:458-460] requestWriter.WriteHeader *)
Definition requestWriter_WriteHeader (statusCode : Z) (rw : requestWriter) : requestWriter := rw.

#[export] Instance requestWriter_writer : ResponseWriter requestWriter := {|
  w_Header := requestWriter_Header;
  w_change_Header := requestWriter_change_Header;
  w_Write := requestWriter_Write;
  w_WriteHeader := requestWriter_WriteHeader |}.

(** The writer of net/http's server: [Resp_header] is the map a handler changes, [Resp_sent] the
    status and the headers as they were when they were sent, which the first [WriteHeader]
    or [Write] does; [Resp_broken] says that the connection is gone. *)
Record Response := MkResponse {
  Resp_header : Header;
  Resp_sent : option (Z * Header);
  Resp_body : string;
  Resp_broken : bool }.

Definition server_WriteHeader (statusCode : Z) (w : Response) : Response :=
  match Resp_sent w with
  | Some _ => w
  | None => MkResponse (Resp_header w) (Some (statusCode, Resp_header w)) (Resp_body w) (Resp_broken w)
  end.

Definition server_Write (data : string) : st Response goerror () := λ w,
  let w := server_WriteHeader 200 w in
  if Resp_broken w then (Throw (ErrFmt "write"), w)
  else (Ret (), MkResponse (Resp_header w) (Resp_sent w) (Resp_body w +:+ data) false).

#[export] Instance server_writer : ResponseWriter Response := {|
  w_Header := Resp_header;
  w_change_Header f w := MkResponse (f (Resp_header w)) (Resp_sent w) (Resp_body w) (Resp_broken w);
  w_Write := server_Write;
  w_WriteHeader := server_WriteHeader |}.

(** [http.Error] *)
Definition http_Error {W} `{ResponseWriter W} (text : string) (code : Z) : st W goerror () := λ w,
  let w := w_change_Header (Header_Set "Content-Type" "text/plain; charset=utf-8") w in
  let w := w_change_Header (Header_Set "X-Content-Type-Options" "nosniff") w in
  let '(_, w) := w_Write (text +:+ newline) (w_WriteHeader code w) in
  (Ret (), w).

(** [pkg/util/mediatype/mediatype.go:92-94] SetContentTypeHeader *)
Definition SetContentTypeHeader {W} `{ResponseWriter W} (m : option MediaType) : st W goerror () :=
  modifyS (w_change_Header (Header_Set "Content-Type" (MediaType_String m))).

(** ** Mappers *)

(** [ParserFormatter] and its implementations. *)
Inductive ParserFormatter := jsonMapper | textMapper | bytesMapper | protobufMapper.
#[export] Instance ParserFormatter_eq_dec : EqDecision ParserFormatter.
Proof. solve_decision. Defined.

(** A type assertion without a test. *)
Definition assert_string (i : gval) : res goerror string :=
  match i with VString s => Ret s | _ => Panic "interface conversion" end.
Definition assert_bytes (i : gval) : res goerror string :=
  match i with VBytes s => Ret s | _ => Panic "interface conversion" end.

Section httpconv.
Context `{MapRange} `{Proto} `{Rfc2231} `{Codecs} `{Fmt} (fuel : nat).

(** [fmt.Sprintf("%d", i)]: a verb for integers. *)
Definition Sprintf_d (i : gval) : string :=
  match i with
  | VInt32 n | VInt64 n | VUInt32 n | VUInt64 n => pretty n
  | VFloat32 _ => "%!d(float32=" +:+ Sprint i +:+ ")"
  | VFloat64 _ => "%!d(float64=" +:+ Sprint i +:+ ")"
  | _ => "%!d(" +:+ Sprint i +:+ ")"
  end.

(** [pkg/types/typedvalues/httpconv/mappers.go:55-61] BytesMapper.Parse *)
Definition BytesMapper_Parse (mt : option MediaType) (reader : res goerror string) : res goerror (option TypedValue) :=
  bs ← reader; Wrap fuel (VBytes bs).

(** [pkg/types/typedvalues/httpconv/mappers.go:139-152] JSONMapper.parseJSONWithType *)
Definition JSONMapper_parseJSONWithType (data msgName : string) : res goerror (option TypedValue) :=
  if negb (MessageType msgName) then Throw ErrMessageTypeNotFound else
  match json_Unmarshal_message msgName data with
  | Some msg => Wrap fuel msg
  | None => Throw (ErrFmt "json: cannot unmarshal")
  end.

(** [pkg/types/typedvalues/httpconv/mappers.go:114-137] JSONMapper.Parse *)
Definition JSONMapper_Parse (mt : option MediaType) (reader : res goerror string) : res goerror (option TypedValue) :=
  data ← reader;
  mt ← deref mt;
  match Parameters mt !! messageTypeParam with
  | Some msgName => JSONMapper_parseJSONWithType data msgName
  | None =>
      match json_Unmarshal data with
      | Some i => Wrap fuel i
      | None => Throw (ErrFmt "json: cannot unmarshal")
      end
  end.

(** [pkg/types/typedvalues/httpconv/mappers.go:195-201] TextMapper.Parse *)
Definition TextMapper_Parse (mt : option MediaType) (reader : res goerror string) : res goerror (option TypedValue) :=
  bs ← reader; Wrap fuel (VString bs).

(** [pkg/types/typedvalues/httpconv/mappers.go:234-247] ProtobufMapper.parseJSONWithType *)
Definition ProtobufMapper_parseJSONWithType (reader : res goerror string) (msgName : string) :
    res goerror (option TypedValue) :=
  if negb (MessageType msgName) then Throw ErrMessageTypeNotFound else
  data ← reader;
  match jsonpb_Unmarshal msgName data with
  | Some msg => Wrap fuel msg
  | None => Throw (ErrFmt "jsonpb: cannot unmarshal")
  end.

(** [pkg/types/typedvalues/httpconv/mappers.go:249-267] ProtobufMapper.parseProtoWithType *)
Definition ProtobufMapper_parseProtoWithType (reader : res goerror string) (msgName : string) :
    res goerror (option TypedValue) :=
  bs ← reader;
  if negb (MessageType msgName) then Throw ErrMessageTypeNotFound else
  match proto_Unmarshal msgName bs with
  | Some msg => Wrap fuel msg
  | None => Throw (ErrFmt "proto: cannot unmarshal")
  end.

(** [pkg/types/typedvalues/httpconv/mappers.go:217-232] ProtobufMapper.Parse *)
Definition ProtobufMapper_Parse (mt : option MediaType) (reader : res goerror string) :
    res goerror (option TypedValue) :=
  mt ← deref mt;
  match Parameters mt !! messageTypeParam with
  | None => Throw ErrMessageTypeNotFound
  | Some msgName =>
      if decide (Suffix mt = "json") then ProtobufMapper_parseJSONWithType reader msgName
      else ProtobufMapper_parseProtoWithType reader msgName
  end.

(** [pkg/types/typedvalues/httpconv/mappers.go:43-45] Parser: the implementations *)
Definition mapper_Parse (p : ParserFormatter) :
    option MediaType → res goerror string → res goerror (option TypedValue) :=
  match p with
  | jsonMapper => JSONMapper_Parse | textMapper => TextMapper_Parse
  | bytesMapper => BytesMapper_Parse | protobufMapper => ProtobufMapper_Parse
  end.

Section writer.
Context {W : Type} `{ResponseWriter W}.

(** [pkg/types/typedvalues/httpconv/mappers.go:63-90] BytesMapper.Format *)
Definition BytesMapper_Format (body : option TypedValue) : st W goerror () :=
  let t := ValueType body in
  bs ← lift (if decide (t = TypeString) then UnwrapString fuel body
             else if decide (t = TypeBytes) then UnwrapBytes fuel body
             else if decide (t = TypeNil) then Ret ""
             else Throw (wrapf ErrUnsupportedType ("cannot format " +:+ t +:+ " to bytes")));
  _ ← w_Write bs;
  SetContentTypeHeader (Some MediaTypeBytes).

(** The media type of a body that says which message it holds. *)
Definition with_message_type (mt : MediaType) (body : option TypedValue) : MediaType :=
  let url := match body ≫= TypedValue_Value with Some a => TypeUrl a | None => "" end in
  MkMediaType (<[messageTypeParam := url]> (Parameters mt)) (Type_ mt) (Subtype mt) (Suffix mt).

(** [pkg/types/typedvalues/httpconv/mappers.go:95-112] JSONMapper.Format *)
Definition JSONMapper_Format (body : option TypedValue) : st W goerror () :=
  i ← lift (Unwrap fuel body);
  bs ← lift (match json_Marshal i with Some bs => Ret bs | None => Throw (ErrFmt "json: unsupported value") end);
  _ ← w_Write bs;
  SetContentTypeHeader (Some (with_message_type (Copy (Some MediaTypeJSON)) body)).

(** [pkg/types/typedvalues/httpconv/mappers.go:156-193] TextMapper.Format *)
Definition TextMapper_Format (body : option TypedValue) : st W goerror () :=
  i ← lift (Unwrap fuel body);
  let t := ValueType body in
  output ← lift (if decide (t = TypeExpression ∨ t = TypeString) then assert_string i
                 else if decide (t = TypeBytes) then assert_bytes i
                 else if decide (t ∈ TypeNumber) then Ret (Sprintf_d i)
                 else if decide (t = TypeNil) then Ret ""
                 else Throw (wrapf ErrUnsupportedType ("could not format " +:+ t +:+ " to text")));
  _ ← w_Write output;
  SetContentTypeHeader (Some MediaTypeText).

(** [pkg/types/typedvalues/httpconv/mappers.go:205-215] ProtobufMapper.Format *)
Definition ProtobufMapper_Format (body : option TypedValue) : st W goerror () :=
  value ← lift (deref (body ≫= TypedValue_Value));
  _ ← w_Write (AnyValue value);
  SetContentTypeHeader (Some (with_message_type (Copy (Some MediaTypeProtobuf)) body)).

(** [pkg/types/typedvalues/httpconv/mappers.go:47-49] Formatter: the implementations *)
Definition mapper_Format (p : ParserFormatter) : option TypedValue → st W goerror () :=
  match p with
  | jsonMapper => JSONMapper_Format | textMapper => TextMapper_Format
  | bytesMapper => BytesMapper_Format | protobufMapper => ProtobufMapper_Format
  end.
End writer.

(** ** The mapper *)

(** [pkg/types/typedvalues/httpconv/httpconv.go:112-117] HTTPMapper *)
Record HTTPMapper := MkHTTPMapper {
  DefaultHTTPMethod : string;
  ValueTypeResolver : option TypedValue → option MediaType;
  DefaultMediaType : option MediaType;
  MediaTypeResolver : option MediaType → ParserFormatter }.

(** [pkg/types/typedvalues/httpconv/httpconv.go:33-58] ValueTypeResolver of DefaultHTTPMapper *)
Definition defaultValueTypeResolver (tv : option TypedValue) : option MediaType :=
  match tv with
  | None => Some MediaTypeBytes
  | Some _ =>
      let special :=
        let t := ValueType tv in
        if decide (t = TypeBytes) then MediaTypeBytes
        else if decide (t = TypeNil) then MediaTypeBytes
        else if decide (t = TypeString) then MediaTypeText
        else MediaTypeJSON in
      match GetMetadataValue tv headerContentType with
      | (ct, true) => match Parse ct with Ret mt => Some mt | _ => Some special end
      | (_, false) => Some special
      end
  end.

(** [pkg/types/typedvalues/httpconv/httpconv.go:59-89] MediaTypeResolver of DefaultHTTPMapper *)
Definition defaultMediaTypeResolver (mt : option MediaType) : ParserFormatter :=
  match mt with
  | None => bytesMapper
  | Some m =>
      let id := Identifier mt in
      if decide (id = MediaType_String (Some MediaTypeJSON) ∨ id = "text/json") then jsonMapper
      else if decide (id = MediaType_String (Some MediaTypeText)) then textMapper
      else if decide (id = MediaType_String (Some MediaTypeBytes)) then bytesMapper
      else if decide (id = MediaType_String (Some MediaTypeProtobuf) ∨ id = "application/vnd.google.protobuf" ∨
                      id = "application/x.google.protobuf" ∨ id = "application/x.protobuf") then protobufMapper
      else if decide (Type_ m = "text") then textMapper
      else if decide (Type_ m = "application") then bytesMapper
      else bytesMapper
  end.

(** [pkg/types/typedvalues/httpconv/httpconv.go:31-90] DefaultHTTPMapper *)
Definition DefaultHTTPMapper : HTTPMapper :=
  MkHTTPMapper "POST" defaultValueTypeResolver None defaultMediaTypeResolver.

Implicit Types h : HTTPMapper.

(** [pkg/types/typedvalues/httpconv/httpconv.go:265-272] HTTPMapper.Clone *)
Definition Clone h : HTTPMapper :=
  MkHTTPMapper (DefaultHTTPMethod h) (ValueTypeResolver h) (Some (Copy (DefaultMediaType h))) (MediaTypeResolver h).

(** [pkg/types/typedvalues/httpconv/httpconv.go:275-281] HTTPMapper.parseBody *)
Definition parseBody h (data : res goerror string) (contentType : option MediaType) :
    res goerror (option TypedValue) :=
  let contentType := match contentType with None => DefaultMediaType h | _ => contentType end in
  mapper_Parse (MediaTypeResolver h contentType) contentType data.

(** [pkg/types/typedvalues/httpconv/httpconv.go:284-286] HTTPMapper.parseMethod *)
Definition parseMethod (r : Request) : res goerror (option TypedValue) := MustWrap fuel (VString (Req_Method r)).

(** The value [v[0]] of every key: an empty list of values panics. *)
(** [pkg/types/typedvalues/httpconv/httpconv.go:424-430] flattenMultimap *)
Definition flattenMultimap (mm : gmap string (list string)) : res goerror (gmap string gval) :=
  foldM (λ target '(k, v),
    match v with
    | x :: _ => Ret (<[k := VString x]> target)
    | [] => Panic "index out of range"
    end) ∅ (range 0 mm).

(** [pkg/types/typedvalues/httpconv/httpconv.go:289-293] HTTPMapper.parseReqHeaders *)
Definition parseReqHeaders (r : Request) : res goerror (option TypedValue) :=
  headers ← flattenMultimap (default ∅ (Req_Header r)); MustWrap fuel (VMap headers).

(** What a response holds: its status, its headers and what reading its body gives. *)
Record ClientResponse := MkClientResponse {
  CR_StatusCode : Z; CR_Header : Header; CR_Body : res goerror string }.

(** [pkg/types/typedvalues/httpconv/httpconv.go:296-300] HTTPMapper.parseRespHeaders *)
Definition parseRespHeaders (r : ClientResponse) : res goerror (option TypedValue) :=
  headers ← flattenMultimap (CR_Header r); MustWrap fuel (VMap headers).

(** [pkg/types/typedvalues/httpconv/httpconv.go:303-307] HTTPMapper.parseQuery *)
Definition parseQuery (r : Request) : res goerror (option TypedValue) :=
  url ← deref (Req_RawQuery r);
  query ← flattenMultimap (ParseQuery url); MustWrap fuel (VMap query).

(** [pkg/types/typedvalues/httpconv/httpconv.go:387-396] HTTPMapper.getRequestContentType *)
Definition getRequestContentType h (headers : Header) : option MediaType :=
  match Parse (Header_Get headers headerContentType) with Ret ct => Some ct | _ => DefaultMediaType h end.

(** [req.ParseForm()] on a fresh request: the values of the body of a form, then those of the
    query.  A body of more than ten megabytes is an error, which the program ignores. *)
Definition maxFormSize : Z := 10 * 2 ^ 20.

Definition post_form (r : Request) : Values :=
  if decide (Req_Method r ∈ ["POST"; "PUT"; "PATCH"]) then
    match Req_Body r with
    | Some (Ret b) =>
        let ct := Header_Get (default ∅ (Req_Header r)) "Content-Type" in
        let ct := if decide (ct = "") then "application/octet-stream" else ct in
        match ParseMediaType ct with
        | Ret (ct, _) =>
            if decide (ct = "application/x-www-form-urlencoded" ∧ Z.of_nat (String.length b) ≤ maxFormSize)%Z
            then ParseQuery b else ∅
        | _ => ∅
        end
    | _ => ∅
    end
  else ∅.

Definition ParseForm (r : Request) : Values :=
  let query := match Req_RawQuery r with Some q => ParseQuery q | None => ∅ end in
  union_with (λ x y, Some (x ++ y)) (post_form r) query.

(** The body of the two ways to read a request. *)
(** [pkg/types/typedvalues/httpconv/httpconv.go:132-158] HTTPMapper.ParseRequest: the body *)
Definition parse_request_body h (req : Request) : res goerror (option TypedValue) :=
  let contentType := getRequestContentType h (default ∅ (Req_Header req)) in
  data ← deref (Req_Body req);
  if decide (Identifier contentType = "application/x-www-form-urlencoded") then
    let mp := foldl (λ mp '(k, vs), match vs with x :: _ => <[k := VString x]> mp | [] => mp end) ∅
                (range 1 (ParseForm req)) in
    match Wrap fuel (VMap mp) with
    | Throw err => Throw (ErrFmt "failed to parse form request")
    | r => r
    end
  else
    match parseBody h data contentType with
    | Throw err => Throw (ErrFmt "failed to parse request")
    | r => r
    end.

(** [pkg/types/typedvalues/httpconv/httpconv.go:130-178] HTTPMapper.ParseRequest *)
Definition ParseRequest h (req : Request) : res goerror (gmap string (option TypedValue)) :=
  body ← parse_request_body h req;
  query ← parseQuery req;
  headers ← parseReqHeaders req;
  method ← parseMethod req;
  Ret (<[InputBody := body]> (<[InputMain := body]> (<[InputQuery := query]>
        (<[InputHeaders := headers]> (<[InputMethod := method]> ∅))))).

(** [pkg/types/typedvalues/httpconv/httpconv.go:119-123] HTTPMapper.ParseResponse *)
Definition ParseResponse h (resp : ClientResponse) : res goerror (option TypedValue) :=
  let contentType := getRequestContentType h (CR_Header resp) in
  parseBody DefaultHTTPMapper (CR_Body resp) contentType.

(** [pkg/types/typedvalues/httpconv/httpconv.go:125-127] HTTPMapper.ParseResponseHeaders *)
Definition ParseResponseHeaders (resp : ClientResponse) : res goerror (option TypedValue) :=
  parseRespHeaders resp.

(** ** Formatting *)

(** A map of values as pairs of texts, in the order of the loop. *)
Definition texts_of (site : nat) (i : gval) : list (string * string) :=
  match i with VMap m => (λ '(k, v), (k, Sprint v)) <$> range site m | _ => [] end.

(** An error is logged, and leaves [nil]. *)
Definition unwrap_or_nil (tv : option TypedValue) : res goerror gval :=
  match Unwrap fuel tv with Throw _ => Ret VNil | r => r end.

(** [pkg/types/typedvalues/httpconv/httpconv.go:399-418] HTTPMapper.formatHeaders *)
Definition formatHeaders (inputsHeaders : option TypedValue) : res goerror Header :=
  i ← unwrap_or_nil inputsHeaders;
  Ret (foldl (λ headers '(k, v), Header_Add k v headers) ∅ (texts_of 2 i)).

Notation Inputs := (gmap string (option TypedValue)) (only parsing).

(** [pkg/types/typedvalues/httpconv/httpconv.go:322-344] HTTPMapper.formatQuery *)
Definition formatQuery (inputs : Inputs) : res goerror (option Values) :=
  match mjoin (inputs !! InputQuery) with
  | None => Ret None
  | Some queryInput =>
      i ← unwrap_or_nil (Some queryInput);
      Ret (Some (foldl (λ target '(k, v), Values_Add k v target) ∅ (texts_of 3 i)))
  end.

(** [pkg/types/typedvalues/httpconv/httpconv.go:309-319] HTTPMapper.formatMethod *)
Definition formatMethod h (inputs : Inputs) : res goerror string :=
  match mjoin (inputs !! InputMethod) with
  | None => Ret (DefaultHTTPMethod h)
  | Some tv => match UnwrapString fuel (Some tv) with Throw _ => Ret (DefaultHTTPMethod h) | r => r end
  end.

(** [pkg/types/typedvalues/httpconv/httpconv.go:462-469] getFirstDefined *)
Fixpoint getFirstDefined (inputs : Inputs) (keys : list string) : option TypedValue :=
  match keys with
  | [] => None
  | key :: keys => match inputs !! key with Some val => val | None => getFirstDefined inputs keys end
  end.

(** [x, err := a; if err == nil { return .. }; ..]: a panic is not caught. *)
Definition on_error {A B} (m : res goerror A) (k : A → res goerror B) (e : res goerror B) : res goerror B :=
  match m with Ret a => k a | Throw _ => e | Panic w => Panic w end.

(** [pkg/types/typedvalues/httpconv/httpconv.go:354-373] HTTPMapper.findAndParseContentType *)
Definition findAndParseContentType (inputs : Inputs) : res goerror MediaType :=
  on_error (UnwrapString fuel (mjoin (inputs !! inputContentType))) Parse
    (headers ← UnwrapMap fuel (mjoin (inputs !! InputHeaders));
     match headers !! headerContentType with
     | Some (VString ctHeader) => Parse ctHeader
     | _ => Throw (ErrNew "cannot find or parse content-type")
     end).

(** [pkg/types/typedvalues/httpconv/httpconv.go:375-385] HTTPMapper.determineContentTypeFromInputs *)
Definition determineContentTypeFromInputs h (inputs : option Inputs) : res goerror (option MediaType) :=
  match inputs with
  | None => Ret (DefaultMediaType h)
  | Some inputs =>
      on_error (findAndParseContentType inputs) (λ mt, Ret (Some mt))
        (Ret (ValueTypeResolver h (getFirstDefined inputs [InputBody; InputMain])))
  end.

(** [pkg/types/typedvalues/httpconv/httpconv.go:346-352] HTTPMapper.formatBody *)
Definition formatBody {W} `{ResponseWriter W} h (body : option TypedValue) (contentType : option MediaType) :
    st W goerror () :=
  let contentType := match contentType with None => ValueTypeResolver h body | _ => contentType end in
  mapper_Format (MediaTypeResolver h contentType) body.

(** [for k, v := range headers { if len(v) > 0 { Header().Set(k, v[0]) } }] *)
Definition set_headers (headers : Header) (to : Header) : Header :=
  foldl (λ to '(k, v), match v with x :: _ => Header_Set k x to | [] => to end) to (range 4 headers).

(** [pkg/types/typedvalues/httpconv/httpconv.go:181-213] HTTPMapper.FormatResponse *)
Definition FormatResponse {W} `{ResponseWriter W} (error_text : goerror → string) h
    (output outputHeaders : option TypedValue) (outputErr : option Error) : st W goerror () :=
  match outputErr with
  | Some err => http_Error (Error_Message err) 500
  | None =>
      match output with
      | None => modifyS (w_WriteHeader 204)
      | Some _ =>
          headers ← lift (formatHeaders outputHeaders);
          _ ← modifyS (w_change_Header (set_headers headers));
          _ ← modifyS (w_WriteHeader 200);
          let contentType := ValueTypeResolver h output in
          catch (formatBody h output contentType)
            (λ err, http_Error ("Failed to format response body: " +:+ error_text err) 500)
      end
  end.

(** The request a [requestWriter] leaves behind. *)
Definition with_request_writer (m : st requestWriter goerror ()) : st Request goerror () := λ req,
  let '(r, rw) := m (MkRequestWriter req None) in (r, rw_req rw).

Definition change_request (f : Request → Request) : st Request goerror () := modifyS f.

(** [pkg/types/typedvalues/httpconv/httpconv.go:216-263] HTTPMapper.FormatRequest, of a request that is not [nil] *)
Definition FormatRequest h (source : option Inputs) : st Request goerror () :=
  let inputs := default ∅ source in
  contentType ← lift (determineContentTypeFromInputs h source);
  let mainInput := getFirstDefined inputs [InputBody; InputMain] in
  _ ← match mainInput with
      | Some _ => with_request_writer (formatBody h mainInput contentType)
      | None => mret ()
      end;
  method ← lift (formatMethod h inputs);
  _ ← change_request (λ r, MkRequest method (Req_RawQuery r) (Req_Header r) (Req_Body r));
  query ← lift (formatQuery inputs);
  _ ← match query with
      | None => mret ()
      | Some query =>
          r ← getS;
          _ ← lift (deref (Req_RawQuery r));
          change_request (λ r, MkRequest (Req_Method r) (Some (Encode query)) (Req_Header r) (Req_Body r))
      end;
  headers ← match mjoin (inputs !! InputHeaders) with
            | Some rawHeaders => lift (formatHeaders (Some rawHeaders))
            | None => mret ∅
            end;
  change_request (λ r, MkRequest (Req_Method r) (Req_RawQuery r)
    (Some (match Req_Header r with None => headers | Some to => set_headers headers to end)) (Req_Body r)).

(** ** What is written *)

(** The bytes of a body, and the media type that announces them. *)
Definition body_bytes (p : ParserFormatter) (body : option TypedValue) : res goerror string :=
  let t := ValueType body in
  match p with
  | bytesMapper =>
      if decide (t = TypeString) then UnwrapString fuel body
      else if decide (t = TypeBytes) then UnwrapBytes fuel body
      else if decide (t = TypeNil) then Ret ""
      else Throw (wrapf ErrUnsupportedType ("cannot format " +:+ t +:+ " to bytes"))
  | jsonMapper =>
      i ← Unwrap fuel body;
      match json_Marshal i with Some bs => Ret bs | None => Throw (ErrFmt "json: unsupported value") end
  | textMapper =>
      i ← Unwrap fuel body;
      if decide (t = TypeExpression ∨ t = TypeString) then assert_string i
      else if decide (t = TypeBytes) then assert_bytes i
      else if decide (t ∈ TypeNumber) then Ret (Sprintf_d i)
      else if decide (t = TypeNil) then Ret ""
      else Throw (wrapf ErrUnsupportedType ("could not format " +:+ t +:+ " to text"))
  | protobufMapper => value ← deref (body ≫= TypedValue_Value); Ret (AnyValue value)
  end.

Definition announced (p : ParserFormatter) (body : option TypedValue) : MediaType :=
  match p with
  | bytesMapper => MediaTypeBytes
  | textMapper => MediaTypeText
  | jsonMapper => with_message_type MediaTypeJSON body
  | protobufMapper => with_message_type MediaTypeProtobuf body
  end.

(** Every mapper writes its bytes, then sets the content type; or it fails before it has
    written anything. *)
Lemma mapper_Format_spec {W} `{ResponseWriter W} p body (w : W) :
  mapper_Format p body w =
  match body_bytes p body with
  | Ret bs => (_ ← w_Write bs; SetContentTypeHeader (Some (announced p body))) w
  | Throw e => (Throw e, w)
  | Panic y => (Panic y, w)
  end.
Proof.
  destruct p; cbn [mapper_Format body_bytes].
  - unfold JSONMapper_Format. destruct (Unwrap fuel body) as [i|e|y]; [|done|done].
    rewrite st_lift_Ret. cbn. by destruct (json_Marshal i).
  - unfold TextMapper_Format. destruct (Unwrap fuel body) as [i|e|y]; [|done|done].
    rewrite st_lift_Ret. cbn [mbind res_bind]. unfold mbind at 1, st_bind at 1, lift.
    by destruct (if decide _ then _ else _).
  - unfold BytesMapper_Format. unfold mbind at 1, st_bind at 1, lift.
    by destruct (if decide _ then _ else _).
  - unfold ProtobufMapper_Format. by destruct (body ≫= TypedValue_Value).
Qed.

Lemma modify_bind {S E B} (f : S → S) (k : () → st S E B) s : (x ← modifyS f; k x) s = k () (f s).
Proof. done. Qed.

(** ** Responses *)

(** What a client gets: the status and the headers as they were sent, and the body. *)
Definition sent (w : Response) : option (Z * Header) * string := (Resp_sent w, Resp_body w).

Definition error_headers (headers : Header) : Header :=
  Header_Set "X-Content-Type-Options" "nosniff" (Header_Set "Content-Type" "text/plain; charset=utf-8" headers).

Lemma http_Error_fresh text code hdr :
  http_Error text code (MkResponse hdr None "" false) =
  (Ret (), MkResponse (error_headers hdr) (Some (code, error_headers hdr)) (text +:+ newline) false).
Proof. done. Qed.


(** ** Round trip of requests *)

(** [tv] is how the value [v] is wrapped. *)
Definition holds (tv : TypedValue) (v : gval) : Prop :=
  Wrap fuel v = Ret (Some tv) ∧ Unwrap fuel (Some tv) = Ret v.

(** The map of texts. *)
Definition texts (m : gmap string string) : gval := VMap (VString <$> m).

Lemma texts_of_texts site m : ∃ l, texts_of site (texts m) = l ∧ NoDup l.*1 ∧ list_to_map l = m.
Proof.
  eexists. split; [reflexivity|]. cbn [texts texts_of].
  assert ((λ '(k, v), (k, Sprint v)) <$> range site (VString <$> m) ≡ₚ map_to_list m) as Hp.
  { rewrite (range_perm site), map_to_list_fmap, <- list_fmap_compose.
    rewrite <- (list_fmap_id (map_to_list m)) at 2. apply Permutation_refl', list_fmap_ext.
    intros i [k v] _. cbn. by rewrite Sprint_string. }
  split; [rewrite Hp; apply NoDup_fst_map_to_list|].
  rewrite (list_to_map_proper _ (map_to_list m)); [apply list_to_map_to_list| |done].
  rewrite Hp. apply NoDup_fst_map_to_list.
Qed.

Lemma flattenMultimap_singles (m : gmap string string) :
  flattenMultimap (singles m) = Ret (VString <$> m).
Proof.
  unfold flattenMultimap.
  rewrite (foldM_Ret _ (λ target '(k, v), match (λ (_ : string) (v : list string), VString <$> head v) k v with
    | Some b => <[k := b]> target | None => target end)).
  - f_equal. apply map_eq. intros k. rewrite foldl_omap_range, lookup_empty. unfold singles.
    rewrite !lookup_fmap. by destruct (m !! k).
  - intros target [k v] Hin. apply elem_of_range in Hin. unfold singles in Hin.
    rewrite lookup_fmap in Hin. destruct (m !! k); [|done]. by injection Hin as <-.
Qed.

(** The names of headers in their canonical form. *)
Definition canonical_names (m : gmap string string) : Prop := map_Forall (λ k _, CanonicalHeaderKey k = k) m.

Lemma formatHeaders_texts tv m : Unwrap fuel (Some tv) = Ret (texts m) → canonical_names m →
  formatHeaders (Some tv) = Ret (singles m).
Proof.
  intros Hu Hc. unfold formatHeaders, unwrap_or_nil. rewrite Hu. cbn [mbind res_bind]. f_equal.
  destruct (texts_of_texts 2 m) as (l & -> & Hnd & Hl).
  assert (∀ q : Header, foldl (λ headers '(k, v), Header_Add k v headers) q l =
                        foldl (λ q '(k, v), Values_Add k v q) q l) as ->.
  { assert (∀ k, k ∈ l.*1 → CanonicalHeaderKey k = k) as Hk.
    { intros k Hk. apply list_elem_of_fmap in Hk as ([k' v] & -> & Hin). apply (Hc k' v).
      rewrite <- Hl. by apply elem_of_list_to_map_1. }
    clear -Hk. induction l as [|[k v] l IH]; intros q; [done|]. cbn [foldl].
    unfold Header_Add at 2. rewrite Hk by set_solver. apply IH. intros. apply Hk. set_solver. }
  rewrite (foldl_Values_Add l ∅) by done. by rewrite map_union_empty, Hl.
Qed.

Lemma set_headers_singles m (to : Header) : canonical_names m →
  set_headers (singles m) to = singles m ∪ to.
Proof.
  intros Hc. unfold set_headers.
  assert (∀ l to, (∀ k v, (k, v) ∈ l → singles m !! k = Some v) →
    foldl (λ to '(k, v), match v with x :: _ => Header_Set k x to | [] => to end) to l =
    foldl (λ to '(k, v), match Some v with Some b => <[k := b]> to | None => to end) to l) as Hl.
  { induction l as [|[k v] l IH]; intros to' Hin; [done|]. cbn [foldl]. rewrite IH by set_solver.
    f_equal. assert (singles m !! k = Some v) as Hk by (apply Hin; set_solver).
    unfold singles in Hk. rewrite lookup_fmap in Hk. destruct (m !! k) as [x|] eqn:Hm; [|done].
    injection Hk as <-. unfold Header_Set. by rewrite (Hc k x). }
  rewrite Hl by (intros k v; apply elem_of_range). apply map_eq. intros k.
  etrans; [apply (foldl_omap_range 4 (λ (_ : string) (v : list string), Some v))|].
  rewrite lookup_union. by destruct (singles m !! k), (to !! k).
Qed.

(** The inputs a workflow gives a request. *)
Definition request_inputs (body method query headers : TypedValue) : Inputs :=
  {[ InputBody := Some body; InputMethod := Some method; InputQuery := Some query; InputHeaders := Some headers ]}.

(** What a request carries so that it is understood: a text or bytes under their own content
    type, any value JSON can hold when the headers announce JSON.  [ct] is the content
    type among the headers. *)
Inductive carried (ct : option string) : gval → Prop :=
| carried_text s : IsExpression s = false → ct = None → carried ct (VString s)
| carried_bytes s : ct = None → carried ct (VBytes s)
| carried_json v : json_wire v → ct = Some "application/json" → carried ct v.

(** The headers the writing of a body adds. *)
Definition body_headers (p : ParserFormatter) (tv : TypedValue) (bs : string) : gmap string string :=
  {[ "Content-Type" := MediaType_String (Some (announced p (Some tv)));
     "Content-Length" := pretty (String.length bs) ]}.

Lemma body_headers_type p tv bs :
  body_headers p tv bs !! "Content-Type" = Some (MediaType_String (Some (announced p (Some tv)))).
Proof. apply lookup_insert_eq. Qed.

Section roundtrip.
Context (body : gval) (m : string) (q hs : gmap string string) (tvb tvm tvq tvh : TypedValue).
Hypothesis Hbody : holds tvb body.
Hypothesis Hmethod : holds tvm (VString m).
Hypothesis Hquery : holds tvq (texts q).
Hypothesis Hheaders : holds tvh (texts hs).
Hypothesis Hnames : canonical_names hs.

Notation source := (request_inputs tvb tvm tvq tvh).

Lemma request_inputs_lookup :
  source !! InputBody = Some (Some tvb) ∧ source !! InputMethod = Some (Some tvm) ∧
  source !! InputQuery = Some (Some tvq) ∧ source !! InputHeaders = Some (Some tvh) ∧
  source !! inputContentType = None.
Proof. unfold request_inputs. by split_and!; simplify_map_eq. Qed.

Lemma fuel_positive : ∃ f, fuel = S f.
Proof. destruct Hbody as [Hw _]. destruct fuel; [done|eauto]. Qed.

Lemma find_content_type :
  findAndParseContentType source =
  match hs !! headerContentType with
  | Some ct => Parse ct
  | None => Throw (ErrNew "cannot find or parse content-type")
  end.
Proof.
  destruct request_inputs_lookup as (_ & _ & _ & Hh & Hc). unfold findAndParseContentType.
  rewrite Hc, Hh. cbn [mjoin option_join]. destruct fuel_positive as [f Hf].
  assert (UnwrapString fuel None = not_a "string") as -> by by rewrite Hf.
  unfold UnwrapMap. destruct Hheaders as [_ ->]. unfold not_a, on_error, texts. cbn [mbind res_bind].
  rewrite lookup_fmap. by destruct (hs !! headerContentType).
Qed.

Lemma request_writer_body bs mt m0 q0 d0 b0 : default ∅ d0 = ∅ →
  (_ ← w_Write bs; SetContentTypeHeader (Some mt)) (MkRequestWriter (MkRequest m0 q0 d0 b0) None) =
  (Ret (), MkRequestWriter (MkRequest m0 q0
     (Some (singles {[ "Content-Type" := MediaType_String (Some mt);
                       "Content-Length" := pretty (String.length bs) ]})) (Some (Ret bs))) (Some bs)).
Proof. destruct d0 as [d0|]; [intros Hh; cbn in Hh; subst d0|intros _]; reflexivity. Qed.

(** The request that is made of the inputs, whatever the mapper of the body. *)
Lemma FormatRequest_made p ct bs (req : Request) query :
  determineContentTypeFromInputs DefaultHTTPMapper (Some source) = Ret ct →
  defaultMediaTypeResolver (match ct with None => defaultValueTypeResolver (Some tvb) | _ => ct end) = p →
  body_bytes p (Some tvb) = Ret bs → Req_RawQuery req = Some query → default ∅ (Req_Header req) = ∅ →
  FormatRequest DefaultHTTPMapper (Some source) req =
  (Ret (), MkRequest m (Some (Encode (singles q))) (Some (singles (hs ∪ body_headers p tvb bs))) (Some (Ret bs))).
Proof.
  intros Hct Hp Hbs Hq Hh. destruct request_inputs_lookup as (Hib & Him & Hiq & Hih & _).
  unfold FormatRequest. rewrite Hct, st_lift_Ret. cbn [from_option id getFirstDefined]. cbv zeta.
  rewrite Hib. cbn match.
  set (req1 := MkRequest (Req_Method req) (Some query) (Some (singles (body_headers p tvb bs))) (Some (Ret bs))).
  rewrite (st_bind_Ret _ _ req req1 ()).
  2:{ unfold with_request_writer, formatBody. cbn [MediaTypeResolver ValueTypeResolver DefaultHTTPMapper].
      rewrite Hp, mapper_Format_spec, Hbs. destruct req as [m0 q0 d0 b0]. cbn [Req_RawQuery Req_Header] in Hq, Hh. subst q0.
      by rewrite request_writer_body. }
  unfold formatMethod. rewrite Him. cbn [mjoin option_join]. unfold UnwrapString.
  destruct Hmethod as [_ ->]. cbn [mbind res_bind]. rewrite st_lift_Ret.
  unfold change_request. rewrite modify_bind.
  unfold formatQuery. rewrite Hiq. cbn [mjoin option_join]. unfold unwrap_or_nil.
  destruct Hquery as [_ ->]. cbn [mbind res_bind]. rewrite st_lift_Ret. cbn match.
  destruct (texts_of_texts 3 q) as (l & -> & Hnd & Hl). rewrite foldl_Values_Add, map_union_empty, Hl by done.
  rewrite (st_bind_Ret _ _ _ (MkRequest m (Some (Encode (singles q))) (Req_Header req1) (Req_Body req1)) ()) by done.
  rewrite Hih. cbn [mjoin option_join].
  destruct Hheaders as [_ Hu]. rewrite (formatHeaders_texts tvh hs Hu Hnames), st_lift_Ret.
  unfold modifyS. cbn [Req_Method Req_RawQuery Req_Header Req_Body req1].
  rewrite set_headers_singles by done. do 4 f_equal. unfold singles. by rewrite map_fmap_union.
Qed.

(** What reading that request gives. *)
Lemma ParseRequest_made p bs ct :
  let hs' := hs ∪ body_headers p tvb bs in
  hs' !! "Content-Type" = Some ct →
  (∃ mt, Parse ct = Ret mt ∧ Identifier (Some mt) ≠ "application/x-www-form-urlencoded" ∧
     mapper_Parse (defaultMediaTypeResolver (Some mt)) (Some mt) (Ret bs) = Ret (Some tvb)) →
  ParseRequest DefaultHTTPMapper
    (MkRequest m (Some (Encode (singles q))) (Some (singles hs')) (Some (Ret bs))) =
  (headers ← MustWrap fuel (texts hs');
   Ret (<[InputBody := Some tvb]> (<[InputMain := Some tvb]> (<[InputQuery := Some tvq]>
        (<[InputHeaders := headers]> (<[InputMethod := Some tvm]> ∅)))))).
Proof.
  intros hs' Hct (mt & Hmt & Hid & Hparse). unfold ParseRequest, parse_request_body.
  cbn [Req_Header Req_Body from_option id deref mbind res_bind].
  assert (getRequestContentType DefaultHTTPMapper (singles hs') = Some mt) as ->.
  { unfold getRequestContentType, Header_Get. change (CanonicalHeaderKey headerContentType) with "Content-Type".
    unfold singles. rewrite lookup_fmap, Hct. cbn. by rewrite Hmt. }
  rewrite decide_False by done. unfold parseBody. cbn [MediaTypeResolver DefaultHTTPMapper].
  rewrite Hparse. cbn [mbind res_bind].
  unfold parseQuery. cbn [Req_RawQuery deref mbind res_bind].
  rewrite ParseQuery_Encode, flattenMultimap_singles. cbn [mbind res_bind].
  unfold MustWrap at 1. destruct Hquery as [Hwq _]. unfold texts in Hwq. rewrite Hwq. cbn [must].
  unfold parseReqHeaders. cbn [Req_Header from_option id]. rewrite flattenMultimap_singles. cbn [mbind res_bind].
  fold (texts hs'). destruct (MustWrap fuel (texts hs')); [|done|done]. cbn [mbind res_bind].
  unfold parseMethod, MustWrap. cbn [Req_Method]. destruct Hmethod as [Hwm _]. by rewrite Hwm.
Qed.

(** The types and the text of the default media types. *)
Lemma default_resolver :
  defaultMediaTypeResolver (Some MediaTypeText) = textMapper ∧
  defaultMediaTypeResolver (Some MediaTypeBytes) = bytesMapper ∧
  defaultMediaTypeResolver (Some MediaTypeJSON) = jsonMapper ∧
  ∀ url, defaultMediaTypeResolver (Some (MkMediaType {[ messageTypeParam := url ]} "application" "json" "")) = jsonMapper.
Proof. by split_and!. Qed.

(** What a typed value says about its content. *)
Lemma Wrap_leaf f v msg tv : leaf_message v = Some msg → Wrap f v = Ret (Some tv) →
  TypedValue_Metadata tv = ∅ ∧ ValueType (Some tv) = MessageName msg.
Proof.
  intros Hm Hw. assert (seal msg = Ret tv) as Hs.
  { destruct f as [|f]; [done|]. destruct v; try done; cbn [leaf_message] in Hm; injection Hm as <-;
      cbn [Wrap leaf_message] in Hw; bind_inv Hw as t Ht; by injection Hw as <-. }
  split; [|by apply seal_type]. unfold seal in Hs. bind_inv Hs as a Ha. by injection Hs as <-.
Qed.

Lemma default_type_special tv : TypedValue_Metadata tv = ∅ →
  defaultValueTypeResolver (Some tv) =
  Some (if decide (ValueType (Some tv) = TypeBytes) then MediaTypeBytes
        else if decide (ValueType (Some tv) = TypeNil) then MediaTypeBytes
        else if decide (ValueType (Some tv) = TypeString) then MediaTypeText else MediaTypeJSON).
Proof. intros Hm. unfold defaultValueTypeResolver, GetMetadataValue. by rewrite Hm, lookup_empty. Qed.

(** Without a content type the value decides. *)
Lemma content_type_of_value : hs !! headerContentType = None →
  determineContentTypeFromInputs DefaultHTTPMapper (Some source) = Ret (defaultValueTypeResolver (Some tvb)).
Proof.
  intros Hc. unfold determineContentTypeFromInputs. rewrite find_content_type, Hc. cbn [on_error].
  destruct request_inputs_lookup as (Hib & _). cbn [getFirstDefined]. by rewrite Hib.
Qed.

Lemma carried_written : carried (hs !! "Content-Type") body →
  ∃ p ct bs text mt,
    determineContentTypeFromInputs DefaultHTTPMapper (Some source) = Ret (Some ct) ∧
    defaultMediaTypeResolver (Some ct) = p ∧ body_bytes p (Some tvb) = Ret bs ∧
    (hs ∪ body_headers p tvb bs) !! "Content-Type" = Some text ∧ Parse text = Ret mt ∧
    Identifier (Some mt) ≠ "application/x-www-form-urlencoded" ∧
    mapper_Parse (defaultMediaTypeResolver (Some mt)) (Some mt) (Ret bs) = Ret (Some tvb).
Proof.
  destruct default_resolver as (HrT & HrB & HrJ & _).
  destruct media_types_parsed as (HpB & HpJ & _ & HpT).
  assert (∀ text mt, MustParse text = Ret mt → Parse text = Ret mt) as Hmust.
  { intros text mt. unfold MustParse. by destruct (Parse text). }
  pose proof Hbody as [Hw Hu]. inversion 1 as [s Hs Hct Hb|s Hct Hb|v Hwire Hct Hb]; rewrite <- Hb in Hw, Hu.
  - destruct (Wrap_leaf fuel (VString s) (StringValue s) tvb) as [Hm Ht]; [cbn; by rewrite Hs|done|].
    exists textMapper, MediaTypeText, s, "text/plain", MediaTypeText.
    split_and!; [|done| | |by apply Hmust|done|by rewrite HrT].
    + rewrite content_type_of_value by done. by rewrite default_type_special, Ht by done.
    + unfold body_bytes. rewrite Hu. cbn [mbind res_bind]. rewrite decide_True by (right; exact Ht). done.
    + rewrite lookup_union_r by done. apply body_headers_type.
  - destruct (Wrap_leaf fuel (VBytes s) (BytesValue s) tvb) as [Hm Ht]; [done..|].
    exists bytesMapper, MediaTypeBytes, s, "application/octet-stream", MediaTypeBytes.
    split_and!; [|done| | |by apply Hmust|done|by rewrite HrB].
    + rewrite content_type_of_value by done. by rewrite default_type_special, Ht by done.
    + unfold body_bytes. rewrite Ht. unfold UnwrapBytes. by rewrite Hu.
    + rewrite lookup_union_r by done. apply body_headers_type.
  - destruct (json_Unmarshal_Marshal body Hwire) as (bs & Hmar & Hunm).
    rewrite Hb in Hw, Hu. exists jsonMapper, MediaTypeJSON, bs, "application/json", MediaTypeJSON.
    split_and!; [|done| | |by apply Hmust|done|].
    + unfold determineContentTypeFromInputs. rewrite find_content_type.
      change headerContentType with "Content-Type". rewrite Hct, (Hmust _ _ HpJ). done.
    + unfold body_bytes. rewrite Hu. cbn [mbind res_bind]. by rewrite Hmar.
    + by rewrite (lookup_union_Some_l _ _ _ _ Hct).
    + rewrite HrJ. cbn [mapper_Parse]. unfold JSONMapper_Parse. cbn. by rewrite Hunm.
Qed.


(** The values that are sent as JSON: what is neither a text, nor bytes, nor nothing. *)
Definition structured (msg : message) : Prop :=
  value_message msg ∧ match msg with StringValue _ | BytesValue _ | NilValue => False | _ => True end.

(** Without a content type of its own a structured body does not survive: [FormatRequest]
    writes it as JSON and announces the URL of its type as the message type, and
    [ParseRequest] takes that for the name of a message, which no URL is, and refuses the
    request it was given by the same mapper. *)
Theorem structured_request_refused (msg : message) (bs : string) (req : Request) (query : string) :
  seal msg = Ret tvb → structured msg → hs !! "Content-Type" = None → json_Marshal body = Some bs →
  Req_RawQuery req = Some query → default ∅ (Req_Header req) = ∅ →
  ∃ req', FormatRequest DefaultHTTPMapper (Some source) req = (Ret (), req') ∧
    Req_Body req' = Some (Ret bs) ∧
    ParseRequest DefaultHTTPMapper req' = Throw (ErrFmt "failed to parse request").
Proof.
  intros Hseal [Hvm Hst] Hct Hmar Hq Hh. pose proof (seal_type msg tvb Hseal) as Ht.
  assert (TypedValue_Metadata tvb = ∅ ∧ ∃ b, TypedValue_Value tvb = Some (MkAny (TypeUrlPrefix +:+ MessageName msg) b)) as [Hm [b Hv]].
  { unfold seal, marshalAny in Hseal. destruct (marshal msg) as [b|]; [|done]. injection Hseal as <-. eauto. }
  assert (body_bytes jsonMapper (Some tvb) = Ret bs) as Hbs.
  { pose proof Hbody as [_ Hu]. unfold body_bytes. rewrite Hu. cbn [mbind res_bind]. by rewrite Hmar. }
  destruct default_resolver as (_ & _ & HrJ & HrP).
  eexists. split_and!.
  - eapply (FormatRequest_made jsonMapper (Some MediaTypeJSON)); [|exact HrJ|done..].
    rewrite content_type_of_value by done. rewrite default_type_special, Ht by done.
    by destruct msg.
  - done.
  - set (url := TypeUrlPrefix +:+ MessageName msg).
    set (mt := MkMediaType {[ messageTypeParam := url ]} "application" "json" "").
    assert (announced jsonMapper (Some tvb) = mt) as Hann.
    { unfold announced, with_message_type. cbn [mbind option_bind]. by rewrite Hv. }
    unfold ParseRequest, parse_request_body. cbn [Req_Header Req_Body from_option id deref mbind res_bind].
    assert (getRequestContentType DefaultHTTPMapper (singles (hs ∪ body_headers jsonMapper tvb bs)) = Some mt) as ->.
    { unfold getRequestContentType, Header_Get. change (CanonicalHeaderKey headerContentType) with "Content-Type".
      unfold singles. rewrite lookup_fmap, lookup_union_r, body_headers_type by done. rewrite Hann. cbn [fmap option_fmap option_map].
      rewrite Parse_written; [done|]. split; [by vm_compute|by vm_compute|by left|].
      apply map_Forall_singleton. split; [by vm_compute|]. cbn [snd]. by destruct msg. }
    rewrite decide_False by done. unfold parseBody. cbn [MediaTypeResolver DefaultHTTPMapper].
    unfold mt at 1. rewrite HrP. cbn [mapper_Parse]. unfold JSONMapper_Parse. cbn [deref mbind res_bind Parameters mt].
    rewrite lookup_singleton_eq. unfold JSONMapper_parseJSONWithType.
    destruct (MessageType url) eqn:Hu; [|done]. apply MessageType_dotted in Hu. done.
Qed.
End roundtrip.
End httpconv.
