(* ===== verification/ControlFlow.v ===== *)
(** Component [pkg/types/typedvalues/controlflow]: tasks and workflows as values (flows),
    and the output of a task whose own output is a flow. *)

From stdpp Require Import base gmap strings list relations.
From S2P Require Import Prelude Data TypedValues Types.

(** [pkg/types/typedvalues/controlflow/flow.go:16-16] ErrEmptyFlow *)
Definition ErrEmptyFlow : goerror := ErrNew "flow is empty".
(** [pkg/types/typedvalues/controlflow/flow.go:17-17] ErrNotAFlow *)
Definition ErrNotAFlow : goerror := ErrNew "value is not a flow".

(** [pkg/types/typedvalues/controlflow/valuetypes.go:22-34] init *)
Definition TypeTask : string := "fission.workflows.types.TaskSpec".
Definition TypeWorkflow : string := "fission.workflows.types.WorkflowSpec".
Definition TypeFlow : string := "fission.workflows.types.Flow".
Definition FlowTypes : list string := [TypeTask; TypeWorkflow; TypeFlow].

(** [pkg/types/typedvalues/controlflow/flow.go:20-30] IsControlFlow *)
Definition IsControlFlow (tv : option TypedValue) : bool :=
  match tv with
  | None => false
  | Some _ => existsb (λ valueType, bool_decide (valueType = ValueType tv)) FlowTypes
  end.

(** ** Flows *)

(** [pkg/types/typedvalues/controlflow/flow.go:130-132] FlowTask *)
Definition FlowTask (task : option TaskSpec) : Flow := MkFlow None task.
(** [pkg/types/typedvalues/controlflow/flow.go:134-136] FlowWorkflow *)
Definition FlowWorkflow (workflow : option WorkflowSpec) : Flow := MkFlow workflow None.

(** [pkg/types/typedvalues/controlflow/flow.go:66-77] Flow.Type *)
Definition Flow_Type (m : option Flow) : string :=
  match m with
  | None => ""
  | Some m =>
      match Flow_Task m, Flow_Workflow m with
      | Some _, _ => TypeTask
      | None, Some _ => TypeWorkflow
      | None, None => ""
      end
  end.

(** [pkg/types/typedvalues/controlflow/flow.go:79-89] Flow.Input *)
Definition Flow_Input (m : option Flow) (key : string) (i : TypedValue) : option Flow :=
  match m with
  | None => None
  | Some m => Some (MkFlow (Flow_Workflow m)
                      ((λ t, TaskSpec_Input t key i) <$> Flow_Task m))
  end.

(** [pkg/types/typedvalues/controlflow/flow.go:91-99] Flow.Proto *)
Definition Flow_Proto (m : option Flow) : option message :=
  match m with
  | None => None
  | Some m => match Flow_Task m with
              | Some t => Some (TaskSpecMessage t)
              | None => WorkflowSpecMessage <$> Flow_Workflow m
              end
  end.

(** [proto.Clone] makes an equal message. *)
(** [pkg/types/typedvalues/controlflow/flow.go:101-112] Flow.Clone *)
Definition Flow_Clone (m : option Flow) : option Flow :=
  match m with
  | None => None
  | Some m => match Flow_Task m, Flow_Workflow m with
              | Some t, _ => Some (FlowTask (Some t))
              | None, Some w => Some (FlowWorkflow (Some w))
              | None, None => None
              end
  end.

(** [pkg/types/typedvalues/controlflow/flow.go:114-118] Flow.ApplyTask *)
Definition ApplyTask (m : option Flow) (fn : TaskSpec → TaskSpec) : option Flow :=
  (λ m, MkFlow (Flow_Workflow m) (fn <$> Flow_Task m)) <$> m.

(** [pkg/types/typedvalues/controlflow/flow.go:120-124] Flow.ApplyWorkflow *)
Definition ApplyWorkflow (m : option Flow) (fn : WorkflowSpec → WorkflowSpec) : option Flow :=
  (λ m, MkFlow (fn <$> Flow_Workflow m) (Flow_Task m)) <$> m.

(** [pkg/types/typedvalues/controlflow/flow.go:126-128] Flow.IsEmpty *)
Definition Flow_IsEmpty (m : Flow) : bool :=
  bool_decide (Flow_Workflow m = None ∧ Flow_Task m = None).

(** [pkg/types/typedvalues/controlflow/flow.go:138-152] FlowInterface *)
Definition FlowInterface (i : gval) : res goerror Flow :=
  match i with
  | VNil => Throw ErrEmptyFlow
  | VMessage (WorkflowSpecMessage t) => Ret (FlowWorkflow (Some t))
  | VMessage (TaskSpecMessage t) => Ret (FlowTask (Some t))
  | VMessage (FlowMessage t) => Ret t
  | _ => Throw ErrNotAFlow
  end.

Section unwrap.
Context `{MapRange} `{Proto} (fuel : nat).
Implicit Types tv : option TypedValue.

(** [pkg/types/typedvalues/controlflow/flow.go:32-38] UnwrapControlFlow *)
Definition UnwrapControlFlow tv : res goerror Flow := i ← Unwrap fuel tv; FlowInterface i.

(** [pkg/types/typedvalues/controlflow/flow.go:40-51] UnwrapTask *)
Definition UnwrapTask tv : res goerror TaskSpec :=
  flow ← UnwrapControlFlow tv;
  match Flow_Task flow with None => not_a "task" | Some task => Ret task end.

(** [pkg/types/typedvalues/controlflow/flow.go:53-64] UnwrapWorkflow *)
Definition UnwrapWorkflow tv : res goerror WorkflowSpec :=
  flow ← UnwrapControlFlow tv;
  match Flow_Workflow flow with None => not_a "workflow" | Some wf => Ret wf end.
End unwrap.

(** ** Outputs *)

Section outputs.
Context `{MapRange} {E : Type}.

(** The first dynamic task that carries the output of [taskID]. *)
Definition output_task (taskID : string) (DynamicTasks : gmap string Task) : res E (option string) :=
  let fix go l :=
    match l with
    | [] => Ret None
    | (outputTaskID, outputTask) :: l =>
        spec ← deref (Task_Spec outputTask);
        match TaskSpec_Requires spec !! taskID with
        | None => go l
        | Some dep =>
            dep ← deref dep;
            if decide (TaskDependencyParameters_Type dep = TaskDependencyParameters_DYNAMIC_OUTPUT)
            then Ret (Some outputTaskID) else go l
        end
    end in
  go (range 0 DynamicTasks).

(** The recursion follows the chain of dynamic tasks. *)
(** [pkg/types/typedvalues/controlflow/flow.go:155-171] ResolveTaskOutput *)
Fixpoint ResolveTaskOutput (fuel : nat) (taskID : string) (invocation : WorkflowInvocation) :
    res E (option TypedValue) :=
  match fuel with
  | O => Panic "stack overflow"
  | S fuel =>
      status ← deref (WorkflowInvocation_Status invocation);
      match WorkflowInvocationStatus_Tasks status !! taskID with
      | None => Ret None
      | Some val =>
          vs ← deref (TaskInvocation_Status val);
          let output := TaskInvocationStatus_Output vs in
          if IsControlFlow output
          then next ← output_task taskID (WorkflowInvocationStatus_DynamicTasks status);
               match next with
               | Some outputTaskID => ResolveTaskOutput fuel outputTaskID invocation
               | None => Ret output
               end
          else Ret output
      end
  end.

(** [pkg/types/typedvalues/controlflow/flow.go:173-179] ResolveTaskOutputHeaders *)
Definition ResolveTaskOutputHeaders (taskID : string) (invocation : WorkflowInvocation) :
    res E (option TypedValue) :=
  status ← deref (WorkflowInvocation_Status invocation);
  match WorkflowInvocationStatus_Tasks status !! taskID with
  | None => Ret None
  | Some val => vs ← deref (TaskInvocation_Status val);
                Ret (TaskInvocationStatus_OutputHeaders vs)
  end.
End outputs.

(** ** Correctness *)

(** A dynamic task as [addDynamicWorkflow] makes it: named after its parent, whose
    output it carries, and linked to nothing else. *)
Definition child_id (parent : string) : string := parent +:+ "_child".

Definition is_child (id : string) (t : Task) : Prop :=
  ∃ parent spec params, id = child_id parent ∧ Task_Spec t = Some spec ∧
    TaskSpec_Requires spec = {[ parent := Some params ]} ∧
    TaskDependencyParameters_Type params = TaskDependencyParameters_DYNAMIC_OUTPUT.

Definition children (dyn : gmap string Task) : Prop := ∀ id t, dyn !! id = Some t → is_child id t.

Lemma child_id_length p : String.length (child_id p) = String.length p + 6.
Proof. apply string_length_app. Qed.

Lemma child_id_inj p q : child_id p = child_id q → p = q.
Proof.
  unfold child_id. revert q. induction p as [|c p IH]; intros [|d q] Heq; [done| | |].
  - apply (f_equal String.length) in Heq. rewrite !string_length_app in Heq. cbn in Heq. lia.
  - apply (f_equal String.length) in Heq. rewrite !string_length_app in Heq. cbn in Heq. lia.
  - injection Heq as -> Heq. f_equal. by apply IH.
Qed.

Section correct.
Context `{MapRange} {E : Type}.

(** The task that carries the output of another is its child. *)
Lemma output_task_spec taskID dyn :
  children dyn →
  output_task (E := E) taskID dyn =
    Ret (if decide (is_Some (dyn !! child_id taskID)) then Some (child_id taskID) else None).
Proof.
  intros Hdyn. unfold output_task.
  assert (∀ l, (∀ k t, (k, t) ∈ l → is_child k t) →
    (fix go (l : list (string * Task)) : res E (option string) :=
       match l with
       | [] => Ret None
       | (outputTaskID, outputTask) :: l =>
           spec ← deref (Task_Spec outputTask);
           match TaskSpec_Requires spec !! taskID with
           | None => go l
           | Some dep =>
               dep ← deref dep;
               if decide (TaskDependencyParameters_Type dep = TaskDependencyParameters_DYNAMIC_OUTPUT)
               then Ret (Some outputTaskID) else go l
           end
       end) l = Ret (if decide (child_id taskID ∈ l.*1) then Some (child_id taskID) else None)) as Hl.
  { induction l as [|[k t] l IH]; intros Hin; [by rewrite decide_False by by apply not_elem_of_nil|].
    destruct (Hin k t ltac:(by left)) as (parent & spec & params & -> & -> & Hreq & Hty).
    cbn [deref]. rewrite bind_Ret_l, Hreq.
    assert (∀ k t, (k, t) ∈ l → is_child k t) as Hin' by (intros; apply Hin; by right).
    destruct (decide (parent = taskID)) as [->|Hne].
    - rewrite lookup_singleton_eq. cbn [deref]. rewrite bind_Ret_l, decide_True by done.
      by rewrite decide_True by by left.
    - rewrite lookup_singleton_ne by done. rewrite IH by done. rewrite fmap_cons. f_equal.
      apply decide_ext. rewrite elem_of_cons. split; [by right|]. intros [Heq|?]; [|done].
      by apply child_id_inj in Heq. }
  rewrite Hl by (intros k t Hin%elem_of_range; by apply Hdyn). f_equal. apply decide_ext.
  apply elem_of_range_fst.
Qed.

(** The output of a task: its own, unless that is a flow that a dynamic task runs. *)
Inductive resolves (st : WorkflowInvocationStatus) : string → option TypedValue → Prop :=
| resolves_missing id : WorkflowInvocationStatus_Tasks st !! id = None → resolves st id None
| resolves_own id run vs :
    WorkflowInvocationStatus_Tasks st !! id = Some run → TaskInvocation_Status run = Some vs →
    IsControlFlow (TaskInvocationStatus_Output vs) = false ∨
      WorkflowInvocationStatus_DynamicTasks st !! child_id id = None →
    resolves st id (TaskInvocationStatus_Output vs)
| resolves_child id run vs out :
    WorkflowInvocationStatus_Tasks st !! id = Some run → TaskInvocation_Status run = Some vs →
    IsControlFlow (TaskInvocationStatus_Output vs) = true →
    is_Some (WorkflowInvocationStatus_DynamicTasks st !! child_id id) →
    resolves st (child_id id) out → resolves st id out.

(** By induction on the dynamic tasks not yet visited, which have longer names. *)
Lemma ResolveTaskOutput_chain (invocation : WorkflowInvocation) (st : WorkflowInvocationStatus)
    (taskID : string) (fuel : nat) :
  WorkflowInvocation_Status invocation = Some st →
  children (WorkflowInvocationStatus_DynamicTasks st) →
  (∀ id run, WorkflowInvocationStatus_Tasks st !! id = Some run →
     is_Some (TaskInvocation_Status run)) →
  size (WorkflowInvocationStatus_DynamicTasks st) < fuel →
  ∃ out, ResolveTaskOutput (E := E) fuel taskID invocation = Ret out ∧ resolves st taskID out.
Proof.
  intros Hst Hdyn Hrun Hfuel. set (dyn := WorkflowInvocationStatus_DynamicTasks st) in *.
  assert (∀ fuel visited id, visited ⊆ dom dyn →
    (∀ v, v ∈ visited → String.length v ≤ String.length id) →
    size (dom dyn) < fuel + size visited →
    ∃ out, ResolveTaskOutput (E := E) fuel id invocation = Ret out ∧ resolves st id out) as Hall.
  { clear fuel taskID Hfuel. induction fuel as [|fuel IH]; intros visited id Hsub Hlen Hf.
    { apply subseteq_size in Hsub. lia. }
    cbn [ResolveTaskOutput]. rewrite Hst. cbn [deref]. rewrite bind_Ret_l.
    destruct (WorkflowInvocationStatus_Tasks st !! id) as [run|] eqn:Hid;
      [|exists None; split; [done|by constructor]].
    destruct (Hrun _ _ Hid) as [vs Hvs]. rewrite Hvs. cbn [deref]. rewrite bind_Ret_l.
    destruct (IsControlFlow (TaskInvocationStatus_Output vs)) eqn:Hcf;
      [|eexists; split; [done|]; eapply resolves_own; eauto].
    rewrite output_task_spec, bind_Ret_l by done. fold dyn. case_decide as Hchild.
    - destruct (IH ({[ child_id id ]} ∪ visited) (child_id id)) as (out & Hout & Hres).
      + rewrite union_subseteq, singleton_subseteq_l, elem_of_dom. done.
      + intros v [->%elem_of_singleton|Hv]%elem_of_union; [done|].
        specialize (Hlen v Hv). rewrite child_id_length. lia.
      + rewrite size_union, size_singleton; [lia|]. apply disjoint_singleton_l. intros Hv.
        specialize (Hlen _ Hv). rewrite child_id_length in Hlen. lia.
      + exists out. split; [done|]. by eapply resolves_child.
    - exists (TaskInvocationStatus_Output vs). split; [done|]. eapply resolves_own; eauto. right.
      by apply eq_None_not_Some. }
  apply (Hall fuel ∅ taskID); [apply empty_subseteq|set_solver|].
  rewrite size_empty, size_dom. lia.
Qed.

(** C32: Resolving the output of a task ends: a chain of dynamic tasks is at most as long as
    there are dynamic tasks.  It gives the output of the last task of the chain. *)
Theorem ResolveTaskOutput_resolves (invocation : WorkflowInvocation) (st : WorkflowInvocationStatus)
    (taskID : string) (fuel : nat) :
  WorkflowInvocation_Status invocation = Some st →
  children (WorkflowInvocationStatus_DynamicTasks st) →
  (∀ id run, WorkflowInvocationStatus_Tasks st !! id = Some run →
     is_Some (TaskInvocation_Status run)) →
  size (WorkflowInvocationStatus_DynamicTasks st) < fuel →
  ∃ out, ResolveTaskOutput (E := E) fuel taskID invocation = Ret out ∧ resolves st taskID out.
Proof. apply ResolveTaskOutput_chain. Qed.
End correct.

(** ** A run *)

Definition flow_output : TypedValue := MkTypedValue (Some (MkAny (TypeUrlPrefix +:+ TypeTask) "")) ∅.
Definition text_output : TypedValue := MkTypedValue (Some (MkAny (TypeUrlPrefix +:+ TypeString) "x")) ∅.
Definition run_with (output : TypedValue) : TaskInvocation :=
  MkTaskInvocation None None
    (Some (MkTaskInvocationStatus TaskInvocationStatus_SUCCEEDED None (Some output) None None)).
Definition child_task (parent : string) : Task :=
  MkTask None (Some (MkTaskSpec "f" ∅
    {[ parent := Some (MkTaskDependencyParameters TaskDependencyParameters_DYNAMIC_OUTPUT "") ]}
    0 None None None)) None.

(** Task [a] gave a task, which ran as [a_child]. *)
Definition dynamic_status : WorkflowInvocationStatus :=
  MkWorkflowInvocationStatus WorkflowInvocationStatus_IN_PROGRESS None
    {[ "a" := run_with flow_output; "a_child" := run_with text_output ]} None
    {[ "a_child" := child_task "a" ]} None None.

Lemma ResolveTaskOutput_resolves_witness :
  (let _ := plain_range in
   ResolveTaskOutput (E := unit) 2 "a" (MkWorkflowInvocation None None (Some dynamic_status))) =
    Ret (Some text_output) ∧
  resolves dynamic_status "a" (Some text_output).
Proof.
  destruct (@ResolveTaskOutput_resolves plain_range unit
    (MkWorkflowInvocation None None (Some dynamic_status)) dynamic_status "a" 2) as (out & Hr & Ho).
  - done.
  - cbn. intros id t [<- <-]%lookup_singleton_Some. eexists "a", _, _. by split_and!.
  - cbn. intros id run [[_ <-]|[_ [_ <-]%lookup_singleton_Some]]%lookup_insert_Some; by eexists.
  - vm_compute. lia.
  - vm_compute in Hr. injection Hr as <-. split; [by vm_compute|exact Ho].
Defined.
