(* ===== verification/Fes.v ===== *)
(** Component [pkg/fes]: aggregates, events, their validation and their errors,
    event creation and payload parsing, notifications, and the [Projector]
    interface that the caches rely on and the projectors implement. *)

From stdpp Require Import base gmap strings list.
From S2P Require Import Prelude Data Types.

(** ** Errors *)

(** [pkg/fes/types.go:129-137] ErrInvalidAggregate, ..., ErrEntityNotFound *)
Definition ErrInvalidAggregate : goerror := ErrEventStore "invalid aggregate" None None None.
Definition ErrInvalidEvent : goerror := ErrEventStore "invalid event" None None None.
Definition ErrInvalidEntity : goerror := ErrEventStore "invalid entity" None None None.
Definition ErrEventStoreOverflow : goerror :=
  ErrEventStore "event store out of space" None None None.
Definition ErrUnsupportedEntityEvent : goerror :=
  ErrEventStore "event not supported" None None None.
Definition ErrCorruptedEventPayload : goerror :=
  ErrEventStore "failed to parse event payload" None None None.
Definition ErrEntityNotFound : goerror := ErrEventStore "entity not found" None None None.

(** [pkg/fes/types.go:83-86] EventStoreErr.WithAggregate *)
Definition WithAggregate (err : goerror) (aggregate : option Aggregate) : goerror :=
  match err with
  | ErrEventStore s _ e c => ErrEventStore s aggregate e c
  | _ => err
  end.

(** [pkg/fes/types.go:113-116] EventStoreErr.WithError *)
Definition WithError (err : goerror) (cause : goerror) : goerror :=
  match err with
  | ErrEventStore s k e _ => ErrEventStore s k e (Some cause)
  | _ => err
  end.

(** [pkg/fes/types.go:94-100] EventStoreErr.WithEvent *)
Definition WithEvent (err : goerror) (event : option Event) : res goerror goerror :=
  match err with
  | ErrEventStore s None _ c =>
      e ← deref event;
      Ret (ErrEventStore s (Event_Aggregate e) event c)
  | ErrEventStore s (Some k) _ c => Ret (ErrEventStore s (Some k) event c)
  | _ => Ret err
  end.

(** Comparison of two error values with [==] where the right-hand side is one of
    the sentinels above (a struct with only its description set). *)
Definition is_sentinel (err : goerror) (s : string) : bool :=
  match err with
  | ErrEventStore s' None None None => bool_decide (s' = s)
  | _ => false
  end.

(** [pkg/fes/types.go:102-111] EventStoreErr.Is *)
Definition EventStoreErr_Is (err : goerror) (other : option goerror) : bool :=
  match err, other with
  | ErrEventStore s _ _ _, Some (ErrEventStore s' _ _ _) => bool_decide (s' = s)
  | _, _ => false
  end.

(** [pkg/fes/proto.go:42-44] Aggregate.Format *)
Definition Aggregate_Format (m : Aggregate) : string :=
  Aggregate_Type m +:+ "/" +:+ Aggregate_Id m.

(** ** Entities *)

(** [pkg/fes/types.go:8-13] Entity: the entities of the program *)
Inductive Entity :=
| EWorkflow (wf : Workflow)
| EInvocation (wi : WorkflowInvocation)
| ETaskRun (ti : TaskInvocation).
#[export] Instance Entity_eq_dec : EqDecision Entity.
Proof. solve_decision. Defined.

(** The [ID] and [Type] methods of the entities. *)
Definition Entity_ID (v : Entity) : string :=
  match v with
  | EWorkflow wf => Workflow_ID (Some wf)
  | EInvocation wi => WorkflowInvocation_ID wi
  | ETaskRun ti => TaskInvocation_ID ti
  end.

Definition Entity_Type (v : Entity) : string :=
  match v with
  | EWorkflow _ => TypeWorkflow
  | EInvocation _ => TypeInvocation
  | ETaskRun _ => TypeTaskRun
  end.

(** [pkg/fes/util.go:73-85] GetAggregate *)
Definition GetAggregate (v : Entity) : Aggregate := MkAggregate (Entity_ID v) (Entity_Type v).

(** ** Validation *)

(** [pkg/fes/validate.go:5-19] ValidateAggregate *)
Definition ValidateAggregate (aggregate : option Aggregate) : option goerror :=
  match aggregate with
  | None => Some (WithError ErrInvalidAggregate (ErrNew "aggregate is nil"))
  | Some a =>
      if decide (Aggregate_Id a = "") then
        Some (WithError (WithAggregate ErrInvalidAggregate aggregate)
                (ErrNew "aggregate does not contain an id"))
      else if decide (Aggregate_Type a = "") then
        Some (WithError (WithAggregate ErrInvalidAggregate aggregate)
                (ErrNew "aggregate does not contain a type"))
      else None
  end.

(** [return ErrInvalidEvent.WithEvent(event).WithError(cause)] *)
Definition invalid_event {A} (event : option Event) (cause : goerror) : res goerror A :=
  e ← WithEvent ErrInvalidEvent event; Throw (WithError e cause).

(** [pkg/fes/validate.go:26-45] ValidateEvent *)
Definition ValidateEvent (event : option Event) : res goerror () :=
  match event with
  | None => invalid_event event (ErrNew "event is nil")
  | Some ev =>
      if decide (Event_Type ev = "") then
        invalid_event event (ErrNew "event has no event type")
      else
        match ValidateAggregate (Event_Aggregate ev) with
        | Some err => invalid_event event err
        | None =>
            _ ← (match Event_Parent ev with
                 | Some p =>
                     match ValidateAggregate (Some p) with
                     | Some err => invalid_event event err
                     | None => Ret ()
                     end
                 | None => Ret ()
                 end);
            match Event_Timestamp ev with
            | None => invalid_event event (ErrNew "event has no timestamp")
            | Some _ => Ret ()
            end
        end
  end.

(** [WithEntity] on a [nil] entity calls its [ID] method. *)
(** [pkg/fes/validate.go:47-57] ValidateEntity *)
Definition ValidateEntity (entity : option Entity) : res goerror () :=
  match entity with
  | None => Panic "nil pointer dereference"
  | Some v =>
      match ValidateAggregate (Some (GetAggregate v)) with
      | Some err => Throw (WithError (WithAggregate ErrInvalidEntity (Some (GetAggregate v))) err)
      | None => Ret ()
      end
  end.

(** ** Events *)

(** The [Type] methods of [pkg/api/events/events.gen.go] for the event payloads,
    the name of the Go type otherwise. *)
(** [pkg/api/events/events.gen.go:13-79] EventType *)
Definition event_type (payload : message) : string :=
  match payload with
  | WorkflowCreated _ => "WorkflowCreated"
  | WorkflowDeleted => "WorkflowDeleted"
  | WorkflowParsed _ => "WorkflowParsed"
  | WorkflowParsingFailed _ => "WorkflowParsingFailed"
  | InvocationCreated _ => "InvocationCreated"
  | InvocationCompleted _ _ => "InvocationCompleted"
  | InvocationCanceled _ => "InvocationCanceled"
  | InvocationTaskAdded _ => "InvocationTaskAdded"
  | InvocationFailed _ => "InvocationFailed"
  | TaskStarted _ => "TaskStarted"
  | TaskSucceeded _ => "TaskSucceeded"
  | TaskSkipped => "TaskSkipped"
  | TaskFailed _ => "TaskFailed"
  | MapValue _ => "MapValue"
  | ArrayValue _ => "ArrayValue"
  | Expression _ => "Expression"
  | NilValue => "NilValue"
  | BoolValue _ => "BoolValue"
  | FloatValue _ => "FloatValue"
  | DoubleValue _ => "DoubleValue"
  | Int32Value _ => "Int32Value"
  | Int64Value _ => "Int64Value"
  | UInt32Value _ => "UInt32Value"
  | UInt64Value _ => "UInt64Value"
  | StringValue _ => "StringValue"
  | BytesValue _ => "BytesValue"
  | WorkflowSpecMessage _ => "WorkflowSpec"
  | TaskSpecMessage _ => "TaskSpec"
  | FlowMessage _ => "Flow"
  | OtherMessage name _ => name
  end.

(** The thirteen payload types of [pkg/api/events]. *)
Definition is_event_payload (payload : message) : bool :=
  match payload with
  | WorkflowCreated _ | WorkflowDeleted | WorkflowParsed _ | WorkflowParsingFailed _
  | InvocationCreated _ | InvocationCompleted _ _ | InvocationCanceled _
  | InvocationTaskAdded _ | InvocationFailed _
  | TaskStarted _ | TaskSucceeded _ | TaskSkipped | TaskFailed _ => true
  | _ => false
  end.

Section events.
Context `{Proto} `{PTypes}.

(** [ptypes.MarshalAny] *)
Definition MarshalAny (payload : message) : option Any :=
  b ← marshal payload;
  Some (MkAny ("type.googleapis.com" +:+ "/" +:+ MessageName payload) b).

(** [pkg/fes/util.go:20-48] NewEvent *)
Definition NewEvent (now : Z) (aggregate : Aggregate) (payload : option message) :
    res goerror Event :=
  match ValidateAggregate (Some aggregate) with
  | Some err => Throw err
  | None =>
      match payload with
      | None => Throw (WithError (WithAggregate ErrCorruptedEventPayload (Some aggregate))
                         (ErrNew "payload cannot be empty"))
      | Some payload =>
          match MarshalAny payload with
          | None => Throw (WithError (WithAggregate ErrCorruptedEventPayload (Some aggregate))
                             (ErrFmt "proto: marshal"))
          | Some data =>
              Ret {| Event_Id := "";
                     Event_Type := event_type payload;
                     Event_Aggregate := Some aggregate;
                     Event_Timestamp := Some (pt_TimestampNow now);
                     Event_Data := Some data;
                     Event_Parent := None;
                     Event_Hints := None;
                     Event_Metadata := ∅ |}
          end
      end
  end.

(** [pkg/fes/util.go:53-60] ParseEventData *)
Definition ParseEventData (event : Event) : res goerror message :=
  match unmarshal_any (Event_Data event) with
  | None => e ← WithEvent ErrCorruptedEventPayload (Some event);
            Throw (WithError e (ErrFmt "proto: unmarshal"))
  | Some m => Ret m
  end.
End events.

(** The API sets the parent and the hints of an event after creating it. *)
Definition event_with_parent (e : Event) (p : option Aggregate) : Event :=
  MkEvent (Event_Id e) (Event_Type e) (Event_Aggregate e) (Event_Timestamp e) (Event_Data e)
    p (Event_Hints e) (Event_Metadata e).
Definition event_with_hints (e : Event) (h : option EventHints) : Event :=
  MkEvent (Event_Id e) (Event_Type e) (Event_Aggregate e) (Event_Timestamp e) (Event_Data e)
    (Event_Parent e) h (Event_Metadata e).

(** [pkg/fes/proto.go:20-35] Event.Labels *)
Definition Event_Labels (m : Event) : res goerror (gmap string string) :=
  let parent := default (MkAggregate "" "") (Event_Parent m) in
  a ← deref (Event_Aggregate m);
  Ret (<["aggregate.id" := Aggregate_Id a]>
      (<["aggregate.type" := Aggregate_Type a]>
      (<["parent.type" := Aggregate_Type parent]>
      (<["parent.id" := Aggregate_Id parent]>
      (<["event.id" := Event_Id m]>
      (<["event.type" := Event_Type m]> ∅)))))).

(** [pkg/fes/proto.go:37-40] Event.BelongsTo *)
Definition Event_BelongsTo (m : Event) (parent : Entity) : res goerror bool :=
  let a := GetAggregate parent in
  ma ← deref (Event_Aggregate m);
  if decide (ma = a) then Ret false
  else mp ← deref (Event_Parent m); Ret (bool_decide (mp ≠ a)).

(** ** Notifications *)

(** [pkg/fes/notification.go:21-37] Notification *)
Record Notification := MkNotification {
  Notification_Old : option Entity;
  Notification_Updated : option Entity;
  Notification_Event : option Event;
  Notification_Aggregate : Aggregate }.

(** [n != *event.Aggregate && n != *event.Parent] *)
Definition foreign_aggregate (n : Aggregate) (event : Event) : res goerror bool :=
  a ← deref (Event_Aggregate event);
  if decide (n = a) then Ret false
  else p ← deref (Event_Parent event); Ret (bool_decide (n ≠ p)).

(** [pkg/fes/notification.go:39-62] NewNotification *)
Definition NewNotification (old new : option Entity) (event : option Event) :
    res goerror Notification :=
  match event with
  | None => Panic "event cannot be nil"
  | Some ev =>
      match new with
      | None => Panic "new snapshot cannot be nil"
      | Some nw =>
          let n := GetAggregate nw in
          b ← foreign_aggregate n ev;
          if b : bool then
            Panic "aggregate of event does not match aggregate of new entity snapshot"
          else
            _ ← (match old with
                 | None => Ret ()
                 | Some o =>
                     b ← foreign_aggregate (GetAggregate o) ev;
                     if b : bool then
                       Panic "aggregate of old entity snapshot does not match aggregate of the new entity snapshot"
                     else Ret ()
                 end);
            Ret (MkNotification old new event n)
      end
  end.

(** ** Interfaces *)

(** [pkg/fes/types.go:20-23] Projector; both methods may read the clock *)
Class Projector := {
  Project : Z → option Entity → list Event → res goerror Entity;
  NewProjection : Z → Aggregate → res goerror Entity;
}.

(** The entity an event is for: the parent if it has one. *)
Definition event_key (ev : Event) : option Aggregate :=
  match Event_Parent ev with Some p => Some p | None => Event_Aggregate ev end.

(** What the caches rely on, for the entities of type [ty]: projecting is a left
    fold of the events that stays within the type and the key, does not panic on
    the objects the projector itself makes ([good]) for the events of the API
    ([fit]), depends on the clock up to the equivalence [sim] only, and up to [sim]
    delivering an event twice is the same as delivering it once. *)
Class ProjectorLaws (P : Projector) (ty : string) (good : Entity → Prop) (fit : Event → Prop)
    (sim : relation Entity) := {
  sim_equiv : Equivalence sim;
  sim_key : ∀ b b', sim b b' → GetAggregate b = GetAggregate b';
  Project_nil : ∀ now b, Entity_Type b = ty → Project now (Some b) [] = Ret b;
  Project_app : ∀ now b es1 es2,
    Project now (Some b) (es1 ++ es2) =
    (b' ← Project now (Some b) es1; Project now (Some b') es2);
  Project_good : ∀ now b es b', good b → Project now (Some b) es = Ret b' → good b';
  Project_safe : ∀ now b es, good b → Forall fit es → no_panic (Project now (Some b) es);
  Project_sim : ∀ now now' b b' es e, sim b b' → Project now (Some b) es = Ret e →
    ∃ e', Project now' (Some b') es = Ret e' ∧ sim e e';
  Project_redeliver : ∀ now b ev e, Project now (Some b) [ev] = Ret e →
    ∃ e', Project now (Some e) [ev] = Ret e' ∧ sim e e';
  Project_key : ∀ now b es b', Forall fit es →
    Forall (λ ev, event_key ev = Some (GetAggregate b)) es →
    Project now (Some b) es = Ret b' → GetAggregate b' = GetAggregate b;
  NewProjection_good : ∀ now key b, NewProjection now key = Ret b →
    good b ∧ GetAggregate b = key;
  NewProjection_sim : ∀ now now' key b, NewProjection now key = Ret b →
    ∃ b', NewProjection now' key = Ret b' ∧ sim b b';
  good_type : ∀ b, good b → Entity_Type b = ty;
}.

(** Projecting the end of a stream of an entity a second time changes nothing that [sim] sees: a cache may load
    an entity from a stream of which some events are still to be delivered to it. *)
Class ProjectorReplays (P : Projector) (good : Entity → Prop) (fit : Event → Prop) (sim : relation Entity) := {
  Project_replayed : ∀ now b es e, good b → Forall fit es →
    Forall (λ ev, event_key ev = Some (GetAggregate b)) es → Project now (Some b) es = Ret e →
    ∃ e', Project now (Some e) es = Ret e' ∧ sim e' e;
}.

(** ** Lemmas *)

Definition aggregate_valid (a : Aggregate) : Prop :=
  Aggregate_Id a ≠ "" ∧ Aggregate_Type a ≠ "".

Record event_valid (ev : Event) : Prop := {
  event_valid_type : Event_Type ev ≠ "";
  event_valid_aggregate : ∃ a, Event_Aggregate ev = Some a ∧ aggregate_valid a;
  event_valid_parent : ∀ p, Event_Parent ev = Some p → aggregate_valid p;
  event_valid_timestamp : is_Some (Event_Timestamp ev) }.

Lemma ValidateAggregate_valid a : ValidateAggregate (Some a) = None ↔ aggregate_valid a.
Proof.
  unfold ValidateAggregate, aggregate_valid. repeat case_decide; naive_solver.
Qed.

Lemma ValidateAggregate_None_inv oa :
  ValidateAggregate oa = None → ∃ a, oa = Some a ∧ aggregate_valid a.
Proof. destruct oa as [a|]; [|done]. intros ?%ValidateAggregate_valid. eauto. Qed.

Lemma invalid_event_not_ret {A} (ev : option Event) cause (x : A) : invalid_event ev cause ≠ Ret x.
Proof. unfold invalid_event. by destruct (WithEvent _ _). Qed.

Lemma invalid_event_throw {A} (ev : Event) cause :
  ∃ e, invalid_event (A := A) (Some ev) cause = Throw e.
Proof. unfold invalid_event. simpl. eauto. Qed.

Lemma ValidateEvent_valid ev u : ValidateEvent (Some ev) = Ret u ↔ event_valid ev.
Proof.
  destruct u. unfold ValidateEvent. split.
  - case_decide; [by intros ?%invalid_event_not_ret|].
    destruct (ValidateAggregate (Event_Aggregate ev)) eqn:Ha; [by intros ?%invalid_event_not_ret|].
    apply ValidateAggregate_None_inv in Ha as (a & Ha & Hva).
    intros Hb. apply bind_Ret_inv in Hb as (? & Hp & Hts).
    split; [done|eauto| |].
    + intros p Hpar. rewrite Hpar in Hp.
      destruct (ValidateAggregate (Some p)) eqn:Hvp; [by apply invalid_event_not_ret in Hp|].
      by apply ValidateAggregate_valid.
    + destruct (Event_Timestamp ev); [eauto|by apply invalid_event_not_ret in Hts].
  - intros [Ht (a & Ha & Hva) Hp [ts Hts]]. rewrite decide_False by done.
    apply ValidateAggregate_valid in Hva. rewrite Ha, Hva.
    assert (match Event_Parent ev with
            | Some p => match ValidateAggregate (Some p) with
                        | Some err => invalid_event (Some ev) err | None => Ret () end
            | None => Ret () end = Ret ()) as ->.
    { destruct (Event_Parent ev) as [p|]; [|done].
      specialize (Hp p eq_refl). apply ValidateAggregate_valid in Hp. by rewrite Hp. }
    simpl. by rewrite Hts.
Qed.

(** On an event object (not [nil]) the validation always answers. *)
Lemma ValidateEvent_no_panic ev : no_panic (ValidateEvent (Some ev)).
Proof.
  unfold ValidateEvent.
  assert (∀ A c, no_panic (invalid_event (A := A) (Some ev) c)) as Hi
    by (intros A c; destruct (invalid_event_throw (A := A) ev c) as [e ->]; done).
  case_decide; [apply Hi|]. case_match; [apply Hi|].
  apply bind_no_panic.
  - case_match; [|done]. case_match; [apply Hi|done].
  - intros _ _. case_match; [done|apply Hi].
Qed.

Lemma ValidateEntity_valid v u :
  ValidateEntity (Some v) = Ret u ↔ aggregate_valid (GetAggregate v).
Proof.
  destruct u. unfold ValidateEntity. rewrite <- ValidateAggregate_valid.
  destruct (ValidateAggregate _); naive_solver.
Qed.

Section event_lemmas.
Context `{Proto} `{PTypes}.

Lemma NewEvent_inv now a payload e :
  NewEvent now a (Some payload) = Ret e →
  aggregate_valid a ∧
  (∃ b, marshal payload = Some b ∧
        Event_Data e = Some (MkAny ("type.googleapis.com" +:+ "/" +:+ MessageName payload) b)) ∧
  Event_Aggregate e = Some a ∧ Event_Type e = event_type payload ∧
  Event_Parent e = None ∧ Event_Hints e = None ∧
  Event_Timestamp e = Some (pt_TimestampNow now).
Proof.
  unfold NewEvent, MarshalAny. destruct (ValidateAggregate (Some a)) eqn:Ha; [done|].
  apply ValidateAggregate_valid in Ha.
  destruct (marshal payload) as [b|] eqn:Hm; simpl; [|done].
  intros [= <-]. simpl. eauto 10.
Qed.

Lemma NewEvent_Ret now a payload :
  aggregate_valid a → wire payload → ∃ e, NewEvent now a (Some payload) = Ret e.
Proof.
  intros Ha Hw. unfold NewEvent, MarshalAny.
  apply ValidateAggregate_valid in Ha. rewrite Ha.
  destruct (marshal_wire payload Hw) as [b ->]. simpl. eauto.
Qed.

Lemma ParseEventData_of_payload e payload b :
  wire payload → marshal payload = Some b →
  Event_Data e = Some (MkAny ("type.googleapis.com" +:+ "/" +:+ MessageName payload) b) →
  ParseEventData e = Ret payload.
Proof.
  intros Hw Hm Hd. unfold ParseEventData. rewrite Hd.
  by rewrite (unmarshal_marshal _ _ _ Hw Hm).
Qed.

Lemma ParseEventData_no_panic e : no_panic (ParseEventData e).
Proof. unfold ParseEventData. by destruct (unmarshal_any (Event_Data e)). Qed.

(** An event created for an event payload validates, and parsing its data gives
    the payload back. *)
Theorem NewEvent_roundtrip (now : Z) (a : Aggregate) (payload : message) (e : Event) :
  is_event_payload payload = true → wire payload →
  NewEvent now a (Some payload) = Ret e →
  ValidateEvent (Some e) = Ret () ∧ ParseEventData e = Ret payload.
Proof.
  intros Hp Hw He.
  apply NewEvent_inv in He as (Ha & (b & Hm & Hd) & Hagg & Ht & Hpar & _ & Hts).
  split; [|by eapply ParseEventData_of_payload].
  apply ValidateEvent_valid. split; rewrite ?Hpar, ?Hts, ?Ht; eauto; [|done].
  by destruct payload.
Qed.
End event_lemmas.

#[export] Hint Resolve ValidateEvent_no_panic ParseEventData_no_panic : wf.
