(* ===== verification/Projectors.v ===== *)
(** Component [pkg/api/projectors]: the event-sourced state of workflows,
    invocations and task runs as folds of their events.  A projection runs at a
    time [now] (the creation time it gives to a task run that was never announced
    by a [TaskStarted] event). *)

From stdpp Require Import base gmap strings list.
From S2P Require Import Prelude Data Types Fes.

(** ** Setters for the fields the projectors assign *)

Definition WorkflowInvocation_with_Status (m : WorkflowInvocation) st : WorkflowInvocation :=
  MkWorkflowInvocation (WorkflowInvocation_Metadata m) (WorkflowInvocation_Spec m) st.
Definition WIStatus_with_Status (st : WorkflowInvocationStatus) s : WorkflowInvocationStatus :=
  MkWorkflowInvocationStatus s (WorkflowInvocationStatus_UpdatedAt st)
    (WorkflowInvocationStatus_Tasks st) (WorkflowInvocationStatus_Output st)
    (WorkflowInvocationStatus_DynamicTasks st) (WorkflowInvocationStatus_Error st)
    (WorkflowInvocationStatus_OutputHeaders st).
Definition WIStatus_with_Error (st : WorkflowInvocationStatus) e : WorkflowInvocationStatus :=
  MkWorkflowInvocationStatus (WorkflowInvocationStatus_Status_ st)
    (WorkflowInvocationStatus_UpdatedAt st)
    (WorkflowInvocationStatus_Tasks st) (WorkflowInvocationStatus_Output st)
    (WorkflowInvocationStatus_DynamicTasks st) e (WorkflowInvocationStatus_OutputHeaders st).
Definition WIStatus_with_Output (st : WorkflowInvocationStatus) o h : WorkflowInvocationStatus :=
  MkWorkflowInvocationStatus (WorkflowInvocationStatus_Status_ st)
    (WorkflowInvocationStatus_UpdatedAt st)
    (WorkflowInvocationStatus_Tasks st) o
    (WorkflowInvocationStatus_DynamicTasks st) (WorkflowInvocationStatus_Error st) h.
Definition WIStatus_with_Tasks (st : WorkflowInvocationStatus) ts : WorkflowInvocationStatus :=
  MkWorkflowInvocationStatus (WorkflowInvocationStatus_Status_ st)
    (WorkflowInvocationStatus_UpdatedAt st) ts (WorkflowInvocationStatus_Output st)
    (WorkflowInvocationStatus_DynamicTasks st) (WorkflowInvocationStatus_Error st)
    (WorkflowInvocationStatus_OutputHeaders st).
Definition WIStatus_with_DynamicTasks (st : WorkflowInvocationStatus) ts :
    WorkflowInvocationStatus :=
  MkWorkflowInvocationStatus (WorkflowInvocationStatus_Status_ st)
    (WorkflowInvocationStatus_UpdatedAt st) (WorkflowInvocationStatus_Tasks st)
    (WorkflowInvocationStatus_Output st) ts (WorkflowInvocationStatus_Error st)
    (WorkflowInvocationStatus_OutputHeaders st).
Definition WIStatus_with_UpdatedAt (st : WorkflowInvocationStatus) t : WorkflowInvocationStatus :=
  MkWorkflowInvocationStatus (WorkflowInvocationStatus_Status_ st) t
    (WorkflowInvocationStatus_Tasks st) (WorkflowInvocationStatus_Output st)
    (WorkflowInvocationStatus_DynamicTasks st) (WorkflowInvocationStatus_Error st)
    (WorkflowInvocationStatus_OutputHeaders st).

Definition TIStatus_with_Status (st : TaskInvocationStatus) s : TaskInvocationStatus :=
  MkTaskInvocationStatus s (TaskInvocationStatus_UpdatedAt st) (TaskInvocationStatus_Output st)
    (TaskInvocationStatus_Error st) (TaskInvocationStatus_OutputHeaders st).
Definition TIStatus_with_Output (st : TaskInvocationStatus) o h : TaskInvocationStatus :=
  MkTaskInvocationStatus (TaskInvocationStatus_Status_ st) (TaskInvocationStatus_UpdatedAt st) o
    (TaskInvocationStatus_Error st) h.
Definition TIStatus_with_Error (st : TaskInvocationStatus) e : TaskInvocationStatus :=
  MkTaskInvocationStatus (TaskInvocationStatus_Status_ st) (TaskInvocationStatus_UpdatedAt st)
    (TaskInvocationStatus_Output st) e (TaskInvocationStatus_OutputHeaders st).
Definition TIStatus_with_UpdatedAt (st : TaskInvocationStatus) t : TaskInvocationStatus :=
  MkTaskInvocationStatus (TaskInvocationStatus_Status_ st) t (TaskInvocationStatus_Output st)
    (TaskInvocationStatus_Error st) (TaskInvocationStatus_OutputHeaders st).

Definition WStatus_with_Status (st : WorkflowStatus) s : WorkflowStatus :=
  MkWorkflowStatus s (WorkflowStatus_UpdatedAt st) (WorkflowStatus_Tasks st)
    (WorkflowStatus_Error st).
Definition WStatus_with_Error (st : WorkflowStatus) e : WorkflowStatus :=
  MkWorkflowStatus (WorkflowStatus_Status_ st) (WorkflowStatus_UpdatedAt st)
    (WorkflowStatus_Tasks st) e.
Definition WStatus_with_UpdatedAt (st : WorkflowStatus) t : WorkflowStatus :=
  MkWorkflowStatus (WorkflowStatus_Status_ st) t (WorkflowStatus_Tasks st)
    (WorkflowStatus_Error st).

(** [m.Generation++] on an int64. *)
Definition incr_Generation (m : ObjectMetadata) : ObjectMetadata :=
  MkObjectMetadata (ObjectMetadata_Id m) (ObjectMetadata_Name m) (ObjectMetadata_CreatedAt m)
    (to_i64 (ObjectMetadata_Generation m + 1)).

(** [return fes.ErrUnsupportedEntityEvent.WithEvent(event)] *)
Definition unsupported_event {A} (err : goerror) (event : Event) : res goerror A :=
  e ← WithEvent err (Some event); Throw e.

(** The [ensureNextEvent] and [ensureValidEvent] methods. *)
(** [pkg/api/projectors/task.go:95-105] TaskRun.ensureNextEvent *)
Definition ensureNextEvent (type : string) (event : Event) : res goerror () :=
  _ ← ValidateEvent (Some event);
  a ← deref (Event_Aggregate event);
  if decide (Aggregate_Type a ≠ type) then unsupported_event ErrUnsupportedEntityEvent event
  else Ret ().

(** ** Task runs *)

Section task_run.
Context `{Proto} `{PTypes}.

Definition empty_WorkflowInvocationStatus (s : WorkflowInvocationStatus_Status) :=
  MkWorkflowInvocationStatus s None ∅ None ∅ None None.
Definition empty_TaskInvocationStatus (s : TaskInvocationStatus_Status) :=
  MkTaskInvocationStatus s None None None None.
Definition empty_WorkflowStatus (s : WorkflowStatus_Status) := MkWorkflowStatus s None ∅ None.
Definition empty_WorkflowSpec := MkWorkflowSpec "" ∅ "" "" "" "" false.
Definition empty_WorkflowInvocationSpec := MkWorkflowInvocationSpec "" ∅ "" None None.
Definition empty_TaskInvocationSpec := MkTaskInvocationSpec None "" ∅ "" None None.

(** The two assignments after the [switch] of [project]. *)
Definition task_run_touch (taskRun : TaskInvocation) (event : Event) :
    res goerror TaskInvocation :=
  md ← deref (TaskInvocation_Metadata taskRun);
  st ← deref (TaskInvocation_Status taskRun);
  Ret (MkTaskInvocation (Some (incr_Generation md)) (TaskInvocation_Spec taskRun)
         (Some (TIStatus_with_UpdatedAt st (Event_Timestamp event)))).

(** [pkg/api/projectors/task.go:41-79] TaskRun.project *)
Definition TaskRun_project (taskRun : TaskInvocation) (event : Event) :
    res goerror TaskInvocation :=
  _ ← ensureNextEvent TypeTaskRun event;
  eventData ← ParseEventData event;
  taskRun ← (match eventData with
    | TaskStarted spec =>
        sp ← deref spec;
        Ret (MkTaskInvocation
               (Some (MkObjectMetadata (TaskInvocationSpec_TaskId sp) "" (Event_Timestamp event) 1))
               spec
               (Some (empty_TaskInvocationStatus TaskInvocationStatus_IN_PROGRESS)))
    | TaskSucceeded result =>
        st ← deref (TaskInvocation_Status taskRun);
        r ← deref result;
        Ret (MkTaskInvocation (TaskInvocation_Metadata taskRun) (TaskInvocation_Spec taskRun)
               (Some (TIStatus_with_Status
                        (TIStatus_with_Output st (TaskInvocationStatus_Output r)
                           (TaskInvocationStatus_OutputHeaders r))
                        TaskInvocationStatus_SUCCEEDED)))
    | TaskFailed err =>
        st ← deref (TaskInvocation_Status taskRun);
        Ret (MkTaskInvocation (TaskInvocation_Metadata taskRun) (TaskInvocation_Spec taskRun)
               (Some (TIStatus_with_Status (TIStatus_with_Error st err)
                        TaskInvocationStatus_FAILED)))
    | TaskSkipped =>
        st ← deref (TaskInvocation_Status taskRun);
        Ret (MkTaskInvocation (TaskInvocation_Metadata taskRun) (TaskInvocation_Spec taskRun)
               (Some (TIStatus_with_Status st TaskInvocationStatus_SKIPPED)))
    | _ => unsupported_event
             (WithAggregate ErrUnsupportedEntityEvent (Some (GetAggregate (ETaskRun taskRun)))) event
    end);
  task_run_touch taskRun event.

(** [pkg/api/projectors/task.go:81-93] TaskRun.NewProjection *)
Definition TaskRun_NewProjection (now : Z) (key : Aggregate) : res goerror TaskInvocation :=
  if decide (Aggregate_Type key ≠ TypeTaskRun) then
    Throw (WithAggregate ErrInvalidAggregate (Some key))
  else Ret (MkTaskInvocation
              (Some (task_metadata (Aggregate_Id key) (Some (pt_TimestampNow now))))
              (Some empty_TaskInvocationSpec)
              (Some (empty_TaskInvocationStatus TaskInvocationStatus_UNKNOWN))).

(** [pkg/api/projectors/task.go:19-39] TaskRun.Project *)
Definition TaskRun_Project (base : option Entity) (events : list Event) :
    res goerror TaskInvocation :=
  taskRun ← (match base with
             | None => Ret (MkTaskInvocation None None None)
             | Some (ETaskRun t) => Ret t
             | Some _ => Throw (ErrFmt "entity expected workflow, but was %T")
             end);
  foldM TaskRun_project taskRun events.

(** ** Invocations *)

(** [pkg/api/projectors/invocation.go:121-144] WorkflowInvocation.applyTaskEvent *)
Definition applyTaskEvent (now : Z) (invocation : WorkflowInvocation) (event : Event) :
    res goerror WorkflowInvocation :=
  let wiAggregate := GetAggregate (EInvocation invocation) in
  parent ← deref (Event_Parent event);
  if decide (wiAggregate ≠ parent) then
    Throw (ErrFmt ("event does not belong to invocation: (expected: " +:+
                   Aggregate_Format wiAggregate +:+ ", value: " +:+
                   Aggregate_Format parent +:+ ")"))
  else
    agg ← deref (Event_Aggregate event);
    let taskID := Aggregate_Id agg in
    st ← deref (WorkflowInvocation_Status invocation);
    task ← (match WorkflowInvocationStatus_Tasks st !! taskID with
            | Some t => Ret t
            | None => TaskRun_NewProjection now agg
            end);
    task ← TaskRun_project task event;
    Ret (WorkflowInvocation_with_Status invocation
           (Some (WIStatus_with_Tasks st (<[taskID := task]> (WorkflowInvocationStatus_Tasks st))))).

(** The two assignments after the [switch] of [project]. *)
Definition invocation_touch (wi : WorkflowInvocation) (event : Event) :
    res goerror WorkflowInvocation :=
  md ← deref (WorkflowInvocation_Metadata wi);
  st ← deref (WorkflowInvocation_Status wi);
  Ret (MkWorkflowInvocation (Some (incr_Generation md)) (WorkflowInvocation_Spec wi)
         (Some (WIStatus_with_UpdatedAt st (Event_Timestamp event)))).

(** An assignment to fields of [wi.Status]. *)
Definition update_status (wi : WorkflowInvocation)
    (f : WorkflowInvocationStatus → WorkflowInvocationStatus) : res goerror WorkflowInvocation :=
  st ← deref (WorkflowInvocation_Status wi);
  Ret (WorkflowInvocation_with_Status wi (Some (f st))).

(** [pkg/api/projectors/invocation.go:44-93] WorkflowInvocation.project *)
Definition WorkflowInvocation_project (now : Z) (wi : WorkflowInvocation) (event : Event) :
    res goerror WorkflowInvocation :=
  agg ← deref (Event_Aggregate event);
  if decide (Aggregate_Type agg = TypeTaskRun) then applyTaskEvent now wi event
  else
    _ ← ensureNextEvent TypeInvocation event;
    eventData ← ParseEventData event;
    wi ← (match eventData with
      | InvocationCreated spec =>
          Ret (MkWorkflowInvocation
                 (Some (task_metadata (Aggregate_Id agg) (Event_Timestamp event)))
                 spec
                 (Some (empty_WorkflowInvocationStatus WorkflowInvocationStatus_IN_PROGRESS)))
      | InvocationCanceled err =>
          update_status wi (λ st, WIStatus_with_Error
            (WIStatus_with_Status st WorkflowInvocationStatus_ABORTED) err)
      | InvocationCompleted output headers =>
          update_status wi (λ st, WIStatus_with_Output
            (WIStatus_with_Status st WorkflowInvocationStatus_SUCCEEDED) output headers)
      | InvocationTaskAdded task =>
          update_status wi (λ st, WIStatus_with_DynamicTasks st
            (<[Task_ID (Some task) := task]> (WorkflowInvocationStatus_DynamicTasks st)))
      | InvocationFailed err =>
          update_status wi (λ st, WIStatus_with_Status
            (WIStatus_with_Error st err) WorkflowInvocationStatus_FAILED)
      | _ => unsupported_event ErrUnsupportedEntityEvent event
      end);
    invocation_touch wi event.

(** [pkg/api/projectors/invocation.go:95-107] WorkflowInvocation.NewProjection *)
Definition WorkflowInvocation_NewProjection (now : Z) (key : Aggregate) :
    res goerror WorkflowInvocation :=
  if decide (Aggregate_Type key ≠ TypeInvocation) then
    Throw (WithAggregate ErrInvalidAggregate (Some key))
  else Ret (MkWorkflowInvocation
              (Some (task_metadata (Aggregate_Id key) (Some (pt_TimestampNow now))))
              (Some empty_WorkflowInvocationSpec)
              (Some (empty_WorkflowInvocationStatus WorkflowInvocationStatus_UNKNOWN))).

(** [pkg/api/projectors/invocation.go:22-42] WorkflowInvocation.Project *)
Definition WorkflowInvocation_Project (now : Z) (base : option Entity) (events : list Event) :
    res goerror WorkflowInvocation :=
  invocation ← (match base with
                | None => Ret (MkWorkflowInvocation None None None)
                | Some (EInvocation i) => Ret i
                | Some _ => Throw (ErrFmt "entity expected workflow, but was %T")
                end);
  foldM (WorkflowInvocation_project now) invocation events.

(** ** Workflows *)

Definition workflow_update_status (wf : Workflow) (f : WorkflowStatus → WorkflowStatus) :
    res goerror Workflow :=
  st ← deref (Workflow_Status wf);
  Ret (MkWorkflow (Workflow_Metadata wf) (Workflow_Spec wf) (Some (f st))).

Definition workflow_touch (wf : Workflow) (event : Event) : res goerror Workflow :=
  md ← deref (Workflow_Metadata wf);
  st ← deref (Workflow_Status wf);
  Ret (MkWorkflow (Some (incr_Generation md)) (Workflow_Spec wf)
         (Some (WStatus_with_UpdatedAt st (Event_Timestamp event)))).

Context `{MapRange}.

(** The loop of the [WorkflowParsed] case. *)
Definition add_parsed_tasks (spec : option WorkflowSpec) (st : WorkflowStatus)
    (tasks : gmap string TaskStatus) : res goerror WorkflowStatus :=
  foldM (λ st '(taskID, status),
           match WorkflowSpec_TaskSpec spec taskID with
           | None => Throw (ErrFmt (taskID +:+ ": unknown task"))
           | Some s =>
               Ret (WorkflowStatus_AddTask st taskID
                      (MkTask (Some (task_metadata taskID None)) (Some s) (Some status)))
           end) st (range 0 tasks).

(** [pkg/api/projectors/workflow.go:41-90] Workflow.project *)
Definition Workflow_project (wf : Workflow) (event : Event) : res goerror Workflow :=
  _ ← ensureNextEvent TypeWorkflow event;
  eventData ← ParseEventData event;
  wf ← (match eventData with
    | WorkflowCreated spec =>
        Ret (MkWorkflow
               (Some (MkObjectMetadata (GetId (Workflow_Metadata wf))
                        (match spec with Some s => WorkflowSpec_Name s | None => "" end)
                        (Event_Timestamp event) 0))
               spec
               (Some (empty_WorkflowStatus WorkflowStatus_QUEUED)))
    | WorkflowParsingFailed err =>
        workflow_update_status wf (λ st,
          WStatus_with_Status (WStatus_with_Error st err) WorkflowStatus_FAILED)
    | WorkflowParsed tasks =>
        st ← deref (Workflow_Status wf);
        st ← add_parsed_tasks (Workflow_Spec wf) (WStatus_with_Status st WorkflowStatus_READY) tasks;
        Ret (MkWorkflow (Workflow_Metadata wf) (Workflow_Spec wf) (Some st))
    | WorkflowDeleted =>
        workflow_update_status wf (λ st, WStatus_with_Status st WorkflowStatus_DELETED)
    | _ => unsupported_event ErrUnsupportedEntityEvent event
    end);
  workflow_touch wf event.

(** [pkg/api/projectors/workflow.go:104-116] Workflow.NewProjection *)
Definition Workflow_NewProjection (now : Z) (key : Aggregate) : res goerror Workflow :=
  if decide (Aggregate_Type key ≠ TypeWorkflow) then
    Throw (WithAggregate ErrInvalidAggregate (Some key))
  else Ret (MkWorkflow
              (Some (task_metadata (Aggregate_Id key) (Some (pt_TimestampNow now))))
              (Some empty_WorkflowSpec)
              (Some (empty_WorkflowStatus WorkflowStatus_QUEUED))).

(** [pkg/api/projectors/workflow.go:19-39] Workflow.Project *)
Definition Workflow_Project (base : option Entity) (events : list Event) :
    res goerror Workflow :=
  wf ← (match base with
        | None => Ret (MkWorkflow None None None)
        | Some (EWorkflow w) => Ret w
        | Some _ => Throw (ErrFmt "entity expected workflow, but was %T")
        end);
  foldM Workflow_project wf events.
End task_run.

(** [pkg/api/projectors/invocation.go:146-151] NewInvocationAggregate *)
Definition NewInvocationAggregate (invocationID : string) : Aggregate :=
  MkAggregate invocationID TypeInvocation.
(** [pkg/api/projectors/task.go:107-112] NewTaskRunAggregate *)
Definition NewTaskRunAggregate (id : string) : Aggregate := MkAggregate id TypeTaskRun.
(** [pkg/api/projectors/workflow.go:118-123] NewWorkflowAggregate *)
Definition NewWorkflowAggregate (id : string) : Aggregate := MkAggregate id TypeWorkflow.

(** ** The projectors as implementations of [fes.Projector] *)

Section instances.
Context `{Proto} `{PTypes} `{MapRange}.

Definition InvocationProjector : Projector := {|
  Project now base events := EInvocation <$> WorkflowInvocation_Project now base events;
  NewProjection now key := EInvocation <$> WorkflowInvocation_NewProjection now key |}.

Definition TaskRunProjector : Projector := {|
  Project _ base events := ETaskRun <$> TaskRun_Project base events;
  NewProjection now key := ETaskRun <$> TaskRun_NewProjection now key |}.

Definition WorkflowProjector : Projector := {|
  Project _ base events := EWorkflow <$> Workflow_Project base events;
  NewProjection now key := EWorkflow <$> Workflow_NewProjection now key |}.
End instances.

(** ** Well-formed event streams *)

(** The payload fields the projectors dereference are present. *)
Definition payload_wf (m : message) : Prop :=
  match m with
  | TaskStarted spec => is_Some spec
  | TaskSucceeded result => is_Some result
  | _ => True
  end.

(** An event as [fes.NewEvent] and the API build it: it names its aggregate, a
    task-run event names its parent, and its data decodes to a payload whose
    dereferenced fields are present. *)
Record event_wf `{Proto} (ev : Event) : Prop := {
  event_wf_aggregate : is_Some (Event_Aggregate ev);
  event_wf_parent : ∀ a, Event_Aggregate ev = Some a → Aggregate_Type a = TypeTaskRun →
    is_Some (Event_Parent ev);
  event_wf_payload : ∀ m, unmarshal_any (Event_Data ev) = Some m → payload_wf m }.

(** The objects on which the assignments of the projectors are safe. *)
Definition task_run_ok (t : TaskInvocation) : Prop :=
  is_Some (TaskInvocation_Metadata t) ∧ is_Some (TaskInvocation_Status t).
Definition invocation_ok (wi : WorkflowInvocation) : Prop :=
  is_Some (WorkflowInvocation_Metadata wi) ∧
  ∃ st, WorkflowInvocation_Status wi = Some st ∧
        ∀ id t, WorkflowInvocationStatus_Tasks st !! id = Some t → task_run_ok t.
Definition workflow_ok (wf : Workflow) : Prop :=
  is_Some (Workflow_Metadata wf) ∧ is_Some (Workflow_Status wf).

(** The lifecycle events of an invocation, as the API appends them: events of
    the invocation itself, or events of its task runs. *)
Definition payload_of `{Proto} (ev : Event) : option message := unmarshal_any (Event_Data ev).

(** ** Abstract state machine of an invocation

    The status an event leads to; task events and dynamic tasks leave it alone. *)
Definition status_step (s : WorkflowInvocationStatus_Status) (m : message) :
    WorkflowInvocationStatus_Status :=
  match m with
  | InvocationCreated _ => WorkflowInvocationStatus_IN_PROGRESS
  | InvocationCanceled _ => WorkflowInvocationStatus_ABORTED
  | InvocationCompleted _ _ => WorkflowInvocationStatus_SUCCEEDED
  | InvocationFailed _ => WorkflowInvocationStatus_FAILED
  | _ => s
  end.

Definition task_status_step (s : TaskInvocationStatus_Status) (m : message) :
    TaskInvocationStatus_Status :=
  match m with
  | TaskStarted _ => TaskInvocationStatus_IN_PROGRESS
  | TaskSucceeded _ => TaskInvocationStatus_SUCCEEDED
  | TaskFailed _ => TaskInvocationStatus_FAILED
  | TaskSkipped => TaskInvocationStatus_SKIPPED
  | _ => s
  end.

Definition workflow_status_step (s : WorkflowStatus_Status) (m : message) :
    WorkflowStatus_Status :=
  match m with
  | WorkflowCreated _ => WorkflowStatus_QUEUED
  | WorkflowParsed _ => WorkflowStatus_READY
  | WorkflowParsingFailed _ => WorkflowStatus_FAILED
  | WorkflowDeleted => WorkflowStatus_DELETED
  | _ => s
  end.

(** The payloads a task run accepts. *)
Definition is_task_payload (m : message) : bool :=
  match m with TaskStarted _ | TaskSucceeded _ | TaskFailed _ | TaskSkipped => true | _ => false end.

Definition WI_status (wi : WorkflowInvocation) : WorkflowInvocationStatus_Status :=
  match WorkflowInvocation_Status wi with
  | Some st => WorkflowInvocationStatus_Status_ st
  | None => WorkflowInvocationStatus_UNKNOWN
  end.
Definition TI_status (t : TaskInvocation) : TaskInvocationStatus_Status :=
  match TaskInvocation_Status t with
  | Some st => TaskInvocationStatus_Status_ st
  | None => TaskInvocationStatus_UNKNOWN
  end.
Definition W_status (wf : Workflow) : WorkflowStatus_Status :=
  match Workflow_Status wf with
  | Some st => WorkflowStatus_Status_ st
  | None => WorkflowStatus_QUEUED
  end.

(** ** Single events *)

Lemma unsupported_event_not_ret {A} err ev (x : A) : unsupported_event err ev ≠ Ret x.
Proof. unfold unsupported_event. by destruct (WithEvent _ _). Qed.

Lemma unsupported_event_no_panic {A} ev err :
  is_Some (Event_Aggregate ev) → no_panic (unsupported_event (A := A) err ev).
Proof. intros _. unfold unsupported_event, WithEvent. by destruct err as [| |? [] ? ?|]. Qed.

Lemma ensureNextEvent_Ret type ev u :
  ensureNextEvent type ev = Ret u ↔
  event_valid ev ∧ ∃ a, Event_Aggregate ev = Some a ∧ Aggregate_Type a = type.
Proof.
  destruct u. unfold ensureNextEvent. split.
  - intros H. res_inv. split; [by eapply ValidateEvent_valid|].
    case_decide as Ht; [by apply unsupported_event_not_ret in Hr2|].
    eauto.
  - intros [Hv (a & Ha & Ht)]. apply (ValidateEvent_valid _ ()) in Hv. rewrite Hv. simpl.
    rewrite Ha. simpl. rewrite decide_False; [done|]. intros Hne. by apply Hne.
Qed.

Lemma ensureNextEvent_no_panic type ev :
  is_Some (Event_Aggregate ev) → no_panic (ensureNextEvent type ev).
Proof.
  intros [a Ha]. unfold ensureNextEvent.
  apply bind_no_panic; [auto with wf|]. intros _ _. rewrite Ha. simpl.
  case_decide; [|done]. apply unsupported_event_no_panic. eauto.
Qed.

#[export] Hint Resolve ensureNextEvent_no_panic unsupported_event_no_panic : wf.

Section single_events.
Context `{Proto} `{PTypes}.
Implicit Types (t : TaskInvocation) (wi : WorkflowInvocation) (ev : Event).

Lemma ParseEventData_payload ev m : ParseEventData ev = Ret m ↔ payload_of ev = Some m.
Proof.
  unfold ParseEventData, payload_of. destruct (unmarshal_any (Event_Data ev)); simpl; naive_solver.
Qed.

Lemma task_run_touch_inv t ev t' :
  task_run_touch t ev = Ret t' →
  task_run_ok t' ∧ TI_status t' = TI_status t ∧ TaskInvocation_ID t' = TaskInvocation_ID t ∧
  TaskInvocation_Spec t' = TaskInvocation_Spec t.
Proof.
  unfold task_run_touch, TI_status, TaskInvocation_ID, task_run_ok. intros ?. res_inv.
  repeat split; eauto.
Qed.

(** One task event moves the status of the task run as the abstract machine does. *)
Lemma TaskRun_project_inv t ev t' :
  TaskRun_project t ev = Ret t' →
  ∃ m a, payload_of ev = Some m ∧ is_task_payload m = true ∧ Event_Aggregate ev = Some a ∧ Aggregate_Type a = TypeTaskRun ∧
       task_run_ok t' ∧
       TI_status t' = task_status_step (TI_status t) m ∧
       TaskInvocation_ID t' = match m with
                              | TaskStarted (Some sp) => TaskInvocationSpec_TaskId sp
                              | _ => TaskInvocation_ID t end.
Proof.
  unfold TaskRun_project. intros Hp.
  bind_inv Hp as u Hv. bind_inv Hp as m Hm. bind_inv Hp as t1 Ht1.
  apply ensureNextEvent_Ret in Hv as (_ & a & Ha & Hta).
  apply ParseEventData_payload in Hm. apply task_run_touch_inv in Hp as (? & -> & -> & _).
  exists m, a. split; [done|].
  unfold TI_status, TaskInvocation_ID.
  destruct m; try (by apply unsupported_event_not_ret in Ht1); res_inv; by split_and!.
Qed.

Lemma TaskRun_project_no_panic t ev :
  event_wf ev → task_run_ok t → no_panic (TaskRun_project t ev).
Proof.
  intros [Ha _ Hm] [[md Hmd] [st Hst]]. unfold TaskRun_project.
  apply bind_no_panic; [auto with wf|]. intros _ _.
  apply bind_no_panic; [auto with wf|]. intros m Hpm%ParseEventData_payload.
  specialize (Hm _ Hpm). rewrite Hst.
  assert (∀ t', task_run_ok t' → no_panic (task_run_touch t' ev)) as Htouch.
  { intros t' [[? Hx] [? Hy]]. unfold task_run_touch. by rewrite Hx, Hy. }
  apply bind_no_panic.
  - destruct m; simpl in *; auto with wf.
    + by destruct Hm as [? ->].
    + by destruct Hm as [? ->].
  - intros t' Ht'. apply Htouch. unfold task_run_ok.
    destruct m; try (by apply unsupported_event_not_ret in Ht'); res_inv; eauto.
Qed.

Lemma invocation_touch_inv wi ev wi' :
  invocation_touch wi ev = Ret wi' →
  ∃ md st, WorkflowInvocation_Metadata wi = Some md ∧ WorkflowInvocation_Status wi = Some st ∧
    wi' = MkWorkflowInvocation (Some (incr_Generation md)) (WorkflowInvocation_Spec wi)
            (Some (WIStatus_with_UpdatedAt st (Event_Timestamp ev))).
Proof. unfold invocation_touch. intros ?. res_inv. eauto 10. Qed.

Lemma applyTaskEvent_inv now wi ev wi' :
  applyTaskEvent now wi ev = Ret wi' →
  ∃ a st t0 t, Event_Aggregate ev = Some a ∧
    Event_Parent ev = Some (GetAggregate (EInvocation wi)) ∧
    WorkflowInvocation_Status wi = Some st ∧
    (WorkflowInvocationStatus_Tasks st !! Aggregate_Id a = Some t0 ∨
     WorkflowInvocationStatus_Tasks st !! Aggregate_Id a = None ∧
     TaskRun_NewProjection now a = Ret t0) ∧
    TaskRun_project t0 ev = Ret t ∧
    wi' = WorkflowInvocation_with_Status wi
            (Some (WIStatus_with_Tasks st
                     (<[Aggregate_Id a := t]> (WorkflowInvocationStatus_Tasks st)))).
Proof.
  unfold applyTaskEvent. intros Hp. apply bind_Ret_inv in Hp as (p & Hpar & Hp).
  destruct (Event_Parent ev) as [p'|]; [|done]. simplify_eq/=.
  case_decide as Hne; [done|]. subst p.
  res_inv. destruct (WorkflowInvocationStatus_Tasks x0 !! Aggregate_Id x) eqn:Ht; simplify_eq/=;
    do 4 eexists; repeat split; eauto.
Qed.

Lemma task_run_new_ok now a t : TaskRun_NewProjection now a = Ret t →
  task_run_ok t ∧ TI_status t = TaskInvocationStatus_UNKNOWN ∧ TaskInvocation_ID t = Aggregate_Id a.
Proof.
  unfold TaskRun_NewProjection. case_decide; [done|]. intros [= <-].
  split; [|done]. by split; eexists.
Qed.

Lemma update_status_inv wi f wi' :
  update_status wi f = Ret wi' →
  ∃ st, WorkflowInvocation_Status wi = Some st ∧
        wi' = WorkflowInvocation_with_Status wi (Some (f st)).
Proof.
  unfold update_status. intros Hu. bind_inv Hu as st Hst.
  destruct (WorkflowInvocation_Status wi); simplify_eq/=. eauto.
Qed.

(** One event keeps an invocation safe to project onto and moves its status as
    the abstract machine does. *)
Lemma WorkflowInvocation_project_inv now wi ev wi' :
  WorkflowInvocation_project now wi ev = Ret wi' →
  ∃ m, payload_of ev = Some m ∧ WI_status wi' = status_step (WI_status wi) m ∧
       (invocation_ok wi → invocation_ok wi').
Proof.
  unfold WorkflowInvocation_project. intros Hp.
  apply bind_Ret_inv in Hp as (a & Ha & Hp). case_decide as Hta.
  - apply applyTaskEvent_inv in Hp as (a' & st & t0 & t & Ha' & _ & Hst & Ht0 & Ht & ->).
    apply TaskRun_project_inv in Ht as (m & a'' & Hm & Htm & _ & _ & Hok & _).
    exists m. split; [done|]. split.
    + unfold WI_status. simpl. rewrite Hst. simpl. by destruct m.
    + intros [Hmd (st' & Hst' & Htasks)]. rewrite Hst in Hst'. simplify_eq.
      split; [done|]. eexists; split; [done|]. simpl. intros id t'.
      rewrite lookup_insert_Some. intros [[_ <-]|[_ ?]]; eauto.
  - bind_inv Hp as u Hv. bind_inv Hp as m Hm. bind_inv Hp as wi1 Hwi1.
    apply ParseEventData_payload in Hm.
    apply invocation_touch_inv in Hp as (md & st & Hmd & Hst & ->).
    exists m. split; [done|]. unfold WI_status at 1, invocation_ok. simpl.
    destruct m; try (by apply unsupported_event_not_ret in Hwi1);
      unfold update_status in Hwi1; res_inv; unfold WI_status;
      repeat match goal with Hs : WorkflowInvocation_Status wi = _ |- _ => rewrite Hs end;
      (split; [done|]); intros [? (? & ? & ?)]; simplify_eq; split; eauto.
    eexists; split; [done|]. simpl. intros ? ?. by rewrite lookup_empty.
Qed.

Lemma WorkflowInvocation_project_no_panic now wi ev :
  event_wf ev → invocation_ok wi → no_panic (WorkflowInvocation_project now wi ev).
Proof.
  intros Hev [[md Hmd] (st & Hst & Htasks)]. pose proof Hev as [[a Ha] Hpar Hm].
  unfold WorkflowInvocation_project. rewrite Ha. simpl. case_decide as Hta.
  - destruct (Hpar a Ha Hta) as [p Hp]. unfold applyTaskEvent. rewrite Hp, Ha, Hst. simpl.
    case_decide; [done|].
    apply bind_no_panic.
    + destruct (WorkflowInvocationStatus_Tasks st !! Aggregate_Id a); [done|].
      unfold TaskRun_NewProjection. by case_decide.
    + intros t0 Ht0. apply bind_no_panic; [|done]. apply TaskRun_project_no_panic; [done|].
      destruct (WorkflowInvocationStatus_Tasks st !! Aggregate_Id a) eqn:Ht; simplify_eq/=;
        [eauto|]. by apply task_run_new_ok in Ht0 as [? _].
  - apply bind_no_panic; [eauto with wf|]. intros _ _.
    apply bind_no_panic; [auto with wf|]. intros m _.
    unfold update_status, invocation_touch. rewrite Hst.
    apply bind_no_panic; [destruct m; simpl; eauto with wf|].
    intros wi1 Hwi1.
    destruct m; try (by apply unsupported_event_not_ret in Hwi1); simplify_eq/=; by rewrite ?Hmd.
Qed.

Lemma WorkflowInvocation_new_ok now key wi :
  WorkflowInvocation_NewProjection now key = Ret wi →
  invocation_ok wi ∧ WI_status wi = WorkflowInvocationStatus_UNKNOWN ∧
  GetAggregate (EInvocation wi) = key ∧
  ∀ st, WorkflowInvocation_Status wi = Some st → WorkflowInvocationStatus_Tasks st = ∅.
Proof.
  unfold WorkflowInvocation_NewProjection. case_decide as Hk; [done|]. intros [= <-].
  split_and!.
  - split; [by eexists|]. eexists; split; [done|]. simpl. intros ? ?. by rewrite lookup_empty.
  - done.
  - destruct key as [id ty]. simpl in *. unfold GetAggregate. simpl. by rewrite Hk.
  - by intros st [= <-].
Qed.
End single_events.

(** ** Streams of events *)

Section streams.
Context `{Proto} `{PTypes}.
Implicit Types (wi : WorkflowInvocation) (es : list Event).

(** The projection of an invocation never panics: whatever stream of events as
    the API builds them is replayed onto a fresh projection, the projector answers
    with an entity or with an error. *)
Theorem WorkflowInvocation_Project_no_panic (now : Z) (key : Aggregate)
    (wi : WorkflowInvocation) (es : list Event) :
  WorkflowInvocation_NewProjection now key = Ret wi → Forall event_wf es →
  no_panic (WorkflowInvocation_Project now (Some (EInvocation wi)) es).
Proof.
  intros (Hok & _)%WorkflowInvocation_new_ok Hes. rewrite Forall_forall in Hes. simpl.
  apply (foldM_no_panic invocation_ok); [| |done].
  - intros w ev Hev Hw. apply WorkflowInvocation_project_no_panic; auto.
  - intros w ev w' _ Hw Hp. by apply WorkflowInvocation_project_inv in Hp as (m & _ & _ & ?); auto.
Qed.

Lemma foldM_status now wi es wi' :
  foldM (WorkflowInvocation_project now) wi es = Ret wi' →
  WI_status wi' = foldl status_step (WI_status wi) (omap payload_of es).
Proof.
  revert wi. induction es as [|ev es IH]; intros wi Hp; simpl in Hp; [by simplify_eq|].
  bind_inv Hp as wi1 H1. apply WorkflowInvocation_project_inv in H1 as (m & Hm & Hst & _).
  rewrite (IH _ Hp), Hst. simpl. by rewrite Hm.
Qed.

(** C15: The status a replay ends in is the one the abstract state machine computes
    from the payloads alone, starting at UNKNOWN. *)
Theorem WorkflowInvocation_Project_status (now : Z) (key : Aggregate)
    (wi wi' : WorkflowInvocation) (es : list Event) :
  WorkflowInvocation_NewProjection now key = Ret wi →
  WorkflowInvocation_Project now (Some (EInvocation wi)) es = Ret wi' →
  WI_status wi' = foldl status_step WorkflowInvocationStatus_UNKNOWN (omap payload_of es).
Proof.
  intros (_ & <- & _)%WorkflowInvocation_new_ok Hp. by eapply foldM_status.
Qed.
End streams.

(** ** The task runs of an invocation

    The events addressed to the task run [id]. *)
Definition for_task (id : string) (ev : Event) : bool :=
  match Event_Aggregate ev with
  | Some a => bool_decide (a = NewTaskRunAggregate id)
  | None => false
  end.

(** An event that starts the invocation anew. *)
Definition is_created `{Proto} (ev : Event) : bool :=
  match payload_of ev with
  | Some (InvocationCreated _) => true | _ => false end.

Definition WI_task (wi : WorkflowInvocation) (id : string) : option TaskInvocation :=
  WorkflowInvocation_Status wi ≫= λ st, WorkflowInvocationStatus_Tasks st !! id.

Section task_view.
Context `{Proto} `{PTypes}.
Implicit Types (wi : WorkflowInvocation) (es : list Event).

Lemma WorkflowInvocation_project_task now wi ev wi' id :
  WorkflowInvocation_project now wi ev = Ret wi' → is_created ev = false →
  if for_task id ev
  then ∃ t0 t, (WI_task wi id = Some t0 ∨
                WI_task wi id = None ∧
                TaskRun_NewProjection now (NewTaskRunAggregate id) = Ret t0) ∧
               TaskRun_project t0 ev = Ret t ∧ WI_task wi' id = Some t
  else WI_task wi' id = WI_task wi id.
Proof.
  unfold WorkflowInvocation_project, for_task, is_created. intros Hp Hc.
  bind_inv Hp as a Ha. destruct (Event_Aggregate ev) as [a'|] eqn:Hagg; simplify_eq/=.
  case_decide as Hta.
  - apply applyTaskEvent_inv in Hp as (a' & st & t0 & t & Ha' & _ & Hst & Ht0 & Ht & ->).
    simplify_eq. unfold WI_task. rewrite Hst. simpl.
    case_bool_decide as Hid.
    + subst a. simpl in *. exists t0, t. rewrite lookup_insert_eq. eauto.
    + rewrite lookup_insert_ne; [done|]. intros <-. apply Hid.
      destruct a as [i ty]; unfold NewTaskRunAggregate; simpl in *; by subst.
  - rewrite bool_decide_eq_false_2 by (intros ->; by apply Hta).
    bind_inv Hp as u Hv. bind_inv Hp as m Hm. bind_inv Hp as wi1 Hwi1.
    apply ParseEventData_payload in Hm. rewrite Hm in Hc.
    apply invocation_touch_inv in Hp as (md & st & Hmd & Hst & ->).
    unfold WI_task. simpl.
    destruct m; try (by apply unsupported_event_not_ret in Hwi1); try done;
      apply update_status_inv in Hwi1 as (st1 & Hst1 & ->); simplify_eq/=; by rewrite Hst1.
Qed.

(** C16: The run of a task inside its invocation is what the task-run projector alone
    makes of the events addressed to that run: the projector of the invocation
    only dispatches. *)
Theorem WorkflowInvocation_Project_tasks (now : Z) (wi wi' : WorkflowInvocation)
    (es : list Event) (id : string) :
  WorkflowInvocation_Project now (Some (EInvocation wi)) es = Ret wi' →
  Forall (λ ev, is_created ev = false) es →
  match filter (λ ev, for_task id ev = true) es with
  | [] => WI_task wi' id = WI_task wi id
  | evs => ∃ t0 t, (WI_task wi id = Some t0 ∨
                    WI_task wi id = None ∧
                    TaskRun_NewProjection now (NewTaskRunAggregate id) = Ret t0) ∧
             TaskRun_Project (Some (ETaskRun t0)) evs = Ret t ∧
             WI_task wi' id = Some t
  end.
Proof.
  unfold WorkflowInvocation_Project. simpl. intros Hp Hes. revert wi Hp.
  induction Hes as [|ev es Hc Hes IH]; intros wi Hp; simpl in Hp; [by simplify_eq|].
  bind_inv Hp as wi1 H1. specialize (IH _ Hp).
  apply (WorkflowInvocation_project_task _ _ _ _ id) in H1; [|done].
  rewrite filter_cons. destruct (for_task id ev) eqn:Hid; simpl in *.
  - destruct H1 as (t0 & t & Ht0 & Ht & Hwi1). exists t0.
    destruct (filter _ es) as [|ev' evs].
    + exists t. unfold TaskRun_Project. simpl. rewrite Ht. simpl. rewrite IH. eauto.
    + destruct IH as (t0' & t' & Ht0' & Ht' & Hwi'). exists t'.
      unfold TaskRun_Project in *. simpl in *. rewrite Ht. simpl.
      assert (t0' = t) as -> by (destruct Ht0' as [?|[? _]]; congruence). eauto.
  - destruct (filter _ es) as [|ev' evs]; [congruence|].
    by rewrite H1 in IH.
Qed.
End task_view.

(** ** Task runs and workflows *)

Section task_streams.
Context `{Proto} `{PTypes}.
Implicit Types (t : TaskInvocation) (es : list Event).

Lemma TaskRun_foldM_status t es t' :
  foldM TaskRun_project t es = Ret t' →
  TI_status t' = foldl task_status_step (TI_status t) (omap payload_of es).
Proof.
  revert t. induction es as [|ev es IH]; intros t Hp; simpl in Hp; [by simplify_eq|].
  bind_inv Hp as t1 H1. apply TaskRun_project_inv in H1 as (m & a & Hm & _ & _ & _ & _ & Hst & _).
  rewrite (IH _ Hp), Hst. simpl. by rewrite Hm.
Qed.

Lemma TaskRun_foldM_ok t es t' :
  task_run_ok t → foldM TaskRun_project t es = Ret t' → task_run_ok t'.
Proof.
  apply (foldM_invariant task_run_ok). intros t1 ev t2 _ _ Hp.
  by apply TaskRun_project_inv in Hp as (? & ? & ? & ? & ? & ? & ? & _).
Qed.

Lemma TaskRun_foldM_no_panic t es :
  task_run_ok t → Forall event_wf es → no_panic (foldM TaskRun_project t es).
Proof.
  intros Hok Hes. rewrite Forall_forall in Hes. apply (foldM_no_panic task_run_ok); [| |done].
  - intros ? ev ? ?. apply TaskRun_project_no_panic; auto.
  - intros ? ? ? _ _ Hp. by apply TaskRun_project_inv in Hp as (? & ? & ? & ? & ? & ? & ? & _).
Qed.

Lemma invocation_foldM_ok now wi es wi' :
  invocation_ok wi → foldM (WorkflowInvocation_project now) wi es = Ret wi' → invocation_ok wi'.
Proof.
  apply (foldM_invariant invocation_ok). intros w ev w' _ Hw Hp.
  apply WorkflowInvocation_project_inv in Hp as (m & _ & _ & ?); auto.
Qed.

Lemma invocation_foldM_no_panic now wi es :
  invocation_ok wi → Forall event_wf es →
  no_panic (foldM (WorkflowInvocation_project now) wi es).
Proof.
  intros Hok Hes. rewrite Forall_forall in Hes. apply (foldM_no_panic invocation_ok); [| |done].
  - intros w ev Hev Hw. apply WorkflowInvocation_project_no_panic; auto.
  - intros w ev w' _ Hw Hp. by apply WorkflowInvocation_project_inv in Hp as (m & _ & _ & ?); auto.
Qed.
End task_streams.

Section workflow_streams.
Context `{Proto} `{PTypes} `{MapRange}.
Implicit Types (wf : Workflow) (es : list Event).

Lemma add_parsed_tasks_inv spec st tasks st' :
  add_parsed_tasks spec st tasks = Ret st' →
  WorkflowStatus_Status_ st' = WorkflowStatus_Status_ st ∧
  WorkflowStatus_Error st' = WorkflowStatus_Error st ∧
  (∀ id status, tasks !! id = Some status → is_Some (WorkflowSpec_TaskSpec spec id)) ∧
  (∀ id, WorkflowStatus_Tasks st' !! id =
     match tasks !! id with
     | Some status => Some (MkTask (Some (task_metadata id None)) (WorkflowSpec_TaskSpec spec id)
                              (Some status))
     | None => WorkflowStatus_Tasks st !! id
     end).
Proof.
  unfold add_parsed_tasks.
  assert (Hl : ∀ l st, NoDup l.*1 →
    foldM (λ st '(taskID, status),
           match WorkflowSpec_TaskSpec spec taskID with
           | None => Throw (ErrFmt (taskID +:+ ": unknown task"))
           | Some s =>
               Ret (WorkflowStatus_AddTask st taskID
                      (MkTask (Some (task_metadata taskID None)) (Some s) (Some status)))
           end) st l = Ret st' →
    WorkflowStatus_Status_ st' = WorkflowStatus_Status_ st ∧
    WorkflowStatus_Error st' = WorkflowStatus_Error st ∧
    (∀ id status, (id, status) ∈ l → is_Some (WorkflowSpec_TaskSpec spec id) ∧
       WorkflowStatus_Tasks st' !! id =
       Some (MkTask (Some (task_metadata id None)) (WorkflowSpec_TaskSpec spec id) (Some status))) ∧
    (∀ id, id ∉ l.*1 → WorkflowStatus_Tasks st' !! id = WorkflowStatus_Tasks st !! id)).
  { induction l as [|[k s] l IH]; intros st0 Hnd; simpl.
    - intros [= ->]. split_and!; [done|done|set_solver|done].
    - rewrite fmap_cons in Hnd. apply NoDup_cons in Hnd as [Hk Hnd].
      destruct (WorkflowSpec_TaskSpec spec k) as [sp|] eqn:Hsp; [|done]. simpl. intros Hf.
      apply IH in Hf as (-> & -> & Hin & Hout); [|done]. simpl in *. split_and!; [done|done| |].
      + intros id status [[= -> ->]|Hl]%elem_of_cons; [|by apply Hin].
        rewrite Hsp. split; [eauto|]. rewrite Hout, lookup_insert_eq by done. done.
      + intros id Hid. rewrite Hout by set_solver. apply lookup_insert_ne. set_solver. }
  intros (Hs & He & Hin & Hout)%Hl; [|apply NoDup_range].
  split_and!; [done|done| |].
  - intros id status Hid%(elem_of_range 0). by eapply Hin.
  - intros id. destruct (tasks !! id) as [status|] eqn:Hid.
    + apply (elem_of_range 0) in Hid. by apply Hin.
    + apply Hout. rewrite elem_of_range_fst, Hid. by intros [].
Qed.

Lemma workflow_touch_inv wf ev wf' :
  workflow_touch wf ev = Ret wf' →
  workflow_ok wf' ∧ W_status wf' = W_status wf ∧ Workflow_ID (Some wf') = Workflow_ID (Some wf) ∧
  Workflow_Spec wf' = Workflow_Spec wf ∧
  Workflow_Status wf ≫= (λ st, Some (WorkflowStatus_Tasks st)) =
  Workflow_Status wf' ≫= (λ st, Some (WorkflowStatus_Tasks st)).
Proof.
  unfold workflow_touch, W_status, Workflow_ID, workflow_ok. intros ?. res_inv.
  split_and!; eauto. by rewrite Heqo0.
Qed.

(** One event moves the status of a workflow as the abstract machine does and
    keeps its identifier. *)
Lemma Workflow_project_inv wf ev wf' :
  Workflow_project wf ev = Ret wf' →
  ∃ m, payload_of ev = Some m ∧ workflow_ok wf' ∧
       W_status wf' = workflow_status_step (W_status wf) m ∧
       Workflow_ID (Some wf') = Workflow_ID (Some wf).
Proof.
  unfold Workflow_project. intros Hp.
  bind_inv Hp as u Hv. bind_inv Hp as m Hm. bind_inv Hp as wf1 Hwf1.
  apply ParseEventData_payload in Hm. apply workflow_touch_inv in Hp as (? & -> & -> & _).
  exists m. split; [done|]. split; [done|]. unfold W_status, Workflow_ID.
  destruct m; try (by apply unsupported_event_not_ret in Hwf1);
    unfold workflow_update_status in Hwf1; try (res_inv; done).
  bind_inv Hwf1 as st Hst. bind_inv Hwf1 as st' Hst'. simplify_eq/=.
  by apply add_parsed_tasks_inv in Hst' as (-> & _).
Qed.

Lemma Workflow_project_no_panic wf ev :
  event_wf ev → workflow_ok wf → no_panic (Workflow_project wf ev).
Proof.
  intros [Ha _ Hm] [[md Hmd] [st Hst]]. unfold Workflow_project.
  apply bind_no_panic; [auto with wf|]. intros _ _.
  apply bind_no_panic; [auto with wf|]. intros m _. unfold workflow_update_status. rewrite Hst.
  assert (Hadd : ∀ sp st tasks, no_panic (add_parsed_tasks sp st tasks)).
  { intros sp st0 tasks. apply (foldM_no_panic (λ _, True)); [|done|done].
    intros s [id s'] _ _. by destruct (WorkflowSpec_TaskSpec sp id). }
  apply bind_no_panic.
  - destruct m; simpl; auto with wf. apply bind_no_panic; [apply Hadd|done].
  - intros wf1 Hwf1. unfold workflow_touch.
    destruct m; try (by apply unsupported_event_not_ret in Hwf1); simplify_eq/=; rewrite ?Hmd; try done.
    bind_inv Hwf1 as st' Hst'. simplify_eq/=. by rewrite Hmd.
Qed.

Lemma Workflow_foldM_ok wf es wf' :
  workflow_ok wf → foldM Workflow_project wf es = Ret wf' → workflow_ok wf'.
Proof.
  apply (foldM_invariant workflow_ok). intros w ev w' _ _ Hp.
  by apply Workflow_project_inv in Hp as (? & _ & ? & _).
Qed.

Lemma Workflow_foldM_no_panic wf es :
  workflow_ok wf → Forall event_wf es → no_panic (foldM Workflow_project wf es).
Proof.
  intros Hok Hes. rewrite Forall_forall in Hes. apply (foldM_no_panic workflow_ok); [| |done].
  - intros w ev Hev Hw. apply Workflow_project_no_panic; auto.
  - intros w ev w' _ _ Hp. by apply Workflow_project_inv in Hp as (? & _ & ? & _).
Qed.

(** What the two events of a parsed workflow make of it: it is READY, and every
    parsed task carries the spec the workflow declares and the status the parser
    gave it. *)
Theorem Workflow_Project_parsed (wf wf' : Workflow) (created parsed : Event)
    (spec : WorkflowSpec) (tasks : gmap string TaskStatus) :
  payload_of created = Some (WorkflowCreated (Some spec)) →
  payload_of parsed = Some (WorkflowParsed tasks) →
  Workflow_Project (Some (EWorkflow wf)) [created; parsed] = Ret wf' →
  WorkflowStatus_Ready (Workflow_Status wf') = true ∧
  Workflow_ID (Some wf') = Workflow_ID (Some wf) ∧ Workflow_Spec wf' = Some spec ∧
  (∀ id status, tasks !! id = Some status →
     ∃ ts, WorkflowSpec_TaskSpec (Some spec) id = Some ts ∧
       Workflow_Status wf' ≫= (λ st, WorkflowStatus_Tasks st !! id) =
       Some (MkTask (Some (task_metadata id None)) (Some ts) (Some status))).
Proof.
  intros Hc Hpd Hp. unfold Workflow_Project in Hp. simpl in Hp.
  bind_inv Hp as wf1 Ha1. bind_inv Hp as wf2 Ha2. injection Hp as <-.
  pose proof (Workflow_project_inv _ _ _ Ha1) as (m1 & Hm1 & _ & Hs1 & Hid1).
  pose proof (Workflow_project_inv _ _ _ Ha2) as (m2 & Hm2 & [_ [st2 Hst2]] & Hs2 & Hid2).
  simplify_eq. simpl in *.
  unfold Workflow_project in Ha1, Ha2.
  bind_inv Ha1 as u1 Hv1. bind_inv Ha1 as p1 Hp1. apply ParseEventData_payload in Hp1. simplify_eq.
  bind_inv Ha2 as u2 Hv2. bind_inv Ha2 as p2 Hp2. apply ParseEventData_payload in Hp2. simplify_eq.
  simpl in Ha1. apply workflow_touch_inv in Ha1 as (_ & _ & _ & Hsp1 & _). simpl in Hsp1.
  bind_inv Ha2 as wf3 Ha3. bind_inv Ha3 as st0 Hst0. bind_inv Ha3 as st3 Hst3. injection Ha3 as <-.
  apply workflow_touch_inv in Ha2 as (_ & _ & _ & Hsp2 & Htasks). simpl in *.
  rewrite Hsp1 in *.
  apply add_parsed_tasks_inv in Hst3 as (_ & _ & Hknown & Hall).
  rewrite Hst2 in *. simpl in *. simplify_eq. split_and!.
  - unfold W_status in Hs2. rewrite Hst2 in Hs2. by apply bool_decide_eq_true.
  - congruence.
  - done.
  - intros id status Hid. destruct (Hknown _ _ Hid) as [ts Hts]. exists ts. split; [done|].
    rewrite <- Htasks, Hall, Hid. by rewrite Hts.
Qed.
End workflow_streams.

(** ** What a replay does not determine

    The clock is visible in one place only: the creation time of an entity or task
    run whose first event is not the one that creates it.  The generations count the
    events projected, so an event that is delivered twice is counted twice.
    [entity_sim] forgets both. *)
Definition strip_md (md : ObjectMetadata) : ObjectMetadata :=
  MkObjectMetadata (ObjectMetadata_Id md) (ObjectMetadata_Name md) None 0.
Definition strip_run (t : TaskInvocation) : TaskInvocation :=
  MkTaskInvocation (strip_md <$> TaskInvocation_Metadata t)
    (TaskInvocation_Spec t) (TaskInvocation_Status t).
Definition strip_status (st : WorkflowInvocationStatus) : WorkflowInvocationStatus :=
  WIStatus_with_Tasks st (strip_run <$> WorkflowInvocationStatus_Tasks st).
Definition strip_invocation (wi : WorkflowInvocation) : WorkflowInvocation :=
  MkWorkflowInvocation (strip_md <$> WorkflowInvocation_Metadata wi) (WorkflowInvocation_Spec wi)
    (strip_status <$> WorkflowInvocation_Status wi).
Definition strip_workflow (wf : Workflow) : Workflow :=
  MkWorkflow (strip_md <$> Workflow_Metadata wf) (Workflow_Spec wf) (Workflow_Status wf).
Definition strip_entity (e : Entity) : Entity :=
  match e with
  | EWorkflow wf => EWorkflow (strip_workflow wf)
  | EInvocation wi => EInvocation (strip_invocation wi)
  | ETaskRun t => ETaskRun (strip_run t)
  end.
Definition entity_sim (e1 e2 : Entity) : Prop := strip_entity e1 = strip_entity e2.

#[export] Instance entity_sim_equiv : Equivalence entity_sim.
Proof.
  split; unfold entity_sim; [intros x; done|intros x y; done|intros x y z; congruence].
Qed.

Lemma strip_run_idem t : strip_run (strip_run t) = strip_run t.
Proof. by destruct t as [[]]. Qed.

Lemma strip_runs_idem (ts : gmap string TaskInvocation) :
  strip_run <$> (strip_run <$> ts) = strip_run <$> ts.
Proof. rewrite <- map_fmap_compose. apply map_fmap_ext. intros ? t _. apply strip_run_idem. Qed.

Lemma strip_status_idem st : strip_status (strip_status st) = strip_status st.
Proof. unfold strip_status, WIStatus_with_Tasks. simpl. by rewrite strip_runs_idem. Qed.

Lemma fmap_Ret_inv {E A B} (f : A → B) (m : res E A) b :
  f <$> m = Ret b → ∃ a, m = Ret a ∧ b = f a.
Proof. destruct m; simpl; naive_solver. Qed.

Lemma fmap_no_panic {E A B} (f : A → B) (m : res E A) : no_panic m → no_panic (f <$> m).
Proof. by destruct m. Qed.

Lemma fmap_bind {E A B C} (f : B → C) (m : res E A) (k : A → res E B) :
  f <$> (x ← m; k x) = (x ← m; f <$> k x).
Proof. by destruct m. Qed.

(** Two computations that agree up to [h] followed by continuations that do not
    see the difference. *)
Lemma bind_fmap_ext {E A B C} (h : A → B) (m m' : res E A) (k k' : A → res E C) :
  h <$> m = h <$> m' →
  (∀ a a', m = Ret a → m' = Ret a' → h a = h a' → k a = k' a') →
  (x ← m; k x) = (x ← m'; k' x).
Proof. destruct m, m'; simpl; intros; simplify_eq; auto. Qed.

Lemma bind_ext {E A B} (m : res E A) (k k' : A → res E B) :
  (∀ a, m = Ret a → k a = k' a) → (x ← m; k x) = (x ← m; k' x).
Proof. destruct m; simpl; auto. Qed.

Section sim.
Context `{Proto} `{PTypes}.
Implicit Types (t : TaskInvocation) (wi : WorkflowInvocation) (es : list Event).

Lemma task_run_touch_strip t1 t2 ev :
  strip_run t1 = strip_run t2 →
  strip_run <$> task_run_touch t1 ev = strip_run <$> task_run_touch t2 ev.
Proof.
  destruct t1 as [md1 sp1 st1], t2 as [md2 sp2 st2]. unfold strip_run, task_run_touch. simpl.
  intros Hs. injection Hs as Hmd -> ->.
  destruct md1 as [md1|], md2 as [md2|]; simplify_eq/=; [|done].
  destruct st2; simpl; [|done]. unfold strip_run, strip_md in *. simpl in *. congruence.
Qed.

Lemma TaskRun_project_strip t ev :
  strip_run <$> TaskRun_project t ev = strip_run <$> TaskRun_project (strip_run t) ev.
Proof.
  unfold TaskRun_project. rewrite ?fmap_bind. apply bind_ext. intros _ _.
  rewrite ?fmap_bind. apply bind_ext. intros m _. rewrite ?fmap_bind.
  assert (GetAggregate (ETaskRun (strip_run t)) = GetAggregate (ETaskRun t)) as Hagg
    by (by destruct t as [[]]).
  apply (bind_fmap_ext strip_run).
  - destruct t as [[md|] sp [st|]], m; try done; unfold unsupported_event; simpl in *;
      rewrite ?Hagg; try done;
      by match goal with |- context [deref ?r] => destruct r end.
  - intros t1 t2 _ _. apply task_run_touch_strip.
Qed.

Lemma TaskRun_project_sim t t' ev :
  strip_run t = strip_run t' →
  strip_run <$> TaskRun_project t ev = strip_run <$> TaskRun_project t' ev.
Proof. intros Ht. by rewrite TaskRun_project_strip, Ht, <- TaskRun_project_strip. Qed.

Lemma TaskRun_foldM_sim es t t' :
  strip_run t = strip_run t' →
  strip_run <$> foldM TaskRun_project t es = strip_run <$> foldM TaskRun_project t' es.
Proof.
  revert t t'. induction es as [|ev es IH]; intros t t' Ht; simpl; [by rewrite Ht|].
  rewrite ?fmap_bind. apply (bind_fmap_ext strip_run); [|eauto]. by apply TaskRun_project_sim.
Qed.

Lemma TaskRun_NewProjection_sim now now' key :
  strip_run <$> TaskRun_NewProjection now key = strip_run <$> TaskRun_NewProjection now' key.
Proof. unfold TaskRun_NewProjection. by case_decide. Qed.

Lemma applyTaskEvent_strip now now' wi ev :
  strip_invocation <$> applyTaskEvent now wi ev =
  strip_invocation <$> applyTaskEvent now' (strip_invocation wi) ev.
Proof.
  unfold applyTaskEvent. rewrite ?fmap_bind. apply bind_ext. intros p _.
  assert (GetAggregate (EInvocation (strip_invocation wi)) = GetAggregate (EInvocation wi)) as ->
    by (by destruct wi as [[]]).
  case_decide; [done|]. rewrite ?fmap_bind. apply bind_ext. intros a _. rewrite ?fmap_bind.
  destruct wi as [md sp [st|]]; simpl; [|done]. rewrite ?fmap_bind, lookup_fmap.
  apply (bind_fmap_ext strip_run).
  - destruct (WorkflowInvocationStatus_Tasks st !! Aggregate_Id a) as [t|]; simpl.
    + by rewrite strip_run_idem.
    + apply TaskRun_NewProjection_sim.
  - intros t1 t2 _ _ Ht. rewrite ?fmap_bind. apply (bind_fmap_ext strip_run).
    + by apply TaskRun_project_sim.
    + intros t3 t4 _ _ Ht'. simpl. unfold strip_invocation, WorkflowInvocation_with_Status. simpl.
      unfold strip_status, WIStatus_with_Tasks. simpl. rewrite !fmap_insert, Ht', strip_runs_idem.
      by destruct md as [[]|].
Qed.

Lemma invocation_touch_strip wi1 wi2 ev :
  strip_invocation wi1 = strip_invocation wi2 →
  strip_invocation <$> invocation_touch wi1 ev = strip_invocation <$> invocation_touch wi2 ev.
Proof.
  destruct wi1 as [md1 sp1 st1], wi2 as [md2 sp2 st2].
  unfold strip_invocation, invocation_touch. simpl. intros Hs. injection Hs as Hmd -> Hst.
  destruct md1 as [md1|], md2 as [md2|]; try done. simpl in *.
  destruct st1 as [[]|], st2 as [[]|]; try done. simpl in *.
  assert (strip_md md1 = strip_md md2) as Hmd' by congruence.
  unfold strip_invocation. simpl. f_equal. f_equal.
  - unfold strip_md in *. simpl. congruence.
  - injection Hst as -> _ Hts -> -> -> ->. unfold strip_status, WIStatus_with_Tasks. simpl.
    by rewrite Hts.
Qed.

Lemma WorkflowInvocation_project_strip now now' wi ev :
  strip_invocation <$> WorkflowInvocation_project now wi ev =
  strip_invocation <$> WorkflowInvocation_project now' (strip_invocation wi) ev.
Proof.
  unfold WorkflowInvocation_project. rewrite ?fmap_bind. apply bind_ext. intros a _.
  case_decide; [apply applyTaskEvent_strip|].
  rewrite ?fmap_bind. apply bind_ext. intros _ _.
  rewrite ?fmap_bind. apply bind_ext. intros m _. rewrite ?fmap_bind.
  apply (bind_fmap_ext strip_invocation); [|intros wi1 wi2 _ _; apply invocation_touch_strip].
  destruct wi as [[md|] sp [st|]], m; try done; unfold strip_invocation, update_status; simpl;
    unfold strip_status, WIStatus_with_Tasks; simpl; by rewrite ?strip_runs_idem.
Qed.

Lemma WorkflowInvocation_project_sim now now' wi wi' ev :
  strip_invocation wi = strip_invocation wi' →
  strip_invocation <$> WorkflowInvocation_project now wi ev =
  strip_invocation <$> WorkflowInvocation_project now' wi' ev.
Proof.
  intros Hwi. by rewrite (WorkflowInvocation_project_strip now now), Hwi,
    <- (WorkflowInvocation_project_strip now').
Qed.

Lemma invocation_foldM_sim now now' es wi wi' :
  strip_invocation wi = strip_invocation wi' →
  strip_invocation <$> foldM (WorkflowInvocation_project now) wi es =
  strip_invocation <$> foldM (WorkflowInvocation_project now') wi' es.
Proof.
  revert wi wi'. induction es as [|ev es IH]; intros wi wi' Hwi; simpl; [by rewrite Hwi|].
  rewrite ?fmap_bind. apply (bind_fmap_ext strip_invocation); [|eauto].
  by apply WorkflowInvocation_project_sim.
Qed.
End sim.

Section workflow_sim.
Context `{Proto} `{PTypes} `{MapRange}.
Implicit Types (wf : Workflow) (es : list Event).

Lemma Workflow_project_strip wf ev :
  strip_workflow <$> Workflow_project wf ev =
  strip_workflow <$> Workflow_project (strip_workflow wf) ev.
Proof.
  unfold Workflow_project. rewrite ?fmap_bind. apply bind_ext. intros _ _.
  rewrite ?fmap_bind. apply bind_ext. intros m _. rewrite ?fmap_bind.
  apply (bind_fmap_ext strip_workflow).
  - destruct wf as [[md|] sp [st|]], m; try done; unfold workflow_update_status; simpl;
      by rewrite ?fmap_bind.
  - intros [md1 sp1 st1] [md2 sp2 st2] _ _. unfold strip_workflow, workflow_touch. simpl.
    intros Hs. injection Hs as Hmd -> ->. destruct md1 as [md1|], md2 as [md2|]; try done.
    simpl in *. destruct st2; [|done]. simpl. unfold strip_workflow. simpl.
    unfold strip_md in *. simpl. congruence.
Qed.

Lemma Workflow_project_sim wf wf' ev :
  strip_workflow wf = strip_workflow wf' →
  strip_workflow <$> Workflow_project wf ev = strip_workflow <$> Workflow_project wf' ev.
Proof. intros Hwf. by rewrite Workflow_project_strip, Hwf, <- Workflow_project_strip. Qed.

Lemma Workflow_foldM_sim es wf wf' :
  strip_workflow wf = strip_workflow wf' →
  strip_workflow <$> foldM Workflow_project wf es = strip_workflow <$> foldM Workflow_project wf' es.
Proof.
  revert wf wf'. induction es as [|ev es IH]; intros wf wf' Hwf; simpl; [by rewrite Hwf|].
  rewrite ?fmap_bind. apply (bind_fmap_ext strip_workflow); [|eauto].
  by apply Workflow_project_sim.
Qed.
End workflow_sim.

(** ** Delivering an event twice *)

Section redeliver.
Context `{Proto} `{PTypes} `{MapRange}.

Lemma TaskRun_redeliver t ev t1 :
  TaskRun_project t ev = Ret t1 →
  ∃ t2, TaskRun_project t1 ev = Ret t2 ∧ strip_run t1 = strip_run t2.
Proof.
  unfold TaskRun_project. intros Hp.
  bind_inv Hp as u Hv. bind_inv Hp as m Hm. bind_inv Hp as t0 Ht0.
  rewrite Hv, Hm. simpl. unfold task_run_touch in *.
  destruct t0 as [[md|] sp [st|]]; simplify_eq/=.
  destruct m as [| | | | | | | | |sp'|r| |err| | | | | | | | | | | | | | | | |];
    try (by apply unsupported_event_not_ret in Ht0); simpl in *;
    try destruct sp'; try destruct r; destruct t as [md0 sp0 [st0|]]; simplify_eq/=;
    eexists; (split; [reflexivity|]); unfold strip_run; simpl; reflexivity.
Qed.

Lemma WorkflowInvocation_redeliver now wi ev wi1 :
  WorkflowInvocation_project now wi ev = Ret wi1 →
  ∃ wi2, WorkflowInvocation_project now wi1 ev = Ret wi2 ∧
         strip_invocation wi1 = strip_invocation wi2.
Proof.
  unfold WorkflowInvocation_project. intros Hp. bind_inv Hp as a Ha. rewrite Ha. simpl.
  case_decide as Hta.
  - apply applyTaskEvent_inv in Hp as (a' & st & t0 & t & Ha' & Hpar & Hst & _ & Ht & ->).
    rewrite Ha' in Ha. simpl in Ha. simplify_eq.
    destruct (TaskRun_redeliver _ _ _ Ht) as (t2 & Ht2 & Hsim).
    unfold applyTaskEvent. rewrite Hpar, Ha'. simpl.
    change (GetAggregate (EInvocation (WorkflowInvocation_with_Status wi _)))
      with (GetAggregate (EInvocation wi)).
    rewrite decide_False by (intros Hne; by apply Hne). rewrite lookup_insert_eq. simpl.
    rewrite Ht2. simpl. eexists; split; [reflexivity|].
    unfold strip_invocation, strip_status, WIStatus_with_Tasks. simpl.
    by rewrite insert_insert_eq, !fmap_insert, Hsim.
  - bind_inv Hp as u Hv. bind_inv Hp as m Hm. bind_inv Hp as wi0 Hwi0.
    rewrite Hv, Hm. simpl. unfold invocation_touch in *.
    destruct wi0 as [[md|] sp [st|]]; simplify_eq/=.
    destruct m; try (by apply unsupported_event_not_ret in Hwi0); unfold update_status in *;
      simpl in *; destruct wi as [md0 sp0 [st0|]]; simplify_eq/=;
      eexists; (split; [reflexivity|]); unfold strip_invocation, strip_status; simpl;
      rewrite ?insert_insert_eq; reflexivity.
Qed.

Lemma add_parsed_tasks_again spec st tasks st1 :
  add_parsed_tasks spec st tasks = Ret st1 →
  ∀ st2, WorkflowStatus_Status_ st2 = WorkflowStatus_Status_ st1 →
    WorkflowStatus_Error st2 = WorkflowStatus_Error st1 →
    WorkflowStatus_Tasks st2 = WorkflowStatus_Tasks st1 →
    add_parsed_tasks spec st2 tasks = Ret st2.
Proof.
  intros Hp. pose proof (add_parsed_tasks_inv _ _ _ _ Hp) as (_ & _ & Hknown & Hall).
  intros st2 Hs He Ht. unfold add_parsed_tasks.
  assert (∀ l, (∀ id s, (id, s) ∈ l → tasks !! id = Some s) →
    foldM (λ st '(taskID, status),
           match WorkflowSpec_TaskSpec spec taskID with
           | None => Throw (E := goerror) (ErrFmt (taskID +:+ ": unknown task"))
           | Some s =>
               Ret (WorkflowStatus_AddTask st taskID
                      (MkTask (Some (task_metadata taskID None)) (Some s) (Some status)))
           end) st2 l = Ret st2) as Hl.
  { induction l as [|[id s] l IH]; intros Hin; [done|]. simpl.
    assert (tasks !! id = Some s) as Hid by (apply Hin; set_solver).
    destruct (Hknown _ _ Hid) as [sp Hsp]. rewrite Hsp. simpl.
    assert (WorkflowStatus_AddTask st2 id
              (MkTask (Some (task_metadata id None)) (Some sp) (Some s)) = st2) as ->.
    { unfold WorkflowStatus_AddTask. destruct st2 as [s2 u2 t2 e2]. simpl in *. f_equal.
      apply insert_id. rewrite Ht, Hall, Hid. by rewrite Hsp. }
    apply IH. set_solver. }
  apply Hl. intros ? ?. apply elem_of_range.
Qed.

Lemma Workflow_redeliver wf ev wf1 :
  Workflow_project wf ev = Ret wf1 →
  ∃ wf2, Workflow_project wf1 ev = Ret wf2 ∧ strip_workflow wf1 = strip_workflow wf2.
Proof.
  unfold Workflow_project. intros Hp.
  bind_inv Hp as u Hv. bind_inv Hp as m Hm. bind_inv Hp as wf0 Hwf0.
  rewrite Hv, Hm. simpl. unfold workflow_touch in *.
  destruct wf0 as [[md|] sp [st|]]; simplify_eq/=.
  destruct m as [| |tasks| | | | | | | | | | | | | | | | | | | | | | | | | | |];
    try (by apply unsupported_event_not_ret in Hwf0);
    unfold workflow_update_status in *; simpl in *; destruct wf as [md0 sp0 [st0|]]; simplify_eq/=;
    try (eexists; (split; [reflexivity|]); unfold strip_workflow; simpl; reflexivity).
  bind_inv Hwf0 as st1 Hst1. simplify_eq/=.
  assert (WorkflowStatus_Status_ st = WorkflowStatus_READY) as Hready
    by (by apply add_parsed_tasks_inv in Hst1 as [-> _]).
  rewrite (add_parsed_tasks_again _ _ _ _ Hst1
    (WStatus_with_Status (WStatus_with_UpdatedAt st (Event_Timestamp ev)) WorkflowStatus_READY))
    by done. simpl. eexists; (split; [reflexivity|]).
  unfold strip_workflow. simpl. unfold WStatus_with_UpdatedAt, WStatus_with_Status. simpl.
  by rewrite Hready.
Qed.
End redeliver.
(** ** The projectors satisfy the laws the caches rely on *)

Definition good_invocation (e : Entity) : Prop :=
  match e with EInvocation wi => invocation_ok wi | _ => False end.
Definition good_task_run (e : Entity) : Prop :=
  match e with ETaskRun t => task_run_ok t | _ => False end.
Definition good_workflow (e : Entity) : Prop :=
  match e with EWorkflow wf => workflow_ok wf | _ => False end.

(** The events of the projectors: well formed, and only task runs have a parent. *)
Record event_fit `{Proto} (ev : Event) : Prop := {
  event_fit_wf : event_wf ev;
  event_fit_parent : ∀ a p, Event_Aggregate ev = Some a → Aggregate_Type a ≠ TypeTaskRun →
    Event_Parent ev = Some p → p = a }.

Section keys.
Context `{Proto} `{PTypes} `{MapRange}.

Lemma WorkflowInvocation_project_key now wi ev wi' :
  event_fit ev → event_key ev = Some (GetAggregate (EInvocation wi)) →
  WorkflowInvocation_project now wi ev = Ret wi' →
  GetAggregate (EInvocation wi') = GetAggregate (EInvocation wi).
Proof.
  intros [_ Hpar] Hkey. unfold WorkflowInvocation_project. intros Hp.
  bind_inv Hp as a Ha. destruct (Event_Aggregate ev) as [a'|] eqn:Hagg; simplify_eq/=.
  case_decide as Hta.
  - by apply applyTaskEvent_inv in Hp as (a' & st' & t0 & t & ? & _ & ? & _ & _ & ->).
  - bind_inv Hp as u Hv. bind_inv Hp as m Hm. bind_inv Hp as wi1 Hwi1.
    apply ensureNextEvent_Ret in Hv as (_ & a2 & Ha2 & Hty). simplify_eq.
    apply invocation_touch_inv in Hp as (md & st1 & Hmd & Hst1 & ->).
    assert (a = GetAggregate (EInvocation wi)) as Heq.
    { unfold event_key in Hkey. destruct (Event_Parent ev) as [p|] eqn:Hp; simplify_eq; [|done].
      symmetry. by apply (Hpar _ _ eq_refl Hta). }
    destruct m; try (by apply unsupported_event_not_ret in Hwi1);
      try apply update_status_inv in Hwi1 as (st2 & Hst2 & ->); simplify_eq/=;
      unfold GetAggregate; simpl; unfold WorkflowInvocation_ID; simpl; try rewrite Hmd; done.
Qed.

Lemma TaskRun_project_type t ev t' :
  TaskRun_project t ev = Ret t' → ∃ a, Event_Aggregate ev = Some a ∧ Aggregate_Type a = TypeTaskRun.
Proof. intros (m & a & _ & _ & Ha & Ht & _)%TaskRun_project_inv. eauto. Qed.

Lemma Workflow_foldM_key es wf wf' :
  foldM Workflow_project wf es = Ret wf' → Workflow_ID (Some wf') = Workflow_ID (Some wf).
Proof.
  revert wf. induction es as [|ev es IH]; intros wf Hp; simpl in Hp; [by simplify_eq|].
  bind_inv Hp as wf1 Hw1. apply Workflow_project_inv in Hw1 as (? & _ & _ & _ & <-). auto.
Qed.

Lemma invocation_foldM_key now es wi wi' :
  Forall event_fit es → Forall (λ ev, event_key ev = Some (GetAggregate (EInvocation wi))) es →
  foldM (WorkflowInvocation_project now) wi es = Ret wi' →
  GetAggregate (EInvocation wi') = GetAggregate (EInvocation wi).
Proof.
  intros Hfit. revert wi. induction Hfit as [|ev es Hf Hfs IH]; intros wi Hkey Hp; simpl in Hp;
    [by simplify_eq|].
  apply Forall_cons in Hkey as [Hk Hks]. bind_inv Hp as wi1 Hw1.
  apply WorkflowInvocation_project_key in Hw1 as Hk1; [|done|done].
  rewrite <- Hk1. apply IH; [|done]. by rewrite Hk1.
Qed.
End keys.

Section instance_laws.
Context `{Proto} `{PTypes} `{MapRange}.

(** A law about projections of two similar entities, from the one about [foldM]. *)
Lemma sim_of_strip {A} (strip : A → A) (C : A → Entity) (m m' : res goerror A) e :
  (∀ a, strip_entity (C a) = C (strip a)) →
  strip <$> m = strip <$> m' → C <$> m = Ret e →
  ∃ e', C <$> m' = Ret e' ∧ entity_sim e e'.
Proof.
  intros Hc Hs (a & Hm & ->)%fmap_Ret_inv. rewrite Hm in Hs. symmetry in Hs.
  apply fmap_Ret_inv in Hs as (a' & -> & Heq). exists (C a'). split; [done|].
  unfold entity_sim. rewrite !Hc. by rewrite Heq.
Qed.

Lemma strip_invocation_of wi wi' :
  entity_sim (EInvocation wi) (EInvocation wi') → strip_invocation wi = strip_invocation wi'.
Proof. intros Hs. exact (f_equal (λ e, match e with EInvocation w => w | _ => wi end) Hs). Qed.
Lemma strip_workflow_of wf wf' :
  entity_sim (EWorkflow wf) (EWorkflow wf') → strip_workflow wf = strip_workflow wf'.
Proof. intros Hs. exact (f_equal (λ e, match e with EWorkflow w => w | _ => wf end) Hs). Qed.
Lemma strip_run_of t t' : entity_sim (ETaskRun t) (ETaskRun t') → strip_run t = strip_run t'.
Proof. intros Hs. exact (f_equal (λ e, match e with ETaskRun w => w | _ => t end) Hs). Qed.

Lemma entity_sim_key b b' : entity_sim b b' → GetAggregate b = GetAggregate b'.
Proof.
  assert (∀ b, GetAggregate (strip_entity b) = GetAggregate b) as Hk
    by (intros [[[]]|[[]]|[[]]]; done).
  intros Hs. by rewrite <- Hk, Hs, Hk.
Qed.

Lemma entity_sim_constructor b b' :
  entity_sim b b' →
  match b, b' with
  | EWorkflow _, EWorkflow _ | EInvocation _, EInvocation _ | ETaskRun _, ETaskRun _ => True
  | _, _ => False
  end.
Proof. by destruct b, b'. Qed.

#[export] Instance InvocationProjector_laws :
  ProjectorLaws InvocationProjector TypeInvocation good_invocation event_fit entity_sim.
Proof.
  split; simpl.
  - apply _.
  - apply entity_sim_key.
  - by intros now [].
  - intros now b es1 es2. destruct b as [|wi|]; unfold WorkflowInvocation_Project; simpl; [done| |done].
    rewrite foldM_app. by destruct (foldM _ wi es1).
  - intros now [|wi|] es b'; simpl; [done| |done]. intros Hg (wi' & Hp & ->)%fmap_Ret_inv.
    by eapply invocation_foldM_ok.
  - intros now [|wi|] es; simpl; [done| |done]. intros Hg Hes.
    apply fmap_no_panic, invocation_foldM_no_panic; [done|].
    eapply Forall_impl; [done|]. by intros ? [].
  - intros now now' b b' es e Hsim Hp. pose proof (entity_sim_constructor _ _ Hsim).
    destruct b as [|wi|], b' as [|wi'|]; try done.
    eapply (sim_of_strip strip_invocation); [done| |exact Hp].
    by apply invocation_foldM_sim, strip_invocation_of.
  - intros now [|wi|] ev e; simpl; [done| |done]. intros (wi1 & Hp & ->)%fmap_Ret_inv.
    unfold WorkflowInvocation_Project in *. simpl in *. bind_inv Hp as wi0 Hp0. simplify_eq.
    destruct (WorkflowInvocation_redeliver _ _ _ _ Hp0) as (wi2 & Hp2 & Hs).
    rewrite Hp2. simpl. eexists; split; [done|]. unfold entity_sim, strip_entity. by rewrite Hs.
  - intros now [|wi|] es b'; simpl; [done| |done]. intros Hf Hk (wi' & Hp & ->)%fmap_Ret_inv.
    by eapply invocation_foldM_key.
  - intros now key b (wi & Hwi & ->)%fmap_Ret_inv.
    by apply WorkflowInvocation_new_ok in Hwi as (? & _ & ? & _).
  - intros now now' key b (wi & Hwi & ->)%fmap_Ret_inv.
    unfold WorkflowInvocation_NewProjection in *. case_decide; simplify_eq/=.
    by eexists.
  - by intros [].
Qed.

#[export] Instance WorkflowProjector_laws :
  ProjectorLaws WorkflowProjector TypeWorkflow good_workflow event_fit entity_sim.
Proof.
  split; simpl.
  - apply _.
  - apply entity_sim_key.
  - by intros now [].
  - intros now b es1 es2. destruct b as [wf| |]; unfold Workflow_Project; simpl; [|done|done].
    rewrite foldM_app. by destruct (foldM _ wf es1).
  - intros now [wf| |] es b'; simpl; [|done|done]. intros Hg (wf' & Hp & ->)%fmap_Ret_inv.
    by eapply Workflow_foldM_ok.
  - intros now [wf| |] es; simpl; [|done|done]. intros Hg Hes.
    apply fmap_no_panic, Workflow_foldM_no_panic; [done|].
    eapply Forall_impl; [done|]. by intros ? [].
  - intros now now' b b' es e Hsim Hp. pose proof (entity_sim_constructor _ _ Hsim).
    destruct b as [wf| |], b' as [wf'| |]; try done.
    eapply (sim_of_strip strip_workflow); [done| |exact Hp].
    by apply Workflow_foldM_sim, strip_workflow_of.
  - intros now [wf| |] ev e; simpl; [|done|done]. intros (wf1 & Hp & ->)%fmap_Ret_inv.
    unfold Workflow_Project in *. simpl in *. bind_inv Hp as wf0 Hp0. simplify_eq.
    destruct (Workflow_redeliver _ _ _ Hp0) as (wf2 & Hp2 & Hs).
    rewrite Hp2. simpl. eexists; split; [done|]. unfold entity_sim, strip_entity. by rewrite Hs.
  - intros now [wf| |] es b'; simpl; [|done|done]. intros Hf Hk (wf' & Hp & ->)%fmap_Ret_inv.
    unfold GetAggregate. simpl. f_equal. by eapply Workflow_foldM_key.
  - intros now key b (wf & Hwf & ->)%fmap_Ret_inv. simpl.
    unfold Workflow_NewProjection in Hwf. case_decide as Hk; simplify_eq/=.
    split; [by split; eexists|]. destruct key as [id ty]. simpl in *. by subst ty.
  - intros now now' key b (wf & Hwf & ->)%fmap_Ret_inv.
    unfold Workflow_NewProjection in *. case_decide; simplify_eq/=. by eexists.
  - by intros [].
Qed.
End instance_laws.

(** ** Well-formed invocations *)

(** What the API guarantees of the payloads: a task run starts under the
    identifier of its aggregate, an invocation carries a well-formed workflow. *)
Record event_sound `{Proto} (ev : Event) : Prop := {
  event_sound_started : ∀ sp a, payload_of ev = Some (TaskStarted (Some sp)) →
    Event_Aggregate ev = Some a → TaskInvocationSpec_TaskId sp = Aggregate_Id a;
  event_sound_created : ∀ spec wf, payload_of ev = Some (InvocationCreated (Some spec)) →
    WorkflowInvocationSpec_Workflow spec = Some wf → workflow_wf wf }.

Section invocation_wf.
Context `{Proto} `{PTypes}.

Lemma WorkflowInvocation_project_wf now wi ev wi' :
  event_sound ev → invocation_wf wi → WorkflowInvocation_project now wi ev = Ret wi' →
  invocation_wf wi'.
Proof.
  intros [Hstart Hcreate] [Hwf [st Hst] Hdyn Hruns]. unfold WorkflowInvocation_project.
  intros Hp. bind_inv Hp as a Ha. destruct (Event_Aggregate ev) as [a'|] eqn:Hagg; simplify_eq/=.
  case_decide as Hta.
  - apply applyTaskEvent_inv in Hp as (a' & st' & t0 & t & ? & _ & ? & Ht0 & Ht & ->).
    simplify_eq.
    assert (TaskInvocation_ID t0 = Aggregate_Id a) as Hid0.
    { destruct Ht0 as [?|[_ Hnew]]; [eauto|]. by apply task_run_new_ok in Hnew as (_ & _ & ->). }
    assert (TaskInvocation_ID t = Aggregate_Id a) as Hid.
    { apply TaskRun_project_inv in Ht as (m & a2 & Hm & _ & _ & _ & _ & _ & ->).
      destruct m as [| | | | | | | | |[sp|]| | | | | | | | | | | | | | | | | | | |]; try done.
      by apply Hstart. }
    split; [done|eauto| |]; simpl; intros st2 id t2 [= <-]; simpl; [eauto|].
    rewrite lookup_insert_Some. intros [[<- <-]|[_ ?]]; [done|eauto].
  - bind_inv Hp as u Hv. bind_inv Hp as m Hm. bind_inv Hp as wi1 Hwi1.
    apply ParseEventData_payload in Hm.
    apply invocation_touch_inv in Hp as (md & st1 & Hmd & Hst1 & ->).
    destruct m; try (by apply unsupported_event_not_ret in Hwi1);
      try apply update_status_inv in Hwi1 as (st2 & Hst2 & ->); simplify_eq/=;
      (split; simpl; [|eauto|intros ? id t [= <-]; simpl|intros ? id t [= <-]; simpl]);
      try (by eauto); try (by rewrite lookup_empty).
    + intros wf Hw. unfold WorkflowInvocation_Workflow in Hw. simpl in Hw.
      destruct Spec as [spec|]; [|done]. by eapply Hcreate.
    + rewrite lookup_insert_Some. intros [[<- <-]|[_ ?]]; [done|eauto].
Qed.

Lemma invocation_foldM_wf now wi es wi' :
  Forall event_sound es → invocation_wf wi →
  foldM (WorkflowInvocation_project now) wi es = Ret wi' → invocation_wf wi'.
Proof.
  intros Hes. rewrite Forall_forall in Hes. apply (foldM_invariant invocation_wf).
  intros w ev w' Hev Hw Hp. eapply WorkflowInvocation_project_wf; eauto.
Qed.

Lemma replay_wf (now : Z) (key : Aggregate)
    (wi wi' : WorkflowInvocation) (es : list Event) :
  WorkflowInvocation_NewProjection now key = Ret wi → Forall event_sound es →
  WorkflowInvocation_Project now (Some (EInvocation wi)) es = Ret wi' →
  invocation_wf wi'.
Proof.
  intros Hnew Hes Hp. assert (invocation_wf wi) as Hwi.
  { unfold WorkflowInvocation_NewProjection in Hnew. case_decide; simplify_eq.
    split; [done|by eexists| |]; simpl; intros ? ? ? [= <-]; simpl; by rewrite lookup_empty. }
  exact (invocation_foldM_wf _ _ _ _ Hes Hwi Hp).
Qed.

(** C18: Replaying sound events gives a well-formed invocation: every task run and
    every dynamic task is stored under the identifier it carries. *)
Theorem WorkflowInvocation_Project_wf (now : Z) (key : Aggregate)
    (wi wi' : WorkflowInvocation) (es : list Event) :
  WorkflowInvocation_NewProjection now key = Ret wi → Forall event_sound es →
  WorkflowInvocation_Project now (Some (EInvocation wi)) es = Ret wi' →
  invocation_wf wi'.
Proof. apply replay_wf. Qed.
End invocation_wf.
