(* ===== verification/Replays.v ===== *)
(** Component [pkg/api/projectors], continued: the projector of invocations as a collection of registers.
    Every event of an invocation assigns values to some of its fields, which depend on the event alone, so
    that of several events the last one that assigns a field decides it.  What follows is that projecting
    the end of a stream a second time changes nothing, which the caches rely on when
    they load an entity from a stream of which some events are still on their way. *)

From stdpp Require Import base gmap strings list.
From S2P Require Import Prelude Data Types Fes Projectors.

(** ** The fields of task runs and invocations *)

Inductive run_field := RExists | RHead | RStatus | RUpdated | ROutput | RError.

Inductive field :=
| FHead | FStatus | FUpdated | FOutput | FError
| FDynamic (id : string)
| FRun (id : string) (f : run_field).

(** The values the fields take; the metadata without what a replay does not determine. *)
Definition run_value (f : run_field) : Type :=
  match f with
  | RExists => bool
  | RHead => option ObjectMetadata * option TaskInvocationSpec
  | RStatus => TaskInvocationStatus_Status
  | RUpdated => option Timestamp
  | ROutput => option TypedValue * option TypedValue
  | RError => option Error
  end.

Definition value (f : field) : Type :=
  match f with
  | FHead => option ObjectMetadata * option WorkflowInvocationSpec
  | FStatus => WorkflowInvocationStatus_Status
  | FUpdated => option Timestamp
  | FOutput => option TypedValue * option TypedValue
  | FError => option Error
  | FDynamic _ => option Task
  | FRun _ f => run_value f
  end.

(** A task run that was not announced yet. *)
Definition unannounced (id : string) : TaskInvocation :=
  MkTaskInvocation (Some (task_metadata id None)) (Some empty_TaskInvocationSpec)
    (Some (empty_TaskInvocationStatus TaskInvocationStatus_UNKNOWN)).

Definition run_look (id : string) (run : option TaskInvocation) (f : run_field) : run_value f :=
  let t := default (unannounced id) run in
  let st := default (empty_TaskInvocationStatus TaskInvocationStatus_UNKNOWN) (TaskInvocation_Status t) in
  match f with
  | RExists => bool_decide (is_Some run)
  | RHead => (strip_md <$> TaskInvocation_Metadata t, TaskInvocation_Spec t)
  | RStatus => TaskInvocationStatus_Status_ st
  | RUpdated => TaskInvocationStatus_UpdatedAt st
  | ROutput => (TaskInvocationStatus_Output st, TaskInvocationStatus_OutputHeaders st)
  | RError => TaskInvocationStatus_Error st
  end.

Definition look (wi : WorkflowInvocation) (f : field) : value f :=
  let st := default (empty_WorkflowInvocationStatus WorkflowInvocationStatus_UNKNOWN) (WorkflowInvocation_Status wi) in
  match f with
  | FHead => (strip_md <$> WorkflowInvocation_Metadata wi, WorkflowInvocation_Spec wi)
  | FStatus => WorkflowInvocationStatus_Status_ st
  | FUpdated => WorkflowInvocationStatus_UpdatedAt st
  | FOutput => (WorkflowInvocationStatus_Output st, WorkflowInvocationStatus_OutputHeaders st)
  | FError => WorkflowInvocationStatus_Error st
  | FDynamic id => WorkflowInvocationStatus_DynamicTasks st !! id
  | FRun id f => run_look id (WorkflowInvocationStatus_Tasks st !! id) f
  end.

(** ** What an event assigns *)

(** The assignments of an event with the payload [m] and the time [ts] to its task run. *)
Definition run_assigned (ts : option Timestamp) (m : message) (f : run_field) : option (run_value f) :=
  match m with
  | TaskStarted spec =>
      match f return option (run_value f) with
      | RExists => Some true
      | RHead => sp ← spec; Some (Some (MkObjectMetadata (TaskInvocationSpec_TaskId sp) "" None 0), spec)
      | RStatus => Some TaskInvocationStatus_IN_PROGRESS
      | RUpdated => Some ts | ROutput => Some (None, None) | RError => Some None
      end
  | TaskSucceeded result =>
      match f return option (run_value f) with
      | RExists => Some true | RStatus => Some TaskInvocationStatus_SUCCEEDED | RUpdated => Some ts
      | ROutput => r ← result; Some (TaskInvocationStatus_Output r, TaskInvocationStatus_OutputHeaders r)
      | _ => None
      end
  | TaskFailed err =>
      match f return option (run_value f) with
      | RExists => Some true | RStatus => Some TaskInvocationStatus_FAILED | RUpdated => Some ts
      | RError => Some err
      | _ => None
      end
  | TaskSkipped =>
      match f return option (run_value f) with
      | RExists => Some true | RStatus => Some TaskInvocationStatus_SKIPPED | RUpdated => Some ts
      | _ => None
      end
  | _ => None
  end.

(** The same for an event of the invocation [id] itself. *)
Definition invocation_assigned (id : string) (ts : option Timestamp) (m : message) (f : field) : option (value f) :=
  match m with
  | InvocationCreated spec =>
      match f return option (value f) with
      | FHead => Some (Some (MkObjectMetadata id "" None 0), spec)
      | FStatus => Some WorkflowInvocationStatus_IN_PROGRESS
      | FUpdated => Some ts | FOutput => Some (None, None) | FError => Some None
      | FDynamic _ => Some None | FRun run f => Some (run_look run None f)
      end
  | InvocationCanceled err =>
      match f return option (value f) with
      | FStatus => Some WorkflowInvocationStatus_ABORTED | FError => Some err | FUpdated => Some ts | _ => None
      end
  | InvocationCompleted output headers =>
      match f return option (value f) with
      | FStatus => Some WorkflowInvocationStatus_SUCCEEDED | FOutput => Some (output, headers)
      | FUpdated => Some ts | _ => None
      end
  | InvocationTaskAdded task =>
      match f return option (value f) with
      | FDynamic id => if decide (id = Task_ID (Some task)) then Some (Some task) else None
      | FUpdated => Some ts | _ => None
      end
  | InvocationFailed err =>
      match f return option (value f) with
      | FStatus => Some WorkflowInvocationStatus_FAILED | FError => Some err | FUpdated => Some ts | _ => None
      end
  | _ => None
  end.

Section replays.
Context `{Proto} `{PTypes}.
Implicit Types (t : TaskInvocation) (wi : WorkflowInvocation) (ev : Event) (es : list Event).

Definition assigned ev (f : field) : option (value f) :=
  m ← payload_of ev; a ← Event_Aggregate ev;
  if decide (Aggregate_Type a = TypeTaskRun) then
    match f return option (value f) with
    | FRun id f => if decide (id = Aggregate_Id a) then run_assigned (Event_Timestamp ev) m f else None
    | _ => None
    end
  else invocation_assigned (Aggregate_Id a) (Event_Timestamp ev) m f.

(** The last of several assignments. *)
Definition last_assigned es (f : field) : option (value f) := last (omap (λ ev, assigned ev f) es).

(** ** The projector assigns *)

Lemma TaskRun_project_assigns id t ev t' m f : task_run_ok t → TaskRun_project t ev = Ret t' →
  payload_of ev = Some m →
  run_look id (Some t') f = default (run_look id (Some t) f) (run_assigned (Event_Timestamp ev) m f).
Proof.
  intros [_ [st Hst]]. unfold TaskRun_project. intros Hp Hm. bind_inv Hp as u Hv. bind_inv Hp as m' Hm'. bind_inv Hp as t1 Ht1.
  apply ParseEventData_payload in Hm'. rewrite Hm in Hm'. injection Hm' as <-. unfold task_run_touch in Hp.
  destruct t as [md sp st']; cbn in Hst; subst st'.
  destruct m; try (by apply unsupported_event_not_ret in Ht1); res_inv; by destruct f.
Qed.

Lemma run_new_look now id t f : TaskRun_NewProjection now (NewTaskRunAggregate id) = Ret t →
  run_look id None f = run_look id (Some t) f ∨ f = RExists.
Proof. intros [= <-]. destruct f; auto. Qed.

Lemma run_assigned_exists ts m : is_task_payload m = true → run_assigned ts m RExists = Some true.
Proof. by destruct m. Qed.

Lemma applyTaskEvent_assigns now wi ev wi' f : invocation_ok wi → applyTaskEvent now wi ev = Ret wi' →
  look wi' f = default (look wi f) (assigned ev f).
Proof.
  intros [_ (st & Hst & Htasks)] (a & st' & t0 & t & Ha & _ & Hst' & Ht0 & Ht & ->)%applyTaskEvent_inv.
  rewrite Hst in Hst'. injection Hst' as <-.
  destruct (TaskRun_project_inv _ _ _ Ht) as (m & a' & Hm & Htm & Ha' & Hty & _). rewrite Ha in Ha'. injection Ha' as <-.
  unfold assigned, look. rewrite Hm, Ha, Hst. cbn. rewrite decide_True by done. destruct f as [| | | | | |id f]; try done.
  destruct (decide (id = Aggregate_Id a)) as [->|Hne]; [|by rewrite lookup_insert_ne].
  rewrite lookup_insert_eq. destruct Ht0 as [Ht0|[Hn Ht0]].
  - rewrite Ht0. eapply TaskRun_project_assigns; [by eapply Htasks|exact Ht|exact Hm].
  - rewrite Hn, (TaskRun_project_assigns _ t0 ev t m); [|by eapply task_run_new_ok|done..].
    assert (a = NewTaskRunAggregate (Aggregate_Id a)) as Heq.
    { destruct a as [i ty]. cbn in Hty. by subst ty. }
    rewrite Heq in Ht0. destruct (run_new_look _ _ _ f Ht0) as [->| ->]; [done|]. by rewrite run_assigned_exists.
Qed.

(** An event assigns to an invocation what [assigned] says and nothing else. *)
Lemma WorkflowInvocation_project_assigns now wi ev wi' f : invocation_ok wi →
  WorkflowInvocation_project now wi ev = Ret wi' → look wi' f = default (look wi f) (assigned ev f).
Proof.
  intros Hok. unfold WorkflowInvocation_project. intros Hp. bind_inv Hp as a Ha.
  destruct (Event_Aggregate ev) as [a'|] eqn:Hagg; simplify_eq/=. case_decide as Hta; [by eapply applyTaskEvent_assigns|].
  bind_inv Hp as u Hv. bind_inv Hp as m Hm. bind_inv Hp as wi1 Hwi1. apply ParseEventData_payload in Hm.
  unfold assigned. rewrite Hm, Hagg. cbn. rewrite decide_False by done.
  destruct Hok as [_ (st & Hst & _)]. destruct wi as [md sp st']; cbn in Hst; subst st'.
  unfold invocation_touch in Hp.
  destruct m; try (by apply unsupported_event_not_ret in Hwi1); unfold update_status in Hwi1; res_inv;
    destruct f as [| | | | |id|id f]; try done; cbn.
  case_decide as Hid; [subst id; by rewrite lookup_insert_eq|by rewrite lookup_insert_ne].
Qed.

Lemma foldl_last {A B} (g : A → option B) (x : B) (l : list A) :
  foldl (λ v a, default v (g a)) x l = default x (last (omap g l)).
Proof.
  revert x. induction l as [|a l IH]; intros x; [done|]. cbn. rewrite IH. destruct (g a) as [b|]; cbn; [|done].
  rewrite last_cons. by destruct (last (omap g l)).
Qed.

Lemma invocation_foldM_assigns now es wi wi' f : invocation_ok wi → foldM (WorkflowInvocation_project now) wi es = Ret wi' →
  look wi' f = default (look wi f) (last_assigned es f).
Proof.
  unfold last_assigned. rewrite <- foldl_last. revert wi. induction es as [|ev es IH]; intros wi Hok Hp; cbn in *; [by simplify_eq|].
  bind_inv Hp as wi1 H1. rewrite (IH wi1), (WorkflowInvocation_project_assigns _ _ _ _ f Hok H1); [done| |done].
  by apply WorkflowInvocation_project_inv in H1 as (_ & _ & _ & ?); auto.
Qed.

(** ** The fields determine an invocation *)

Lemma run_ext id t t' : task_run_ok t → task_run_ok t' →
  (∀ f, run_look id (Some t) f = run_look id (Some t') f) → strip_run t = strip_run t'.
Proof.
  destruct t as [md sp st], t' as [md' sp' st']. intros [_ [s Hs]] [_ [s' Hs']] Hf. cbn in Hs, Hs'. subst st st'.
  pose proof (Hf RHead) as H1. pose proof (Hf RStatus) as H2. pose proof (Hf RUpdated) as H3.
  pose proof (Hf ROutput) as H4. pose proof (Hf RError) as H5. clear Hf.
  destruct s, s'. cbn in *. unfold strip_run. cbn. congruence.
Qed.

Lemma look_ext wi wi' : invocation_ok wi → invocation_ok wi' → (∀ f, look wi f = look wi' f) →
  strip_invocation wi = strip_invocation wi'.
Proof.
  destruct wi as [md sp st], wi' as [md' sp' st']. intros [_ (s & Hs & Hok)] [_ (s' & Hs' & Hok')] Hf. cbn in Hs, Hs'. subst st st'.
  pose proof (Hf FHead) as H1. pose proof (Hf FStatus) as H2. pose proof (Hf FUpdated) as H3.
  pose proof (Hf FOutput) as H4. pose proof (Hf FError) as H5.
  assert (WorkflowInvocationStatus_DynamicTasks s = WorkflowInvocationStatus_DynamicTasks s') as H6
    by (apply map_eq; intros id; exact (Hf (FDynamic id))).
  assert (strip_run <$> WorkflowInvocationStatus_Tasks s = strip_run <$> WorkflowInvocationStatus_Tasks s') as H7.
  { apply map_eq. intros id. rewrite !lookup_fmap.
    assert (∀ f, run_look id (WorkflowInvocationStatus_Tasks s !! id) f = run_look id (WorkflowInvocationStatus_Tasks s' !! id) f) as Hr
      by (intros f; exact (Hf (FRun id f))).
    destruct (WorkflowInvocationStatus_Tasks s !! id) as [t|] eqn:Ht, (WorkflowInvocationStatus_Tasks s' !! id) as [t'|] eqn:Ht';
      [|specialize (Hr RExists); by cbn in Hr..|done].
    cbn. f_equal. apply (run_ext id); [by eapply Hok|by eapply Hok'|done]. }
  clear Hf. destruct s, s'. unfold strip_invocation, strip_status, WIStatus_with_Tasks. cbn in *. simplify_eq. congruence.
Qed.

(** ** Projecting again *)

Lemma TaskRun_project_again t t2 ev t' : task_run_ok t2 → TaskRun_project t ev = Ret t' →
  ∃ t2', TaskRun_project t2 ev = Ret t2'.
Proof.
  intros [[md Hmd] [st Hst]]. unfold TaskRun_project. intros Hp. bind_inv Hp as u Hv. bind_inv Hp as m Hm. bind_inv Hp as t1 Ht1.
  rewrite Hv, Hm, !bind_Ret_l. destruct t2 as [md2 sp2 st2]; cbn in Hmd, Hst; subst md2 st2.
  destruct m; try (by apply unsupported_event_not_ret in Ht1); res_inv; eauto.
Qed.

(** Whether an event can be projected depends on the entity only through its key. *)
Lemma WorkflowInvocation_project_again now now' wi wi2 ev wi' : invocation_ok wi2 →
  GetAggregate (EInvocation wi2) = GetAggregate (EInvocation wi) →
  WorkflowInvocation_project now wi ev = Ret wi' → ∃ wi2', WorkflowInvocation_project now' wi2 ev = Ret wi2'.
Proof.
  intros [[md Hmd] (st & Hst & Hok)] Hkey. unfold WorkflowInvocation_project. intros Hp. bind_inv Hp as a Ha.
  rewrite Ha, bind_Ret_l. case_decide as Hta.
  - apply applyTaskEvent_inv in Hp as (a' & st' & t0 & t & Ha' & Hpar & _ & _ & Ht & _).
    unfold applyTaskEvent. rewrite Hpar, Ha', Hkey, Hst. cbn [deref]. rewrite bind_Ret_l, decide_False by auto. rewrite !bind_Ret_l.
    rewrite Ha' in Ha. injection Ha as <-.
    assert (∃ t2, match WorkflowInvocationStatus_Tasks st !! Aggregate_Id a' with
                  | Some t => Ret t | None => TaskRun_NewProjection now' a' end = Ret t2 ∧ task_run_ok t2) as (t2 & -> & Ht2).
    { destruct (WorkflowInvocationStatus_Tasks st !! Aggregate_Id a') as [t2|] eqn:Ht2; [eauto|].
      unfold TaskRun_NewProjection. rewrite decide_False by auto. eexists. split; [done|]. by split; eexists. }
    destruct (TaskRun_project_again t0 t2 ev t Ht2 Ht) as (t2' & Hp2).
    rewrite bind_Ret_l, Hp2, bind_Ret_l. eauto.
  - bind_inv Hp as u Hv. bind_inv Hp as m Hm. bind_inv Hp as wi1 Hwi1. rewrite Hv, Hm, !bind_Ret_l.
    destruct wi2 as [md2 sp2 st2]; cbn in Hmd, Hst; subst md2 st2.
    destruct m; try (by apply unsupported_event_not_ret in Hwi1); unfold update_status in *; cbn; eauto.
Qed.

Lemma invocation_foldM_again now now' es wi wi2 wi' : invocation_ok wi2 → Forall event_fit es →
  Forall (λ ev, event_key ev = Some (GetAggregate (EInvocation wi))) es →
  GetAggregate (EInvocation wi2) = GetAggregate (EInvocation wi) →
  foldM (WorkflowInvocation_project now) wi es = Ret wi' → ∃ wi2', foldM (WorkflowInvocation_project now') wi2 es = Ret wi2'.
Proof.
  intros Hok2 Hfit. revert wi wi2 Hok2. induction Hfit as [|ev es Hf Hfs IH]; intros wi wi2 Hok2 Hkeys Hkey Hp; cbn in *; [eauto|].
  apply Forall_cons in Hkeys as [Hk Hks]. bind_inv Hp as wi1 H1.
  destruct (WorkflowInvocation_project_again _ now' _ wi2 _ _ Hok2 Hkey H1) as (wi3 & H3). rewrite H3, bind_Ret_l.
  pose proof (WorkflowInvocation_project_key _ _ _ _ Hf Hk H1) as Hk1.
  pose proof (WorkflowInvocation_project_key _ _ _ _ Hf (eq_trans Hk (f_equal Some (eq_sym Hkey))) H3) as Hk3.
  apply (IH wi1); [|by rewrite Hk1|congruence|done].
  by apply WorkflowInvocation_project_inv in H3 as (_ & _ & _ & ?); auto.
Qed.

Lemma invocation_replayed now es wi wi' : invocation_ok wi → Forall event_fit es →
  Forall (λ ev, event_key ev = Some (GetAggregate (EInvocation wi))) es →
  foldM (WorkflowInvocation_project now) wi es = Ret wi' →
  ∃ wi2, foldM (WorkflowInvocation_project now) wi' es = Ret wi2 ∧ strip_invocation wi2 = strip_invocation wi'.
Proof.
  intros Hok Hfit Hkeys Hp. pose proof (invocation_foldM_ok _ _ _ _ Hok Hp) as Hok'.
  pose proof (invocation_foldM_key _ _ _ _ Hfit Hkeys Hp) as Hkey.
  destruct (invocation_foldM_again now now es wi wi' wi' Hok' Hfit Hkeys Hkey Hp) as (wi2 & H2).
  exists wi2. split; [done|]. apply look_ext; [by eapply invocation_foldM_ok|done|]. intros f.
  rewrite (invocation_foldM_assigns _ _ _ _ f Hok' H2), (invocation_foldM_assigns _ _ _ _ f Hok Hp).
  by destruct (last_assigned es f).
Qed.

(** C17: A replay lets the last writer of a field win.  Whatever invocation a stream of events is projected
    onto, each of its fields holds afterwards what the last event that assigns the field assigned to it, and what it
    held before if there is none; and projecting the stream again succeeds and gives the same invocation,
    but for generations and times of creation. *)
Theorem Project_last_writer_wins (now : Z) (wi wi' : WorkflowInvocation) (es : list Event) :
  invocation_ok wi → Forall event_fit es → Forall (λ ev, event_key ev = Some (GetAggregate (EInvocation wi))) es →
  WorkflowInvocation_Project now (Some (EInvocation wi)) es = Ret wi' →
  (∀ f, look wi' f = default (look wi f) (last_assigned es f)) ∧
  ∃ wi2, WorkflowInvocation_Project now (Some (EInvocation wi')) es = Ret wi2 ∧ strip_invocation wi2 = strip_invocation wi'.
Proof.
  intros Hok Hfit Hkeys Hp. split; [by intros f; eapply invocation_foldM_assigns|by eapply invocation_replayed].
Qed.
End replays.

#[export] Instance InvocationProjector_replays `{Proto} `{PTypes} :
  ProjectorReplays InvocationProjector good_invocation event_fit entity_sim.
Proof.
  split. intros now [|wi|] es e; [done| |done]. intros Hg Hfit Hkeys (wi' & Hp & ->)%fmap_Ret_inv.
  destruct (invocation_replayed now es wi wi' Hg Hfit Hkeys Hp) as (wi2 & H2 & Hs).
  exists (EInvocation wi2). split; [|unfold entity_sim, strip_entity; by rewrite Hs].
  cbn [Project InvocationProjector]. unfold WorkflowInvocation_Project. by rewrite bind_Ret_l, H2.
Qed.
