(* ===== verification/Pubsub.v ===== *)
(** Components [pkg/util/labels] and [pkg/util/pubsub]: label matchers, and the
    publisher with its bounded channels.  A subscription is shared between the
    publisher and its receiver, so subscriptions live in a heap and the publisher
    holds a list of pointers into it. *)

From stdpp Require Import base gmap strings list sorting.
From S2P Require Import Prelude.

(** ** pkg/util/labels *)

(** [pkg/util/labels/labels.go:16-16] Set *)
Definition Labels := gmap string string.

(** [pkg/util/labels/labels.go:21-27] Set.Get *)
Definition Labels_Get (l : Labels) (label : string) : option string := l !! label.

(** [l] is the pointer receiver: [nil] panics although the comment says a set is
    created. *)
(** [pkg/util/labels/labels.go:33-38] Set.Set *)
Definition Labels_Set {E} (l : option Labels) (label value : string) : res E Labels :=
  match l with
  | None => Panic "nil pointer dereference"
  | Some l => Ret (<[label := value]> l)
  end.

(** [pkg/util/labels/labels.go:42-100] InMatcher, AndMatcher, OrMatcher (part) *)
Inductive Matcher :=
| InMatcher (Key : string) (Values : list string)
| AndMatcher (Matchers : list Matcher)
| OrMatcher (matchers : list Matcher).

(** [pkg/util/labels/labels.go:57-109] InMatcher.Matches, AndMatcher.Matches, OrMatcher.Matches (part) *)
Fixpoint Matches (s : Matcher) (labels : Labels) : bool :=
  match s with
  | InMatcher key values =>
      match Labels_Get labels key with
      | None => false
      | Some val => existsb (λ v, bool_decide (val = v)) values
      end
  | AndMatcher ms => forallb (λ req, Matches req labels) ms
  | OrMatcher ms => existsb (λ req, Matches req labels) ms
  end.

(** ** pkg/util/pubsub *)

(** A Go channel with a buffer. *)
Record Channel (M : Type) := MkChannel { ch_cap : nat; ch_buf : list M; ch_closed : bool }.
Arguments MkChannel {M}. Arguments ch_cap {M}. Arguments ch_buf {M}. Arguments ch_closed {M}.

(** [select { case ch <- msg: default: }]: sending on a closed channel panics. *)
Definition try_send {E M} (ch : Channel M) (msg : M) : res E (Channel M) :=
  if ch_closed ch then Panic "send on closed channel"
  else if decide (length (ch_buf ch) < ch_cap ch)
       then Ret (MkChannel (ch_cap ch) (ch_buf ch ++ [msg]) false)
       else Ret ch.

Definition close {E M} (ch : Channel M) : res E (Channel M) :=
  if ch_closed ch then Panic "close of closed channel"
  else Ret (MkChannel (ch_cap ch) (ch_buf ch) true).

(** The receiver takes the oldest message of the buffer. *)
Definition recv {M} (ch : Channel M) : option (M * Channel M) :=
  match ch_buf ch with
  | [] => None
  | m :: buf => Some (m, MkChannel (ch_cap ch) buf (ch_closed ch))
  end.

(** [pkg/util/pubsub/pubsub.go:12-14] defaultSubscriptionBuffer *)
Definition defaultSubscriptionBuffer : Z := 10.

(** [pkg/util/pubsub/pubsub.go:29-37] SubscriptionOptions *)
Record SubscriptionOptions := MkSubscriptionOptions {
  Buffer : Z; LabelMatcher : option Matcher }.

(** [pkg/util/pubsub/pubsub.go:39-42] Subscription *)
Record Subscription (M : Type) := MkSubscription { sub_options : SubscriptionOptions; Ch : Channel M }.
Arguments MkSubscription {M}. Arguments sub_options {M}. Arguments Ch {M}.

Definition Subscription_with_Ch {M} (s : Subscription M) (ch : Channel M) : Subscription M :=
  MkSubscription (sub_options s) ch.

(** The publisher and the subscriptions its pointers refer to. *)
(** [pkg/util/pubsub/pubsub.go:86-89] DefaultPublisher *)
Record DefaultPublisher (M : Type) := MkPublisher {
  subs : list nat; heap : gmap nat (Subscription M) }.
Arguments MkPublisher {M}. Arguments subs {M}. Arguments heap {M}.

(** [pkg/util/pubsub/pubsub.go:80-84] NewPublisher *)
Definition NewPublisher (M : Type) : DefaultPublisher M := MkPublisher [] ∅.

Section pubsub.
Context {E M : Type} (labels_of : M → Labels).
Implicit Types (pu : DefaultPublisher M).

(** [pkg/util/pubsub/pubsub.go:105-124] DefaultPublisher.Subscribe *)
Definition Subscribe pu (opts : list SubscriptionOptions) : nat * DefaultPublisher M :=
  let subOpts := match opts with o :: _ => o | [] => MkSubscriptionOptions 0 None end in
  let subOpts := if decide (Buffer subOpts ≤ 0)%Z
                 then MkSubscriptionOptions defaultSubscriptionBuffer (LabelMatcher subOpts)
                 else subOpts in
  let sub := fresh (dom (heap pu)) in
  (sub, MkPublisher (subs pu ++ [sub])
          (<[sub := MkSubscription subOpts (MkChannel (Z.to_nat (Buffer subOpts)) [] false)]> (heap pu))).

(** [pkg/util/pubsub/pubsub.go:91-103] DefaultPublisher.Unsubscribe *)
Definition Unsubscribe pu (sub : nat) : res E (DefaultPublisher M) :=
  s ← deref (heap pu !! sub);
  ch ← close (Ch s);
  Ret (MkPublisher (filter (λ s, sub ≠ s) (subs pu))
         (<[sub := Subscription_with_Ch s ch]> (heap pu))).

(** The body of the loop of [Publish]. *)
Definition publish_to (msg : M) (h : gmap nat (Subscription M)) (sub : nat) :
    res E (gmap nat (Subscription M)) :=
  s ← deref (h !! sub);
  if (match LabelMatcher (sub_options s) with
      | Some m => negb (Matches m (labels_of msg)) | None => false end)
  then Ret h
  else ch ← try_send (Ch s) msg; Ret (<[sub := Subscription_with_Ch s ch]> h).

(** [pkg/util/pubsub/pubsub.go:126-142] DefaultPublisher.Publish *)
Definition Publish pu (msg : M) : res E (DefaultPublisher M) :=
  h ← foldM (publish_to msg) (heap pu) (subs pu);
  Ret (MkPublisher (subs pu) h).

(** [range pu.subs] evaluates the slice once; [Unsubscribe] replaces it. *)
(** [pkg/util/pubsub/pubsub.go:144-150] DefaultPublisher.Close *)
Definition Close pu : res E (DefaultPublisher M) := foldM Unsubscribe pu (subs pu).

(** ** Correctness *)

(** The publisher's pointers are distinct and refer to open channels; a channel
    never holds more messages than its buffer. *)
Record publisher_ok pu : Prop := {
  publisher_ok_nodup : NoDup (subs pu);
  publisher_ok_open : ∀ sub, sub ∈ subs pu →
    ∃ s, heap pu !! sub = Some s ∧ ch_closed (Ch s) = false;
  publisher_ok_bound : ∀ sub s, heap pu !! sub = Some s →
    length (ch_buf (Ch s)) ≤ ch_cap (Ch s) }.

(** What [Publish] does to one subscription of the publisher. *)
Definition selects (opts : SubscriptionOptions) (msg : M) : bool :=
  match LabelMatcher opts with
  | Some m => Matches m (labels_of msg) | None => true end.
Definition accepts (s : Subscription M) (msg : M) : bool := selects (sub_options s) msg.

Definition deliver (s : Subscription M) (msg : M) : Subscription M :=
  if accepts s msg && bool_decide (length (ch_buf (Ch s)) < ch_cap (Ch s))
  then Subscription_with_Ch s (MkChannel (ch_cap (Ch s)) (ch_buf (Ch s) ++ [msg]) false)
  else s.

Lemma publish_to_deliver msg h sub s :
  h !! sub = Some s → ch_closed (Ch s) = false →
  publish_to msg h sub = Ret (<[sub := deliver s msg]> h).
Proof.
  intros Hs Ho. unfold publish_to, deliver, accepts, selects. rewrite Hs. simpl.
  destruct s as [[b m] [c buf cl]]; simpl in *; subst cl.
  destruct m as [m|]; simpl; [destruct (Matches m (labels_of msg)); simpl|].
  - unfold try_send. simpl. case_decide; simpl.
    + by rewrite bool_decide_eq_true_2.
    + rewrite bool_decide_eq_false_2 by done. reflexivity.
  - by rewrite insert_id.
  - unfold try_send. simpl. case_decide; simpl.
    + by rewrite bool_decide_eq_true_2.
    + rewrite bool_decide_eq_false_2 by done. reflexivity.
Qed.

Lemma Publish_loop msg l h :
  NoDup l → (∀ sub, sub ∈ l → ∃ s, h !! sub = Some s ∧ ch_closed (Ch s) = false) →
  ∃ h', foldM (publish_to msg) h l = Ret h' ∧
    ∀ sub, h' !! sub = if decide (sub ∈ l) then (λ s, deliver s msg) <$> h !! sub else h !! sub.
Proof.
  revert h. induction l as [|k l IH]; intros h Hnd Hopen.
  { exists h. split; [done|]. intros sub. by rewrite decide_False by set_solver. }
  apply NoDup_cons in Hnd as [Hk Hnd].
  destruct (Hopen k) as (s & Hs & Ho); [set_solver|].
  destruct (IH (<[k := deliver s msg]> h)) as (h' & Hf & Hh'); [done| |].
  { intros sub Hsub. rewrite lookup_insert_ne by set_solver. apply Hopen. set_solver. }
  exists h'. simpl. rewrite (publish_to_deliver _ _ _ _ Hs Ho). split; [done|].
  intros sub. rewrite Hh'. destruct (decide (sub ∈ l)) as [Hl|Hl].
  - rewrite decide_True by set_solver. by rewrite lookup_insert_ne by set_solver.
  - destruct (decide (sub = k)) as [->|Hne].
    + rewrite decide_True by set_solver. by rewrite lookup_insert_eq, Hs.
    + rewrite decide_False by set_solver. by rewrite lookup_insert_ne.
Qed.

Lemma Publish_spec pu msg :
  publisher_ok pu →
  ∃ pu', Publish pu msg = Ret pu' ∧ subs pu' = subs pu ∧
    ∀ sub, heap pu' !! sub =
      if decide (sub ∈ subs pu) then (λ s, deliver s msg) <$> heap pu !! sub else heap pu !! sub.
Proof.
  intros [Hnd Hopen _]. destruct (Publish_loop msg _ _ Hnd Hopen) as (h' & Hf & Hh').
  unfold Publish. rewrite Hf. simpl. eexists; split; [done|]. done.
Qed.

Lemma deliver_closed s msg : ch_closed (Ch s) = false → ch_closed (Ch (deliver s msg)) = false.
Proof. unfold deliver. by case_match. Qed.

Lemma deliver_bound s msg :
  length (ch_buf (Ch s)) ≤ ch_cap (Ch s) →
  length (ch_buf (Ch (deliver s msg))) ≤ ch_cap (Ch (deliver s msg)).
Proof.
  unfold deliver. case_match eqn:Hb; [|done].
  apply andb_true_iff in Hb as [_ Hb%bool_decide_eq_true]. simpl. rewrite length_app. simpl. lia.
Qed.

Lemma Publish_ok pu msg pu' : publisher_ok pu → Publish pu msg = Ret pu' → publisher_ok pu'.
Proof.
  intros Hok Hp. destruct (Publish_spec pu msg Hok) as (pu2 & Hp2 & Hsubs & Hh).
  rewrite Hp in Hp2. simplify_eq. destruct Hok as [Hnd Hopen Hb]. split.
  - by rewrite Hsubs.
  - intros sub Hs. rewrite Hsubs in Hs. destruct (Hopen _ Hs) as (s & Hl & Ho).
    exists (deliver s msg). rewrite Hh, decide_True, Hl by done. split; [done|].
    by apply deliver_closed.
  - intros sub s'. rewrite Hh. case_decide; [|eauto].
    destruct (heap pu !! sub) as [s|] eqn:Hl; simpl; [|done]. intros [= <-].
    apply deliver_bound. eauto.
Qed.

Lemma NewPublisher_ok : publisher_ok (NewPublisher M).
Proof. split; simpl; [constructor|set_solver|]. intros ? ?. by rewrite lookup_empty. Qed.

Lemma Subscribe_ok pu opts sub pu' :
  publisher_ok pu → Subscribe pu opts = (sub, pu') → (∀ k, k ∈ subs pu → k ∈ dom (heap pu)) →
  publisher_ok pu' ∧ sub ∉ subs pu ∧ subs pu' = subs pu ++ [sub].
Proof.
  intros [Hnd Hopen Hb] [= <- <-] Hdom. pose proof (is_fresh (dom (heap pu))) as Hf.
  set (k := fresh (dom (heap pu))) in *.
  assert (k ∉ subs pu) as Hk by (intros Hin; by apply Hf, Hdom).
  split_and!; [|done|done]. split; simpl.
  - apply NoDup_app. split_and!; [done|set_solver|apply NoDup_singleton].
  - intros s [Hs|Hs]%elem_of_app.
    + rewrite lookup_insert_ne by set_solver. eauto.
    + apply list_elem_of_singleton in Hs as ->. rewrite lookup_insert_eq. eauto.
  - intros s s'. rewrite lookup_insert_Some. intros [[_ <-]|[_ ?]]; [|eauto].
    simpl. apply Nat.le_0_l.
Qed.

Lemma Unsubscribe_spec pu sub :
  publisher_ok pu → sub ∈ subs pu →
  ∃ pu', Unsubscribe pu sub = Ret pu' ∧ publisher_ok pu' ∧
    subs pu' = filter (λ s, sub ≠ s) (subs pu) ∧
    ∀ k, k ≠ sub → heap pu' !! k = heap pu !! k.
Proof.
  intros [Hnd Hopen Hb] Hin. destruct (Hopen _ Hin) as (s & Hs & Ho).
  unfold Unsubscribe, close. rewrite Hs. simpl. rewrite Ho. simpl.
  eexists; split; [done|]. split_and!; [|done|intros; by apply lookup_insert_ne].
  split; simpl.
  - by apply NoDup_filter.
  - intros k [Hne Hk]%list_elem_of_filter. rewrite lookup_insert_ne by done. eauto.
  - intros k s'. rewrite lookup_insert_Some. intros [[_ <-]|[_ ?]]; [simpl; eauto|eauto].
Qed.

Lemma publish_dom pu msg pu' :
  publisher_ok pu → Publish pu msg = Ret pu' → dom (heap pu') = dom (heap pu).
Proof.
  intros Hok Hp. destruct (Publish_spec pu msg Hok) as (pu2 & Hp2 & _ & Hh).
  rewrite Hp in Hp2. simplify_eq. apply set_eq. intros k. rewrite !elem_of_dom, Hh.
  case_decide; [|done]. by rewrite fmap_is_Some.
Qed.
End pubsub.

Arguments Unsubscribe {E M}. Arguments Close {E M}.

(** ** Properties *)

(** Publishing never fails and reaches every subscriber once: a subscription
    whose matcher selects the message and whose buffer has space gets it at the
    end of its buffer; every other subscription, of this publisher or not, is
    untouched. *)
Theorem Publish_delivers {E M} (labels_of : M → Labels) (pu : DefaultPublisher M) (msg : M) :
  publisher_ok pu →
  ∃ pu', Publish (E := E) labels_of pu msg = Ret pu' ∧ publisher_ok pu' ∧ subs pu' = subs pu ∧
    ∀ sub s, heap pu !! sub = Some s →
      ∃ s', heap pu' !! sub = Some s' ∧ sub_options s' = sub_options s ∧
        ch_buf (Ch s') = ch_buf (Ch s) ++
          (if bool_decide (sub ∈ subs pu) && accepts labels_of s msg &&
              bool_decide (length (ch_buf (Ch s)) < ch_cap (Ch s)) then [msg] else []).
Proof.
  intros Hok. destruct (Publish_spec (E := E) labels_of pu msg Hok) as (pu' & Hp & Hs & Hh).
  exists pu'. split_and!; [done|by eapply Publish_ok|done|].
  intros sub s Hl. rewrite Hh, Hl. case_decide as Hin; simpl.
  - rewrite bool_decide_eq_true_2 by done. eexists; split; [done|]. unfold deliver. simpl.
    case_match; simpl; by rewrite ?app_nil_r.
  - rewrite bool_decide_eq_false_2 by done. simpl. exists s. by rewrite app_nil_r.
Qed.

Lemma foldM_Publish_buf {E M} (labels_of : M → Labels) (msgs : list M) (pu : DefaultPublisher M) sub s :
  publisher_ok pu → sub ∈ subs pu → heap pu !! sub = Some s →
  length (ch_buf (Ch s)) + length (filter (λ m, accepts labels_of s m = true) msgs) ≤ ch_cap (Ch s) →
  ∃ pu' s', foldM (Publish (E := E) labels_of) pu msgs = Ret pu' ∧ heap pu' !! sub = Some s' ∧
    ch_buf (Ch s') = ch_buf (Ch s) ++ filter (λ m, accepts labels_of s m = true) msgs.
Proof.
  revert pu s. induction msgs as [|m msgs IH]; intros pu s Hok Hin Hl Hlen; simpl.
  { exists pu, s. by rewrite app_nil_r. }
  destruct (Publish_spec (E := E) labels_of pu m Hok) as (pu1 & Hp & Hs & Hh).
  assert (heap pu1 !! sub = Some (deliver labels_of s m)) as Hl1
    by (by rewrite Hh, decide_True, Hl).
  assert (∀ m', accepts labels_of (deliver labels_of s m) m' = accepts labels_of s m') as Hacc
    by (intros; unfold deliver; by case_match).
  assert (filter (λ m0, accepts labels_of (deliver labels_of s m) m0 = true) msgs =
          filter (λ m0, accepts labels_of s m0 = true) msgs) as Hfilter.
  { apply list_filter_iff. intros x. by rewrite Hacc. }
  rewrite filter_cons in *.
  assert (ch_buf (Ch (deliver labels_of s m)) =
          ch_buf (Ch s) ++ (if accepts labels_of s m then [m] else []) ∧
          ch_cap (Ch (deliver labels_of s m)) = ch_cap (Ch s)) as [Hbuf Hcap].
  { unfold deliver. destruct (accepts labels_of s m); simpl in *; [|by rewrite app_nil_r].
    rewrite bool_decide_eq_true_2 by lia. done. }
  destruct (IH pu1 (deliver labels_of s m)) as (pu' & s' & Hf & Hl' & Hb').
  - by eapply Publish_ok.
  - by rewrite Hs.
  - done.
  - rewrite Hfilter, Hbuf, Hcap, length_app.
    destruct (accepts labels_of s m); simpl in *; lia.
  - exists pu', s'. rewrite Hp. split_and!; [done|done|].
    rewrite Hb', Hbuf, Hfilter, <- app_assoc.
    destruct (accepts labels_of s m); simpl; [|done]. done.
Qed.

(** As long as the receiver leaves room, it loses nothing: its buffer holds
    exactly the messages its matcher selects, in the order they were published. *)
Theorem Publish_lossless {E M} (labels_of : M → Labels) (pu : DefaultPublisher M)
    (opts : SubscriptionOptions) (msgs : list M) (sub : nat) (pu1 : DefaultPublisher M) :
  publisher_ok pu → (∀ k, k ∈ subs pu → k ∈ dom (heap pu)) →
  Subscribe pu [opts] = (sub, pu1) → (0 < Buffer opts)%Z →
  (Z.of_nat (length msgs) ≤ Buffer opts)%Z →
  ∃ pu' s', foldM (Publish (E := E) labels_of) pu1 msgs = Ret pu' ∧ heap pu' !! sub = Some s' ∧
    ch_buf (Ch s') = filter (λ m, selects labels_of opts m = true) msgs.
Proof.
  intros Hok Hdom Hsub Hpos Hlen.
  pose proof (Subscribe_ok _ _ _ _ Hok Hsub Hdom) as (Hok1 & _ & Hs1).
  injection Hsub as <- <-. rewrite decide_False in * by lia. simpl in *.
  set (s0 := MkSubscription opts (MkChannel (Z.to_nat (Buffer opts)) ([] : list M) false)).
  destruct (foldM_Publish_buf (E := E) labels_of msgs _ (fresh (dom (heap pu))) s0 Hok1)
    as (pu' & s' & Hf & Hl & Hb); [simpl; set_solver|simpl; apply lookup_insert_eq| |].
  - simpl. pose proof (length_filter (λ m, accepts labels_of s0 m = true) msgs). lia.
  - exists pu', s'. split_and!; [done|done|]. exact Hb.
Qed.
