(* ===== verification/Lru.v ===== *)
(** The LRU cache of [github.com/hashicorp/golang-lru], the library that the event
    store and the entity caches keep their contents in: its operations and their
    documented behaviour as a class, and a list-based instance for concrete runs.
    The library calls the eviction callback for every entry it removes, whether
    the entry is evicted or removed by the client, so each operation also returns
    the entries it passed to the callback. *)

From stdpp Require Import base gmap strings list.
From S2P Require Import Prelude Data.

Class LRU (V : Type) := {
  lru : Type;
  lru_New : Z → option lru;
  lru_Get : Aggregate → lru → option V * lru;
  lru_Add : Aggregate → V → lru → lru * list (Aggregate * V);
  lru_Remove : Aggregate → lru → lru * list (Aggregate * V);
  lru_RemoveOldest : lru → lru * list (Aggregate * V);
  lru_Keys : lru → list Aggregate;
  (* what the documentation speaks about; [lru_ok] holds of the caches the
     operations make *)
  lru_ok : lru → Prop;
  lru_cap : lru → Z;
  contents : lru → gmap Aggregate V;
}.

Class LRULaws V `{LRU V} := {
  lru_New_spec n : match lru_New n with
    | None => (n ≤ 0)%Z
    | Some c => (0 < n)%Z ∧ lru_ok c ∧ lru_cap c = n ∧ contents c = ∅
    end;
  lru_Get_spec k c : lru_ok c → lru_ok (lru_Get k c).2 ∧
    (lru_Get k c).1 = contents c !! k ∧
    contents (lru_Get k c).2 = contents c ∧ lru_cap (lru_Get k c).2 = lru_cap c;
  lru_Add_spec k v c : lru_ok c → lru_ok (lru_Add k v c).1 ∧
    lru_cap (lru_Add k v c).1 = lru_cap c ∧
    ((is_Some (contents c !! k) ∨ (Z.of_nat (size (contents c)) < lru_cap c)%Z) ∧
       contents (lru_Add k v c).1 = <[k := v]> (contents c) ∧ (lru_Add k v c).2 = [] ∨
     contents c !! k = None ∧
       ∃ k' v', contents c !! k' = Some v' ∧
         contents (lru_Add k v c).1 = <[k := v]> (delete k' (contents c)) ∧
         (lru_Add k v c).2 = [(k', v')]);
  lru_Remove_spec k c : lru_ok c → lru_ok (lru_Remove k c).1 ∧
    lru_cap (lru_Remove k c).1 = lru_cap c ∧
    contents (lru_Remove k c).1 = delete k (contents c) ∧
    (lru_Remove k c).2 = match contents c !! k with Some v => [(k, v)] | None => [] end;
  lru_RemoveOldest_spec c : lru_ok c → lru_ok (lru_RemoveOldest c).1 ∧
    lru_cap (lru_RemoveOldest c).1 = lru_cap c ∧
    (contents c = ∅ ∧ contents (lru_RemoveOldest c).1 = ∅ ∧ (lru_RemoveOldest c).2 = [] ∨
     ∃ k v, contents c !! k = Some v ∧ contents (lru_RemoveOldest c).1 = delete k (contents c) ∧
       (lru_RemoveOldest c).2 = [(k, v)]);
  lru_Keys_spec c : lru_ok c →
    NoDup (lru_Keys c) ∧ ∀ k, k ∈ lru_Keys c ↔ is_Some (contents c !! k);
  lru_bound c : lru_ok c → (Z.of_nat (size (contents c)) ≤ lru_cap c)%Z;
}.

(** ** A list-based instance: the entries, newest first *)

Record list_lru (V : Type) := MkListLru { ll_cap : Z; ll_entries : list (Aggregate * V) }.
Arguments ll_cap {V}. Arguments ll_entries {V}. Arguments MkListLru {V}.

Section list_lru.
Context {V : Type}.
Implicit Types (c : list_lru V) (l : list (Aggregate * V)).

Definition without (k : Aggregate) l : list (Aggregate * V) := filter (λ p, p.1 ≠ k) l.

Definition ll_map l : gmap Aggregate V := list_to_map l.

#[export] Instance list_LRU : LRU V := {|
  lru := list_lru V;
  lru_New n := if decide (0 < n)%Z then Some (MkListLru n []) else None;
  lru_Get k c :=
    match ll_map (ll_entries c) !! k with
    | Some v => (Some v, MkListLru (ll_cap c) ((k, v) :: without k (ll_entries c)))
    | None => (None, c)
    end;
  lru_Add k v c :=
    let l := (k, v) :: without k (ll_entries c) in
    if decide (Z.of_nat (length l) ≤ ll_cap c)%Z then (MkListLru (ll_cap c) l, [])
    else match last (ll_entries c) with
         | Some old => (MkListLru (ll_cap c) ((k, v) :: without old.1 (ll_entries c)), [old])
         | None => (c, [])
         end;
  lru_Remove k c :=
    (MkListLru (ll_cap c) (without k (ll_entries c)),
     match ll_map (ll_entries c) !! k with Some v => [(k, v)] | None => [] end);
  lru_RemoveOldest c :=
    match last (ll_entries c) with
    | Some old => (MkListLru (ll_cap c) (without old.1 (ll_entries c)), [old])
    | None => (c, [])
    end;
  lru_Keys c := reverse (ll_entries c).*1;
  lru_ok c := NoDup (ll_entries c).*1 ∧ (Z.of_nat (length (ll_entries c)) ≤ ll_cap c)%Z ∧
              (0 < ll_cap c)%Z;
  lru_cap := ll_cap;
  contents c := ll_map (ll_entries c) |}.

Lemma without_keys k l : (without k l).*1 = filter (λ k', k' ≠ k) l.*1.
Proof.
  unfold without. induction l as [|[k' v] l IH]; [done|].
  rewrite fmap_cons, !filter_cons. simpl. case_decide; [|done].
  by rewrite fmap_cons, IH.
Qed.

Lemma without_nodup k l : NoDup l.*1 → NoDup (without k l).*1.
Proof. rewrite without_keys. apply NoDup_filter. Qed.

Lemma without_fresh k l : k ∉ (without k l).*1.
Proof. rewrite without_keys. intros [Hne _]%list_elem_of_filter. by apply Hne. Qed.

Lemma without_le k l : length (without k l) ≤ length l.
Proof. apply length_filter. Qed.

Lemma without_lt k v l : (k, v) ∈ l → length (without k l) < length l.
Proof.
  intros Hin. apply (length_filter_lt _ _ (k, v)); [done|]. simpl. tauto.
Qed.

Lemma without_all k l : (∀ v, (k, v) ∉ l) → without k l = l.
Proof.
  intros Hk. unfold without. induction l as [|[k' v] l IH]; [done|].
  rewrite filter_cons. rewrite decide_True.
  - f_equal. apply IH. intros v' Hin. apply (Hk v'). set_solver.
  - simpl. intros ->. apply (Hk v). set_solver.
Qed.

Lemma ll_map_without k l : ll_map (without k l) = delete k (ll_map l).
Proof.
  unfold ll_map. induction l as [|[k' v] l IH]; [simpl; by rewrite delete_empty|].
  unfold without in *. rewrite filter_cons. simpl. case_decide as Hk; simpl in *.
  - by rewrite IH, delete_insert_ne by congruence.
  - subst k'. by rewrite IH, delete_insert_eq.
Qed.

Lemma ll_map_lookup k v l : NoDup l.*1 → ll_map l !! k = Some v ↔ (k, v) ∈ l.
Proof. intros Hn. symmetry. by apply elem_of_list_to_map. Qed.

Lemma ll_map_size l : NoDup l.*1 → size (ll_map l) = length l.
Proof.
  intros Hn. unfold ll_map. rewrite <- length_map_to_list.
  by rewrite map_to_list_to_map.
Qed.

Lemma ll_push_ok k v l : NoDup l.*1 → NoDup ((k, v) :: without k l).*1.
Proof.
  intros Hn. rewrite fmap_cons. apply NoDup_cons.
  split; [apply without_fresh|by apply without_nodup].
Qed.

Lemma last_lookup_ll l old : NoDup l.*1 → last l = Some old → ll_map l !! old.1 = Some old.2.
Proof.
  intros Hn Hl. apply ll_map_lookup; [done|]. rewrite <- surjective_pairing.
  by apply last_Some_elem_of.
Qed.

#[export] Instance list_LRULaws : LRULaws V.
Proof.
  split; simpl.
  - intros n. case_decide; [|lia]. simpl. split_and!; try done; [constructor|lia].
  - intros k c (Hn & Hb & Hp). destruct (ll_map (ll_entries c) !! k) as [v|] eqn:Hk; simpl; [|done].
    pose proof Hk as Hin. rewrite ll_map_lookup in Hin; [|done].
    pose proof (without_lt _ _ _ Hin).
    split_and!; [by apply (ll_push_ok k v)|lia|done|done| |done].
    change (ll_map ((k, v) :: without k (ll_entries c)))
      with (<[k := v]> (ll_map (without k (ll_entries c)))).
    by rewrite ll_map_without, insert_delete_id.
  - intros k v c (Hn & Hb & Hp). case_decide as Hlen; simpl.
    + split_and!; [by apply (ll_push_ok k v)|lia|done|done|]. left. split_and!; [|  |done].
      * destruct (ll_map (ll_entries c) !! k) as [v'|] eqn:Hk; [by left; eexists|right].
        rewrite ll_map_size by done.
        assert (without k (ll_entries c) = ll_entries c) as Hw.
        { apply without_all. intros v' Hin. rewrite <- ll_map_lookup in Hin; [congruence|done]. }
        rewrite Hw in Hlen. lia.
      * change (ll_map ((k, v) :: without k (ll_entries c)))
          with (<[k := v]> (ll_map (without k (ll_entries c)))).
        by rewrite ll_map_without, insert_delete_eq.
    + assert (ll_map (ll_entries c) !! k = None) as Hk.
      { destruct (ll_map (ll_entries c) !! k) as [v'|] eqn:Hk; [|done].
        rewrite ll_map_lookup in Hk; [|done]. pose proof (without_lt _ _ _ Hk). lia. }
      destruct (last (ll_entries c)) as [[k' v']|] eqn:Hl; simpl.
      2:{ apply last_None in Hl. rewrite Hl in Hlen. simpl in Hlen. lia. }
      pose proof (last_lookup_ll _ _ Hn Hl) as Hk'. simpl in Hk'.
      assert (k ≠ k') as Hne by congruence.
      split_and!.
      * apply NoDup_cons. split; [|by apply without_nodup].
        rewrite without_keys. intros [_ Hin]%list_elem_of_filter.
        apply list_elem_of_fmap in Hin as ([k2 v2] & -> & Hin). simpl in *.
        rewrite <- ll_map_lookup in Hin; [congruence|done].
      * rewrite ll_map_lookup in Hk'; [|done]. pose proof (without_lt _ _ _ Hk'). lia.
      * done.
      * done.
      * right. split; [done|]. exists k', v'. split_and!; [done| |done].
        change (ll_map ((k, v) :: without k' (ll_entries c)))
          with (<[k := v]> (ll_map (without k' (ll_entries c)))).
        by rewrite ll_map_without.
  - intros k c (Hn & Hb & Hp). pose proof (without_le k (ll_entries c)).
    split_and!; [by apply without_nodup|lia|done|done|apply ll_map_without|done].
  - intros c (Hn & Hb & Hp). destruct (last (ll_entries c)) as [[k v]|] eqn:Hl; simpl.
    + pose proof (last_lookup_ll _ _ Hn Hl) as Hk. simpl in Hk.
      pose proof (without_le k (ll_entries c)).
      split_and!; [by apply without_nodup|lia|done|done|]. right. exists k, v.
      split_and!; [done|apply ll_map_without|done].
    + split_and!; try done. left. apply last_None in Hl. by rewrite Hl.
  - intros c (Hn & _). split; [by rewrite reverse_Permutation|]. intros k.
    rewrite reverse_Permutation, list_elem_of_fmap. split.
    + intros ([k' v] & -> & Hin). exists v. by apply ll_map_lookup.
    + intros [v Hk]. rewrite ll_map_lookup in Hk; [|done]. by exists (k, v).
  - intros c (Hn & Hb & _). by rewrite ll_map_size.
Qed.
End list_lru.
