(* ===== verification/MemBackend.v ===== *)
(** Component [pkg/fes/backend/mem]: the in-memory event store.  Active event
    streams live in a map, completed streams in an LRU buffer that may evict them.
    The counter [entries] is an int32 that the eviction callback of the LRU cache
    decrements.  Metrics and logging are left out; the publisher of the store is
    the one of [Pubsub]. *)

From stdpp Require Import base gmap strings list.
From S2P Require Import Prelude Data Types Fes Pubsub Lru.

(** [pkg/fes/backend/mem/mem.go:26-28] ErrEventLimitExceeded *)
Definition ErrEventLimitExceeded : goerror := ErrEventStore "event limit exceeded" None None None.

(** [pkg/fes/backend/mem/mem.go:53-60] Config *)
Record Config := MkConfig { MaxKeys : Z; MaxEventsPerKey : Z }.

Definition MaxInt32 : Z := 2 ^ 31 - 1.

(** [e.GetHints().GetCompleted()] *)
Definition Completed (ev : Event) : bool :=
  match Event_Hints ev with Some h => EventHints_Completed h | None => false end.

(** The labels the publisher asks an event for; a stored event names its
    aggregate, so that [Event_Labels] answers. *)
Definition event_labels (ev : Event) : Labels :=
  match Event_Labels ev with Ret l => l | _ => ∅ end.

Lemma event_labels_types ev a : Event_Aggregate ev = Some a →
  Labels_Get (event_labels ev) "aggregate.type" = Some (Aggregate_Type a) ∧
  Labels_Get (event_labels ev) "parent.type" = Some (Aggregate_Type (default (MkAggregate "" "") (Event_Parent ev))).
Proof. intros Ha. unfold event_labels, Event_Labels. rewrite Ha. by split. Qed.

Section backend.
Context `{LRU (list Event)} `{MapRange}.

(** [pkg/fes/backend/mem/mem.go:64-71] Backend *)
Record Backend := MkBackend {
  Backend_Config : Config;
  buf : lru;
  store : gmap Aggregate (list Event);
  entries : Z;
  publisher : DefaultPublisher Event }.

Definition Backend_with_buf (b : Backend) (c : lru) : Backend :=
  MkBackend (Backend_Config b) c (store b) (entries b) (publisher b).
Definition Backend_with_store (b : Backend) (s : gmap Aggregate (list Event)) : Backend :=
  MkBackend (Backend_Config b) (buf b) s (entries b) (publisher b).
Definition Backend_with_publisher (b : Backend) (p : DefaultPublisher Event) : Backend :=
  MkBackend (Backend_Config b) (buf b) (store b) (entries b) p.

(** [atomic.AddInt32(b.entries, delta)] *)
Definition AddInt32_entries (delta : Z) (b : Backend) : Backend :=
  MkBackend (Backend_Config b) (buf b) (store b) (to_i32 (entries b + delta)) (publisher b).

(** [pkg/fes/backend/mem/mem.go:73-103] NewBackend *)
Definition NewBackend {E} (cfgs : list Config) : res E Backend :=
  let cfg := match cfgs with
             | [] => MkConfig MaxInt32 0
             | provided :: _ =>
                 MkConfig (if decide (MaxKeys provided ≤ 0)%Z then MaxInt32 else MaxKeys provided)
                          (if decide (0 < MaxEventsPerKey provided)%Z
                           then MaxEventsPerKey provided else 0)
             end in
  match lru_New (MaxKeys cfg) with
  | None => Panic "Must provide a positive size"
  | Some cache => Ret (MkBackend cfg cache ∅ 0 (NewPublisher Event))
  end.

(** The effect of [evict] on the backend: the entries counter. *)
(** [pkg/fes/backend/mem/mem.go:233-244] Backend.evict *)
Definition evict (k : Aggregate) (v : list Event) (b : Backend) : Backend :=
  AddInt32_entries (-1) b.

(** Replace the buffer and run the eviction callback for the removed entries. *)
Definition update_buf (r : lru * list (Aggregate * list Event)) (b : Backend) : Backend :=
  foldl (λ b '(k, v), evict k v b) (Backend_with_buf b r.1) r.2.

(** [pkg/fes/backend/mem/mem.go:170-172] Backend.Len *)
Definition Backend_Len (b : Backend) : Z := entries b.

(** [pkg/fes/backend/mem/mem.go:187-200] Backend.get *)
Definition get (key : Aggregate) (b : Backend) : option (list Event) * bool * Backend :=
  match store b !! key with
  | Some events => (Some events, true, b)
  | None => let '(e, c) := lru_Get key (buf b) in (e, false, Backend_with_buf b c)
  end.

(** [pkg/fes/backend/mem/mem.go:203-210] Backend.promote *)
Definition promote (key : Aggregate) (b : Backend) : Backend :=
  match get key b with
  | (Some events, false, b) =>
      let b := update_buf (lru_Remove key (buf b)) b in
      Backend_with_store b (<[key := events]> (store b))
  | (_, _, b) => b
  end.

(** [pkg/fes/backend/mem/mem.go:213-220] Backend.demote *)
Definition demote (key : Aggregate) (b : Backend) : Backend :=
  match get key b with
  | (Some events, true, b) =>
      let b := Backend_with_store b (delete key (store b)) in
      update_buf (lru_Add key events (buf b)) b
  | (_, _, b) => b
  end.

(** The loop of [fitBuffer]; [None] is running out of [fuel]. *)
Fixpoint fit_loop (fuel : nat) (last size : Z) (b : Backend) : option (Z * Backend) :=
  match fuel with
  | O => None
  | S fuel =>
      if bool_decide (size ≠ last) && bool_decide (MaxKeys (Backend_Config b) ≤ size)%Z then
        let b := update_buf (lru_RemoveOldest (buf b)) b in
        fit_loop fuel size (Backend_Len b) b
      else Some (size, b)
  end.

(** One iteration per buffered stream, one that finds the buffer empty and one
    that leaves the loop. *)
Definition fit_fuel (b : Backend) : nat := S (S (size (contents (buf b)))).

(** [pkg/fes/backend/mem/mem.go:222-231] Backend.fitBuffer *)
Definition fitBuffer (b : Backend) : option (bool * Backend) :=
  r ← fit_loop (fit_fuel b) (-1) (Backend_Len b) b;
  Some (bool_decide (r.1 < MaxKeys (Backend_Config b))%Z, r.2).

(** The stream an event belongs to. *)
Definition stream_key (ev : Event) (agg : Aggregate) : Aggregate :=
  match Event_Parent ev with Some p => p | None => agg end.

(** The part of [Append] after the look-up of the stream [key] with its [events]. *)
(** [pkg/fes/backend/mem/mem.go:126-146] Backend.Append (part) *)
Definition append_to (ev : Event) (key : Aggregate) (events : list Event)
    (fromStore newEntry : bool) (b : Backend) : res goerror () * Backend :=
  if bool_decide (0 < MaxEventsPerKey (Backend_Config b))%Z &&
     bool_decide (MaxEventsPerKey (Backend_Config b) < Z.of_nat (length events))%Z
  then (Throw (WithAggregate ErrEventLimitExceeded (Some key)), b)
  else
    let b := if fromStore then b else promote key b in
    let b := Backend_with_store b (<[key := events ++ [ev]]> (store b)) in
    let b := if Completed ev then demote key b else b in
    match Publish event_labels (publisher b) ev with
    | Ret p =>
        let b := Backend_with_publisher b p in
        (Ret (), if newEntry then AddInt32_entries 1 b else b)
    | Throw err => (Throw err, b)
    | Panic w => (Panic w, b)
    end.

(** [pkg/fes/backend/mem/mem.go:105-155] Backend.Append *)
Definition Append (event : option Event) (b : Backend) : res goerror () * Backend :=
  match ValidateEvent event, event ≫= (λ ev, agg ← Event_Aggregate ev; Some (ev, agg)) with
  | Throw err, _ => (Throw err, b)
  | Panic w, _ => (Panic w, b)
  | Ret _, None => (Panic "nil pointer dereference", b)
  | Ret _, Some (ev, agg) =>
      let key := stream_key ev agg in
      let '(found, fromStore, b) := get key b in
      match found with
      | Some events => append_to ev key events fromStore false b
      | None =>
          match fitBuffer b with
          | None => (Panic "out of fuel", b)
          | Some (false, b) => (Throw (WithAggregate ErrEventStoreOverflow (Some key)), b)
          | Some (true, b) => append_to ev key [] fromStore true b
          end
      end
  end.

(** [pkg/fes/backend/mem/mem.go:157-168] Backend.Get *)
Definition Get (key : Aggregate) (b : Backend) : res goerror (list Event) * Backend :=
  match ValidateAggregate (Some key) with
  | Some err => (Throw err, b)
  | None => let '(events, _, b) := get key b in (Ret (default [] events), b)
  end.

(** [pkg/fes/backend/mem/mem.go:175-185] Backend.List *)
Definition List (matcher : option (Aggregate → bool)) (b : Backend) : list Aggregate :=
  foldl (λ results '(key, _),
           if (match matcher with None => true | Some m => m key end)
           then results ++ [key] else results) [] (range 0 (store b)).
End backend.

(** ** Invariant and lemmas *)

Section backend_lemmas.
Context `{LRULaws (list Event)} `{MapRange}.
Implicit Types (b : Backend) (k : Aggregate) (ev : Event).

(** The stream of events stored under a key, active or completed. *)
Definition stream b k : option (list Event) :=
  match store b !! k with Some es => Some es | None => contents (buf b) !! k end.

(** The number of streams. *)
Definition total b : Z := Z.of_nat (size (store b)) + Z.of_nat (size (contents (buf b))).

Record backend_ok b : Prop := {
  bo_lru : lru_ok (buf b);
  bo_cap : lru_cap (buf b) = MaxKeys (Backend_Config b);
  bo_max : (0 < MaxKeys (Backend_Config b) ≤ MaxInt32)%Z;
  bo_entries : (- 2 ^ 31 ≤ entries b < 2 ^ 31)%Z;
  bo_disjoint : ∀ k, is_Some (store b !! k) → contents (buf b) !! k = None;
  bo_publisher : publisher_ok (publisher b);
  bo_streams : ∀ k es, stream b k = Some es →
    es ≠ [] ∧
    ((0 < MaxEventsPerKey (Backend_Config b))%Z →
     (Z.of_nat (length es) ≤ MaxEventsPerKey (Backend_Config b) + 1)%Z) ∧
    ∀ ev, ev ∈ es → ∃ agg, Event_Aggregate ev = Some agg ∧ stream_key ev agg = k }.

(** Two backends that differ in the recency of the buffered streams only. *)
Record same b b' : Prop := {
  same_config : Backend_Config b' = Backend_Config b;
  same_store : store b' = store b;
  same_entries : entries b' = entries b;
  same_publisher : publisher b' = publisher b;
  same_lru : lru_ok (buf b');
  same_cap : lru_cap (buf b') = lru_cap (buf b);
  same_contents : contents (buf b') = contents (buf b) }.

Lemma same_refl b : lru_ok (buf b) → same b b.
Proof. by split. Qed.

Lemma same_stream b b' k : same b b' → stream b' k = stream b k.
Proof. intros [_ Hs _ _ _ _ Hc]. unfold stream. by rewrite Hs, Hc. Qed.

Lemma same_ok b b' : same b b' → backend_ok b → backend_ok b'.
Proof.
  intros Hsame [Hl Hcap Hm He Hd Hp Hst]. pose proof Hsame as [Hc Hs Hen Hpub Hlru Hcap' Hcon].
  split; rewrite ?Hc, ?Hs, ?Hen, ?Hpub, ?Hcon; try done.
  - by rewrite Hcap'.
  - intros k es. rewrite (same_stream _ _ _ Hsame). apply Hst.
Qed.

Lemma get_spec k b :
  lru_ok (buf b) →
  ∃ b', get k b = (stream b k, bool_decide (is_Some (store b !! k)), b') ∧ same b b'.
Proof.
  intros Hl. unfold get, stream. destruct (store b !! k) as [es|] eqn:Hk.
  - exists b. split; [|by apply same_refl]. by rewrite bool_decide_eq_true_2.
  - pose proof (lru_Get_spec k (buf b) Hl) as (Hl' & He & Hc & Hcap).
    destruct (lru_Get k (buf b)) as [e c]. simpl in *. subst e.
    eexists; split; [reflexivity|]. by split.
Qed.

Lemma fold_evict l b :
  let b' := foldl (λ b '(k, v), evict k v b) b l in
  Backend_Config b' = Backend_Config b ∧ store b' = store b ∧ buf b' = buf b ∧
  publisher b' = publisher b.
Proof.
  revert b. induction l as [|[k v] l IH]; intros b; simpl; [done|].
  destruct (IH (evict k v b)) as (-> & -> & -> & ->). done.
Qed.

Lemma update_buf_spec r b :
  let b' := update_buf r b in
  Backend_Config b' = Backend_Config b ∧ store b' = store b ∧ buf b' = r.1 ∧
  publisher b' = publisher b.
Proof. unfold update_buf. destruct (fold_evict r.2 (Backend_with_buf b r.1)) as (-> & -> & -> & ->). done. Qed.

Lemma size_delete_Z {A} k (m : gmap Aggregate A) :
  Z.of_nat (size (delete k m)) =
  (Z.of_nat (size m) - if decide (is_Some (m !! k)) then 1 else 0)%Z.
Proof.
  destruct (decide (is_Some (m !! k))) as [[x Hx]|Hn].
  - rewrite <- (insert_delete_id m k x Hx) at 2.
    rewrite map_size_insert_None by apply lookup_delete_eq. lia.
  - rewrite delete_id; [lia|]. by apply eq_None_not_Some.
Qed.

(** ** The eviction loop *)

(** What making room does: it drops some completed streams and counts them. *)
Record fitted b b' : Prop := {
  fitted_config : Backend_Config b' = Backend_Config b;
  fitted_store : store b' = store b;
  fitted_publisher : publisher b' = publisher b;
  fitted_lru : lru_ok (buf b');
  fitted_cap : lru_cap (buf b') = lru_cap (buf b);
  fitted_contents : contents (buf b') ⊆ contents (buf b);
  fitted_entries : (entries b' - Z.of_nat (size (contents (buf b'))) =
                    entries b - Z.of_nat (size (contents (buf b))))%Z;
  fitted_range : (- 2 ^ 31 ≤ entries b' < 2 ^ 31)%Z }.

Lemma fit_loop_spec n b last :
  size (contents (buf b)) ≤ n → lru_ok (buf b) → (0 < MaxKeys (Backend_Config b))%Z →
  (- 2 ^ 31 ≤ entries b < 2 ^ 31)%Z → last ≠ entries b →
  ∃ b', (∀ fuel, S (S n) ≤ fuel → fit_loop fuel last (entries b) b = Some (entries b', b')) ∧
        fitted b b' ∧
        ((entries b' < MaxKeys (Backend_Config b))%Z ∨ contents (buf b') = ∅).
Proof.
  revert b last. induction n as [|n IH]; intros b last Hn Hl Hpos Hr Hlast.
  all: destruct (decide (MaxKeys (Backend_Config b) ≤ entries b)%Z) as [Hge|Hlt];
    [|exists b; split_and!; [|by split|left; lia];
      intros [|fuel] Hf; [lia|]; simpl; rewrite (bool_decide_eq_false_2 (_ ≤ _)%Z) by done;
      by rewrite andb_false_r].
  all: pose proof (lru_RemoveOldest_spec (buf b) Hl) as (Hl' & Hcap & Hcases);
    pose proof (update_buf_spec (lru_RemoveOldest (buf b)) b) as (Huc & Hus & Hub & Hup).
  all: destruct Hcases as [(He & He' & Hev)|(k & v & Hk & Hc & Hev)].
  1, 3: set (b1 := update_buf (lru_RemoveOldest (buf b)) b) in *;
    assert (entries b1 = entries b) as Hen
      by (unfold b1, update_buf; by rewrite Hev);
    exists b1; split_and!;
    [|split; rewrite ?Hub, ?He, ?He'; try done; by rewrite Hen|right; by rewrite Hub];
    intros [|[|fuel]] Hf; [lia|lia|]; simpl; rewrite !bool_decide_eq_true_2 by done; simpl;
    fold b1; unfold Backend_Len; rewrite Hen;
    by rewrite (bool_decide_eq_false_2 (entries b ≠ entries b)) by tauto.
  { exfalso. assert (size (contents (buf b)) = 0) as Hz by lia.
    apply map_size_empty_inv in Hz. rewrite Hz, lookup_empty in Hk. done. }
  set (b1 := update_buf (lru_RemoveOldest (buf b)) b) in *.
  assert (entries b1 = entries b - 1)%Z as Hen.
  { unfold b1, update_buf. rewrite Hev. simpl. apply to_i32_id. lia. }
  pose proof (size_delete_Z k (contents (buf b))) as Hsz.
  rewrite decide_True in Hsz by (by eexists).
  destruct (IH b1 (entries b)) as (b' & Hf & [? ? ? ? ? ? Hfe ?] & Hor).
  - rewrite Hub, Hc. lia.
  - by rewrite Hub.
  - by rewrite Huc.
  - lia.
  - lia.
  - exists b'. split_and!.
    + intros [|fuel] Hfuel; [lia|]. simpl.
      rewrite !bool_decide_eq_true_2 by done. simpl. fold b1. unfold Backend_Len.
      apply Hf. lia.
    + split; try congruence; [|].
      * rewrite Hub, Hc in *. etrans; [done|]. apply delete_subseteq.
      * rewrite Hfe, Hub, Hc, Hen. lia.
    + by rewrite <- Huc.
Qed.

(** ** Moving streams between the map and the buffer *)

Lemma size_insert_Z {A} k (x : A) (m : gmap Aggregate A) :
  Z.of_nat (size (<[k := x]> m)) =
  (Z.of_nat (size m) + if decide (is_Some (m !! k)) then 0 else 1)%Z.
Proof.
  destruct (decide (is_Some (m !! k))) as [Hk|Hk].
  - rewrite map_size_insert_Some by done. lia.
  - rewrite map_size_insert_None by (by apply eq_None_not_Some). lia.
Qed.

Lemma to_i32_add a c : to_i32 (to_i32 a + c) = to_i32 (a + c).
Proof.
  unfold to_i32. f_equal.
  replace ((a + 2 ^ 31) mod 2 ^ 32 - 2 ^ 31 + c + 2 ^ 31)%Z
    with ((a + 2 ^ 31) mod 2 ^ 32 + c)%Z by lia.
  rewrite Zplus_mod_idemp_l. f_equal. lia.
Qed.

Lemma promote_spec k b :
  lru_ok (buf b) → store b !! k = None →
  let b' := promote k b in
  Backend_Config b' = Backend_Config b ∧ publisher b' = publisher b ∧
  lru_ok (buf b') ∧ lru_cap (buf b') = lru_cap (buf b) ∧
  contents (buf b') = delete k (contents (buf b)) ∧
  (∀ k', k' ≠ k → store b' !! k' = store b !! k') ∧
  store b' = match contents (buf b) !! k with
             | Some es => <[k := es]> (store b) | None => store b end ∧
  entries b' = if decide (is_Some (contents (buf b) !! k))
               then to_i32 (entries b - 1) else entries b.
Proof.
  intros Hl Hk. unfold promote.
  destruct (get_spec k b Hl) as (b1 & -> & Hsame). destruct Hsame as [Hc Hs He Hp Hl1 Hcap Hcon].
  unfold stream. rewrite Hk. rewrite bool_decide_eq_false_2 by (by intros []).
  destruct (contents (buf b) !! k) as [es|] eqn:Hes; simpl.
  - pose proof (lru_Remove_spec k (buf b1) Hl1) as (Hl2 & Hcap2 & Hcon2 & Hev).
    pose proof (update_buf_spec (lru_Remove k (buf b1)) b1) as (Huc & Hus & Hub & Hup).
    rewrite Hub, Huc, Hup, Hus, Hcap2, Hcon2, Hc, Hp, Hs, Hcap, Hcon. split_and!; try done.
    + intros k' Hne. by rewrite lookup_insert_ne.
    + unfold update_buf. rewrite Hev, Hcon, Hes. simpl. rewrite He. done.
  - rewrite Hc, Hp, Hs, He, Hcap, Hcon. rewrite delete_id by done. by split_and!.
Qed.

Lemma demote_spec k b es :
  lru_ok (buf b) → store b !! k = Some es → contents (buf b) !! k = None →
  let b' := demote k b in
  Backend_Config b' = Backend_Config b ∧ publisher b' = publisher b ∧
  lru_ok (buf b') ∧ lru_cap (buf b') = lru_cap (buf b) ∧
  store b' = delete k (store b) ∧ contents (buf b') !! k = Some es ∧
  (∀ k', k' ≠ k → contents (buf b') !! k' = contents (buf b) !! k' ∨
                  contents (buf b') !! k' = None) ∧
  (entries b' = entries b ∧ total b' = total b ∨
   entries b' = to_i32 (entries b - 1) ∧ total b' = total b - 1)%Z.
Proof.
  intros Hl Hk Hn. unfold demote.
  destruct (get_spec k b Hl) as (b1 & -> & [Hc Hs He Hp Hl1 Hcap Hcon]).
  unfold stream. rewrite Hk. rewrite bool_decide_eq_true_2 by (by eexists). simpl.
  set (b2 := Backend_with_store b1 (delete k (store b1))).
  pose proof (lru_Add_spec k es (buf b2) Hl1) as (Hl2 & Hcap2 & Hadd).
  pose proof (update_buf_spec (lru_Add k es (buf b2)) b2) as (Huc & Hus & Hub & Hup).
  change (buf b2) with (buf b1) in *. change (store b2) with (delete k (store b1)) in *.
  change (Backend_Config b2) with (Backend_Config b1) in *.
  change (publisher b2) with (publisher b1) in *. change (entries b2) with (entries b1) in *.
  unfold total. rewrite Hub, Huc, Hup, Hus, Hcap2, Hc, Hp, Hs, Hcap. rewrite Hcon in *.
  assert (Hsz : Z.of_nat (size (delete k (store b))) = (Z.of_nat (size (store b)) - 1)%Z).
  { rewrite size_delete_Z, decide_True; [done|]. by eexists. }
  destruct Hadd as [(_ & Hc2 & Hev)|(_ & k' & v' & Hk' & Hc2 & Hev)]; rewrite Hc2.
  - split_and!; try done; [by rewrite lookup_insert_eq| |].
    + intros k' Hne. left. by rewrite lookup_insert_ne.
    + left. unfold update_buf. rewrite Hev. simpl. split; [done|].
      rewrite Hsz, size_insert_Z, decide_False by (rewrite Hn; by intros []). lia.
  - assert (k' ≠ k) by congruence. split_and!; try done; [by rewrite lookup_insert_eq| |].
    + intros k2 Hne. rewrite lookup_insert_ne by done.
      destruct (decide (k2 = k')) as [->|]; [right; by rewrite lookup_delete_eq|].
      left. by rewrite lookup_delete_ne.
    + right. unfold update_buf. rewrite Hev. simpl. rewrite He. split; [done|].
      rewrite Hsz, size_insert_Z, lookup_delete_ne, decide_False by (rewrite ?Hn; by (done || intros [])).
      rewrite size_delete_Z, decide_True by (by eexists). lia.
Qed.

(** ** Appending *)

(** The effect of a successful [Append]. *)
Record appended b b' k ev : Prop := {
  ap_ok : backend_ok b';
  ap_config : Backend_Config b' = Backend_Config b;
  ap_stream : stream b' k = Some (default [] (stream b k) ++ [ev]);
  ap_place : store b' !! k = if Completed ev then None else stream b' k;
  ap_active : ∀ k', k' ≠ k → store b' !! k' = store b !! k';
  ap_others : ∀ k', k' ≠ k → contents (buf b') !! k' = contents (buf b) !! k' ∨
                             contents (buf b') !! k' = None;
  ap_entries : entries b' =
    to_i32 (entries b + (total b' - total b) -
            if decide (is_Some (contents (buf b) !! k)) then 1 else 0);
  ap_total : (total b' ≤ total b + if decide (is_Some (stream b k)) then 0 else 1)%Z;
  ap_publisher : Publish (E := goerror) event_labels (publisher b) ev = Ret (publisher b') }.

(** What is between the look-up and the [demote] of [append_to]. *)
Lemma promote_insert_spec k ev b :
  backend_ok b →
  let es := default [] (stream b k) ++ [ev] in
  let b1 := if bool_decide (is_Some (store b !! k)) then b else promote k b in
  let b2 := Backend_with_store b1 (<[k := es]> (store b1)) in
  Backend_Config b2 = Backend_Config b ∧ publisher b2 = publisher b ∧
  lru_ok (buf b2) ∧ lru_cap (buf b2) = lru_cap (buf b) ∧
  contents (buf b2) = delete k (contents (buf b)) ∧ store b2 = <[k := es]> (store b) ∧
  entries b2 = to_i32 (entries b - if decide (is_Some (contents (buf b) !! k)) then 1 else 0) ∧
  total b2 = (total b + if decide (is_Some (stream b k)) then 0 else 1)%Z.
Proof.
  intros [Hl Hcap Hm He Hd Hp Hst]. set (es := default [] (stream b k) ++ [ev]). simpl.
  case_bool_decide as Hk; simpl.
  - pose proof (Hd k Hk) as Hn.
    rewrite (decide_False (P := is_Some (contents (buf b) !! k))) by (rewrite Hn; by intros []).
    rewrite Z.sub_0_r, to_i32_id, delete_id by done. split_and!; try done.
    unfold total, stream. simpl. rewrite size_insert_Z. destruct Hk as [x Hx]. rewrite Hx.
    rewrite !decide_True by (by eexists). lia.
  - apply eq_None_not_Some in Hk.
    destruct (promote_spec k b Hl Hk) as (Hc & Hpub & Hl' & Hcap' & Hcon & _ & Hs & Hen).
    rewrite Hc, Hpub, Hcap', Hcon, Hs, Hen. split_and!; try done.
    + destruct (contents (buf b) !! k); [|done]. by rewrite insert_insert_eq.
    + case_decide; [done|]. by rewrite Z.sub_0_r, to_i32_id.
    + unfold total, stream. simpl. rewrite Hcon, ?Hs, Hk, size_delete_Z.
      destruct (contents (buf b) !! k) as [x|] eqn:Hx.
      * rewrite !decide_True by (by eexists).
        rewrite insert_insert_eq, size_insert_Z, decide_False by (rewrite Hk; by intros []). lia.
      * rewrite !decide_False by (by intros []).
        rewrite size_insert_Z, decide_False by (rewrite Hk; by intros []). lia.
Qed.

(** The stream map after the [demote] of [append_to]. *)
Lemma insert_demote_spec k ev b b2 :
  backend_ok b → lru_ok (buf b2) →
  contents (buf b2) = delete k (contents (buf b)) →
  store b2 = <[k := default [] (stream b k) ++ [ev]]> (store b) →
  let b3 := if Completed ev then demote k b2 else b2 in
  Backend_Config b3 = Backend_Config b2 ∧ publisher b3 = publisher b2 ∧
  lru_ok (buf b3) ∧ lru_cap (buf b3) = lru_cap (buf b2) ∧
  stream b3 k = Some (default [] (stream b k) ++ [ev]) ∧
  store b3 !! k = (if Completed ev then None else stream b3 k) ∧
  (∀ k', k' ≠ k → store b3 !! k' = store b !! k') ∧
  (∀ k', k' ≠ k → contents (buf b3) !! k' = contents (buf b) !! k' ∨
                  contents (buf b3) !! k' = None) ∧
  (store b3 !! k = None ∨ contents (buf b3) !! k = None) ∧
  (entries b3 = entries b2 ∧ total b3 = total b2 ∨
   entries b3 = to_i32 (entries b2 - 1) ∧ total b3 = total b2 - 1)%Z.
Proof.
  intros Hok Hl Hcon Hs. set (es := default [] (stream b k) ++ [ev]) in *. simpl.
  assert (store b2 !! k = Some es) as Hk by (by rewrite Hs, lookup_insert_eq).
  assert (contents (buf b2) !! k = None) as Hn by (by rewrite Hcon, lookup_delete_eq).
  destruct (Completed ev).
  - destruct (demote_spec k b2 es Hl Hk Hn) as (Hc & Hp & Hl3 & Hcap & Hs3 & Hin & Hout & Hent).
    unfold stream at 1. rewrite Hs3, lookup_delete_eq, Hin.
    split_and!; try done; [| |by left].
    + intros k' Hne. rewrite lookup_delete_ne, Hs by done. by rewrite lookup_insert_ne.
    + intros k' Hne. rewrite Hcon in Hout. specialize (Hout k' Hne).
      by rewrite lookup_delete_ne in Hout.
  - unfold stream at 1 2. rewrite Hk.
    split_and!; try done; [| |by right|by left].
    + intros k' Hne. rewrite Hs. by rewrite lookup_insert_ne.
    + intros k' Hne. left. by rewrite Hcon, lookup_delete_ne.
Qed.

Lemma publish_entries b p (n : bool) :
  let b' := if n then AddInt32_entries 1 (Backend_with_publisher b p)
            else Backend_with_publisher b p in
  Backend_Config b' = Backend_Config b ∧ publisher b' = p ∧ buf b' = buf b ∧
  store b' = store b ∧ entries b' = if n then to_i32 (entries b + 1) else entries b.
Proof. by destruct n. Qed.

Lemma append_to_spec b k ev agg :
  backend_ok b → Event_Aggregate ev = Some agg → stream_key ev agg = k →
  let es := default [] (stream b k) in
  let r := append_to ev k es (bool_decide (is_Some (store b !! k)))
             (bool_decide (stream b k = None)) b in
  if bool_decide (0 < MaxEventsPerKey (Backend_Config b))%Z &&
     bool_decide (MaxEventsPerKey (Backend_Config b) < Z.of_nat (length es))%Z
  then r = (Throw (WithAggregate ErrEventLimitExceeded (Some k)), b)
  else ∃ b', r = (Ret (), b') ∧ appended b b' k ev.
Proof.
  intros Hok Hagg Hkey. set (es := default [] (stream b k)). simpl. unfold append_to.
  destruct (_ && _) eqn:Hlim; [done|].
  pose proof (promote_insert_spec k ev b Hok) as (Hc2 & Hp2 & Hl2 & Hcap2 & Hcon2 & Hs2 & He2 & Ht2).
  fold es in Hc2, Hp2, Hl2, Hcap2, Hcon2, Hs2, He2, Ht2.
  set (b2 := Backend_with_store (if bool_decide (is_Some (store b !! k)) then b else promote k b)
    (<[k:=es ++ [ev]]> (store (if bool_decide (is_Some (store b !! k)) then b else promote k b)))) in *.
  pose proof (insert_demote_spec k ev b b2 Hok Hl2 Hcon2 Hs2)
    as (Hc3 & Hp3 & Hl3 & Hcap3 & Hst3 & Hpl & Hact & Hoth & Hdis & Hent).
  set (b3 := if Completed ev then demote k b2 else b2) in *.
  pose proof Hok as [Hl Hcap Hm He Hd Hp Hst].
  assert (publisher_ok (publisher b3)) as Hp3' by (by rewrite Hp3, Hp2).
  destruct (Publish_spec (E := goerror) event_labels (publisher b3) ev Hp3') as (p & Hpub & _ & _).
  rewrite Hpub.
  pose proof (publish_entries b3 p (bool_decide (stream b k = None))) as Hfin. simpl in Hfin.
  set (b' := if bool_decide (stream b k = None) then AddInt32_entries 1 (Backend_with_publisher b3 p)
             else Backend_with_publisher b3 p) in *.
  destruct Hfin as (Hc4 & Hp4 & Hb4 & Hs4 & He4).
  assert (∀ k, stream b' k = stream b3 k) as Hstr by (intros k'; unfold stream; by rewrite Hs4, Hb4).
  assert (total b' = total b3) as Ht4 by (unfold total; by rewrite Hs4, Hb4).
  exists b'. split; [done|].
  split; rewrite ?Hstr, ?Hs4, ?Hb4, ?Hp4; try done.
  - split; rewrite ?Hc4, ?Hc3, ?Hc2, ?Hb4, ?Hs4; try done.
    + by rewrite Hcap3, Hcap2.
    + rewrite He4. case_bool_decide; [apply to_i32_range|].
      destruct Hent as [[-> _]|[-> _]]; [rewrite He2|]; apply to_i32_range.
    + intros k' Hsk. destruct (decide (k' = k)) as [->|Hne].
      * destruct Hdis as [Hx|?]; [|done]. rewrite Hx in Hsk. by destruct Hsk.
      * rewrite Hact in Hsk by done. specialize (Hd _ Hsk).
        destruct (Hoth _ Hne) as [->| ->]; done.
    + rewrite Hp4. eapply Publish_ok; eauto.
    + intros k' es'. rewrite Hstr. destruct (decide (k' = k)) as [->|Hne].
      * rewrite Hst3. intros [= <-]. split_and!.
        -- by destruct (default [] (stream b k)).
        -- rewrite length_app. simpl. intros Hpos. rewrite (bool_decide_eq_true_2 _ Hpos) in Hlim.
           simpl in Hlim. apply bool_decide_eq_false in Hlim. unfold es in Hlim. lia.
        -- intros ev' [Hin|Hin]%elem_of_app.
           ++ destruct (stream b k) as [es0|] eqn:Hsk; simpl in Hin; [|set_solver].
              destruct (Hst _ _ Hsk) as (_ & _ & Hall). by apply Hall.
           ++ apply list_elem_of_singleton in Hin as ->. eauto.
      * intros Hsk. apply (Hst k'). revert Hsk. unfold stream. rewrite Hact by done.
        destruct (store b !! k'); [done|]. destruct (Hoth _ Hne) as [->| ->]; done.
  - by rewrite Hc4, Hc3, Hc2.
  - rewrite He4, Ht4. assert (is_Some (stream b k) ↔ stream b k ≠ None) as Hss
      by (rewrite <- not_eq_None_Some; done).
    destruct Hent as [[He3 Ht3]|[He3 Ht3]]; rewrite He3, Ht3, He2, Ht2;
      case_bool_decide as Hnew;
      [rewrite (decide_False (P := is_Some (stream b k))) by tauto
      |rewrite (decide_True (P := is_Some (stream b k))) by tauto
      |rewrite (decide_False (P := is_Some (stream b k))) by tauto
      |rewrite (decide_True (P := is_Some (stream b k))) by tauto];
      rewrite <- ?Z.add_opp_r, ?to_i32_add, <- ?Z.add_assoc, ?to_i32_add;
      apply (f_equal to_i32); destruct (decide (is_Some (contents _ !! _))); lia.
  - rewrite Ht4. destruct Hent as [[_ ->]|[_ ->]]; rewrite Ht2; case_decide; lia.
  - congruence.
Qed.

Lemma fitted_stream b b' k : fitted b b' → stream b k = None → stream b' k = None.
Proof.
  intros Hf. unfold stream. rewrite (fitted_store _ _ Hf).
  destruct (store b !! k); [done|]. intros Hn.
  pose proof (fitted_contents _ _ Hf) as Hsub.
  destruct (contents (buf b') !! k) as [es|] eqn:Hk; [|done].
  rewrite (lookup_weaken _ _ _ _ Hk Hsub) in Hn. done.
Qed.

Lemma fitted_ok b b' : fitted b b' → backend_ok b → backend_ok b'.
Proof.
  intros [Hc Hs Hp Hl Hcap Hsub He Hr] [? Hcap0 Hm ? Hd Hp0 Hst].
  split; rewrite ?Hc, ?Hs, ?Hp; try done.
  - by rewrite Hcap.
  - intros k Hk. specialize (Hd k Hk). destruct (contents (buf b') !! k) as [es|] eqn:Hk'; [|done].
    rewrite (lookup_weaken _ _ _ _ Hk' Hsub) in Hd. done.
  - intros k es. unfold stream. rewrite Hs. intros Hk. apply (Hst k). unfold stream.
    destruct (store b !! k); [done|]. by eapply lookup_weaken.
Qed.

Lemma fitted_total b b' : fitted b b' → (entries b' - total b' = entries b - total b)%Z.
Proof. intros [_ Hs _ _ _ _ He _]. unfold total. rewrite Hs. lia. Qed.

Lemma fitted_le b b' : fitted b b' → (total b' ≤ total b)%Z.
Proof.
  intros [_ Hs _ _ _ Hsub _ _]. unfold total. rewrite Hs.
  apply map_subseteq_size in Hsub. lia.
Qed.

Lemma fitBuffer_spec b :
  backend_ok b →
  ∃ b', fitBuffer b = Some (bool_decide (entries b' < MaxKeys (Backend_Config b))%Z, b') ∧
        fitted b b' ∧
        ((entries b' < MaxKeys (Backend_Config b))%Z ∨ contents (buf b') = ∅).
Proof.
  intros [Hl Hcap Hm He Hd Hp Hst]. unfold fitBuffer, Backend_Len, fit_fuel.
  destruct (decide (entries b = -1)%Z) as [Hneg|Hneg].
  - exists b. rewrite Hneg. simpl. split_and!; [done|by split|left; lia].
  - destruct (fit_loop_spec (size (contents (buf b))) b (-1)) as (b' & Hf & Hfit & Hor);
      [done|done|lia|done|lia|].
    exists b'. rewrite Hf by lia. simpl. done.
Qed.

(** The loop of [fitBuffer] ends: any larger fuel gives the same answer. *)
Theorem fit_loop_terminates b fuel :
  backend_ok b → fit_fuel b ≤ fuel →
  fit_loop fuel (-1) (Backend_Len b) b = fit_loop (fit_fuel b) (-1) (Backend_Len b) b ∧
  is_Some (fit_loop (fit_fuel b) (-1) (Backend_Len b) b).
Proof.
  intros [Hl Hcap Hm He Hd Hp Hst] Hfuel. unfold Backend_Len, fit_fuel in *.
  destruct (decide (entries b = -1)%Z) as [Hneg|Hneg].
  - rewrite Hneg. destruct fuel as [|fuel]; [lia|]. simpl. eauto.
  - destruct (fit_loop_spec (size (contents (buf b))) b (-1)) as (b' & Hf & Hfit & Hor);
      [done|done|lia|done|lia|].
    rewrite !Hf by lia. eauto.
Qed.

(** The errors [Append] returns for a valid event. *)
Definition overflow_error k := WithAggregate ErrEventStoreOverflow (Some k).
Definition limit_error k := WithAggregate ErrEventLimitExceeded (Some k).

Lemma appended_before b b1 b' k ev :
  Backend_Config b1 = Backend_Config b → store b1 = store b →
  contents (buf b1) ⊆ contents (buf b) → contents (buf b1) !! k = contents (buf b) !! k →
  publisher b1 = publisher b → (entries b1 - total b1 = entries b - total b)%Z →
  (total b1 ≤ total b)%Z → appended b1 b' k ev → appended b b' k ev.
Proof.
  intros Hc Hs Hsub Hk Hp Hent Htot [Hok Hcf Hst Hpl Hact Hoth He Ht Hpub].
  assert (stream b1 k = stream b k) as Hstr by (unfold stream; by rewrite Hs, Hk).
  split; try congruence.
  - intros k' Hne. rewrite <- Hs. by apply Hact.
  - intros k' Hne. destruct (Hoth k' Hne) as [-> | ->]; [|by right].
    destruct (contents (buf b1) !! k') as [es|] eqn:Hk'; [|by right].
    left. symmetry. by eapply lookup_weaken.
  - rewrite He, Hk. f_equal. lia.
  - rewrite Hstr in Ht. lia.
Qed.

(** [Append] of a valid event: it succeeds, or it reports that the store is full
    or that the stream is; it never panics. *)
Lemma Append_spec b ev agg :
  backend_ok b → event_valid ev → Event_Aggregate ev = Some agg →
  let k := stream_key ev agg in
  match Append (Some ev) b with
  | (Ret _, b') => appended b b' k ev ∧
      (stream b k = None → entries b = total b → (total b' ≤ MaxKeys (Backend_Config b))%Z)
  | (Throw err, b') =>
      backend_ok b' ∧ Backend_Config b' = Backend_Config b ∧ store b' = store b ∧
      stream b' k = stream b k ∧ contents (buf b') ⊆ contents (buf b) ∧
      ((entries b' - total b' = entries b - total b)%Z ∧ (total b' ≤ total b)%Z) ∧
      (err = overflow_error k ∧ stream b k = None ∧ contents (buf b') = ∅ ∧
         (MaxKeys (Backend_Config b) ≤ entries b')%Z ∨
       err = limit_error k ∧
         (0 < MaxEventsPerKey (Backend_Config b) <
          Z.of_nat (length (default [] (stream b k))))%Z)
  | (Panic _, _) => False
  end.
Proof.
  intros Hok Hv Hagg. set (k := stream_key ev agg). simpl. unfold Append.
  rewrite (proj2 (ValidateEvent_valid ev ()) Hv). simpl. rewrite Hagg. simpl. fold k.
  destruct (get_spec k b (bo_lru _ Hok)) as (b1 & -> & Hsame).
  pose proof (same_ok _ _ Hsame Hok) as Hok1.
  pose proof Hsame as [Hc1 Hs1 He1 Hp1 Hl1 Hcap1 Hcon1].
  pose proof (same_stream _ _ k Hsame) as Hstr1.
  assert (total b1 = total b) as Ht1 by (unfold total; by rewrite Hs1, Hcon1).
  destruct (stream b k) as [es|] eqn:Hstr.
  - pose proof (append_to_spec b1 k ev agg Hok1 Hagg eq_refl) as Happ.
    rewrite Hstr1, Hs1, Hc1 in Happ. simpl in Happ.
    destruct (_ && _) eqn:Hlim.
    + rewrite Happ. apply andb_true_iff in Hlim as [?%bool_decide_eq_true ?%bool_decide_eq_true].
      split_and!; try done; [by rewrite Hcon1|by rewrite He1, Ht1|by rewrite Ht1|]. right. split; [done|]. simpl. lia.
    + destruct Happ as (b' & -> & Happ). split; [|done].
      eapply appended_before; [..|exact Happ]; try done.
      * by rewrite Hcon1.
      * by rewrite Hcon1.
      * by rewrite He1, Ht1.
      * by rewrite Ht1.
  - destruct (fitBuffer_spec b1 Hok1) as (b2 & -> & Hfit & Hor).
    pose proof (fitted_ok _ _ Hfit Hok1) as Hok2.
    pose proof (fitted_stream _ _ _ Hfit Hstr1) as Hstr2.
    pose proof (fitted_total _ _ Hfit) as Ht2.
    pose proof Hfit as [Hc2 Hs2 Hp2 Hl2 Hcap2 Hsub2 He2 Hr2].
    assert (contents (buf b2) ⊆ contents (buf b)) as Hsub by (by rewrite <- Hcon1).
    rewrite Hc1 in *. case_bool_decide as Hfull.
    + pose proof (append_to_spec b2 k ev agg Hok2 Hagg eq_refl) as Happ.
      rewrite Hstr2, Hs2, Hs1, Hc2 in Happ. simpl in Happ.
      destruct (_ && _) eqn:Hlim.
      { apply andb_true_iff in Hlim as [?%bool_decide_eq_true Hlt%bool_decide_eq_true]. simpl in Hlt. lia. }
      destruct Happ as (b' & -> & Happ). pose proof (ap_total _ _ _ _ Happ) as Htot.
      rewrite Hstr2, decide_False in Htot by (by intros []).
      split; [|intros _ Heq; rewrite <- He1, <- Ht1 in Heq; lia].
      eapply appended_before; [..|exact Happ]; try congruence.
      * exact Hsub.
      * assert (∀ b, stream b k = None → contents (buf b) !! k = None) as Hn
          by (intros b0; unfold stream; by destruct (store b0 !! k)).
        by rewrite (Hn b2), (Hn b).
      * rewrite <- Ht1. by eapply fitted_le.
    + split_and!; try congruence; [exact Hsub|rewrite <- Ht1; by eapply fitted_le|].
      left. split_and!; [done|done|by destruct Hor|lia].
Qed.


Lemma Append_ok b ev : backend_ok b → backend_ok (Append (Some ev) b).2.
Proof.
  intros Hok. destruct (ValidateEvent (Some ev)) as [[]|err|w] eqn:Hv.
  - apply ValidateEvent_valid in Hv. pose proof (event_valid_aggregate _ Hv) as (agg & Hagg & _).
    pose proof (Append_spec b ev agg Hok Hv Hagg) as Happ. simpl in Happ.
    destruct (Append (Some ev) b) as [[|err|w] b']; simpl; [by destruct Happ as [[] _]|by destruct Happ|done].
  - unfold Append. by rewrite Hv.
  - unfold Append. by rewrite Hv.
Qed.

Lemma Append_invalid b ev err :
  ValidateEvent (Some ev) = Throw err → Append (Some ev) b = (Throw err, b).
Proof. intros Hv. unfold Append. by rewrite Hv. Qed.

Lemma Get_spec k b :
  backend_ok b → aggregate_valid k →
  ∃ b', Get k b = (Ret (default [] (stream b k)), b') ∧ same b b'.
Proof.
  intros Hok Hk. unfold Get. apply ValidateAggregate_valid in Hk. rewrite Hk.
  destruct (get_spec k b (bo_lru _ Hok)) as (b' & -> & Hsame). eauto.
Qed.

Lemma Backend_Get_ok k b : backend_ok b → backend_ok (Get k b).2.
Proof.
  intros Hok. unfold Get. destruct (ValidateAggregate _); [done|].
  destruct (get_spec k b (bo_lru _ Hok)) as (b' & -> & Hsame). simpl. by eapply same_ok.
Qed.

Lemma NewBackend_ok {E} cfgs b :
  (∀ c, c ∈ cfgs → (MaxKeys c ≤ MaxInt32)%Z) → NewBackend (E := E) cfgs = Ret b →
  backend_ok b ∧ store b = ∅ ∧ contents (buf b) = ∅ ∧ entries b = 0%Z.
Proof.
  intros Hcfg. unfold NewBackend.
  set (cfg := match cfgs with [] => _ | _ :: _ => _ end).
  assert (0 < MaxKeys cfg ≤ MaxInt32)%Z as Hmax.
  { unfold cfg, MaxInt32. destruct cfgs as [|c cfgs]; simpl; [lia|].
    specialize (Hcfg c ltac:(set_solver)). unfold MaxInt32 in Hcfg. case_decide; lia. }
  pose proof (lru_New_spec (MaxKeys cfg)) as Hnew.
  destruct (lru_New (MaxKeys cfg)) as [c|]; [|done].
  destruct Hnew as (_ & Hl & Hcap & Hcon). intros [= <-]. split_and!; try done.
  split; simpl; try done.
  - by rewrite Hcon.
  - apply NewPublisher_ok.
  - intros k es. unfold stream. simpl. by rewrite lookup_empty, Hcon, lookup_empty.
Qed.

(** The states a client of the store can bring it into. *)
Inductive reachable (cfgs : list Config) : Backend → Prop :=
| reachable_new b : NewBackend (E := goerror) cfgs = Ret b → reachable cfgs b
| reachable_append b ev : reachable cfgs b → reachable cfgs (Append (Some ev) b).2
| reachable_get b k : reachable cfgs b → reachable cfgs (Get k b).2.

(** C19: The invariant of the store holds in every reachable state: a stream is active
    or completed and never both, the completed streams fit the LRU buffer, no
    stream is empty or longer than one event more than the configured limit, and
    every event of a stream belongs to it. *)
Theorem reachable_store_ok (cfgs : list Config) (b : Backend) :
  (∀ c, c ∈ cfgs → (MaxKeys c ≤ MaxInt32)%Z) → reachable cfgs b →
  (∀ k, is_Some (store b !! k) → contents (buf b) !! k = None) ∧
  (Z.of_nat (size (contents (buf b))) ≤ MaxKeys (Backend_Config b))%Z ∧
  (∀ k es, stream b k = Some es →
     es ≠ [] ∧
     ((0 < MaxEventsPerKey (Backend_Config b))%Z →
      (Z.of_nat (length es) ≤ MaxEventsPerKey (Backend_Config b) + 1)%Z) ∧
     ∀ ev, ev ∈ es → ∃ agg, Event_Aggregate ev = Some agg ∧ stream_key ev agg = k).
Proof.
  intros Hcfg Hr. assert (backend_ok b) as Hok.
  { induction Hr; [by eapply NewBackend_ok|by apply Append_ok|by apply Backend_Get_ok]. }
  split_and!; [apply Hok| |apply Hok].
  rewrite <- (bo_cap _ Hok). apply lru_bound, Hok.
Qed.

(** C20: A successful [Append] puts the event at the end of its stream, where [Get]
    finds it, keeps the stream active unless the event completes it, and leaves
    every other active stream as it was; a completed stream of another key keeps
    its events or is evicted as a whole. *)
Theorem Append_Get (b b' : Backend) (ev : Event) (agg : Aggregate) :
  backend_ok b → Event_Aggregate ev = Some agg →
  Append (Some ev) b = (Ret (), b') →
  let k := stream_key ev agg in
  (Get k b').1 = ((λ es, es ++ [ev]) <$> (Get k b).1) ∧
  (store b' !! k = None ↔ Completed ev = true) ∧
  (∀ k', k' ≠ k → store b' !! k' = store b !! k') ∧
  (∀ k', k' ≠ k → contents (buf b') !! k' = contents (buf b) !! k' ∨
                  contents (buf b') !! k' = None).
Proof.
  intros Hok Hagg Happ k.
  destruct (ValidateEvent (Some ev)) as [[]|err|w] eqn:Hv;
    [|by unfold Append in Happ; rewrite Hv in Happ..].
  apply ValidateEvent_valid in Hv.
  pose proof (Append_spec b ev agg Hok Hv Hagg) as Hs. rewrite Happ in Hs.
  destruct Hs as [[Hok' _ Hst Hpl Hact Hoth _ _ _] _]. fold k in Hst, Hpl, Hact, Hoth.
  assert (aggregate_valid k) as Hk.
  { unfold k, stream_key. destruct (Event_Parent ev) eqn:Hp; [by eapply Hv|].
    destruct (event_valid_aggregate _ Hv) as (a & Ha & ?). by simplify_eq. }
  destruct (Get_spec k b' Hok' Hk) as (? & -> & _), (Get_spec k b Hok Hk) as (? & -> & _).
  simpl. rewrite Hst. split_and!; [done| |done|done].
  rewrite Hpl, Hst. by destruct (Completed ev).
Qed.

(** A failing [Append] changes no active stream and not the stream of the event:
    an invalid event is rejected as it is, a new stream when the store is full
    even after every completed stream was evicted, any stream above its limit. *)
Theorem Append_error (b b' : Backend) (ev : Event) (err : goerror) :
  backend_ok b → Append (Some ev) b = (Throw err, b') →
  store b' = store b ∧
  (∀ agg, Event_Aggregate ev = Some agg →
     stream b' (stream_key ev agg) = stream b (stream_key ev agg)) ∧
  (ValidateEvent (Some ev) = Throw err ∧ b' = b ∨
   ∃ agg, Event_Aggregate ev = Some agg ∧
     (err = overflow_error (stream_key ev agg) ∧ stream b (stream_key ev agg) = None ∧
        contents (buf b') = ∅ ∧ (MaxKeys (Backend_Config b) ≤ entries b')%Z ∨
      err = limit_error (stream_key ev agg) ∧
        (0 < MaxEventsPerKey (Backend_Config b) <
         Z.of_nat (length (default [] (stream b (stream_key ev agg)))))%Z)).
Proof.
  intros Hok Happ. destruct (ValidateEvent (Some ev)) as [[]|err'|w] eqn:Hv.
  - apply ValidateEvent_valid in Hv. pose proof (event_valid_aggregate _ Hv) as (agg & Hagg & _).
    pose proof (Append_spec b ev agg Hok Hv Hagg) as Hs. rewrite Happ in Hs.
    destruct Hs as (_ & _ & Hst & Hstr & _ & _ & Herr). split_and!; [done| |].
    + intros agg' ?. by simplify_eq.
    + right. eauto.
  - rewrite (Append_invalid _ _ _ Hv) in Happ. simplify_eq. split_and!; [done|done|]. by left.
  - unfold Append in Happ. by rewrite Hv in Happ.
Qed.

(** Append the events in turn; the events that were accepted. *)
Fixpoint append_all b (evs : list Event) : list Event * Backend :=
  match evs with
  | [] => ([], b)
  | ev :: evs =>
      let '(r, b1) := Append (Some ev) b in
      let '(acc, b2) := append_all b1 evs in
      (match r with Ret _ => ev :: acc | _ => acc end, b2)
  end.

Definition belongs k ev : bool :=
  match Event_Aggregate ev with
  | Some agg => bool_decide (stream_key ev agg = k) | None => false end.

(** An active stream is never lost: while none of its events completes it, the
    store keeps all the accepted events of the stream, in the order in which they
    were appended, whatever else happens to the store. *)
Theorem active_stream_history (b : Backend) (evs : list Event) (k : Aggregate) :
  backend_ok b → Forall event_valid evs → contents (buf b) !! k = None →
  Forall (λ ev, belongs k ev = true → Completed ev = false) evs →
  let '(acc, b') := append_all b evs in
  default [] (stream b' k) = default [] (stream b k) ++ filter (λ ev, belongs k ev = true) acc ∧
  contents (buf b') !! k = None.
Proof.
  intros Hok Hv. revert b Hok. induction Hv as [|ev evs Hv Hvs IH]; intros b Hok Hn Hc; simpl.
  { by rewrite app_nil_r. }
  apply Forall_cons in Hc as [Hc Hcs].
  pose proof (event_valid_aggregate _ Hv) as (agg & Hagg & _).
  pose proof (Append_spec b ev agg Hok Hv Hagg) as Hs. simpl in Hs.
  pose proof (Append_ok b ev Hok) as Hok1.
  destruct (Append (Some ev) b) as [[[]|err|w] b1]; simpl in *; [| |done].
  - destruct Hs as [[_ _ Hst Hpl Hact Hoth _ _ _] _]. unfold belongs in Hc. rewrite Hagg in Hc.
    assert (contents (buf b1) !! k = None ∧
            default [] (stream b1 k) = default [] (stream b k) ++
              (if belongs k ev then [ev] else [])) as [Hn1 Hst1].
    { unfold belongs. rewrite Hagg. case_bool_decide as Hk.
      - subst k. rewrite Hst. split; [|done].
        rewrite Hc in Hpl by done. apply (bo_disjoint _ Hok1). rewrite Hpl. by eexists.
      - specialize (Hoth k ltac:(congruence)). specialize (Hact k ltac:(congruence)).
        split; [by destruct Hoth as [-> | ->]|]. rewrite app_nil_r. unfold stream. rewrite Hact.
        destruct (store b !! k); [done|]. by destruct Hoth as [-> | ->]; rewrite ?Hn. }
    specialize (IH b1 Hok1 Hn1 Hcs). destruct (append_all b1 evs) as [acc b2].
    rewrite filter_cons. destruct IH as [-> ?]. split; [|done].
    rewrite Hst1, <- app_assoc. f_equal. by destruct (belongs k ev).
  - destruct Hs as (_ & _ & Hst & Hstr & Hsub & _).
    assert (contents (buf b1) !! k = None) as Hn1.
    { destruct (contents (buf b1) !! k) as [es|] eqn:Hk; [|done].
      rewrite (lookup_weaken _ _ _ _ Hk Hsub) in Hn. done. }
    assert (stream b1 k = stream b k) as Hst1 by (unfold stream; by rewrite Hst, Hn, Hn1).
    specialize (IH b1 Hok1 Hn1 Hcs). destruct (append_all b1 evs) as [acc b2].
    by rewrite Hst1 in IH.
Qed.

Lemma total_nonneg b : (0 ≤ total b)%Z.
Proof. unfold total. lia. Qed.

(** The counter of the store is exact as long as nothing is appended to a
    completed stream, and then the limit on the number of streams holds. *)
Theorem Append_counted (b : Backend) (ev : Event) (agg : Aggregate) :
  backend_ok b → event_valid ev → Event_Aggregate ev = Some agg →
  contents (buf b) !! stream_key ev agg = None →
  entries b = total b → (total b ≤ MaxKeys (Backend_Config b))%Z →
  let b' := (Append (Some ev) b).2 in
  Backend_Len b' = total b' ∧ (total b' ≤ MaxKeys (Backend_Config b'))%Z.
Proof.
  intros Hok Hv Hagg Hn He Hmax. unfold Backend_Len.
  pose proof (Append_spec b ev agg Hok Hv Hagg) as Hs. simpl in Hs.
  pose proof (total_nonneg b) as Hpos. pose proof (bo_max _ Hok) as Hm. unfold MaxInt32 in Hm.
  destruct (Append (Some ev) b) as [[[]|err|w] b'] eqn:Happ; simpl in *; [| |done].
  - destruct Hs as [[_ Hcf Hst _ _ _ Hen Htot _] Hroom].
    rewrite Hcf, Hen, Hn, decide_False by (by intros []).
    assert (total b' ≤ MaxKeys (Backend_Config b))%Z as Hb'.
    { destruct (stream b (stream_key ev agg)) as [es|] eqn:Hstr; [|by apply Hroom].
      rewrite decide_True in Htot by (by eexists). lia. }
    split; [|done]. pose proof (total_nonneg b'). rewrite to_i32_id; lia.
  - destruct Hs as (_ & Hcf & _ & _ & _ & Hd & _). rewrite Hcf. lia.
Qed.
End backend_lemmas.

(** ** Concrete runs *)

Definition sample_event (id : string) (completed : bool) : Event :=
  MkEvent "" "Sample" (Some (MkAggregate id TypeInvocation)) (Some (MkTimestamp 1 0)) None None
    (Some (MkEventHints completed)) ∅.

(** Append the events in turn to a new store, with the list-based LRU cache. *)
Definition run_appends (cfg : Config) (evs : list Event) : list (res goerror ()) * option Backend :=
  match NewBackend (E := goerror) [cfg] with
  | Ret b =>
      let '(rs, b) := foldl (λ '(rs, b) ev, let '(r, b) := Append (Some ev) b in (rs ++ [r], b))
                            ([], b) evs in (rs, Some b)
  | _ => ([], None)
  end.

(** The limit on the number of streams can be passed: an event for a completed
    stream moves it back to the active streams, the eviction callback counts that
    as an eviction, and a store of one key then holds two active streams while
    [Len] reports one. *)
Theorem store_overcommitted :
  let '(rs, b) := run_appends (MkConfig 1 0)
                    [sample_event "a" true; sample_event "a" false; sample_event "b" false] in
  rs = [Ret (); Ret (); Ret ()] ∧
  (λ b, (Backend_Len b, total b, MaxKeys (Backend_Config b))) <$> b = Some (1, 2, 1)%Z.
Proof. vm_compute. done. Qed.
