(* ===== verification/Nats.v ===== *)
(** Component [pkg/fes/backend/nats]: the event store on NATS streaming.  The streaming server and
    its client library are parameters: a log of numbered messages per subject,
    publishing, and whether a subscription is granted.  The wildcard subscriptions, the activity
    channel and the event store on top of them are the code's.  What arrives at a subscription is
    read from the log of its channel; redelivery, metrics and logs are left out, but for what
    computing them can break. *)

From stdpp Require Import base gmap strings list pretty.
From S2P Require Import Prelude Data Types TypedValues FnRefs NetHttp Fes Pubsub MemBackend.
From Stdlib Require Import Ascii.

(** [pkg/fes/backend/nats/nats.go:15-20] subjectActivity *)
Definition subjectActivity : string := "_activity".
Definition mostRecentMsg : Z := 0.
Definition firstMsg : Z := 1.

(** ** Subjects *)

(** [strings.Split], with a separator of one letter. *)
Fixpoint split (d : ascii) (s : string) : list string :=
  match s with
  | EmptyString => [""]
  | String c s =>
      if decide (d = c) then "" :: split d s
      else match split d s with
           | part :: parts => String c part :: parts
           | [] => [String c ""]
           end
  end.

(** [pkg/fes/backend/nats/nats.go:310-312] hasWildcard *)
Definition hasWildcard (subject : string) : bool := negb (all_chars (λ c, negb (one_of "*>" c)) subject).

(** The loop of [queryMatches]; [n] is the number of letters of the query. *)
Fixpoint match_parts (n : nat) (queryParts : list string) (key : nat) (parts : list string) : res goerror bool :=
  match parts with
  | [] => Ret true
  | part :: parts =>
      if decide (part = "") then Ret false else
      if decide (n < key) then Ret false else
      match queryParts !! key with
      | None => Panic "index out of range"
      | Some q =>
          if decide (q = ">") then Ret true else
          if decide (q = "*") then match_parts n queryParts (S key) parts else
          if decide (q ≠ part) then Ret false else match_parts n queryParts (S key) parts
      end
  end.

(** [pkg/fes/backend/nats/nats.go:314-340] queryMatches *)
Definition queryMatches (subject query : string) : res goerror bool :=
  match_parts (String.length query) (split "." query) 0 (split "." subject).

(** [pkg/fes/backend/nats/client.go:295-304] toAggregate *)
Definition toAggregate (subject : string) : option Aggregate :=
  match cut "." subject with
  | (_, None) => None
  | (ty, Some id) => Some (MkAggregate id ty)
  end.

(** [pkg/fes/backend/nats/client.go:306-308] toSubject *)
Definition toSubject (a : Aggregate) : string := Aggregate_Type a +:+ "." +:+ Aggregate_Id a.

(** [subject[:strings.Index(subject, ".")]], the label of the gauge of subscriptions. *)
Definition subscription_label (subject : string) : res goerror string :=
  match cut "." subject with
  | (label, Some _) => Ret label
  | (_, None) => Panic "slice bounds out of range"
  end.

(** ** The server *)

Record Msg := MkMsg { Msg_Sequence : Z; Msg_Subject : string; Msg_Data : string }.

(** The server and its client library, over the state [S] of the server. *)
Class Stan (S : Type) := {
  stan_Publish : string → string → st S goerror ();
  stan_Subscribe : string → S → option goerror;
  stan_Unsubscribe : string → S → option goerror;
  stan_log : string → S → list Msg }.

(** A published message is the last of the log of its subject, under the next number; when the
    acknowledgement does not come, the server may or may not have it. *)
Class StanLaws (S : Type) `{Stan S} := {
  stan_log_sequence : ∀ subject s i m, stan_log subject s !! i = Some m → Msg_Sequence m = (Z.of_nat i + 1)%Z;
  stan_Publish_log : ∀ subject data s r s', stan_Publish subject data s = (r, s') →
    let stored := stan_log subject s ++ [MkMsg (Z.of_nat (length (stan_log subject s)) + 1)%Z subject data] in
    (∀ other, other ≠ subject → stan_log other s' = stan_log other s) ∧
    match r with
    | Ret _ => stan_log subject s' = stored
    | Throw _ => stan_log subject s' = stan_log subject s ∨ stan_log subject s' = stored
    | Panic _ => False
    end }.

(** [pkg/fes/backend/nats/nats.go:29-32] subjectEvent *)
Record subjectEvent := MkSubjectEvent { SubjectEvent_Subject : string; SubjectEvent_Type : Z }.

(** [pkg/fes/backend/nats/nats.go:22-22] eventType *)
Definition noop : Z := 0.
Definition deleted : Z := 1.

(** [encoding/json] on announcements and [proto] on events; [json_text] are the texts JSON
    carries as they are. *)
Class EventCodecs := {
  json_Marshal : subjectEvent → option string;
  json_Unmarshal : string → option subjectEvent;
  json_text : string → Prop;
  proto_Marshal_Event : Event → option string;
  proto_Unmarshal_Event : string → option Event }.

Class EventCodecLaws `{EventCodecs} := {
  json_roundtrip : ∀ e d, json_Marshal e = Some d → json_text (SubjectEvent_Subject e) → json_Unmarshal d = Some e;
  proto_Event_roundtrip : ∀ e d, proto_Marshal_Event e = Some d → proto_Unmarshal_Event d = Some e }.

Section nats.
Context `{MapRange} {S : Type} `{!Stan S} `{EventCodecs}.

(** ** [Conn] *)

(** What a subscription receives of a log that starts with the last message ([start] is zero) or
    at a number. *)
Definition deliveries (start : Z) (log : list Msg) : list Msg :=
  if decide (start = 0)%Z then match last log with Some m => [m] | None => [] end
  else filter (λ m, start ≤ Msg_Sequence m)%Z log.

(** The messages up to the one numbered [seqEnd]; [None] is waiting for it forever. *)
Fixpoint until_seq (seqEnd : Z) (msgs : list Msg) : option (list Msg) :=
  match msgs with
  | [] => None
  | m :: msgs => if decide (Msg_Sequence m = seqEnd) then Some [m] else (m ::.) <$> until_seq seqEnd msgs
  end.

Definition boundary (subject : string) (seqEnd : Z) (before : S) : res goerror Z :=
  if decide (seqEnd = 0)%Z then
    match stan_Subscribe subject before with
    | Some err => Throw err
    | None =>
        match last (stan_log subject before) with
        | Some m => Ret (Msg_Sequence m)
        | None => Throw (ErrFmt "timed out while finding boundary for Subject")
        end
    end
  else Ret seqEnd.

(** The range is fetched in two subscriptions: the boundary is found in the server [before], the
    messages arrive from the server [after].  [None] is a call that does not return: its
    reader has no timeout, and the one of the sender cannot expire. *)
(** [pkg/fes/backend/nats/nats.go:61-132] Conn.MsgSeqRange *)
Definition MsgSeqRange (subject : string) (seqStart seqEnd : Z) (before after : S) : option (res goerror (list Msg)) :=
  match boundary subject seqEnd before with
  | Throw err => Some (Throw err)
  | Panic w => Some (Panic w)
  | Ret seqEnd =>
      if decide (seqEnd < seqStart)%Z then Some (Throw (ErrFmt "seqStart can not be larger than seqEnd"))
      else match stan_Subscribe subject after with
           | Some err => Some (Throw err)
           | None => Ret <$> until_seq seqEnd (deliveries seqStart (stan_log subject after))
           end
  end.

(** [pkg/fes/backend/nats/nats.go:50-59] Conn.Msg *)
Definition Conn_Msg (subject : string) (seqID : Z) (before after : S) : option (res goerror (option Msg)) :=
  r ← MsgSeqRange subject seqID seqID before after;
  Some (msgRange ← r; Ret (head msgRange)).

(** ** [WildcardConn], publishing and listing *)

(** [pkg/fes/backend/nats/nats.go:231-248] WildcardConn.publishActivity *)
Definition publishActivity (activity : subjectEvent) : st S goerror () :=
  match json_Marshal activity with
  | None => throw (ErrFmt "json")
  | Some subjectData => stan_Publish subjectActivity subjectData
  end.

(** That the announcement fails is logged only. *)
(** [pkg/fes/backend/nats/nats.go:212-229] WildcardConn.Publish *)
Definition wc_Publish (subject data : string) : st S goerror () :=
  _ ← stan_Publish subject data;
  catch (publishActivity (MkSubjectEvent subject noop)) (λ _, mret ()).

(** One message of the loop of [List]. *)
Definition count_subject (matcher : option (Aggregate → bool)) (subjectCount : gmap string nat) (msg : Msg) :
    gmap string nat :=
  match json_Unmarshal (Msg_Data msg) with
  | None => subjectCount
  | Some ev =>
      let subject := SubjectEvent_Subject ev in
      if (match matcher, toAggregate subject with
          | None, _ => true | Some m, Some aggregate => m aggregate | Some _, None => false end)
      then <[subject := 1 + default 0 (subjectCount !! subject)]> subjectCount
      else subjectCount
  end.

(** [pkg/fes/backend/nats/nats.go:252-287] WildcardConn.List *)
Definition wc_List (matcher : option (Aggregate → bool)) (before after : S) : option (res goerror (list string)) :=
  r ← MsgSeqRange subjectActivity firstMsg mostRecentMsg before after;
  Some (msgs ← r; Ret (range 0 (foldl (count_subject matcher) ∅ msgs)).*1).

(** ** [EventStore], appending and reading *)

Definition event_with_id (e : Event) (id : string) : Event :=
  MkEvent id (Event_Type e) (Event_Aggregate e) (Event_Timestamp e) (Event_Data e) (Event_Parent e)
    (Event_Hints e) (Event_Metadata e).

(** [pkg/fes/backend/nats/client.go:310-319] toEvent *)
Definition toEvent (msg : Msg) : res goerror Event :=
  match proto_Unmarshal_Event (Msg_Data msg) with
  | None => Throw (ErrFmt "proto")
  | Some e => Ret (event_with_id e (pretty (Msg_Sequence msg)))
  end.

(** [pkg/fes/backend/nats/client.go:225-253] EventStore.Append *)
Definition nats_Append (event : option Event) : st S goerror () :=
  _ ← lift (ValidateEvent event);
  ev ← lift (deref event);
  aggregate ← lift (deref (Event_Aggregate ev));
  let subject := match Event_Parent ev with Some parent => toSubject parent | None => toSubject aggregate end in
  match proto_Marshal_Event ev with
  | None => throw (ErrFmt "proto")
  | Some data => wc_Publish subject data
  end.

Definition toEvents (msgs : list Msg) : res goerror (list Event) :=
  foldM (λ results msg, event ← toEvent msg; Ret (results ++ [event])) [] msgs.

(** [pkg/fes/backend/nats/client.go:256-278] EventStore.Get *)
Definition nats_Get (aggregate : Aggregate) (before after : S) : option (res goerror (list Event)) :=
  match ValidateAggregate (Some aggregate) with
  | Some err => Some (Throw err)
  | None =>
      r ← MsgSeqRange (toSubject aggregate) firstMsg mostRecentMsg before after;
      Some (msgs ← r; toEvents msgs)
  end.

(** [pkg/fes/backend/nats/client.go:281-293] EventStore.List *)
Definition nats_List (matcher : option (Aggregate → bool)) (before after : S) : option (res goerror (list Aggregate)) :=
  r ← wc_List matcher before after;
  Some (subjects ← r;
        foldM (λ results subject, a ← deref (toAggregate subject); Ret (results ++ [a])) [] subjects).
(** ** Subscriptions

    A subscription reads the log of its channel from a position; one on a wildcard subject reads
    the activity channel, and holds the subscriptions it made itself ([nil] where that failed). *)

(** [pkg/fes/backend/nats/nats.go:290-294] WildcardSub *)
Record WildcardSub := MkWildcardSub {
  ws_subject : string;
  ws_sources : gmap string (option nat) }.

Record Sub := MkSub {
  Sub_channel : string;
  Sub_position : nat;
  Sub_closed : bool;
  Sub_wildcard : option WildcardSub }.

(** The client: the server behind its connection, the subscriptions of the connection, the
    publisher, and the subscriptions of [Watch]. *)
(** [pkg/fes/backend/nats/client.go:40-47] EventStore *)
Record EventStore := MkEventStore {
  es_server : S;
  es_conn : list Sub;
  es_publisher : DefaultPublisher Event;
  es_subs : gmap Aggregate nat }.

(** [pkg/fes/backend/nats/client.go:56-63] NewEventStore *)
Definition NewEventStore (s : S) : EventStore := MkEventStore s [] (NewPublisher Event) ∅.

Notation M := (st EventStore goerror).

Definition set_server (s : S) (es : EventStore) : EventStore :=
  MkEventStore s (es_conn es) (es_publisher es) (es_subs es).
Definition set_conn (c : list Sub) (es : EventStore) : EventStore :=
  MkEventStore (es_server es) c (es_publisher es) (es_subs es).
Definition set_publisher (p : DefaultPublisher Event) (es : EventStore) : EventStore :=
  MkEventStore (es_server es) (es_conn es) p (es_subs es).

Definition on_server {A} (m : st S goerror A) : M A := λ es,
  let '(r, s) := m (es_server es) in (r, set_server s es).

Definition conn_Subscribe (channel : string) (wildcard : option WildcardSub) : M nat := λ es,
  match stan_Subscribe channel (es_server es) with
  | Some err => (Throw err, es)
  | None => (Ret (length (es_conn es)), set_conn (es_conn es ++ [MkSub channel 0 false wildcard]) es)
  end.

(** Every subscription of the code delivers all messages that are available. *)
(** [pkg/fes/backend/nats/nats.go:145-210] WildcardConn.Subscribe *)
Definition wc_Subscribe (wildcardSubject : string) : M nat :=
  if hasWildcard wildcardSubject
  then conn_Subscribe subjectActivity (Some (MkWildcardSub wildcardSubject ∅))
  else conn_Subscribe wildcardSubject None.

Definition close_sub (i : nat) : M () := λ es,
  match es_conn es !! i with
  | None => (Panic "nil pointer dereference", es)
  | Some sub =>
      match stan_Unsubscribe (Sub_channel sub) (es_server es) with
      | Some err => (Throw err, es)
      | None => (Ret (), set_conn (<[i := MkSub (Sub_channel sub) (Sub_position sub) true (Sub_wildcard sub)]> (es_conn es)) es)
      end
  end.

Definition update_sources (i : nat) (f : gmap string (option nat) → gmap string (option nat)) : M () :=
  modifyS (λ es, set_conn (alter (λ sub, MkSub (Sub_channel sub) (Sub_position sub) (Sub_closed sub)
    ((λ ws, MkWildcardSub (ws_subject ws) (f (ws_sources ws))) <$> Sub_wildcard sub)) i (es_conn es)) es).

(** A source is a subscription on a subject without wildcards, the only subjects a server lets be
    published on, so that closing it is closing one subscription. *)
(** The callback of [Subscribe] on the activity channel, for the subscription [i] whose wildcard
    subject and sources are [ws]. *)
(** [pkg/fes/backend/nats/nats.go:155-202] WildcardConn.Subscribe: the handler of an announcement *)
Definition on_activity (i : nat) (ws : WildcardSub) (msg : Msg) : M () :=
  match json_Unmarshal (Msg_Data msg) with
  | None => mret ()
  | Some (MkSubjectEvent subject ty) =>
      matches ← lift (queryMatches subject (ws_subject ws));
      if negb matches then mret () else
      if decide (ty = noop) then
        match ws_sources ws !! subject with
        | Some _ => mret ()
        | None =>
            sub ← catch (sub ← wc_Subscribe subject; mret (Some sub)) (λ _, mret None);
            _ ← update_sources i <[subject := sub]>;
            _ ← lift (subscription_label subject);
            mret ()
        end
      else if decide (ty = deleted) then
        match ws_sources ws !! subject with
        | None => mret ()
        | Some None => lift (Panic "nil pointer dereference")
        | Some (Some source) =>
            _ ← catch (close_sub source) (λ _, mret ());
            _ ← lift (subscription_label subject);
            mret ()
        end
      else lift (Panic "Unknown eventType")
  end.

(** The callback of [Watch]; reading the aggregate for the log panics on an event without one. *)
(** [pkg/fes/backend/nats/client.go:178-203] EventStore.Watch: the handler of a message *)
Definition on_event (msg : Msg) : M () := λ es,
  match toEvent msg with
  | Panic w => (Panic w, es)
  | Throw _ => (Ret (), es)
  | Ret event =>
      match Event_Aggregate event with
      | None => (Panic "nil pointer dereference", es)
      | Some _ =>
          match Publish (E := goerror) event_labels (es_publisher es) event with
          | Ret p => (Ret (), set_publisher p es)
          | Throw err => (Ret (), es)
          | Panic w => (Panic w, es)
          end
      end
  end.

(** The next message of a subscription and the messages it has seen. *)
Definition next_msg (es : EventStore) (sub : Sub) : option Msg :=
  stan_log (Sub_channel sub) (es_server es) !! Sub_position sub.

(** The client library hands the subscription [i] its next message, if there is one. *)
Definition deliver_next (i : nat) : M () := λ es,
  match es_conn es !! i with
  | None => (Ret (), es)
  | Some sub =>
      if Sub_closed sub then (Ret (), es) else
      match next_msg es sub with
      | None => (Ret (), es)
      | Some msg =>
          let es := set_conn (<[i := MkSub (Sub_channel sub) (Datatypes.S (Sub_position sub)) false (Sub_wildcard sub)]> (es_conn es)) es in
          match Sub_wildcard sub with
          | Some ws => on_activity i ws msg es
          | None => on_event msg es
          end
      end
  end.

(** [pkg/fes/backend/nats/client.go:169-211] EventStore.Watch *)
Definition Watch (aggregate : Aggregate) : M () :=
  let aggregate := if decide (Aggregate_Id aggregate = "") then MkAggregate "*" (Aggregate_Type aggregate) else aggregate in
  _ ← lift (match ValidateAggregate (Some aggregate) with Some err => Throw err | None => Ret () end);
  sub ← wc_Subscribe (Aggregate_Type aggregate +:+ ".>");
  modifyS (λ es, MkEventStore (es_server es) (es_conn es) (es_publisher es) (<[aggregate := sub]> (es_subs es))).

(** The sources of a wildcard subscription are closed whatever the error of the first is; the
    error of the last is returned. *)
(** [pkg/fes/backend/nats/nats.go:296-304] WildcardSub.Unsubscribe *)
Definition ws_Unsubscribe (i : nat) (ws : WildcardSub) : M (option goerror) :=
  let attempt j : M (option goerror) := catch (_ ← close_sub j; mret None) (λ err, mret (Some err)) in
  err ← attempt i;
  loopM (λ err '(id, source),
    j ← lift (deref (source : option nat));
    err ← attempt j;
    _ ← update_sources i (delete id);
    mret err) err (range 0 (ws_sources ws)).

(** A new connection has the subscriptions of [Watch] only; the error of connecting is a parameter. *)
(** [pkg/fes/backend/nats/client.go:95-119] EventStore.reconnect *)
Definition reconnect (connected : option goerror) : M () :=
  match connected with
  | Some err => throw err
  | None =>
      _ ← modifyS (set_conn []);
      es ← getS;
      loopM (λ _ '(key, _), Watch key) () (range 0 (es_subs es))
  end.
End nats.

(** ** Subjects and aggregates *)

Lemma split_cut d s : split d s = match cut d s with (a, None) => [a] | (a, Some b) => a :: split d b end.
Proof.
  induction s as [|c s IH]; [done|]. cbn. case_decide; [done|]. rewrite IH. by destruct (cut d s) as [a []].
Qed.

(** The name of a type: no dots and no wildcards. *)
Definition plain_type (ty : string) : Prop := ty ≠ "" ∧ without "." ty ∧ hasWildcard ty = false.

(** The subjects of a type: those whose first part is the type, and whose second part, if there is
    one, is not empty. *)
Definition covers (ty subject : string) : bool :=
  let '(a, rest) := cut "." subject in
  bool_decide (a = ty) && match rest with None => true | Some r => negb (bool_decide ((cut "." r).1 = "")) end.

Lemma queryMatches_type ty subject : plain_type ty →
  queryMatches subject (ty +:+ ".>") = Ret (covers ty subject).
Proof.
  intros (Hne & Hdot & Hwild). unfold queryMatches, covers.
  assert (split "." (ty +:+ ".>") = [ty; ">"]) as -> by (rewrite split_cut, cut_app by done; done).
  rewrite string_length_app. rewrite (split_cut "." subject).
  assert (ty ≠ ">" ∧ ty ≠ "*") as [Hgt Hstar] by (split; intros ->; by vm_compute in Hwild).
  destruct (cut "." subject) as [a rest] eqn:Hcut.
  assert (∀ parts, match_parts (String.length ty + 2) [ty; ">"] 0 (a :: parts) =
    if decide (a = ty) then match_parts (String.length ty + 2) [ty; ">"] 1 parts else Ret false) as Hhead.
  { intros parts. cbn [match_parts lookup list_lookup]. destruct (decide (a = "")) as [->|Ha].
    - by rewrite decide_False.
    - rewrite decide_False by lia. rewrite !(decide_False (P := ty = _)) by done.
      destruct (decide (a = ty)) as [->|Hat]; [by rewrite decide_False by tauto|by rewrite decide_True]. }
  destruct rest as [r|].
  - rewrite Hhead. case_decide as Ha; [|by rewrite bool_decide_false].
    rewrite bool_decide_true by done. rewrite split_cut. destruct (cut "." r) as [b [r'|]].
    all: cbn [match_parts lookup list_lookup fst]; destruct (decide (b = "")) as [->|Hb]; [done|].
    all: rewrite decide_False by lia; rewrite decide_True by done; by rewrite bool_decide_false.
  - rewrite Hhead. case_decide; [by rewrite bool_decide_true|by rewrite bool_decide_false].
Qed.

Lemma toAggregate_toSubject a : without "." (Aggregate_Type a) → toAggregate (toSubject a) = Some a.
Proof.
  intros Hd. unfold toAggregate, toSubject. change ("." +:+ Aggregate_Id a) with (String "." (Aggregate_Id a)).
  rewrite cut_app by done. by destruct a.
Qed.

Lemma toSubject_toAggregate subject a : toAggregate subject = Some a → toSubject a = subject.
Proof.
  unfold toAggregate. pose proof (cut_inv "." subject) as Hc.
  destruct (cut "." subject) as [ty [id|]]; [|done]. destruct Hc as [-> _]. by intros [= <-].
Qed.

Lemma toSubject_dotted a : ¬ without "." (toSubject a).
Proof.
  unfold toSubject. intros [_ Hw]%without_app. change ("." +:+ Aggregate_Id a) with (String "." (Aggregate_Id a)) in Hw.
  by vm_compute in Hw.
Qed.

Lemma toSubject_not_activity a : toSubject a ≠ subjectActivity.
Proof. intros Ha. apply (toSubject_dotted a). rewrite Ha. by vm_compute. Qed.

Lemma toSubject_label a : ∃ label, subscription_label (toSubject a) = Ret label.
Proof.
  unfold subscription_label. pose proof (cut_inv "." (toSubject a)) as Hc.
  destruct (cut "." (toSubject a)) as [label [rest|]]; [eauto|]. destruct Hc as [_ Hw]. by apply toSubject_dotted in Hw.
Qed.

(** ** The store *)

Section store.
Context `{MapRange} {S : Type} `{!Stan S} `{!StanLaws S} `{EventCodecs} `{!EventCodecLaws}.

(** The subscriptions of a range are granted, and nothing is lost between them. *)
Record readable (subject : string) (before after : S) : Prop := {
  readable_before : stan_Subscribe subject before = None;
  readable_after : stan_Subscribe subject after = None;
  readable_prefix : stan_log subject before `prefix_of` stan_log subject after }.

Lemma until_seq_prefix k (log rest : list Msg) :
  (∀ i m, (log ++ rest) !! i = Some m → Msg_Sequence m = k + Z.of_nat i + 1)%Z → log ≠ [] →
  until_seq (k + Z.of_nat (length log))%Z (log ++ rest) = Some log.
Proof.
  revert k. induction log as [|m log IH]; intros k Hseq Hne; [done|].
  pose proof (Hseq 0%nat m eq_refl) as Hm. cbn [app until_seq length].
  destruct log as [|m' log].
  - rewrite decide_True by (cbn [length]; lia). done.
  - rewrite decide_False by (cbn [length]; lia).
    replace (k + Z.of_nat (Datatypes.S (length (m' :: log))))%Z with (k + 1 + Z.of_nat (length (m' :: log)))%Z by lia.
    rewrite IH; [done| |done]. intros i m2 Hi. rewrite (Hseq (Datatypes.S i) m2 Hi). lia.
Qed.

Definition no_boundary : goerror := ErrFmt "timed out while finding boundary for Subject".

Lemma MsgSeqRange_all subject (before after : S) : readable subject before after →
  MsgSeqRange subject firstMsg mostRecentMsg before after =
  Some (match stan_log subject before with [] => Throw no_boundary | log => Ret log end).
Proof.
  intros [Hb Ha [rest Hp]]. unfold MsgSeqRange, boundary, mostRecentMsg, firstMsg. rewrite decide_True by done.
  rewrite Hb, last_lookup. destruct (stan_log subject before) as [|m0 log] eqn:Hlog; [done|].
  destruct ((m0 :: log) !! pred (length (m0 :: log))) as [m|] eqn:Hl.
  2:{ apply lookup_ge_None in Hl. cbn [length pred] in Hl. lia. }
  assert (∀ i m, stan_log subject after !! i = Some m → Msg_Sequence m = 0 + Z.of_nat i + 1)%Z as Hseq.
  { intros i m' Hi. rewrite (stan_log_sequence _ _ _ _ Hi). lia. }
  assert (Msg_Sequence m = 0 + Z.of_nat (length (m0 :: log)))%Z as Hm.
  { rewrite (Hseq (pred (length (m0 :: log))) m); [cbn [length pred]; lia|].
    rewrite Hp. by apply lookup_app_l_Some. }
  rewrite decide_False by (rewrite Hm; cbn [length]; lia). rewrite Ha. unfold deliveries.
  rewrite decide_False by done. rewrite filter_all.
  2:{ intros x Hx. apply list_elem_of_lookup in Hx as [i Hi]. rewrite (Hseq i x Hi). lia. }
  rewrite Hm, Hp, until_seq_prefix; [done| |done]. by rewrite <- Hp.
Qed.

(** What publishing does to the logs. *)
Lemma wc_Publish_log subject data (s s' : S) r : subject ≠ subjectActivity → wc_Publish subject data s = (r, s') →
  let stored := stan_log subject s ++ [MkMsg (Z.of_nat (length (stan_log subject s)) + 1) subject data] in
  (∀ other, other ≠ subject → other ≠ subjectActivity → stan_log other s' = stan_log other s) ∧
  (stan_log subjectActivity s' = stan_log subjectActivity s ∨
   ∃ d, json_Marshal (MkSubjectEvent subject noop) = Some d ∧ stan_log subjectActivity s' =
     stan_log subjectActivity s ++ [MkMsg (Z.of_nat (length (stan_log subjectActivity s)) + 1) subjectActivity d]) ∧
  match r with
  | Ret _ => stan_log subject s' = stored
  | Throw _ => stan_log subject s' = stan_log subject s ∨ stan_log subject s' = stored
  | Panic _ => False
  end.
Proof.
  intros Hne. unfold wc_Publish, mbind, st_bind.
  destruct (stan_Publish subject data s) as [r1 s1] eqn:Hp1. apply stan_Publish_log in Hp1 as [Hother1 Hr1].
  destruct r1 as [u|e|w]; [|intros [= <- <-]; split_and!; [auto|left; by apply Hother1|done]|done].
  unfold catch, publishActivity. destruct (json_Marshal _) as [d|] eqn:Hj.
  2:{ intros [= <- <-]. split_and!; [auto|left; by apply Hother1|done]. }
  destruct (stan_Publish subjectActivity d s1) as [r2 s2] eqn:Hp2. apply stan_Publish_log in Hp2 as [Hother2 Hr2].
  rewrite (Hother1 subjectActivity) in Hr2 by done.
  intros Hend. assert (r = Ret () ∧ s' = s2) as [-> ->].
  { destruct r2 as [[]|e|w]; [by injection Hend as <- <-|by injection Hend as <- <-|done]. }
  split_and!.
  - intros other Hn1 Hn2. rewrite Hother2, Hother1; done.
  - destruct r2 as [[]|e|w]; [eauto| |done]. destruct Hr2; eauto.
  - by rewrite Hother2.
Qed.

Lemma nats_Append_inv ev (s s' : S) r : nats_Append (Some ev) s = (r, s') →
  (∃ key data, event_key ev = Some key ∧ aggregate_valid key ∧ event_valid ev ∧
    proto_Marshal_Event ev = Some data ∧ wc_Publish (toSubject key) data s = (r, s')) ∨
  (s' = s ∧ ∃ e, r = Throw e).
Proof.
  unfold nats_Append, mbind, st_bind, lift.
  destruct (ValidateEvent (Some ev)) as [[]|e|w] eqn:Hv; [|intros [= <- <-]; eauto|].
  2:{ intros _. pose proof (ValidateEvent_no_panic ev) as Hn. by rewrite Hv in Hn. }
  apply ValidateEvent_valid in Hv. pose proof Hv as [_ (a & Ha & Hva) Hp _]. cbn [deref]. rewrite Ha. cbn [deref].
  destruct (proto_Marshal_Event ev) as [data|]; [|intros [= <- <-]; eauto].
  intros Hw. left. destruct (Event_Parent ev) as [p|] eqn:Hpar; [exists p, data|exists a, data];
    (split_and!; [|by auto|done|done|done]); unfold event_key; rewrite Hpar; done.
Qed.

Lemma toEvents_app (l1 l2 : list Msg) : toEvents (l1 ++ l2) = (evs ← toEvents l1;
  foldM (λ results msg, event ← toEvent msg; Ret (results ++ [event])) evs l2).
Proof. apply foldM_app. Qed.

(** The events of a stream as they are read: numbered from one. *)
Definition numbered (evs : list Event) : list Event :=
  imap (λ i ev, event_with_id ev (pretty (Z.of_nat i + 1)%Z)) evs.

Definition history (key : Aggregate) (evs : list Event) : list Event := filter (λ ev, event_key ev = Some key) evs.

Definition in_plain_stream (ev : Event) : Prop := ∀ key, event_key ev = Some key → without "." (Aggregate_Type key).

Lemma numbered_snoc evs ev : numbered (evs ++ [ev]) = numbered evs ++ [event_with_id ev (pretty (Z.of_nat (length evs) + 1)%Z)].
Proof. unfold numbered. rewrite imap_app. cbn. by rewrite Nat.add_0_r. Qed.

Lemma length_numbered evs : length (numbered evs) = length evs.
Proof. apply length_imap. Qed.

Lemma nats_Append_stream ev key evs (s s' : S) :
  in_plain_stream ev → without "." (Aggregate_Type key) → nats_Append (Some ev) s = (Ret (), s') →
  length (stan_log (toSubject key) s) = length evs → toEvents (stan_log (toSubject key) s) = Ret (numbered evs) →
  let evs' := evs ++ history key [ev] in
  length (stan_log (toSubject key) s') = length evs' ∧ toEvents (stan_log (toSubject key) s') = Ret (numbered evs').
Proof.
  intros Hplain Hkey Happ Hlen Hevs.
  destruct (nats_Append_inv _ _ _ _ Happ) as [(k & data & Hk & _ & _ & Hd & Hpub)|[_ [e [=]]]].
  apply wc_Publish_log in Hpub as (Hother & _ & Hstored); [|apply toSubject_not_activity].
  unfold history. rewrite filter_cons. destruct (decide (event_key ev = Some key)) as [He|He].
  - assert (k = key) as -> by congruence. rewrite Hstored, toEvents_app, Hevs, filter_nil. cbn [mbind res_bind foldM].
    unfold toEvent at 1. cbn [Msg_Data Msg_Sequence]. rewrite (proto_Event_roundtrip _ _ Hd). cbn [mbind res_bind].
    rewrite Hlen, numbered_snoc, !length_app. cbn. by rewrite Hlen.
  - rewrite filter_nil, List.app_nil_r. rewrite Hother; [done| |apply toSubject_not_activity].
    intros Heq. apply He. rewrite Hk. f_equal.
    assert (toAggregate (toSubject key) = toAggregate (toSubject k)) as Ht by (by rewrite Heq).
    rewrite !toAggregate_toSubject in Ht by auto. by injection Ht as ->.
Qed.

(** C21: The store keeps the history of every aggregate.  After any sequence of acknowledged appends to
    an empty server, in which the names of the types have no dots, reading a
    valid aggregate returns the events of the sequence that belong to it, as their aggregate or as
    their parent, in their order and numbered from one, whatever is appended while
    it is read; of an aggregate without events it is an error, and not an empty list. *)
Theorem nats_history (evs : list Event) (s s' after : S) (key : Aggregate) :
  (∀ subject, stan_log subject s = []) → Forall in_plain_stream evs →
  loopM (λ _ ev, nats_Append (Some ev)) () evs s = (Ret (), s') →
  aggregate_valid key → without "." (Aggregate_Type key) → readable (toSubject key) s' after →
  nats_Get key s' after =
  Some (match history key evs with [] => Throw no_boundary | l => Ret (numbered l) end).
Proof.
  intros Hempty Hplain Hrun Hvalid Hdot Hread.
  assert (length (stan_log (toSubject key) s') = length (history key evs) ∧
          toEvents (stan_log (toSubject key) s') = Ret (numbered (history key evs))) as [Hlen Hevs].
  { assert (length (stan_log (toSubject key) s) = length (@nil Event) ∧
            toEvents (stan_log (toSubject key) s) = Ret (numbered [])) as [Hl0 He0] by (by rewrite Hempty).
    change (history key evs) with ([] ++ history key evs). revert Hl0 He0. generalize (@nil Event).
    clear Hempty Hread. revert s Hrun. induction evs as [|ev evs IH]; intros s Hrun pre Hl0 He0.
    - injection Hrun as <-. by rewrite List.app_nil_r.
    - apply Forall_cons in Hplain as [Hev Hplain]. cbn [loopM] in Hrun.
      apply st_bind_inv in Hrun as ([] & s1 & Hs1 & Hs2).
      destruct (nats_Append_stream ev key pre s s1 Hev Hdot Hs1 Hl0 He0) as [Hl1 He1].
      destruct (IH Hplain s1 Hs2 _ Hl1 He1) as [Hl He]. rewrite <- List.app_assoc in Hl, He.
      unfold history in *. by rewrite <- filter_app in Hl, He. }
  unfold nats_Get. apply ValidateAggregate_valid in Hvalid. rewrite Hvalid, MsgSeqRange_all by done.
  cbn [mbind option_bind]. f_equal. destruct (stan_log (toSubject key) s') as [|m log] eqn:Hlog.
  - by destruct (history key evs).
  - cbn [mbind res_bind]. rewrite Hevs. by destruct (history key evs).
Qed.

(** ** Listing *)

(** An announcement of [subject] among the messages of the activity channel. *)
Definition announces (subject : string) (m : Msg) : Prop :=
  ∃ ev, json_Unmarshal (Msg_Data m) = Some ev ∧ SubjectEvent_Subject ev = subject.
Definition announced (msgs : list Msg) (subject : string) : Prop := ∃ m, m ∈ msgs ∧ announces subject m.

Lemma announced_snoc msgs m subject : announced (msgs ++ [m]) subject ↔ announced msgs subject ∨ announces subject m.
Proof.
  unfold announced. split.
  - intros (m' & [Hm|Hm%list_elem_of_singleton]%elem_of_app & Ha); [eauto|subst; eauto].
  - intros [(m' & Hm & Ha)|Ha]; [exists m'|exists m]; (split; [|done]); apply elem_of_app; [auto|right; by left].
Qed.

Definition selected (matcher : option (Aggregate → bool)) (subject : string) : bool :=
  match matcher, toAggregate subject with None, _ => true | Some f, Some a => f a | Some _, None => false end.

Lemma count_subjects_dom matcher msgs subject :
  subject ∈ dom (foldl (count_subject matcher) ∅ msgs) ↔ announced msgs subject ∧ selected matcher subject = true.
Proof.
  induction msgs as [|m msgs IH] using rev_ind.
  { cbn [foldl]. rewrite dom_empty. split; [set_solver|]. intros [(m & Hm & _) _]. by apply elem_of_nil in Hm. }
  rewrite foldl_app, announced_snoc. cbn [foldl]. unfold count_subject at 1.
  destruct (json_Unmarshal (Msg_Data m)) as [[subj ty]|] eqn:Hj.
  - assert (announces subject m ↔ subject = subj) as ->.
    { unfold announces. rewrite Hj. split; [by intros (? & [= <-] & Heq)|intros ->; eauto]. }
    cbn [SubjectEvent_Subject]. fold (selected matcher subj).
    destruct (selected matcher subj) eqn:Hsel; rewrite ?dom_insert, ?elem_of_union, ?elem_of_singleton, IH.
    + split; [intros [->|[]]; auto|intros [[Ha| ->] ?]; auto].
    + split; [intros []; auto|intros [[Ha| ->] Hs]; [auto|congruence]].
  - assert (¬ announces subject m) as Hno by (intros (ev & He & _); congruence). rewrite IH. tauto.
Qed.

Lemma toAggregates_all (subjects : list string) acc :
  (∀ subject, subject ∈ subjects → is_Some (toAggregate subject)) →
  foldM (λ results subject, a ← deref (toAggregate subject); Ret (results ++ [a])) acc subjects =
  Ret (E := goerror) (acc ++ omap toAggregate subjects).
Proof.
  revert acc. induction subjects as [|subject subjects IH]; intros acc Hall; [by rewrite List.app_nil_r|].
  destruct (Hall subject) as [a Ha]; [by left|]. cbn [foldM]. rewrite Ha. cbn [deref mbind res_bind].
  rewrite IH by (intros; apply Hall; by right). cbn [omap list_omap]. rewrite Ha. by rewrite <- List.app_assoc.
Qed.

Lemma NoDup_omap {A B} (f : A → option B) (l : list A) :
  (∀ x y b, f x = Some b → f y = Some b → x = y) → NoDup l → NoDup (omap f l).
Proof.
  intros Hinj. induction 1 as [|x l Hx Hl IH]; [constructor|]. cbn [omap list_omap].
  destruct (f x) as [b|] eqn:Hf; [|done]. constructor; [|done].
  intros (y & Hy & Hfy)%list_elem_of_omap. by rewrite (Hinj x y b) in Hx.
Qed.

(** Listing is what was announced.  With a matcher, the aggregates it selects; each is listed once,
    however often it was announced; on a server without announcements the call is an error. *)
Theorem nats_List_announced (matcher : option (Aggregate → bool)) (before after : S) :
  readable subjectActivity before after →
  (∀ subject, announced (stan_log subjectActivity before) subject → is_Some (toAggregate subject)) →
  if decide (stan_log subjectActivity before = []) then nats_List matcher before after = Some (Throw no_boundary)
  else ∃ l, nats_List matcher before after = Some (Ret l) ∧ NoDup l ∧
    ∀ a, a ∈ l ↔ (∃ subject, announced (stan_log subjectActivity before) subject ∧ toAggregate subject = Some a) ∧
                 match matcher with None => True | Some f => f a = true end.
Proof.
  intros Hread Hdotted. unfold nats_List, wc_List. rewrite MsgSeqRange_all by done. cbn [mbind option_bind].
  destruct (stan_log subjectActivity before) as [|m0 log0] eqn:Hlog; [done|]. rewrite decide_False by done.
  rewrite <- Hlog in *. set (log := stan_log subjectActivity before) in *. clearbody log. clear Hlog m0 log0.
  cbn [mbind res_bind]. set (counts := foldl (count_subject matcher) ∅ log).
  assert (∀ subject, subject ∈ (range 0 counts).*1 ↔ announced log subject ∧ selected matcher subject = true) as Hin.
  { intros subject. rewrite elem_of_range_fst, <- elem_of_dom. apply count_subjects_dom. }
  rewrite toAggregates_all by (intros subject Hs; apply Hdotted; by apply Hin).
  eexists. split; [reflexivity|]. cbn [app]. split.
  - apply NoDup_omap; [|apply NoDup_range]. intros s1 s2 a H1a H2a.
    by rewrite <- (toSubject_toAggregate _ _ H1a), <- (toSubject_toAggregate _ _ H2a).
  - intros a. rewrite list_elem_of_omap. split.
    + intros (subject & [Hann Hsel]%Hin & Ha). split; [eauto|]. unfold selected in Hsel. rewrite Ha in Hsel.
      by destruct matcher.
    + intros [(subject & Hann & Ha) Hm]. exists subject. split; [|done]. apply Hin. split; [done|].
      unfold selected. rewrite Ha. by destruct matcher.
Qed.
End store.
