(* ===== verification/NatsWatch.v ===== *)
(** Component [pkg/fes/backend/nats], watching: what the handlers of the subscriptions publish while
    events are appended to the server, in any interleaving of the two. *)

From stdpp Require Import base gmap strings list pretty.
From S2P Require Import Prelude Data Types TypedValues FnRefs NetHttp Fes Pubsub MemBackend Nats.
From Stdlib Require Import Ascii.

Section watch.
Context {S : Type} `{!Stan S} `{!StanLaws S} `{EventCodecs} `{!EventCodecLaws}.

(** The events a subscription hands to the publisher with its next message, with their channel. *)
Definition event_of (msg : Msg) : option Event := match toEvent msg with Ret e => Some e | _ => None end.

Definition published (es : EventStore (S := S)) (i : nat) : list (string * Event) :=
  match es_conn es !! i with
  | Some (MkSub channel _ false None as sub) =>
      match next_msg es sub with
      | Some msg => match event_of msg with Some e => [(channel, e)] | None => [] end
      | None => []
      end
  | _ => []
  end.

(** The aggregates clients append to: their subjects survive JSON and have no wildcards. *)
Definition key_ok (key : Aggregate) : Prop :=
  hasWildcard (toSubject key) = false ∧ json_text (toSubject key).

(** An interleaving of appends, by this or other clients, and deliveries, with the trace of what is
    handed to the publisher. *)
Inductive run (es : EventStore (S := S)) : list (string * Event) → EventStore (S := S) → Prop :=
| run_refl : run es [] es
| run_append tr es1 ev r s' : run es tr es1 →
    (∀ key, event_key ev = Some key → key_ok key) →
    nats_Append (Some ev) (es_server es1) = (r, s') → run es tr (set_server s' es1)
| run_deliver tr es1 i r es2 : run es tr es1 → deliver_next i es1 = (r, es2) →
    run es (tr ++ published es1 i) es2.

(** ** The server *)

(** What a server that was only appended to satisfies: announcements are of subjects of
    aggregates, and events have an aggregate. *)
Record well_formed (s : S) : Prop := {
  wf_activity : ∀ m ev, m ∈ stan_log subjectActivity s → json_Unmarshal (Msg_Data m) = Some ev →
    SubjectEvent_Type ev = noop ∧ hasWildcard (SubjectEvent_Subject ev) = false ∧
    ∃ key, SubjectEvent_Subject ev = toSubject key;
  wf_event : ∀ subject m e, subject ≠ subjectActivity → m ∈ stan_log subject s →
    proto_Unmarshal_Event (Msg_Data m) = Some e → is_Some (Event_Aggregate e) }.

Lemma nats_Append_logs ev (s s' : S) r : nats_Append (Some ev) s = (r, s') →
  (∀ key, event_key ev = Some key → key_ok key) → well_formed s →
  well_formed s' ∧ ∀ subject, stan_log subject s `prefix_of` stan_log subject s'.
Proof.
  intros Happ Hkeys Hwf. destruct (nats_Append_inv _ _ _ _ Happ) as [Hin|[-> _]]; [|by split].
  destruct Hin as (key & data & Hkey & _ & Hev & Hdata & Hpub). destruct (Hkeys key Hkey) as [Hwild Hjson].
  assert (toSubject key ≠ subjectActivity) as Hne by apply toSubject_not_activity.
  apply wc_Publish_log in Hpub as (Hother & Hact & Hsub); [|done].
  assert (stan_log (toSubject key) s' = stan_log (toSubject key) s ∨ ∃ n, stan_log (toSubject key) s' =
    stan_log (toSubject key) s ++ [MkMsg n (toSubject key) data]) as Hstored by (destruct r; naive_solver).
  destruct Hwf as [Hwa Hwe]. split; [split|].
  - intros m ev' Hm Hj. destruct Hact as [Heq|(d & Hd & Heq)]; rewrite Heq in Hm; [by eapply Hwa|].
    apply elem_of_app in Hm as [Hm| ->%list_elem_of_singleton]; [by eapply Hwa|]. cbn [Msg_Data] in Hj.
    rewrite (json_roundtrip _ _ Hd) in Hj by done. injection Hj as <-. eauto.
  - intros subject m e Hns Hm He. destruct (decide (subject = toSubject key)) as [->|Hns2].
    + destruct Hstored as [Heq|[n Heq]]; rewrite Heq in Hm; [by eapply Hwe|].
      apply elem_of_app in Hm as [Hm| ->%list_elem_of_singleton]; [by eapply Hwe|]. cbn [Msg_Data] in He.
      rewrite (proto_Event_roundtrip _ _ Hdata) in He. injection He as <-.
      destruct Hev as [_ (a & Ha & _) _ _]. by exists a.
    + rewrite Hother in Hm by done. by eapply Hwe.
  - intros subject. destruct (decide (subject = toSubject key)) as [->|Hns2].
    + destruct Hstored as [->|[n ->]]; [done|by apply prefix_app_r].
    + destruct (decide (subject = subjectActivity)) as [->|Hna].
      * destruct Hact as [->|(d & _ & ->)]; [done|by apply prefix_app_r].
      * by rewrite Hother.
Qed.

(** ** The invariant *)

Definition trace_of (subject : string) (tr : list (string * Event)) : list Event :=
  omap (λ '(s, e), if decide (s = subject) then Some e else None) tr.
Definition decoded (msgs : list Msg) : list Event := omap event_of msgs.

Context (ty : string) (Hty : plain_type ty).
Context (Hgranted : ∀ subject (s : S), stan_Subscribe subject s = None).
Context (pu : DefaultPublisher Event).

Definition publishes (tr : list (string * Event)) (p : DefaultPublisher Event) : Prop :=
  foldM (Publish (E := goerror) event_labels) pu tr.*2 = Ret p.

(** The subscription on the type has one source for every subject of the type announced so far, and
    what was published of a subject is what its source has seen of its log. *)
Record watching (tr : list (string * Event)) (es : EventStore (S := S)) (pos : nat)
    (sources : gmap string (option nat)) : Prop := {
  w_server : well_formed (es_server es);
  w_root : es_conn es !! 0 = Some (MkSub subjectActivity pos false (Some (MkWildcardSub (ty +:+ ".>") sources)));
  w_pos : pos ≤ length (stan_log subjectActivity (es_server es));
  w_sources : ∀ subject, is_Some (sources !! subject) ↔
    covers ty subject = true ∧ announced (take pos (stan_log subjectActivity (es_server es))) subject;
  w_source : ∀ subject src, sources !! subject = Some src →
    ∃ i p, src = Some i ∧ 0 < i ∧ es_conn es !! i = Some (MkSub subject p false None);
  w_sub : ∀ i sub, 0 < i → es_conn es !! i = Some sub → ∃ subject p, sub = MkSub subject p false None ∧
    subject ≠ subjectActivity ∧ sources !! subject = Some (Some i) ∧
    p ≤ length (stan_log subject (es_server es)) ∧
    trace_of subject tr = decoded (take p (stan_log subject (es_server es)));
  w_none : ∀ subject, sources !! subject = None → trace_of subject tr = [];
  w_publisher : publisher_ok (es_publisher es);
  w_published : publishes tr (es_publisher es) }.

Lemma take_prefix {A} p (l l' : list A) : l `prefix_of` l' → p ≤ length l → take p l' = take p l.
Proof. intros [k ->] Hp. by apply take_app_le. Qed.

Lemma watching_append tr es pos sources ev r s' :
  watching tr es pos sources → (∀ key, event_key ev = Some key → key_ok key) →
  nats_Append (Some ev) (es_server es) = (r, s') → watching tr (set_server s' es) pos sources.
Proof.
  intros [Hs Hroot Hpos Hsrcs Hsrc Hsub Hnone Hpok Hpub] Hkeys Happ.
  destruct (nats_Append_logs _ _ _ _ Happ Hkeys Hs) as [Hwf Hgrow].
  split; cbn [set_server es_server es_conn es_publisher]; try done.
  - etrans; [exact Hpos|]. apply prefix_length, Hgrow.
  - intros subject. by rewrite (take_prefix _ _ _ (Hgrow _) Hpos).
  - intros i sub Hi Hc. destruct (Hsub i sub Hi Hc) as (subject & p & -> & Hna & Hin & Hp & Htr).
    exists subject, p. split_and!; [done|done|done| |by rewrite (take_prefix _ _ _ (Hgrow _) Hp)].
    etrans; [exact Hp|]. apply prefix_length, Hgrow.
Qed.

Lemma trace_of_app subject tr tr' : trace_of subject (tr ++ tr') = trace_of subject tr ++ trace_of subject tr'.
Proof. apply omap_app. Qed.

Lemma decoded_snoc msgs m : decoded (msgs ++ [m]) = decoded msgs ++ match event_of m with Some e => [e] | None => [] end.
Proof. unfold decoded. rewrite omap_app. cbn. by destruct (event_of m). Qed.

Lemma lookup_insert_pos {A} (l : list A) i j x y :
  <[i := x]> l !! j = Some y → (j = i ∧ y = x) ∨ (j ≠ i ∧ l !! j = Some y).
Proof. intros Hl. destruct (decide (j = i)) as [->|Hne].
  - left. apply list_lookup_insert_Some in Hl as [(_ & -> & _)|[[] _]]; done.
  - right. by rewrite list_lookup_insert_ne in Hl.
Qed.

(** A source takes its next message. *)
Lemma watching_source tr es pos sources i subject p msg :
  watching tr es pos sources → 0 < i → es_conn es !! i = Some (MkSub subject p false None) →
  stan_log subject (es_server es) !! p = Some msg →
  let es1 := set_conn (<[i := MkSub subject (Datatypes.S p) false None]> (es_conn es)) es in
  ∃ es', on_event msg es1 = (Ret (), es') ∧
    watching (tr ++ match event_of msg with Some e => [(subject, e)] | None => [] end) es' pos sources.
Proof.
  intros [Hs Hroot Hpos Hsrcs Hsrc Hsub Hnone Hpok Hpub] Hi Hc Hm es1.
  destruct (Hsub i _ Hi Hc) as (subject' & p' & [= <- <-] & Hna & Hin & Hp & Htr).
  set (evs := match event_of msg with Some e => [(subject, e)] | None => [] end).
  assert (∀ pub, publisher_ok pub → publishes (tr ++ evs) pub → watching (tr ++ evs) (set_publisher pub es1) pos sources) as Hw.
  { intros pub Hpok' Hpub'. split; cbn [es1 set_publisher set_conn es_server es_conn es_publisher]; try done.
    - rewrite list_lookup_insert_ne by lia. done.
    - intros subject2 src Hsrc2. destruct (Hsrc subject2 src Hsrc2) as (j & q & -> & Hj & Hcj).
      destruct (decide (j = i)) as [->|Hne].
      + rewrite Hc in Hcj. injection Hcj as <- <-. exists i, (Datatypes.S p). split_and!; [done|done|].
        apply list_lookup_insert_eq. by eapply lookup_lt_Some.
      + exists j, q. by rewrite list_lookup_insert_ne.
    - intros j sub Hj Hcj. apply lookup_insert_pos in Hcj as [[-> ->]|[Hne Hcj]].
      + exists subject, (Datatypes.S p). split_and!; [done|done|done| |].
        * apply lookup_lt_Some in Hm. lia.
        * rewrite trace_of_app, Htr, (take_S_r _ _ _ Hm), decoded_snoc. f_equal. unfold evs.
          destruct (event_of msg); cbn; [by rewrite decide_True|done].
      + destruct (Hsub j sub Hj Hcj) as (subject2 & q & -> & Hna2 & Hin2 & Hq & Htr2).
        exists subject2, q. split_and!; [done..|]. rewrite trace_of_app, Htr2.
        assert (subject ≠ subject2) as Hdiff by (intros ->; rewrite Hin in Hin2; by injection Hin2 as <-).
        unfold evs. destruct (event_of msg); cbn; rewrite ?decide_False by done; by rewrite List.app_nil_r.
    - intros subject2 Hn. rewrite trace_of_app, (Hnone _ Hn).
      assert (subject ≠ subject2) as Hdiff by congruence.
      unfold evs. destruct (event_of msg); cbn; by rewrite ?decide_False. }
  unfold on_event. fold evs. unfold event_of in evs.
  destruct (toEvent msg) as [e|err|w] eqn:He.
  - assert (is_Some (Event_Aggregate e)) as [a Ha].
    { unfold toEvent in He. destruct (proto_Unmarshal_Event (Msg_Data msg)) as [e0|] eqn:Hd; [|done].
      injection He as <-. cbn. eapply (wf_event _ Hs); [exact Hna| |exact Hd]. by eapply list_elem_of_lookup_2. }
    rewrite Ha. destruct (Publish_spec (E := goerror) event_labels (es_publisher es1) e Hpok) as (pub & Hp' & _).
    rewrite Hp'. eexists. split; [reflexivity|]. apply Hw; [by eapply Publish_ok|].
    unfold publishes. rewrite fmap_app, foldM_app. unfold publishes in Hpub. rewrite Hpub. cbn [mbind res_bind fmap list_fmap evs snd foldM].
    change (es_publisher es) with (es_publisher es1). by rewrite Hp'.
  - eexists. split; [reflexivity|]. change es1 with (set_publisher (es_publisher es1) es1). apply Hw; [done|].
    unfold evs. by rewrite List.app_nil_r.
  - unfold toEvent in He. by destruct (proto_Unmarshal_Event _).
Qed.

(** An announcement that makes no source. *)
Lemma watching_skip tr es es' pos sources msg :
  watching tr es pos sources → stan_log subjectActivity (es_server es) !! pos = Some msg →
  (∀ subject, announces subject msg → covers ty subject = true → is_Some (sources !! subject)) →
  es' = set_conn (<[0 := MkSub subjectActivity (Datatypes.S pos) false
          (Some (MkWildcardSub (ty +:+ ".>") sources))]> (es_conn es)) es →
  watching tr es' (Datatypes.S pos) sources.
Proof.
  intros [Hs Hroot Hpos Hsrcs Hsrc Hsub Hnone Hpok Hpub] Hm Hknown ->.
  split; cbn [set_conn es_server es_conn es_publisher]; try done.
  - apply list_lookup_insert_eq. by eapply lookup_lt_Some.
  - by apply lookup_lt_Some in Hm.
  - intros subject. rewrite (take_S_r _ _ _ Hm), announced_snoc, Hsrcs. split; [tauto|].
    intros [Hc [Ha|Ha]]; [done|]. apply Hsrcs, Hknown; done.
  - intros subject src Hin. destruct (Hsrc subject src Hin) as (i & p & -> & Hi & Hc).
    exists i, p. by rewrite list_lookup_insert_ne by lia.
  - intros i sub Hi Hc. rewrite list_lookup_insert_ne in Hc by lia. by apply Hsub.
Qed.

(** An announcement that makes one: the new subscription is the last of the connection. *)
Lemma watching_new tr es es' pos sources msg subject n :
  watching tr es pos sources → stan_log subjectActivity (es_server es) !! pos = Some msg →
  (∀ s, announces s msg ↔ s = subject) → covers ty subject = true → sources !! subject = None →
  subject ≠ subjectActivity → n = length (es_conn es) →
  es_server es' = es_server es → es_publisher es' = es_publisher es →
  es_conn es' !! 0 = Some (MkSub subjectActivity (Datatypes.S pos) false
    (Some (MkWildcardSub (ty +:+ ".>") (<[subject := Some n]> sources)))) →
  es_conn es' !! n = Some (MkSub subject 0 false None) →
  (∀ j, j ≠ 0 → j ≠ n → es_conn es' !! j = es_conn es !! j) →
  watching tr es' (Datatypes.S pos) (<[subject := Some n]> sources).
Proof.
  intros [Hs Hroot Hpos Hsrcs Hsrc Hsub Hnone Hpok Hpub] Hm Hann Hcov Hnew Hna Hn Hserver Hpubl H0' Hn' Hold.
  assert (0 < n) as Hn0 by (rewrite Hn; by eapply lookup_lt_Some).
  split; rewrite ?Hserver, ?Hpubl; try done.
  - by apply lookup_lt_Some in Hm.
  - intros subject2. rewrite (take_S_r _ _ _ Hm), announced_snoc, Hann.
    destruct (decide (subject2 = subject)) as [->|Hne].
    + rewrite lookup_insert_eq. split; [auto|eauto].
    + rewrite lookup_insert_ne by done. rewrite Hsrcs. tauto.
  - intros subject2 src. destruct (decide (subject2 = subject)) as [->|Hne].
    + rewrite lookup_insert_eq. intros [= <-]. eauto 10.
    + rewrite lookup_insert_ne by done. intros Hin. destruct (Hsrc subject2 src Hin) as (i & p & -> & Hi & Hc).
      exists i, p. split_and!; [done|done|]. rewrite Hold; [done|lia|]. apply lookup_lt_Some in Hc. lia.
  - intros i sub Hi Hc. destruct (decide (i = n)) as [->|Hne].
    + rewrite Hn' in Hc. injection Hc as <-. exists subject, 0. split_and!; [done|done|by rewrite lookup_insert_eq|lia|].
      by rewrite Hnone.
    + rewrite Hold in Hc by lia. destruct (Hsub i sub Hi Hc) as (subject2 & p & -> & Hna2 & Hin & Hp & Htr).
      exists subject2, p. split_and!; [done|done| |done|done]. rewrite lookup_insert_ne; [done|]. intros <-. congruence.
  - intros subject2 Hno. apply lookup_insert_None in Hno as [Hno _]. by apply Hnone.
Qed.

(** The wildcard subscription takes its next announcement. *)
Lemma watching_root tr es pos sources msg :
  watching tr es pos sources → stan_log subjectActivity (es_server es) !! pos = Some msg →
  let ws := MkWildcardSub (ty +:+ ".>") sources in
  let es1 := set_conn (<[0 := MkSub subjectActivity (Datatypes.S pos) false (Some ws)]> (es_conn es)) es in
  ∃ es' sources', on_activity 0 ws msg es1 = (Ret (), es') ∧ watching tr es' (Datatypes.S pos) sources'.
Proof.
  intros Hw Hm ws es1. unfold on_activity.
  destruct (json_Unmarshal (Msg_Data msg)) as [[subject t]|] eqn:Hj.
  2:{ exists es1, sources. split; [done|]. eapply watching_skip; [done|done| |done].
      intros subject (ev & He & _). congruence. }
  assert (∀ s, announces s msg ↔ s = subject) as Hann.
  { intros s. unfold announces. rewrite Hj. split; [by intros (ev & [= <-] & <-)|intros ->; eauto]. }
  destruct (wf_activity _ (w_server _ _ _ _ Hw) msg _ (list_elem_of_lookup_2 _ _ _ Hm) Hj) as (Ht & Hwild & key & Hkey).
  cbn in Ht, Hwild, Hkey. cbn [ws_subject ws]. rewrite queryMatches_type by done. rewrite st_lift_Ret.
  destruct (covers ty subject) eqn:Hcov; cbn [negb].
  2:{ exists es1, sources. split; [done|]. eapply watching_skip; [done|done| |done].
      intros s ->%Hann. congruence. }
  rewrite decide_True by done. cbn [ws_sources ws].
  destruct (sources !! subject) as [src|] eqn:Hsrc.
  { exists es1, sources. split; [done|]. eapply watching_skip; [done|done| |done]. intros s ->%Hann _. eauto. }
  set (n := length (es_conn es)).
  assert (catch (sub ← wc_Subscribe subject; mret (Some sub)) (λ _, mret None) es1 =
    (Ret (Some n), set_conn (es_conn es1 ++ [MkSub subject 0 false None]) es1)) as Hsubscribe.
  { unfold catch, wc_Subscribe, conn_Subscribe, mbind, st_bind. rewrite Hwild, Hgranted. cbn.
    by rewrite length_insert. }
  rewrite (st_bind_Ret _ _ _ _ _ Hsubscribe). destruct (toSubject_label key) as [label Hlabel]. rewrite <- Hkey in Hlabel.
  rewrite Hlabel. eexists _, _. split; [reflexivity|].
  pose proof (lookup_lt_Some _ _ _ (w_root _ _ _ _ Hw)) as Hlen. fold n in Hlen.
  eapply (watching_new tr es _ pos sources msg subject n); try done.
  - rewrite Hkey. apply toSubject_not_activity.
  - cbn. rewrite list_lookup_alter_eq, lookup_app_l by (by rewrite length_insert).
    by rewrite list_lookup_insert_eq.
  - cbn. rewrite list_lookup_alter_ne by lia. rewrite lookup_app_r by (rewrite length_insert; done).
    rewrite length_insert. fold n. by rewrite Nat.sub_diag.
  - intros j Hj0 Hjn. cbn. rewrite list_lookup_alter_ne by done. destruct (decide (j < n)) as [Hj1|Hj1].
    + rewrite lookup_app_l by (by rewrite length_insert). by rewrite list_lookup_insert_ne.
    + rewrite !(proj2 (lookup_ge_None _ _)); [done|fold n; lia|]. rewrite length_app, length_insert. cbn. fold n. lia.
Qed.

Lemma watching_deliver tr es pos sources i r es' :
  watching tr es pos sources → deliver_next i es = (r, es') →
  r = Ret () ∧ ∃ pos' sources', watching (tr ++ published es i) es' pos' sources'.
Proof.
  intros Hw. unfold deliver_next, published.
  destruct (es_conn es !! i) as [sub|] eqn:Hc; [|intros [= <- <-]; rewrite List.app_nil_r; eauto].
  destruct (decide (i = 0)) as [->|Hi].
  - rewrite (w_root _ _ _ _ Hw) in Hc. injection Hc as <-. rewrite List.app_nil_r. cbn [Sub_closed].
    unfold next_msg. cbn [Sub_channel Sub_position Sub_wildcard].
    destruct (stan_log subjectActivity (es_server es) !! pos) as [msg|] eqn:Hm; [|intros [= <- <-]; eauto].
    destruct (watching_root _ _ _ _ _ Hw Hm) as (es2 & sources' & Hr & Hw'). rewrite Hr. intros [= <- <-]. eauto.
  - destruct (w_sub _ _ _ _ Hw i sub) as (subject & p & -> & _ & _ & Hp & _); [lia|done|].
    cbn [Sub_closed]. unfold next_msg. cbn [Sub_channel Sub_position Sub_wildcard].
    destruct (stan_log subject (es_server es) !! p) as [msg|] eqn:Hm.
    2:{ intros [= <- <-]. rewrite List.app_nil_r. eauto. }
    destruct (watching_source tr es pos sources i subject p msg Hw) as (es2 & Hr & Hw'); [lia|done|done|].
    rewrite Hr. intros [= <- <-]. eauto.
Qed.

Lemma watching_run es tr0 tr es' pos sources : watching tr0 es pos sources → run es tr es' →
  ∃ pos' sources', watching (tr0 ++ tr) es' pos' sources'.
Proof.
  intros Hw Hrun. induction Hrun as [|tr es1 ev r s' _ IH Hkeys Happ|tr es1 i r es2 _ IH Hd].
  - rewrite List.app_nil_r. eauto.
  - destruct IH as (pos' & sources' & IH). exists pos', sources'. by eapply watching_append.
  - destruct IH as (pos' & sources' & IH). destruct (watching_deliver _ _ _ _ _ _ _ IH Hd) as (_ & Hw').
    by rewrite List.app_assoc.
Qed.

Lemma watching_init a s es r : well_formed s → publisher_ok pu → Aggregate_Type a = ty →
  Watch a (MkEventStore s [] pu ∅) = (r, es) → r = Ret () → watching [] es 0 ∅.
Proof.
  intros Hwf Hpok Hta Hwatch ->. unfold Watch in Hwatch. unfold mbind, st_bind, lift in Hwatch.
  set (a' := if decide (Aggregate_Id a = "") then _ else a) in Hwatch.
  assert (Aggregate_Type a' = ty) as Ht by (unfold a'; by case_decide).
  destruct (ValidateAggregate (Some a')) as [err|]; [done|]. rewrite Ht in Hwatch.
  assert (hasWildcard (ty +:+ ".>") = true) as Hwild.
  { unfold hasWildcard. rewrite all_chars_app. by rewrite andb_false_r. }
  unfold wc_Subscribe in Hwatch. rewrite Hwild in Hwatch. unfold conn_Subscribe in Hwatch.
  rewrite Hgranted in Hwatch. injection Hwatch as <-.
  split; cbn; try done; try lia.
  - intros subject. rewrite lookup_empty. split; [by intros []|]. intros [_ (m & Hm & _)]. by apply elem_of_nil in Hm.
  - intros i sub Hi Hc. destruct i as [|[|i]]; [lia|done|done].
Qed.

(** Every subscription has seen all messages of its channel. *)
Definition quiescent (es : EventStore (S := S)) : Prop :=
  ∀ i sub, es_conn es !! i = Some sub → Sub_closed sub = false → next_msg es sub = None.

End watch.
