(* ===== verification/Cache.v ===== *)
(** Component [pkg/fes/cache]: the LRU cache of entities, the cache that loads
    missing entities from the event store, and the cache that applies the events it
    is notified of.  The Go interfaces [CacheReaderWriter] and [Backend] are type
    classes; the caches are proved against their laws, and the LRU cache and the
    in-memory event store discharge them. *)

From stdpp Require Import base gmap strings list.
From S2P Require Import Prelude Data Types Fes Pubsub Lru MemBackend.

(** ** Interfaces *)

(** Reading may project events, which may read the clock. *)
(** [pkg/fes/types.go:58-62] CacheReaderWriter *)
Class CacheReaderWriter (C : Type) := {
  c_GetAggregate : Z → Aggregate → st C goerror Entity;
  c_Put : option Entity → st C goerror ();
  c_List : C → list Aggregate;
  c_Refresh : Z → Aggregate → st C goerror ();
  c_Invalidate : Aggregate → C → C;
}.

(** What a cache promises: it answers with the entity it holds or with an error
    that says it holds none, and holds an entity under its key once it was put; it
    may drop other entities at any time. *)
Class CacheLaws (C : Type) `{CacheReaderWriter C} := {
  cache_ok : C → Prop;
  cached : C → gmap Aggregate Entity;
  cache_key : ∀ c k e, cache_ok c → cached c !! k = Some e → GetAggregate e = k;
  c_Get_spec : ∀ now k c, cache_ok c → aggregate_valid k →
    let '(r, c') := c_GetAggregate now k c in
    cache_ok c' ∧ cached c' = cached c ∧
    match cached c !! k with
    | Some e => r = Ret e
    | None => ∃ err, r = Throw err ∧ EventStoreErr_Is ErrEntityNotFound (Some err) = true ∧
                     is_sentinel err "entity not found" = false
    end;
  c_Put_spec : ∀ e c, cache_ok c → aggregate_valid (GetAggregate e) →
    let '(r, c') := c_Put (Some e) c in
    r = Ret () ∧ cache_ok c' ∧ cached c' !! GetAggregate e = Some e ∧
    ∀ k, k ≠ GetAggregate e → cached c' !! k = cached c !! k ∨ cached c' !! k = None;
}.

(** The reading side of [fes.Backend]. *)
(** [pkg/fes/types.go:30-36] Backend *)
Class FesBackend (B : Type) := { b_Get : Aggregate → st B goerror (list Event) }.

Class BackendLaws (B : Type) `{FesBackend B} := {
  b_ok : B → Prop;
  b_stream : B → Aggregate → list Event;
  b_Get_spec : ∀ k b, b_ok b → aggregate_valid k →
    let '(r, b') := b_Get k b in
    r = Ret (b_stream b k) ∧ b_ok b' ∧ ∀ k', b_stream b' k' = b_stream b k';
  b_stream_key : ∀ b k ev, b_ok b → ev ∈ b_stream b k → event_key ev = Some k;
}.

Section mem_backend.
Context `{LRULaws (list Event)} `{MapRange}.

#[export] Instance mem_FesBackend : FesBackend Backend := {| b_Get := Get |}.

#[export] Instance mem_BackendLaws : BackendLaws Backend.
Proof.
  refine {| b_ok := backend_ok; b_stream b k := default [] (stream b k) |}.
  - intros k b Hok Hk. destruct (Get_spec k b Hok Hk) as (b' & Hg & Hs). simpl. rewrite Hg.
    split_and!; [done|by eapply same_ok|]. intros k'. by rewrite (same_stream _ _ k' Hs).
  - intros b k ev Hok Hin. destruct (stream b k) as [es|] eqn:Hs; simpl in Hin; [|set_solver].
    destruct (bo_streams _ Hok _ _ Hs) as (_ & _ & Hall).
    destruct (Hall _ Hin) as (agg & Ha & Hk). unfold event_key. rewrite Ha.
    unfold stream_key in Hk. destruct (Event_Parent ev); congruence.
Defined.
End mem_backend.

(** ** The LRU cache *)

Section lru_cache.
Context `{LRU Entity}.

(** [pkg/fes/cache/cache.go:27-29] LRUCache *)
Definition LRUCache : Type := lru.

(** [pkg/fes/cache/cache.go:31-39] NewLRUCache *)
Definition NewLRUCache {E} (size : Z) : res E LRUCache :=
  match lru_New size with Some c => Ret c | None => Panic "Must provide a positive size" end.

(** [pkg/fes/cache/cache.go:41-50] LRUCache.GetAggregate *)
Definition LRUCache_GetAggregate (a : Aggregate) : st LRUCache goerror Entity := λ c,
  match ValidateAggregate (Some a) with
  | Some err => (Throw err, c)
  | None =>
      let '(i, c) := lru_Get a c in
      match i with
      | None => (Throw (WithAggregate ErrEntityNotFound (Some a)), c)
      | Some e => (Ret e, c)
      end
  end.

(** [pkg/fes/cache/cache.go:52-59] LRUCache.Put *)
Definition LRUCache_Put (entity : option Entity) : st LRUCache goerror () :=
  _ ← lift (ValidateEntity entity);
  e ← lift (deref entity);
  let a := GetAggregate e in
  modifyS (λ c, (lru_Add a e c).1).

(** [pkg/fes/cache/cache.go:61-68] LRUCache.List *)
Definition LRUCache_List (c : LRUCache) : list Aggregate := lru_Keys c.

(** [pkg/fes/cache/cache.go:70-72] LRUCache.Refresh *)
Definition LRUCache_Refresh (key : Aggregate) : st LRUCache goerror () := mret ().

(** [pkg/fes/cache/cache.go:74-80] LRUCache.Invalidate *)
Definition LRUCache_Invalidate (a : Aggregate) (c : LRUCache) : LRUCache :=
  match ValidateAggregate (Some a) with
  | Some _ => c
  | None => (lru_Remove a c).1
  end.

#[export] Instance LRUCache_CacheReaderWriter : CacheReaderWriter LRUCache := {|
  c_GetAggregate _ := LRUCache_GetAggregate;
  c_Put := LRUCache_Put;
  c_List := LRUCache_List;
  c_Refresh _ := LRUCache_Refresh;
  c_Invalidate := LRUCache_Invalidate |}.

Context `{!LRULaws Entity}.

#[export] Instance LRUCache_laws : CacheLaws LRUCache.
Proof.
  refine {| cache_ok c := lru_ok c ∧ ∀ k e, contents c !! k = Some e → GetAggregate e = k;
            cached := contents |}.
  - naive_solver.
  - intros now k c [Hl Hkeys] Hk. simpl. unfold LRUCache_GetAggregate.
    apply ValidateAggregate_valid in Hk. rewrite Hk.
    pose proof (lru_Get_spec k c Hl) as (Hl' & He & Hc & _).
    destruct (lru_Get k c) as [i c']. simpl in *. subst i.
    destruct (contents c !! k); rewrite Hc; eauto 10.
  - intros e c [Hl Hkeys] Hv. simpl. unfold LRUCache_Put.
    rewrite (proj2 (ValidateEntity_valid e ()) Hv). simpl.
    pose proof (lru_Add_spec (GetAggregate e) e c Hl) as (Hl' & _ & Hadd).
    set (c' := (lru_Add (GetAggregate e) e c).1) in *.
    assert (contents c' !! GetAggregate e = Some e ∧
            ∀ k, k ≠ GetAggregate e → contents c' !! k = contents c !! k ∨ contents c' !! k = None)
      as [Hin Hout].
    { destruct Hadd as [(_ & -> & _)|(_ & k' & v' & _ & -> & _)].
      - split; [apply lookup_insert_eq|]. intros k Hne. left. by apply lookup_insert_ne.
      - split; [apply lookup_insert_eq|]. intros k Hne. rewrite lookup_insert_ne by done.
        destruct (decide (k = k')) as [->|]; [right; apply lookup_delete_eq|].
        left. by apply lookup_delete_ne. }
    split_and!; try done. intros k e' He'. destruct (decide (k = GetAggregate e)) as [->|Hne].
    + congruence.
    + destruct (Hout k Hne) as [Hk|Hk]; [|congruence]. apply Hkeys. congruence.
Defined.
End lru_cache.

(** ** The loading cache *)

(** [pkg/fes/cache/cache.go:207-211] LoadingCache *)
Record LoadingCache (C B : Type) := MkLoadingCache { lc_cache : C; lc_client : B }.
Arguments MkLoadingCache {C B}. Arguments lc_cache {C B}. Arguments lc_client {C B}.

Section loading_cache.
Context {C B : Type} `{CacheReaderWriter C} `{FesBackend B} `{Projector}.

(** Run an operation of the embedded cache, and of the client. *)
Definition on_cache {A} (m : st C goerror A) : st (LoadingCache C B) goerror A := λ c,
  let '(r, cache) := m (lc_cache c) in (r, MkLoadingCache cache (lc_client c)).
Definition on_client {A} (m : st B goerror A) : st (LoadingCache C B) goerror A := λ c,
  let '(r, client) := m (lc_client c) in (r, MkLoadingCache (lc_cache c) client).

(** [pkg/fes/cache/cache.go:213-219] NewLoadingCache *)
Definition NewLoadingCache (cache : C) (client : B) : LoadingCache C B :=
  MkLoadingCache cache client.

(** [pkg/fes/cache/cache.go:225-227] LoadingCache.List *)
Definition LoadingCache_List (c : LoadingCache C B) : list Aggregate := c_List (lc_cache c).

(** [pkg/fes/cache/cache.go:258-284] LoadingCache.getFromEventStore *)
Definition getFromEventStore (now : Z) (aggregate : Aggregate) :
    st (LoadingCache C B) goerror Entity :=
  events ← on_client (b_Get aggregate);
  if decide (events = []) then throw (WithAggregate ErrEntityNotFound (Some aggregate))
  else
    base ← lift (NewProjection now aggregate);
    entity ← lift (Project now (Some base) events);
    _ ← on_cache (c_Put (Some entity));
    mret entity.

(** The test [err != nil && !fes.ErrEntityNotFound.Is(err)] and the fall-through
    to the store; a cache answers with an entity or an error. *)
(** [pkg/fes/cache/cache.go:229-250] LoadingCache.GetAggregate *)
Definition LoadingCache_GetAggregate (now : Z) (key : Aggregate) :
    st (LoadingCache C B) goerror Entity :=
  match ValidateAggregate (Some key) with
  | Some err => throw err
  | None =>
      catch (on_cache (c_GetAggregate now key)) (λ err,
        if EventStoreErr_Is ErrEntityNotFound (Some err) then getFromEventStore now key
        else throw err)
  end.

(** [pkg/fes/cache/cache.go:252-255] LoadingCache.Load *)
Definition LoadingCache_Load (now : Z) (key : Aggregate) : st (LoadingCache C B) goerror () :=
  _ ← LoadingCache_GetAggregate now key; mret ().

(** The errors are logged only. *)
(** [pkg/fes/cache/cache.go:286-298] LoadingCache.Refresh *)
Definition LoadingCache_Refresh (now : Z) (key : Aggregate) : st (LoadingCache C B) goerror () :=
  catch (entity ← getFromEventStore now key; on_cache (c_Put (Some entity)))
        (λ _, mret ()).

#[export] Instance LoadingCache_CacheReaderWriter : CacheReaderWriter (LoadingCache C B) := {|
  c_GetAggregate := LoadingCache_GetAggregate;
  c_Put e := on_cache (c_Put e);
  c_List := LoadingCache_List;
  c_Refresh := LoadingCache_Refresh;
  c_Invalidate a c := MkLoadingCache (c_Invalidate a (lc_cache c)) (lc_client c) |}.
End loading_cache.

(** ** The subscribed cache *)

(** [pkg/fes/cache/cache.go:83-89] SubscribedCache *)
Record SubscribedCache (C : Type) := MkSubscribedCache {
  sc_publisher : DefaultPublisher Notification; sc_cache : C; sc_createdAt : Z }.
Arguments MkSubscribedCache {C}. Arguments sc_publisher {C}.
Arguments sc_cache {C}. Arguments sc_createdAt {C}.

(** The labels of a notification are those of its event. *)
Definition notification_labels (n : Notification) : Labels :=
  match Notification_Event n with Some ev => event_labels ev | None => ∅ end.

(** [pkg/fes/cache/cache.go:302-307] getKey *)
Definition getKey (e : Event) : res goerror Aggregate :=
  match Event_Parent e with Some p => Ret p | None => deref (Event_Aggregate e) end.

Section subscribed_cache.
Context {C : Type} `{CacheReaderWriter C} `{Projector} `{PTypes}.

Definition on_inner {A} (m : st C goerror A) : st (SubscribedCache C) goerror A := λ c,
  let '(r, cache) := m (sc_cache c) in
  (r, MkSubscribedCache (sc_publisher c) cache (sc_createdAt c)).

(** [GetAggregate] where only the bare [ErrEntityNotFound] counts as a miss. *)
(** [pkg/fes/cache/cache.go:180-204] SubscribedCache.getOrCreateAggregateForEvent *)
Definition getOrCreateAggregateForEvent (now : Z) (event : Event) :
    st (SubscribedCache C) goerror Entity :=
  key ← lift (getKey event);
  catch (on_inner (c_GetAggregate now key)) (λ err,
    if negb (is_sentinel err "entity not found") then throw err
    else match Event_Parent event with
         | Some parentKey => on_inner (c_GetAggregate now parentKey)
         | None => lift (NewProjection now key)
         end).

(** [pkg/fes/cache/cache.go:127-173] SubscribedCache.applyEvent *)
Definition applyEvent (now : Z) (event : Event) : st (SubscribedCache C) goerror () :=
  _ ← lift (deref (Event_Aggregate event));
  _ ← lift (ValidateEvent (Some event));
  old ← getOrCreateAggregateForEvent now event;
  updated ← lift (Project now (Some old) [event]);
  _ ← on_inner (c_Put (Some updated));
  c ← getS;
  if decide (sc_createdAt c < (pt_Timestamp (Event_Timestamp event)).1)%Z then
    n ← lift (NewNotification (Some old) (Some updated) (Some event));
    p ← lift (Publish notification_labels (sc_publisher c) n);
    modifyS (λ c, MkSubscribedCache p (sc_cache c) (sc_createdAt c))
  else mret ().

(** One message of the subscription: anything but an event is ignored, an error
    of [applyEvent] is logged. *)
(** [pkg/fes/cache/cache.go:91-123] NewSubscribedCache *)
Definition receive (now : Z) (msg : option Event) : st (SubscribedCache C) goerror () :=
  match msg with
  | None => mret ()
  | Some event => catch (applyEvent now event) (λ _, mret ())
  end.

Definition NewSubscribedCache (now : Z) (cache : C) : SubscribedCache C :=
  MkSubscribedCache (NewPublisher Notification) cache now.
End subscribed_cache.

(** ** Reading through the cache *)

Section reading.
Context {C B : Type} `{HC : CacheLaws C} `{HB : BackendLaws B}.
Context {P : Projector} {ty : string} {good : Entity → Prop} {fit : Event → Prop}
  {sim : relation Entity} {HP : ProjectorLaws P ty good fit sim}.
Implicit Types (c : LoadingCache C B) (k : Aggregate).

(** The entity the events of a stream describe. *)
Definition replay (now : Z) k (es : list Event) : res goerror Entity :=
  base ← NewProjection now k; Project now (Some base) es.

Definition lc_ok c : Prop := cache_ok (lc_cache c) ∧ b_ok (lc_client c).
Definition lc_cached c := cached (lc_cache c).
Definition lc_stream c := b_stream (lc_client c).

(** Another entity may leave the cache, none enters or changes. *)
Definition others_kept k c c' : Prop :=
  ∀ k', k' ≠ k → lc_cached c' !! k' = lc_cached c !! k' ∨ lc_cached c' !! k' = None.

Lemma replay_key now k es e :
  Forall fit es → Forall (λ ev, event_key ev = Some k) es → replay now k es = Ret e →
  GetAggregate e = k.
Proof.
  unfold replay. intros Hf Hk Hr. bind_inv Hr as base Hb.
  apply NewProjection_good in Hb as [_ Hkey]. rewrite <- Hkey.
  eapply Project_key; [done| |done]. by rewrite Hkey.
Qed.

Lemma replay_no_panic now k es :
  no_panic (NewProjection now k) → Forall fit es → no_panic (replay now k es).
Proof.
  intros Hn Hf. apply bind_no_panic; [done|]. intros b [Hg _]%NewProjection_good.
  by apply Project_safe.
Qed.

Lemma stream_keys c k : lc_ok c → Forall (λ ev, event_key ev = Some k) (lc_stream c k).
Proof. intros [_ Hb]. apply Forall_forall. intros ev. by apply b_stream_key. Qed.

Lemma getFromEventStore_spec now k c :
  lc_ok c → aggregate_valid k → Forall fit (lc_stream c k) →
  let '(r, c') := getFromEventStore now k c in
  lc_ok c' ∧ (∀ k', lc_stream c' k' = lc_stream c k') ∧
  (r = if decide (lc_stream c k = []) then Throw (WithAggregate ErrEntityNotFound (Some k))
       else replay now k (lc_stream c k)) ∧
  match r with
  | Ret e => GetAggregate e = k ∧ lc_cached c' !! k = Some e ∧ others_kept k c c'
  | _ => lc_cached c' = lc_cached c
  end.
Proof.
  intros Hok Hk Hfit. pose proof (stream_keys c k Hok) as Hkeys. destruct Hok as [Hc Hb].
  unfold getFromEventStore, on_client, mbind, st_bind, lc_cached, lc_stream, others_kept in *.
  pose proof (b_Get_spec k (lc_client c) Hb Hk) as Hg.
  destruct (b_Get k (lc_client c)) as [r b']. destruct Hg as (-> & Hb' & Hst).
  destruct (decide (b_stream (lc_client c) k = [])) as [He|He]; simpl.
  { split_and!; done. }
  unfold lift. fold (replay now k (b_stream (lc_client c) k)).
  destruct (replay now k (b_stream (lc_client c) k)) as [e|err|w] eqn:Hr;
    unfold replay in Hr; destruct (NewProjection now k) as [base|?|?] eqn:Hn; simplify_eq/=;
    try (rewrite Hr); try (split_and!; done).
  assert (GetAggregate e = k) as Hek.
  { eapply (replay_key now); [exact Hfit|done|]. unfold replay. by rewrite Hn. }
  unfold on_cache. simpl.
  pose proof (c_Put_spec e (lc_cache c) Hc ltac:(by rewrite Hek)) as Hp.
  destruct (c_Put (Some e) (lc_cache c)) as [r c1]. destruct Hp as (-> & Hc1 & Hin & Hout).
  rewrite Hek in *. simpl. split_and!; done.
Qed.

Lemma LoadingCache_GetAggregate_spec (now : Z) (k : Aggregate) (c : LoadingCache C B) :
  lc_ok c → aggregate_valid k → Forall fit (lc_stream c k) →
  let '(r, c') := LoadingCache_GetAggregate now k c in
  lc_ok c' ∧ (∀ k', lc_stream c' k' = lc_stream c k') ∧ others_kept k c c' ∧
  match lc_cached c !! k with
  | Some e => r = Ret e ∧ lc_cached c' = lc_cached c
  | None =>
      if decide (lc_stream c k = [])
      then r = Throw (WithAggregate ErrEntityNotFound (Some k))
      else r = replay now k (lc_stream c k) ∧
           ∀ e, r = Ret e → lc_cached c' !! k = Some e
  end.
Proof.
  intros Hok Hk Hfit. unfold LoadingCache_GetAggregate.
  rewrite (proj2 (ValidateAggregate_valid k) Hk). unfold catch, on_cache.
  destruct Hok as [Hc Hb]. pose proof (c_Get_spec now k (lc_cache c) Hc Hk) as Hg.
  destruct (c_GetAggregate now k (lc_cache c)) as [r c1]. destruct Hg as (Hc1 & Hcon & Hr).
  unfold lc_cached, others_kept at 1. destruct (cached (lc_cache c) !! k) as [e|] eqn:Hck.
  - subst r. simpl. split_and!; try done. intros. left. unfold lc_cached. simpl. by rewrite Hcon.
  - destruct Hr as (err & -> & -> & _).
    set (c1' := MkLoadingCache c1 (lc_client c)).
    pose proof (getFromEventStore_spec now k c1' (conj Hc1 Hb) Hk Hfit) as Hs.
    destruct (getFromEventStore now k c1') as [r c2]. destruct Hs as (Hok2 & Hst & -> & Hres).
    split_and!; [done|done| |].
    + intros k' Hne. unfold lc_cached in *. simpl in *. destruct (if decide _ then _ else _).
      * destruct Hres as (_ & _ & Hoth). specialize (Hoth k' Hne). unfold lc_cached in Hoth.
        simpl in Hoth. by rewrite Hcon in Hoth.
      * left. by rewrite Hres, Hcon.
      * left. by rewrite Hres, Hcon.
    + change (lc_stream c1' k) with (lc_stream c k) in *. case_decide; [done|].
      split; [done|]. intros e He. rewrite He in Hres. by destruct Hres as (_ & ? & _).
Qed.
(** The loading cache is a transparent cache of the event store: a read answers
    with the cached entity, and on a miss with the replay of the event stream,
    which it then holds; the errors are those of the replay, or that there is no
    event at all. *)
Theorem LoadingCache_reads_through (now : Z) (k : Aggregate) (c : LoadingCache C B) :
  lc_ok c → aggregate_valid k → Forall fit (lc_stream c k) →
  let '(r, c') := LoadingCache_GetAggregate now k c in
  match lc_cached c !! k with
  | Some e => r = Ret e ∧ lc_cached c' = lc_cached c
  | None =>
      if decide (lc_stream c k = [])
      then r = Throw (WithAggregate ErrEntityNotFound (Some k))
      else r = replay now k (lc_stream c k) ∧
           ∀ e, r = Ret e → lc_cached c' !! k = Some e
  end ∧ others_kept k c c' ∧ lc_ok c' ∧ (∀ k', lc_stream c' k' = lc_stream c k').
Proof.
  intros Hok Hk Hfit. pose proof (LoadingCache_GetAggregate_spec now k c Hok Hk Hfit) as Hs.
  destruct (LoadingCache_GetAggregate now k c) as [r c']. tauto.
Qed.

(** *** Applying events *)

Implicit Types (s : SubscribedCache (LoadingCache C B)).
Context `{PTypes}.

Definition sc_ok s : Prop := lc_ok (sc_cache s) ∧ publisher_ok (sc_publisher s).

Lemma replay_snoc now k es ev :
  replay now k (es ++ [ev]) = (b ← replay now k es; Project now (Some b) [ev]).
Proof.
  unfold replay. destruct (NewProjection now k); simpl; [|done|done]. apply Project_app.
Qed.

Lemma event_key_valid ev k : event_valid ev → event_key ev = Some k → aggregate_valid k.
Proof.
  intros [_ (a & Ha & Hva) Hp _]. unfold event_key. rewrite Ha.
  destruct (Event_Parent ev) as [p|]; intros [= <-]; auto.
Qed.

Lemma getKey_event_key ev k : event_key ev = Some k → getKey ev = Ret k.
Proof.
  unfold event_key, getKey. destruct (Event_Parent ev); [by intros [= ->]|]. by intros ->.
Qed.

(** The entity an event is applied to: the cached one, or on a miss the replay of
    a stream that already contains the event. *)
Lemma getOrCreate_spec now ev k es r0 s :
  sc_ok s → aggregate_valid k → event_key ev = Some k → Forall fit (es ++ [ev]) →
  lc_stream (sc_cache s) k = es ++ [ev] → replay now k (es ++ [ev]) = Ret r0 →
  ∃ old c', getOrCreateAggregateForEvent now ev s =
      (Ret old, MkSubscribedCache (sc_publisher s) c' (sc_createdAt s)) ∧
    lc_ok c' ∧ (∀ k', lc_stream c' k' = lc_stream (sc_cache s) k') ∧
    others_kept k (sc_cache s) c' ∧ GetAggregate old = k ∧
    (lc_cached (sc_cache s) !! k = Some old ∨ old = r0).
Proof.
  intros [Hok Hp] Hk Hkey Hfit Hst Hr0. unfold getOrCreateAggregateForEvent.
  rewrite (getKey_event_key _ _ Hkey). unfold catch, on_inner, mbind, st_bind, lift. simpl.
  assert (Forall fit (lc_stream (sc_cache s) k)) as Hfit' by (by rewrite Hst).
  pose proof (LoadingCache_GetAggregate_spec now k (sc_cache s) Hok Hk Hfit') as Hs.
  destruct (LoadingCache_GetAggregate now k (sc_cache s)) as [r c'].
  destruct Hs as (Hok' & Hst' & Hoth & Hr).
  destruct (lc_cached (sc_cache s) !! k) as [e|] eqn:Hc.
  - destruct Hr as [-> _]. exists e, c'. split_and!; try done; [|by left].
    eapply cache_key; [apply Hok|done].
  - rewrite Hst in Hr. rewrite decide_False in Hr by (by destruct es).
    rewrite Hr0 in Hr. destruct Hr as [-> _]. exists r0, c'. split_and!; try done; [|by right].
    eapply (replay_key now); [exact Hfit| |done].
    rewrite <- Hst. by apply stream_keys.
Qed.

Lemma NewNotification_Ret ev k old new :
  event_key ev = Some k → is_Some (Event_Aggregate ev) →
  GetAggregate old = k → GetAggregate new = k →
  NewNotification (Some old) (Some new) (Some ev) =
    Ret (MkNotification (Some old) (Some new) (Some ev) k).
Proof.
  intros Hk [a Ha] Ho Hn. unfold NewNotification. rewrite Ho, Hn.
  assert (foreign_aggregate k ev = Ret false) as ->; [|done].
  unfold foreign_aggregate. rewrite Ha. simpl. case_decide as Hne; [done|].
  unfold event_key in Hk. rewrite Ha in Hk. destruct (Event_Parent ev) as [p|]; simplify_eq.
  simpl. by rewrite bool_decide_eq_false_2 by tauto.
Qed.

Lemma project_in_step now ev k es r0 old :
  replay now k (es ++ [ev]) = Ret r0 →
  (∀ r, replay now k es = Ret r → sim old r) ∨ old = r0 →
  ∃ new, Project now (Some old) [ev] = Ret new ∧ sim new r0.
Proof.
  intros Hr0 Hold. pose proof sim_equiv as Hequiv.
  rewrite replay_snoc in Hr0. bind_inv Hr0 as r Hr. destruct Hold as [Hsim | ->].
  - destruct (Project_sim now now r old [ev] r0) as (new & Hnew & Hs);
      [symmetry; by apply Hsim|done|]. exists new. split; [done|by symmetry].
  - destruct (Project_redeliver now r ev r0 Hr0) as (new & Hnew & Hs).
    exists new. split; [done|by symmetry].
Qed.

(** Applying an event, and what is published of it: nothing for an event from before the cache. *)
Lemma applyEvent_spec (now : Z) (ev : Event) (k : Aggregate) (es : list Event) (r0 : Entity)
    (s : SubscribedCache (LoadingCache C B)) :
  sc_ok s → event_valid ev → event_key ev = Some k → Forall fit (es ++ [ev]) →
  lc_stream (sc_cache s) k = es ++ [ev] → replay now k (es ++ [ev]) = Ret r0 →
  (∀ e r, lc_cached (sc_cache s) !! k = Some e → replay now k es = Ret r → sim e r) →
  ∃ s' e, applyEvent now ev s = (Ret (), s') ∧ sc_ok s' ∧
    lc_cached (sc_cache s') !! k = Some e ∧ sim e r0 ∧
    others_kept k (sc_cache s) (sc_cache s') ∧
    (∀ k', lc_stream (sc_cache s') k' = lc_stream (sc_cache s) k') ∧ GetAggregate e = k ∧
    if decide (sc_createdAt s < (pt_Timestamp (Event_Timestamp ev)).1)%Z
    then ∃ old, Publish (E := goerror) notification_labels (sc_publisher s) (MkNotification (Some old) (Some e) (Some ev) k) =
           Ret (sc_publisher s')
    else sc_publisher s' = sc_publisher s.
Proof.
  intros Hok Hv Hkey Hfit Hst Hr0 Hco. pose proof (event_key_valid _ _ Hv Hkey) as Hk.
  destruct (getOrCreate_spec now ev k es r0 s Hok Hk Hkey Hfit Hst Hr0)
    as (old & c1 & Hget & [Hc1 Hb1] & Hst1 & Hoth1 & Hold & Hcase).
  destruct (project_in_step now ev k es r0 old Hr0) as (new & Hnew & Hsim).
  { destruct Hcase as [Hc| ->]; [left; eauto|by right]. }
  assert (GetAggregate new = k) as Hnewk.
  { rewrite (sim_key _ _ Hsim). eapply (replay_key now); [exact Hfit| |done].
    rewrite <- Hst. apply stream_keys, Hok. }
  pose proof (event_valid_aggregate _ Hv) as (a & Ha & _).
  pose proof (c_Put_spec new (lc_cache c1) Hc1 ltac:(by rewrite Hnewk)) as Hp.
  destruct (c_Put (Some new) (lc_cache c1)) as [r c2] eqn:Hput.
  destruct Hp as (-> & Hc2 & Hin & Hout). rewrite Hnewk in *.
  set (c' := MkLoadingCache c2 (lc_client c1)).
  set (s1 := MkSubscribedCache (sc_publisher s) c1 (sc_createdAt s)) in *.
  set (s2 := MkSubscribedCache (sc_publisher s) c' (sc_createdAt s)).
  assert (on_inner (c_Put (Some new)) s1 = (Ret (), s2)) as Hput'
    by (unfold on_inner; simpl; unfold on_cache; by rewrite Hput).
  assert (others_kept k (sc_cache s) c') as Hoth.
  { intros k' Hne. destruct (Hout k' Hne) as [Ho|Ho]; [|by right].
    destruct (Hoth1 k' Hne) as [Ho1|Ho1]; unfold lc_cached, c' in *; simpl in *;
      rewrite Ho, Ho1; auto. }
  unfold applyEvent.
  rewrite (st_bind_Ret _ _ s s a) by (by rewrite Ha).
  rewrite (st_bind_Ret _ _ s s ()) by (unfold lift; by rewrite (proj2 (ValidateEvent_valid ev ()) Hv)).
  rewrite (st_bind_Ret _ _ _ _ _ Hget).
  rewrite (st_bind_Ret _ _ s1 s1 new) by (unfold lift; by rewrite Hnew).
  rewrite (st_bind_Ret _ _ _ _ _ Hput'), (st_bind_Ret _ _ s2 s2 s2) by done.
  cbn [sc_createdAt s2]. case_decide.
  - rewrite (st_bind_Ret _ _ s2 s2 (MkNotification (Some old) (Some new) (Some ev) k))
      by (unfold lift; by rewrite (NewNotification_Ret ev k old new) by eauto).
    destruct (Publish_spec (E := goerror) notification_labels (sc_publisher s)
      (MkNotification (Some old) (Some new) (Some ev) k) (proj2 Hok)) as (p & Hpub & _).
    rewrite (st_bind_Ret _ _ s2 s2 p) by (unfold lift; simpl; by rewrite Hpub).
    eexists _, new. split; [reflexivity|]. simpl.
    split_and!; try done; [split; [done|]; by eapply Publish_ok, Hpub; apply Hok|]. by exists old.
  - eexists _, new. split; [reflexivity|]. simpl. split_and!; try done.
    split; [done|]. apply Hok.
Qed.

(** The subscribed cache keeps in step with the event store.  When an event that
    was appended to a stream is delivered, and the stream can be replayed at all,
    the cache afterwards holds for that stream what a replay of the whole stream
    gives (up to creation times and generations), whether the entity was cached, or
    had been dropped and is loaded from a stream that already contains the event. *)
Theorem applyEvent_in_step (now : Z) (ev : Event) (k : Aggregate) (es : list Event) (r0 : Entity)
    (s : SubscribedCache (LoadingCache C B)) :
  sc_ok s → event_valid ev → event_key ev = Some k → Forall fit (es ++ [ev]) →
  lc_stream (sc_cache s) k = es ++ [ev] → replay now k (es ++ [ev]) = Ret r0 →
  (∀ e r, lc_cached (sc_cache s) !! k = Some e → replay now k es = Ret r → sim e r) →
  ∃ s' e, applyEvent now ev s = (Ret (), s') ∧ sc_ok s' ∧
    lc_cached (sc_cache s') !! k = Some e ∧ sim e r0 ∧
    others_kept k (sc_cache s) (sc_cache s') ∧
    (∀ k', lc_stream (sc_cache s') k' = lc_stream (sc_cache s) k').
Proof.
  intros Hok Hv Hkey Hfit Hst Hr0 Hco.
  destruct (applyEvent_spec now ev k es r0 s Hok Hv Hkey Hfit Hst Hr0 Hco) as (s' & e & ? & ? & ? & ? & ? & ? & _). eauto 10.
Qed.
End reading.

(** ** A cache that does not load

    [getOrCreateAggregateForEvent] compares the error of the cache with the bare
    [ErrEntityNotFound], but the caches annotate that error with the aggregate: the
    branch that creates the entity is never taken. *)
Section plain.
Context {C : Type} `{CacheLaws C} `{Projector} `{PTypes}.

Theorem applyEvent_never_creates (now : Z) (ev : Event) (k : Aggregate) (s : SubscribedCache C) :
  cache_ok (sc_cache s) → event_valid ev → event_key ev = Some k →
  cached (sc_cache s) !! k = None →
  ∃ err s', applyEvent now ev s = (Throw err, s') ∧
    EventStoreErr_Is ErrEntityNotFound (Some err) = true ∧
    cached (sc_cache s') = cached (sc_cache s).
Proof.
  intros Hok Hv Hkey Hmiss. pose proof (event_key_valid _ _ Hv Hkey) as Hk.
  pose proof (event_valid_aggregate _ Hv) as (a & Ha & _).
  pose proof (c_Get_spec now k (sc_cache s) Hok Hk) as Hg.
  destruct (c_GetAggregate now k (sc_cache s)) as [r c'] eqn:Hget.
  destruct Hg as (Hok' & Hcon & Hr). rewrite Hmiss in Hr. destruct Hr as (err & -> & His & Hsent).
  exists err, (MkSubscribedCache (sc_publisher s) c' (sc_createdAt s)).
  split; [|done]. unfold applyEvent.
  rewrite (st_bind_Ret _ _ s s a) by (by rewrite Ha).
  rewrite (st_bind_Ret _ _ s s ()) by (unfold lift; by rewrite (proj2 (ValidateEvent_valid ev ()) Hv)).
  apply st_bind_Throw. unfold getOrCreateAggregateForEvent.
  rewrite (st_bind_Ret _ _ s s k) by (unfold lift; by rewrite (getKey_event_key _ _ Hkey)).
  unfold catch, on_inner. rewrite Hget. by rewrite Hsent.
Qed.
End plain.
