(* ===== verification/Graph.v ===== *)
(** Component [pkg/types/graph]: task identifiers hashed with 64-bit FNV-1a, the
    dependency graph of a set of tasks, and its roots.  The graph structure itself
    is the library [gonum.org/v1/gonum/graph/simple]: a class with its documented
    behaviour, and an instance on finite maps for concrete runs. *)

From stdpp Require Import base gmap strings list relations.
From S2P Require Import Prelude Data Types.
From Stdlib Require Import Ascii.

(** ** Hashes *)

(** [hash/fnv]: the 64-bit FNV-1a hash of the bytes of a string. *)
Definition fnv_offset64 : Z := 14695981039346656037.
Definition fnv_prime64 : Z := 1099511628211.

Fixpoint fnv1a (h : Z) (s : string) : Z :=
  match s with
  | EmptyString => h
  | String c s => fnv1a (wrap_u64 (Z.lxor h (Z.of_N (N_of_ascii c)) * fnv_prime64)) s
  end.

(** [pkg/types/graph/graph.go:156-160] createID *)
Definition createID (s : string) : Z := to_i64 (fnv1a fnv_offset64 s).

(** The hash does not confuse the strings of [S]. *)
Definition hash_inj (S : string → Prop) : Prop :=
  ∀ x y, S x → S y → createID x = createID y → x = y.

(** ** Nodes *)

(** [pkg/types/graph/graph.go:11-14] LinkedNode: the two node types *)
Inductive LinkedNode :=
| TaskInvocationNode (ti : TaskInvocation)
| TaskSpecNode (id : string) (spec : option TaskSpec).
#[export] Instance LinkedNode_eq_dec : EqDecision LinkedNode.
Proof. solve_decision. Defined.

(** The identifier a node is made from. *)
Definition node_key (n : LinkedNode) : string :=
  match n with
  | TaskInvocationNode ti => Task_ID (TaskInvocation_Task ti)
  | TaskSpecNode id _ => id
  end.

(** [pkg/types/graph/graph.go:20-22] TaskInvocationNode.ID, TaskSpecNode.ID *)
Definition node_ID (n : LinkedNode) : Z := createID (node_key n).

Definition requires_map := gmap string (option TaskDependencyParameters).

(** The [Requires] of a node: [n.Task().Spec.Requires] or [n.Requires]. *)
Definition node_requires {E} (n : LinkedNode) : res E requires_map :=
  match n with
  | TaskInvocationNode ti =>
      t ← deref (TaskInvocation_Task ti); sp ← deref (Task_Spec t); Ret (TaskSpec_Requires sp)
  | TaskSpecNode _ spec => sp ← deref spec; Ret (TaskSpec_Requires sp)
  end.

Section links.
Context `{MapRange}.

(** [pkg/types/graph/graph.go:24-31] TaskInvocationNode.Links *)
Definition TaskInvocationNode_Links {E} (ti : TaskInvocation) : res E (list Z) :=
  req ← node_requires (TaskInvocationNode ti);
  Ret (createID <$> (range 0 req).*1).

(** [pkg/types/graph/graph.go:38-44] TaskSpecNode.Links *)
Definition TaskSpecNode_Links {E} (id : string) (spec : option TaskSpec) : res E (list Z) :=
  req ← node_requires (TaskSpecNode id spec);
  Ret (createID <$> (range 0 req).*1).

Definition Links {E} (n : LinkedNode) : res E (list Z) :=
  match n with
  | TaskInvocationNode ti => TaskInvocationNode_Links ti
  | TaskSpecNode id spec => TaskSpecNode_Links id spec
  end.
End links.

(** ** Iterators *)

(** [Get] and the number of keys. *)
(** [pkg/types/graph/graph.go:50-52] Iterator *)
Record Iterator := MkIterator { it_len : nat; it_Get : nat → option LinkedNode }.

Section iterators.
Context `{MapRange}.

(** [pkg/types/graph/graph.go:59-68] NewTaskInstanceIterator *)
Definition NewTaskInstanceIterator (contents : gmap string TaskInvocation) : Iterator :=
  let keys := (range 0 contents).*1 in
  MkIterator (length keys) (λ ptr,
    k ← keys !! ptr; TaskInvocationNode <$> contents !! k).

(** [pkg/types/graph/graph.go:94-103] NewTaskSpecIterator *)
Definition NewTaskSpecIterator (contents : gmap string (option TaskSpec)) : Iterator :=
  let keys := (range 0 contents).*1 in
  MkIterator (length keys) (λ ptr,
    k ← keys !! ptr; Some (TaskSpecNode k (contents !! k ≫= id))).

(** [for ptr := 0; it.Get(ptr) != nil; ptr++]: the nodes visited from [ptr] on. *)
Fixpoint walk (fuel ptr : nat) (it : Iterator) : list LinkedNode :=
  match fuel with
  | O => []
  | S fuel =>
      match it_Get it ptr with
      | None => []
      | Some n => n :: walk fuel (S ptr) it
      end
  end.

Definition it_nodes (it : Iterator) : list LinkedNode := walk (S (it_len it)) 0 it.
End iterators.

(** ** gonum's directed graphs *)

Class DirectedGraph := {
  dgraph : Type;
  dg_New : dgraph;
  dg_AddNode : LinkedNode → dgraph → option dgraph;
  dg_SetEdge : LinkedNode → LinkedNode → dgraph → option dgraph;
  dg_Node : Z → dgraph → option LinkedNode;
  dg_Nodes : dgraph → list LinkedNode;
  dg_To : LinkedNode → dgraph → list LinkedNode;
  (* topo.DirectedCyclesIn *)
  dg_cycles : dgraph → list (list LinkedNode);
  (* the edges, by the identifiers of their ends *)
  dg_edge : dgraph → Z → Z → Prop;
}.

(** [None] is a panic: AddNode panics on an identifier in use, SetEdge on an edge
    from a node to itself. *)
Class DirectedGraphLaws `{DirectedGraph} := {
  dg_Node_ID g i n : dg_Node i g = Some n → node_ID n = i;
  dg_New_Node i : dg_Node i dg_New = None;
  dg_New_edge i j : ¬ dg_edge dg_New i j;
  dg_AddNode_spec n g :
    match dg_AddNode n g with
    | None => is_Some (dg_Node (node_ID n) g)
    | Some g' => dg_Node (node_ID n) g = None ∧ dg_Node (node_ID n) g' = Some n ∧
        (∀ i, i ≠ node_ID n → dg_Node i g' = dg_Node i g) ∧
        (∀ i j, dg_edge g' i j ↔ dg_edge g i j)
    end;
  dg_SetEdge_spec f t g : dg_Node (node_ID f) g = Some f → dg_Node (node_ID t) g = Some t →
    match dg_SetEdge f t g with
    | None => node_ID f = node_ID t
    | Some g' => node_ID f ≠ node_ID t ∧ (∀ i, dg_Node i g' = dg_Node i g) ∧
        (∀ i j, dg_edge g' i j ↔ dg_edge g i j ∨ i = node_ID f ∧ j = node_ID t)
    end;
  dg_Nodes_spec g : NoDup (dg_Nodes g) ∧ ∀ n, n ∈ dg_Nodes g ↔ dg_Node (node_ID n) g = Some n;
  dg_To_spec n g : ∀ i, i ∈ node_ID <$> dg_To n g ↔ dg_edge g i (node_ID n);
  dg_cycles_spec g : dg_cycles g = [] ↔ ∀ i, ¬ tc (dg_edge g) i i;
}.

(** A panic of the graph library. *)
Definition or_panic {E A} (why : string) (m : option A) : res E A :=
  match m with Some a => Ret a | None => Panic why end.

(** ** Building the graph *)

Section parse.
Context `{MapRange} `{DirectedGraph} {E : Type}.

Definition AddNode (g : dgraph) (n : LinkedNode) : res E dgraph :=
  or_panic "simple: node ID collision" (dg_AddNode n g).
Definition SetEdge (f t : LinkedNode) (g : dgraph) : res E dgraph :=
  or_panic "simple: adding self edge" (dg_SetEdge f t g).

(** The first loop of [injectDynamicTask]: the parent of a dynamic task. *)
Definition dynamic_parent (req : requires_map) : option string :=
  let fix go l :=
    match l with
    | [] => None
    | (dep, Some params) :: l' =>
        if decide (TaskDependencyParameters_Type params = TaskDependencyParameters_DYNAMIC_OUTPUT)
        then Some dep else go l'
    | (_, None) :: l' => go l'
    end in
  go (range 0 req).

(** [pkg/types/graph/graph.go:162-186] injectDynamicTask *)
Definition injectDynamicTask (nodeRequires : gmap Z requires_map) (depGraph : dgraph)
    (dynamic : LinkedNode) : res E dgraph :=
  match dynamic_parent (default ∅ (nodeRequires !! node_ID dynamic)) with
  | None => Ret depGraph
  | Some parentTaskID =>
      foldM (λ depGraph '(nodeID, deps),
        match (deps : requires_map) !! parentTaskID with
        | Some _ =>
            if decide (nodeID ≠ node_ID dynamic)
            then depNode ← deref (dg_Node nodeID depGraph); SetEdge dynamic depNode depGraph
            else Ret depGraph
        | None => Ret depGraph
        end) depGraph (range 1 nodeRequires)
  end.

(** The inner loop of [Parse]: the edges from the dependencies of [n] to [n]. *)
Definition add_links (n : LinkedNode) (depGraph : dgraph) (links : list Z) : res E dgraph :=
  foldM (λ depGraph dep,
    match dg_Node dep depGraph with
    | Some depNode => SetEdge depNode n depGraph
    | None => Ret depGraph
    end) depGraph links.

(** [pkg/types/graph/graph.go:105-143] Parse *)
Definition Parse (it : Iterator) : res E dgraph :=
  depGraph ← foldM AddNode dg_New (it_nodes it);
  depGraph ← foldM (λ depGraph n, links ← Links n; add_links n depGraph links)
               depGraph (it_nodes it);
  deps ← foldM (λ deps n, req ← node_requires n; Ret (<[node_ID n := req]> deps))
           (∅ : gmap Z requires_map) (dg_Nodes depGraph);
  foldM (injectDynamicTask deps) depGraph (dg_Nodes depGraph).

(** [pkg/types/graph/graph.go:145-154] Roots *)
Definition Roots (g : dgraph) : list LinkedNode :=
  foldl (λ roots n, if decide (length (dg_To n g) = 0) then roots ++ [n] else roots) [] (dg_Nodes g).

(** [pkg/types/graph/graph.go:188-196] Get *)
Definition Get (g : dgraph) (id : string) : option LinkedNode :=
  let fix go l :=
    match l with
    | [] => None
    | v :: l' => if decide (node_ID v = createID id) then Some v else go l'
    end in
  go (dg_Nodes g).
End parse.

(** ** What [Parse] builds *)

(** The requirements of a node, when its task and spec are there. *)
Definition req (n : LinkedNode) : requires_map :=
  match node_requires (E := unit) n with Ret r => r | _ => ∅ end.

Lemma node_requires_req {E} n :
  is_ret (node_requires (E := unit) n) → node_requires (E := E) n = Ret (req n).
Proof.
  unfold req, node_requires. destruct n as [ti|id spec].
  - destruct (TaskInvocation_Task ti) as [t|]; [|done]. simpl. by destruct (Task_Spec t).
  - by destruct spec.
Qed.

Section dependencies.
Context `{MapRange}.
Implicit Types (nodes : list LinkedNode) (a b n : LinkedNode).

(** [b] requires [a]. *)
Definition static_dep a b : Prop := is_Some (req b !! node_key a).

(** [a] is a dynamic task whose parent [b] requires. *)
Definition dynamic_dep a b : Prop :=
  a ≠ b ∧ ∃ p, dynamic_parent (req a) = Some p ∧ is_Some (req b !! p).

(** [b] has to wait for [a]. *)
Definition depends nodes a b : Prop :=
  a ∈ nodes ∧ b ∈ nodes ∧ (static_dep a b ∨ dynamic_dep a b).

(** The node lists [Parse] is made for: every node has its task and spec, no two
    nodes have the same key, no node requires itself, and the hash separates the
    keys in play. *)
Record parsable nodes : Prop := {
  parsable_req : ∀ n, n ∈ nodes → is_ret (node_requires (E := unit) n);
  parsable_nodup : NoDup (node_key <$> nodes);
  parsable_self : ∀ n, n ∈ nodes → req n !! node_key n = None;
  parsable_hash : hash_inj (λ k, k ∈ node_key <$> nodes ∨
                                 ∃ n, n ∈ nodes ∧ is_Some (req n !! k)) }.

Lemma dynamic_parent_Some r p :
  dynamic_parent r = Some p →
  ∃ params, r !! p = Some (Some params) ∧
    TaskDependencyParameters_Type params = TaskDependencyParameters_DYNAMIC_OUTPUT.
Proof.
  unfold dynamic_parent.
  assert (∀ l, (∀ k v, (k, v) ∈ l → r !! k = Some v) →
    (fix go (l : list (string * option TaskDependencyParameters)) : option string :=
       match l with
       | [] => None
       | (dep, Some params) :: l' =>
           if decide (TaskDependencyParameters_Type params = TaskDependencyParameters_DYNAMIC_OUTPUT)
           then Some dep else go l'
       | (_, None) :: l' => go l'
       end) l = Some p →
    ∃ params, r !! p = Some (Some params) ∧
      TaskDependencyParameters_Type params = TaskDependencyParameters_DYNAMIC_OUTPUT) as Hl.
  { induction l as [|[dep [params|]] l IH]; intros Hin; [done| |].
    - case_decide as Hty; [|apply IH; set_solver]. intros [= <-]. exists params. split; [|done].
      apply Hin. set_solver.
    - apply IH. set_solver. }
  apply Hl. intros ? ?. apply elem_of_range.
Qed.

Lemma dynamic_parent_is_Some r p params :
  r !! p = Some (Some params) →
  TaskDependencyParameters_Type params = TaskDependencyParameters_DYNAMIC_OUTPUT →
  is_Some (dynamic_parent r).
Proof.
  intros Hr Hty. unfold dynamic_parent. apply (elem_of_range 0) in Hr.
  induction (range 0 r) as [|[dep [q|]] l IH]; [set_solver| |].
  - case_decide; [by eexists|]. apply IH.
    apply elem_of_cons in Hr as [?|?]; [by simplify_eq|done].
  - apply IH. apply elem_of_cons in Hr as [?|?]; [by simplify_eq|done].
Qed.
End dependencies.

Lemma walk_spec it (l : list LinkedNode) :
  it_len it = length l → (∀ i, it_Get it i = l !! i) → it_nodes it = l.
Proof.
  intros Hlen Hget. unfold it_nodes. rewrite Hlen.
  assert (∀ fuel ptr, length l < ptr + fuel → walk fuel ptr it = drop ptr l) as Hw.
  { induction fuel as [|fuel IH]; intros ptr Hf; simpl.
    - rewrite drop_ge; [done|lia].
    - rewrite Hget. destruct (l !! ptr) as [n|] eqn:Hn.
      + rewrite (drop_S _ _ _ Hn). f_equal. apply IH. lia.
      + apply lookup_ge_None in Hn. by rewrite drop_ge by lia. }
  rewrite Hw by lia. apply drop_0.
Qed.

Section parse_spec.
Context `{MapRange} `{DirectedGraphLaws} {E : Type}.
Implicit Types (nodes : list LinkedNode) (g : dgraph).

Definition has_nodes g nodes : Prop :=
  ∀ i n, dg_Node i g = Some n ↔ n ∈ nodes ∧ node_ID n = i.

Lemma parsable_ID nodes a b :
  parsable nodes → a ∈ nodes → b ∈ nodes → node_ID a = node_ID b → a = b.
Proof.
  intros [_ Hnd _ Hh] Ha Hb Hid.
  assert (node_key a = node_key b) as Hk by (apply Hh; [left..|done]; set_solver).
  apply list_elem_of_lookup in Ha as [i Hi]. apply list_elem_of_lookup in Hb as [j Hj].
  assert (i = j) as ->; [|congruence].
  eapply (NoDup_lookup _ i j (node_key a) Hnd); rewrite list_lookup_fmap;
    [by rewrite Hi|by rewrite Hj, Hk].
Qed.

(** A loop that adds edges between the nodes of a graph. *)
Lemma foldM_edges {X} (f : dgraph → X → res E dgraph) (P : X → Z → Z → Prop) nodes l g :
  has_nodes g nodes →
  (∀ g x, x ∈ l → has_nodes g nodes →
     ∃ g', f g x = Ret g' ∧ has_nodes g' nodes ∧
           ∀ i j, dg_edge g' i j ↔ dg_edge g i j ∨ P x i j) →
  ∃ g', foldM f g l = Ret g' ∧ has_nodes g' nodes ∧
        ∀ i j, dg_edge g' i j ↔ dg_edge g i j ∨ ∃ x, x ∈ l ∧ P x i j.
Proof.
  revert g. induction l as [|x l IH]; intros g Hg Hf; simpl.
  - exists g. split_and!; [done|done|]. intros i j. set_solver.
  - destruct (Hf g x) as (g1 & -> & Hg1 & He1); [set_solver|done|]. simpl.
    destruct (IH g1 Hg1) as (g2 & -> & Hg2 & He2); [intros; apply Hf; set_solver|].
    exists g2. split_and!; [done|done|]. intros i j. rewrite He2, He1. set_solver.
Qed.

Lemma SetEdge_spec nodes f t g :
  has_nodes g nodes → f ∈ nodes → t ∈ nodes → node_ID f ≠ node_ID t →
  ∃ g', SetEdge (E := E) f t g = Ret g' ∧ has_nodes g' nodes ∧
        ∀ i j, dg_edge g' i j ↔ dg_edge g i j ∨ i = node_ID f ∧ j = node_ID t.
Proof.
  intros Hg Hf Ht Hne.
  pose proof (dg_SetEdge_spec f t g ltac:(by apply Hg) ltac:(by apply Hg)) as Hs.
  unfold SetEdge. destruct (dg_SetEdge f t g) as [g'|]; simpl; [|done].
  destruct Hs as (_ & Hn & He). exists g'. split_and!; [done| |done].
  intros i n. by rewrite Hn, (Hg i n).
Qed.

Lemma add_nodes_spec nodes :
  NoDup (node_ID <$> nodes) →
  ∃ g, foldM (AddNode (E := E)) dg_New nodes = Ret g ∧ has_nodes g nodes ∧
       ∀ i j, ¬ dg_edge g i j.
Proof.
  assert (∀ l pre g, NoDup (node_ID <$> (pre ++ l)) → has_nodes g pre → (∀ i j, ¬ dg_edge g i j) →
    ∃ g', foldM (AddNode (E := E)) g l = Ret g' ∧ has_nodes g' (pre ++ l) ∧
          ∀ i j, ¬ dg_edge g' i j) as Hl.
  { induction l as [|n l IH]; intros pre g Hnd Hg He; simpl.
    { exists g. by rewrite app_nil_r. }
    pose proof (dg_AddNode_spec n g) as Ha.
    assert (AddNode (E := E) g n = or_panic "simple: node ID collision" (dg_AddNode n g)) as ->
      by done.
    destruct (dg_AddNode n g) as [g1|]; simpl.
    - destruct Ha as (Hn & Hn1 & Hother & Hedge).
      destruct (IH (pre ++ [n]) g1) as (g' & Hf & Hg' & He').
      + by rewrite <- app_assoc.
      + intros i m. rewrite elem_of_app, list_elem_of_singleton.
        destruct (decide (i = node_ID n)) as [->|Hne].
        * rewrite Hn1. split; [intros [= <-]; auto|]. intros [[Hm| ->] Hid]; [|done].
          assert (dg_Node (node_ID n) g = Some m) by (by apply Hg). congruence.
        * rewrite Hother by done. rewrite (Hg i m). naive_solver.
      + intros i j. rewrite Hedge. apply He.
      + exists g'. rewrite <- app_assoc in Hg'. by split_and!.
    - exfalso. destruct Ha as [m Hm]. apply Hg in Hm as [Hm Hid].
      rewrite fmap_app, fmap_cons in Hnd. apply NoDup_app in Hnd as (_ & Hdis & _).
      apply (Hdis (node_ID m)); [by apply list_elem_of_fmap_2|]. rewrite Hid. set_solver. }
  intros Hnd. apply (Hl nodes [] dg_New); [done| |apply dg_New_edge].
  intros i n. rewrite dg_New_Node. set_solver.
Qed.

Lemma Links_spec n :
  is_ret (node_requires (E := unit) n) →
  ∃ l, Links (E := E) n = Ret l ∧ ∀ h, h ∈ l ↔ ∃ k, is_Some (req n !! k) ∧ createID k = h.
Proof.
  intros Hn. exists (createID <$> (range 0 (req n)).*1). split.
  - destruct n; simpl; unfold TaskInvocationNode_Links, TaskSpecNode_Links;
      by rewrite (node_requires_req _ Hn).
  - intros h. rewrite list_elem_of_fmap. setoid_rewrite elem_of_range_fst. naive_solver.
Qed.

(** The edges from the dependencies of one node. *)
Lemma add_links_spec nodes n g :
  parsable nodes → n ∈ nodes → has_nodes g nodes →
  ∃ g', (links ← Links (E := E) n; add_links n g links) = Ret g' ∧ has_nodes g' nodes ∧
    ∀ i j, dg_edge g' i j ↔
      dg_edge g i j ∨ ∃ a, a ∈ nodes ∧ static_dep a n ∧ i = node_ID a ∧ j = node_ID n.
Proof.
  intros Hp Hn Hg. destruct (Links_spec n (parsable_req _ Hp _ Hn)) as (l & -> & Hl).
  unfold add_links. simpl.
  destruct (foldM_edges (λ g dep, match dg_Node dep g with
      | Some depNode => SetEdge depNode n g | None => Ret g end)
      (λ dep i j, ∃ a, a ∈ nodes ∧ node_ID a = dep ∧ i = node_ID a ∧ j = node_ID n) nodes l g Hg)
    as (g' & Hf & Hg' & He).
  - intros g1 dep Hdep Hg1. apply Hl in Hdep as (k & Hk & <-).
    destruct (dg_Node (createID k) g1) as [a|] eqn:Ha.
    + apply Hg1 in Ha as [Ha Hid].
      assert (node_key a = k) as Hak.
      { apply (parsable_hash _ Hp); [left; set_solver|right; eauto|done]. }
      destruct (SetEdge_spec nodes a n g1 Hg1 Ha Hn) as (g2 & -> & Hg2 & He2).
      { intros Heq. apply (parsable_ID _ _ _ Hp Ha Hn) in Heq as ->.
        pose proof (parsable_self _ Hp _ Hn) as Hself. rewrite Hak in Hself.
        rewrite Hself in Hk. by destruct Hk. }
      exists g2. split_and!; [done|done|]. intros i j. rewrite He2. split.
      * intros [?|[-> ->]]; [by left|right; eauto 10].
      * intros [?|(a' & Ha' & Hid' & -> & ->)]; [by left|right].
        split; [|done]. congruence.
    + exists g1. split_and!; [done|done|]. intros i j. split; [by left|].
      intros [?|(a & Hain & Hid & _)]; [done|].
      assert (dg_Node (createID k) g1 = Some a) by (by apply Hg1). congruence.
  - exists g'. split_and!; [exact Hf|done|]. intros i j. rewrite He. split.
    + intros [?|(dep & Hdep & a & Ha & Hid & -> & ->)]; [by left|right].
      exists a. split_and!; try done. apply Hl in Hdep as (k & Hk & Hk').
      assert (node_key a = k) as <-; [|done].
      apply (parsable_hash _ Hp); [left; set_solver|right; eauto|].
      by rewrite Hk'.
    + intros [?|(a & Ha & Hs & -> & ->)]; [by left|right].
      exists (node_ID a). split; [|eauto 10]. apply Hl. eauto.
Qed.

Lemma has_nodes_elem g nodes n : parsable nodes → has_nodes g nodes → n ∈ dg_Nodes g ↔ n ∈ nodes.
Proof.
  intros Hp Hg. rewrite (proj2 (dg_Nodes_spec g)), (Hg (node_ID n) n). naive_solver.
Qed.

(** The map [deps] of [Parse]. *)
Lemma requires_table_spec nodes l :
  parsable nodes → (∀ n, n ∈ l → n ∈ nodes) →
  ∃ deps, foldM (λ deps n, r ← node_requires (E := E) n; Ret (<[node_ID n := r]> deps))
            (∅ : gmap Z requires_map) l = Ret deps ∧
    ∀ i r, deps !! i = Some r ↔ ∃ n, n ∈ l ∧ node_ID n = i ∧ r = req n.
Proof.
  intros Hp Hl.
  rewrite (foldM_Ret _ (λ deps n, <[node_ID n := req n]> deps)).
  2:{ intros deps n Hn. rewrite node_requires_req; [done|]. apply (parsable_req _ Hp). auto. }
  eexists; split; [done|].
  assert (∀ l acc, (∀ n, n ∈ l → n ∈ nodes) →
    (∀ i r, acc !! i = Some r → ∃ n, n ∈ nodes ∧ node_ID n = i ∧ r = req n) →
    ∀ i r, foldl (λ (deps : gmap Z requires_map) n, <[node_ID n := req n]> deps) acc l !! i = Some r ↔
      acc !! i = Some r ∨ ∃ n, n ∈ l ∧ node_ID n = i ∧ r = req n) as Hfold.
  { clear l Hl. induction l as [|n l IH]; intros acc Hl Hacc i r; simpl; [set_solver|].
    assert (n ∈ nodes) as Hn by (apply Hl; set_solver).
    rewrite IH.
    - rewrite lookup_insert_Some. split.
      + intros [[[<- <-]|[Hne ?]]|(m & Hm & ? & ?)]; [right|by left|right].
        * exists n. set_solver.
        * exists m. set_solver.
      + intros [Ha|(m & [->|Hm]%elem_of_cons & Hid & ->)]; [|by left; left|right; eauto].
        destruct (decide (node_ID n = i)) as [<-|?]; [left; left|by left; right].
        destruct (Hacc _ _ Ha) as (m & Hm & Hid & ->). split; [done|].
        by rewrite (parsable_ID _ _ _ Hp Hm Hn Hid).
    - intros ? ?. apply Hl. set_solver.
    - intros i' r'. rewrite lookup_insert_Some. intros [[<- <-]|[_ ?]]; eauto. }
  intros i r. rewrite Hfold; [|done|]; [|intros ? ?; by rewrite lookup_empty].
  rewrite lookup_empty. naive_solver.
Qed.

Lemma injectDynamicTask_spec nodes deps d g :
  parsable nodes → d ∈ nodes → has_nodes g nodes →
  (∀ i r, deps !! i = Some r ↔ ∃ n, n ∈ nodes ∧ node_ID n = i ∧ r = req n) →
  ∃ g', injectDynamicTask (E := E) deps g d = Ret g' ∧ has_nodes g' nodes ∧
    ∀ i j, dg_edge g' i j ↔
      dg_edge g i j ∨ ∃ b, b ∈ nodes ∧ dynamic_dep d b ∧ i = node_ID d ∧ j = node_ID b.
Proof.
  intros Hp Hd Hg Hdeps. unfold injectDynamicTask.
  assert (deps !! node_ID d = Some (req d)) as -> by (apply Hdeps; eauto). simpl.
  destruct (dynamic_parent (req d)) as [p|] eqn:Hpar.
  2:{ exists g. split_and!; [done|done|]. intros i j. split; [by left|].
      intros [?|(b & _ & (_ & p & Hpar' & _) & _)]; congruence. }
  edestruct (foldM_edges (λ g '(nodeID, deps),
        match (deps : requires_map) !! p with
        | Some _ =>
            if decide (nodeID ≠ node_ID d)
            then depNode ← deref (dg_Node nodeID g); SetEdge d depNode g
            else Ret g
        | None => Ret g
        end)
      (λ '(nodeID, r) i j, ∃ b, b ∈ nodes ∧ node_ID b = nodeID ∧ dynamic_dep d b ∧
         i = node_ID d ∧ j = node_ID b) nodes (range 1 deps) g Hg)
    as (g' & Hf & Hg' & He).
  - intros g1 [nodeID r] Hin Hg1. apply elem_of_range, Hdeps in Hin as (b & Hb & <- & ->).
    destruct (req b !! p) as [params|] eqn:Hbp.
    + case_decide as Hne.
      * assert (dg_Node (node_ID b) g1 = Some b) as -> by (by apply Hg1). simpl.
        destruct (SetEdge_spec nodes d b g1 Hg1 Hd Hb) as (g2 & -> & Hg2 & He2); [congruence|].
        exists g2. split_and!; [done|done|]. intros i j. rewrite He2. split.
        -- intros [?|[-> ->]]; [by left|right]. exists b. split_and!; try done.
           split; [congruence|]. exists p. rewrite Hbp. split; [done|by eexists].
        -- intros [?|(b' & Hb' & Hid & _ & -> & ->)]; [by left|right]. by rewrite Hid.
      * exists g1. split_and!; [done|done|]. intros i j. split; [by left|].
        intros [?|(b' & Hb' & Hid & [Hdb _] & _)]; [done|]. exfalso. apply Hdb.
        apply (parsable_ID _ _ _ Hp); [done|done|]. congruence.
    + exists g1. split_and!; [done|done|]. intros i j. split; [by left|].
      intros [?|(b' & Hb' & Hid & (_ & p' & Hp' & Hbp') & _)]; [done|].
      apply (parsable_ID _ _ _ Hp Hb' Hb) in Hid as ->. simplify_eq.
      rewrite Hbp in Hbp'. by destruct Hbp'.
  - exists g'. split_and!; [exact Hf|done|]. intros i j. rewrite He. split.
    + intros [?|([nodeID r] & _ & b & ? & _ & ? & ? & ?)]; [by left|right; eauto 10].
    + intros [?|(b & Hb & Hdyn & -> & ->)]; [by left|right].
      exists (node_ID b, req b). split; [|eauto 10]. apply elem_of_range, Hdeps. eauto.
Qed.

(** [Parse] builds the graph of the dependency relation. *)
Lemma Parse_spec it :
  parsable (it_nodes it) →
  ∃ g, Parse (E := E) it = Ret g ∧ has_nodes g (it_nodes it) ∧
    ∀ i j, dg_edge g i j ↔
      ∃ a b, depends (it_nodes it) a b ∧ i = node_ID a ∧ j = node_ID b.
Proof.
  intros Hp. set (nodes := it_nodes it) in *. unfold Parse. fold nodes.
  assert (NoDup (node_ID <$> nodes)) as Hnd.
  { apply NoDup_fmap_2_strong.
    - intros a b Ha Hb. apply (parsable_ID nodes); done.
    - eapply NoDup_fmap_1, Hp. }
  destruct (add_nodes_spec nodes Hnd) as (g0 & -> & Hg0 & He0).
  rewrite bind_Ret_l.
  destruct (foldM_edges (λ g n, links ← Links n; add_links n g links)
    (λ n i j, ∃ a, a ∈ nodes ∧ static_dep a n ∧ i = node_ID a ∧ j = node_ID n) nodes nodes g0 Hg0)
    as (g1 & -> & Hg1 & He1).
  { intros g n Hn Hg. by apply add_links_spec. }
  rewrite bind_Ret_l.
  destruct (requires_table_spec nodes (dg_Nodes g1) Hp) as (deps & -> & Hdeps).
  { intros n. by rewrite (has_nodes_elem g1 nodes). }
  rewrite bind_Ret_l.
  destruct (foldM_edges (injectDynamicTask deps)
    (λ d i j, ∃ b, b ∈ nodes ∧ dynamic_dep d b ∧ i = node_ID d ∧ j = node_ID b)
    nodes (dg_Nodes g1) g1 Hg1) as (g2 & Hf & Hg2 & He2).
  { intros g d Hd Hg. rewrite (has_nodes_elem g1 nodes) in Hd by done.
    apply injectDynamicTask_spec; [done|done|done|]. intros i r. rewrite Hdeps.
    setoid_rewrite (has_nodes_elem g1 nodes); done. }
  exists g2. split_and!; [exact Hf|done|]. intros i j. rewrite He2, He1.
  setoid_rewrite (has_nodes_elem g1 nodes); [|done..].
  unfold depends. split.
  - intros [[?|(b & Hb & a & Ha & ? & -> & ->)]|(a & Ha & b & Hb & ? & -> & ->)];
      [by edestruct He0|eauto 10|eauto 10].
  - intros (a & b & (Ha & Hb & [?|?]) & -> & ->); [left; right; eauto 10|right; eauto 10].
Qed.

(** The roots of the graph are the nodes that wait for nothing. *)
Lemma Roots_spec g nodes n :
  parsable nodes → has_nodes g nodes →
  (∀ i j, dg_edge g i j ↔ ∃ a b, depends nodes a b ∧ i = node_ID a ∧ j = node_ID b) →
  n ∈ Roots g ↔ n ∈ nodes ∧ ∀ a, ¬ depends nodes a n.
Proof.
  intros Hp Hg He. unfold Roots.
  assert (∀ (P : LinkedNode → Prop) `{∀ n, Decision (P n)} l acc,
    foldl (λ roots n, if decide (P n) then roots ++ [n] else roots) acc l = acc ++ filter P l) as Hf.
  { intros P ? l. induction l as [|x l IH]; intros acc; simpl; [by rewrite app_nil_r|].
    rewrite IH, filter_cons. case_decide; [by rewrite <- app_assoc|done]. }
  rewrite Hf. simpl. rewrite list_elem_of_filter, (has_nodes_elem g nodes) by done.
  assert (length (dg_To n g) = 0 ↔ ∀ i, ¬ dg_edge g i (node_ID n)) as ->.
  { setoid_rewrite <- (dg_To_spec n g). rewrite length_zero_iff_nil. split.
    - intros ->. set_solver.
    - intros Hno. destruct (dg_To n g) as [|x l]; [done|]. destruct (Hno (node_ID x)). set_solver. }
  split.
  - intros [Hno Hn]. split; [done|]. intros a Hd. apply (Hno (node_ID a)). apply He. eauto.
  - intros [Hn Hno]. split; [|done]. intros i Hi. apply He in Hi as (a & b & Hd & -> & Hid).
    pose proof Hd as (_ & Hb & _). apply (parsable_ID _ _ _ Hp Hn Hb) in Hid as ->.
    by apply (Hno a).
Qed.

Lemma Roots_NoDup g : NoDup (Roots g).
Proof.
  unfold Roots. assert (∀ l acc, NoDup (acc ++ l) →
    NoDup (foldl (λ roots n, if decide (length (dg_To n g) = 0) then roots ++ [n] else roots) acc l))
    as Hl.
  { induction l as [|x l IH]; intros acc Hnd; simpl; [by rewrite app_nil_r in Hnd|].
    apply IH. case_decide; [by rewrite <- app_assoc|].
    eapply sublist_NoDup; [exact Hnd|]. apply sublist_app; [done|]. by apply sublist_cons. }
  apply Hl. simpl. apply dg_Nodes_spec.
Qed.
End parse_spec.

(** ** Acyclic graphs *)

Section acyclic.
Context {A : Type} `{EqDecision A}.
Implicit Types R : relation A.

Lemma tc_flip R x y : tc (flip R) x y ↔ tc R y x.
Proof.
  split; (induction 1; [by apply tc_once|eapply tc_r; eauto]).
Qed.

(** Going back along an acyclic relation on finitely many elements ends. *)
Lemma acyclic_flip_sn R (l : list A) x :
  (∀ a b, R a b → a ∈ l) → (∀ a, ¬ tc R a a) → sn (flip R) x.
Proof.
  intros Hl Hirr. apply tc_finite_sn.
  - intros a Ha. apply tc_flip in Ha. by apply (Hirr a).
  - exists l. intros y Hy. apply tc_flip in Hy. inversion Hy; eauto.
Qed.

(** So there is an element without a predecessor. *)
Lemma acyclic_source R (l : list A) x :
  (∀ a b, Decision (R a b)) → (∀ a b, R a b → a ∈ l) → (∀ a, ¬ tc R a a) → x ∈ l →
  ∃ y, y ∈ l ∧ ∀ a, ¬ R a y.
Proof.
  intros Hdec Hl Hirr Hx. pose proof (acyclic_flip_sn R l x Hl Hirr) as Hsn.
  induction Hsn as [y _ IH]. unfold flip in IH.
  destruct (decide (Exists (λ a, R a y) l)) as [Hex|Hno].
  - apply Exists_exists in Hex as (a & Ha & Hr). by apply (IH a).
  - exists y. split; [done|]. intros a Hr. apply Hno, Exists_exists. eauto.
Qed.
End acyclic.

(** ** Graphs on finite maps *)

(** Remove the edges whose source has no incoming edge. *)
Definition peel (E : gset (Z * Z)) : gset (Z * Z) :=
  filter (λ e, set_Exists (λ e', e'.2 = e.1) E) E.

Section peel.
Implicit Types E F : gset (Z * Z).

Lemma elem_of_peel E i j : (i, j) ∈ peel E ↔ (i, j) ∈ E ∧ ∃ h, (h, i) ∈ E.
Proof.
  unfold peel. rewrite elem_of_filter. simpl. split.
  - intros [([h i'] & Hh & Heq) Hij]. simpl in Heq. subst i'. eauto.
  - intros [Hij [h Hh]]. split; [|done]. by exists (h, i).
Qed.

Lemma peel_subseteq E : peel E ⊆ E.
Proof. intros [i j] Hij. by apply elem_of_peel in Hij as [? _]. Qed.

Lemma peel_iter_fix n E : size E ≤ n → peel (Nat.iter n peel E) = Nat.iter n peel E.
Proof.
  revert E. induction n as [|n IH]; intros E Hn.
  - assert (E = ∅) as -> by (apply leibniz_equiv, size_empty_iff; simpl; lia). done.
  - destruct (decide (peel E = E)) as [Hfix|Hne].
    + assert (∀ m, Nat.iter m peel E = E) as Hm by (intros m; induction m; simpl; congruence).
      by rewrite Hm.
    + rewrite Nat.iter_succ_r. apply IH.
      assert (size (peel E) < size E); [|lia].
      apply subset_size. split; [apply peel_subseteq|]. intros Hsub.
      apply Hne, set_eq. intros e. split; [apply peel_subseteq|apply Hsub].
Qed.

Lemma peel_empty_acyclic E :
  Nat.iter (size E) peel E = ∅ ↔ ∀ i, ¬ tc (λ i j, (i, j) ∈ E) i i.
Proof.
  set (R := λ i j, (i, j) ∈ E). split.
  - intros Hemp i Hc.
    assert (∀ n a b, (a, b) ∈ E → rtc R b a → (a, b) ∈ Nat.iter n peel E) as Hstay.
    { induction n as [|n IH]; intros a b Hab Hba; [done|]. simpl. apply elem_of_peel.
      split; [by apply IH|].
      apply rtc_inv_r in Hba as [<-|(y & Hby & Hya)]; [exists b; by apply IH|].
      exists y. apply IH; [done|]. by apply rtc_l with b. }
    assert (∃ y, R i y ∧ rtc R y i) as (y & Hiy & Hyi).
    { inversion Hc; subst; [by exists i|]. eauto using tc_rtc. }
    specialize (Hstay (size E) i y Hiy Hyi). rewrite Hemp in Hstay. set_solver.
  - intros Hirr. pose proof (peel_iter_fix (size E) E ltac:(done)) as Hfix.
    set (F := Nat.iter (size E) peel E) in *.
    assert (F ⊆ E) as HF.
    { unfold F. clear. induction (size E) as [|n IH]; simpl; [done|].
      etrans; [apply peel_subseteq|done]. }
    apply set_eq. intros [a b]. split; [|set_solver]. intros Hab. exfalso.
    assert (sn (flip R) a) as Hsn.
    { apply (acyclic_flip_sn R ((elements E).*1)); [|done]. intros x y Hxy.
      apply list_elem_of_fmap. exists (x, y). split; [done|]. by apply elem_of_elements. }
    revert b Hab. induction Hsn as [a _ IH]. intros b Hab. rewrite <- Hfix in Hab.
    apply elem_of_peel in Hab as (_ & h & Hh). apply (IH h) with a; [|done].
    by apply HF.
Qed.
End peel.

(** The nodes by identifier, and the edges. *)
Record map_graph := MkMapGraph { mg_nodes : gmap Z LinkedNode; mg_edges : gset (Z * Z) }.

Definition mg_Node (i : Z) (g : map_graph) : option LinkedNode :=
  n ← mg_nodes g !! i; if decide (node_ID n = i) then Some n else None.

(** The edges that leave a node of the graph. *)
Definition mg_live (g : map_graph) : gset (Z * Z) :=
  filter (λ e, is_Some (mg_Node e.1 g)) (mg_edges g).

#[export] Instance map_DirectedGraph : DirectedGraph := {|
  dgraph := map_graph;
  dg_New := MkMapGraph ∅ ∅;
  dg_AddNode n g :=
    match mg_Node (node_ID n) g with
    | Some _ => None
    | None => Some (MkMapGraph (<[node_ID n := n]> (mg_nodes g))
                      (filter (λ e, e.1 ≠ node_ID n) (mg_edges g)))
    end;
  dg_SetEdge f t g :=
    if decide (node_ID f = node_ID t) then None
    else Some (MkMapGraph (mg_nodes g) ({[ (node_ID f, node_ID t) ]} ∪ mg_edges g));
  dg_Node := mg_Node;
  dg_Nodes g := (map_to_list (filter (λ '(i, n), node_ID n = i) (mg_nodes g))).*2;
  dg_To n g := omap (λ e, if decide (e.2 = node_ID n) then mg_Node e.1 g else None)
                 (elements (mg_edges g));
  dg_cycles g :=
    let E := mg_live g in if decide (Nat.iter (size E) peel E = ∅) then [] else [[]];
  dg_edge g i j := (i, j) ∈ mg_live g |}.

Lemma mg_Node_Some i n g : mg_Node i g = Some n ↔ mg_nodes g !! i = Some n ∧ node_ID n = i.
Proof.
  unfold mg_Node. destruct (mg_nodes g !! i) as [m|]; simpl; [|naive_solver].
  case_decide; naive_solver.
Qed.

Lemma elem_of_mg_live g i j : (i, j) ∈ mg_live g ↔ (i, j) ∈ mg_edges g ∧ is_Some (mg_Node i g).
Proof. unfold mg_live. rewrite elem_of_filter. simpl. tauto. Qed.

#[export] Instance map_DirectedGraphLaws : DirectedGraphLaws.
Proof.
  split; simpl.
  - intros g i n. by intros [_ ?]%mg_Node_Some.
  - done.
  - intros i j. rewrite elem_of_mg_live. set_solver.
  - intros n g. destruct (mg_Node (node_ID n) g) as [m|] eqn:Hn; [by eexists|].
    split_and!; [done| | |].
    + apply mg_Node_Some. simpl. by rewrite lookup_insert_eq.
    + intros i Hne. unfold mg_Node. simpl. by rewrite lookup_insert_ne.
    + intros i j. rewrite !elem_of_mg_live. simpl. rewrite elem_of_filter. simpl.
      destruct (decide (i = node_ID n)) as [->|Hne].
      * split; [tauto|]. intros [_ Hs]. rewrite Hn in Hs. by destruct Hs.
      * assert (mg_Node i (MkMapGraph (<[node_ID n:=n]> (mg_nodes g))
          (filter (λ e : Z * Z, e.1 ≠ node_ID n) (mg_edges g))) = mg_Node i g) as ->
          by (unfold mg_Node; simpl; by rewrite lookup_insert_ne).
        tauto.
  - intros f t g Hf Ht. case_decide as Heq; [done|]. split_and!; [done|done|].
    intros i j. rewrite !elem_of_mg_live. simpl. rewrite elem_of_union, elem_of_singleton.
    change (mg_Node i (MkMapGraph (mg_nodes g) _)) with (mg_Node i g). split.
    + intros [[[= -> ->]|?] ?]; auto.
    + intros [[? ?]|[-> ->]]; [auto|]. split; [by left|by eexists].
  - intros g. split.
    + apply NoDup_fmap_2_strong; [|apply NoDup_map_to_list].
      intros [i n] [j m] Hi Hj Heq. simpl in Heq. subst n. apply elem_of_map_to_list, map_lookup_filter_Some in Hi, Hj.
      destruct Hi as [_ <-], Hj as [_ <-]. done.
    + intros n. rewrite mg_Node_Some, list_elem_of_fmap. split.
      * intros ([i m] & -> & Hm). apply elem_of_map_to_list, map_lookup_filter_Some in Hm as [? <-].
        done.
      * intros [Hn _]. exists (node_ID n, n). split; [done|].
        by apply elem_of_map_to_list, map_lookup_filter_Some.
  - intros n g i. rewrite elem_of_mg_live, list_elem_of_fmap. setoid_rewrite list_elem_of_omap.
    split.
    + intros (m & -> & [a b] & Hab & Hm). simpl in Hm. case_decide as Hb; [|done]. subst b.
      apply elem_of_elements in Hab. pose proof Hm as Hm'. apply mg_Node_Some in Hm' as [_ <-]. split; [done|by eexists].
    + intros [Hi [m Hm]]. pose proof Hm as Hm'. apply mg_Node_Some in Hm' as [_ Hid].
      exists m. split; [done|]. exists (i, node_ID n). split; [by apply elem_of_elements|].
      simpl. by rewrite decide_True.
  - intros g. rewrite <- peel_empty_acyclic. by case_decide.
Qed.

(** ** Properties *)

Section properties.
Context `{MapRange} `{DirectedGraphLaws} {E : Type}.
Implicit Types (nodes : list LinkedNode) (g : dgraph).

#[export] Instance static_dep_dec a b : Decision (static_dep a b).
Proof. unfold static_dep. apply _. Defined.

#[export] Instance dynamic_dep_dec a b : Decision (dynamic_dep a b).
Proof.
  unfold dynamic_dep. destruct (decide (a = b)) as [->|Hne]; [right; naive_solver|].
  destruct (dynamic_parent (req a)) as [p|]; [|right; naive_solver].
  destruct (decide (is_Some (req b !! p))); [left|right]; naive_solver.
Defined.

#[export] Instance depends_dec nodes a b : Decision (depends nodes a b).
Proof. unfold depends. apply _. Defined.

(** The cycles of the graph are those of the dependency relation. *)
Lemma edges_cycles g nodes :
  parsable nodes →
  (∀ i j, dg_edge g i j ↔ ∃ a b, depends nodes a b ∧ i = node_ID a ∧ j = node_ID b) →
  dg_cycles g = [] ↔ ∀ a, ¬ tc (depends nodes) a a.
Proof.
  intros Hp He. rewrite (dg_cycles_spec g). split.
  - intros Hno a Hc. apply (Hno (node_ID a)). revert Hc.
    apply tc_congruence. intros x y Hxy. apply He. eauto.
  - intros Hno i Hc.
    assert (∀ i j, tc (dg_edge g) i j →
      ∃ a b, tc (depends nodes) a b ∧ i = node_ID a ∧ j = node_ID b) as Hlift.
    { clear i Hc. intros i j. induction 1 as [i j Hij|i j k Hij _ (b' & c & Hbc & Hb' & ->)].
      - apply He in Hij as (a & b & ? & -> & ->). exists a, b. split; [by apply tc_once|done].
      - apply He in Hij as (a & b & Hab & -> & Hb). exists a, c. split_and!; try done.
        apply tc_l with b'; [|done]. pose proof Hab as (_ & Hbn & _).
        assert (b' ∈ nodes) as Hbn'
          by (inversion Hbc as [? ? Hd|? ? ? Hd]; subst; apply Hd).
        rewrite Hb' in Hb. by apply (parsable_ID _ _ _ Hp Hbn' Hbn) in Hb as ->. }
    destruct (Hlift i i Hc) as (a & b & Hab & Hia & Hib). apply (Hno a).
    assert (a = b) as <-; [|done].
    apply (parsable_ID _ _ _ Hp); [| |congruence].
    + inversion Hab as [? ? Hd|? ? ? Hd]; subst; apply Hd.
    + apply tc_flip in Hab. inversion Hab as [? ? Hd|? ? ? Hd]; subst; apply Hd.
Qed.

(** C13: The graph [Parse] returns has the nodes of the iterator, an edge exactly from
    a node to the nodes that wait for it, and roots exactly the nodes that wait for
    nothing; it is acyclic exactly when the dependency relation is. *)
Theorem Parse_dependencies (it : Iterator) :
  parsable (it_nodes it) →
  ∃ g, Parse (E := E) it = Ret g ∧
    (∀ n, n ∈ dg_Nodes g ↔ n ∈ it_nodes it) ∧
    (∀ a b, a ∈ it_nodes it → b ∈ it_nodes it →
       dg_edge g (node_ID a) (node_ID b) ↔ depends (it_nodes it) a b) ∧
    (∀ n, n ∈ Roots g ↔ n ∈ it_nodes it ∧ ∀ a, ¬ depends (it_nodes it) a n) ∧
    (dg_cycles g = [] ↔ ∀ a, ¬ tc (depends (it_nodes it)) a a).
Proof.
  intros Hp. destruct (Parse_spec (E := E) it Hp) as (g & Hg & Hn & He).
  exists g. split_and!; [done|intros n; by apply has_nodes_elem| | |].
  - intros a b Ha Hb. rewrite He. split; [|eauto].
    intros (a' & b' & Hd & Hia & Hib). pose proof Hd as (Ha' & Hb' & _).
    apply (parsable_ID _ _ _ Hp) in Hia as ->; [|done..].
    by apply (parsable_ID _ _ _ Hp) in Hib as ->.
  - intros n. by apply Roots_spec.
  - by apply edges_cycles.
Qed.
End properties.
