(* ===== verification/Scheduler.v ===== *)
(** Component [pkg/scheduler]: the schedule of an invocation and the three policies
    that compute it: the horizon policy, and the two policies that also prewarm.
    The policies read the clock for the timestamps they put into the schedule and
    into the provisional task runs of the open tasks. *)

From stdpp Require Import base gmap strings list relations.
From S2P Require Import Prelude Data Types Fes Projectors Graph.

(** ** The schedule *)

(** [pkg/scheduler/scheduler.pb.go:88-102] AbortAction *)
Record AbortAction := MkAbortAction { AbortAction_Reason : string }.
(** [pkg/scheduler/scheduler.pb.go:104-119] RunTaskAction *)
Record RunTaskAction := MkRunTaskAction { RunTaskAction_TaskID : string }.
(** [pkg/scheduler/scheduler.pb.go:121-143] PrepareTaskAction *)
Record PrepareTaskAction := MkPrepareTaskAction {
  PrepareTaskAction_TaskID : string; PrepareTaskAction_ExpectedAt : option Timestamp }.
(** [pkg/scheduler/scheduler.pb.go:40-86] Schedule *)
Record Schedule := MkSchedule {
  Schedule_InvocationId : string;
  Schedule_CreatedAt : option Timestamp;
  Schedule_Abort : option AbortAction;
  Schedule_RunTasks : list RunTaskAction;
  Schedule_PrepareTasks : list PrepareTaskAction }.

Definition Schedule_with_Abort (m : Schedule) a : Schedule :=
  MkSchedule (Schedule_InvocationId m) (Schedule_CreatedAt m) a (Schedule_RunTasks m)
    (Schedule_PrepareTasks m).

(** [pkg/scheduler/scheduler.go:87-89] Schedule.AddRunTask *)
Definition AddRunTask (m : Schedule) (action : RunTaskAction) : Schedule :=
  MkSchedule (Schedule_InvocationId m) (Schedule_CreatedAt m) (Schedule_Abort m)
    (Schedule_RunTasks m ++ [action]) (Schedule_PrepareTasks m).

(** [pkg/scheduler/scheduler.go:91-93] Schedule.AddPrepareTask *)
Definition AddPrepareTask (m : Schedule) (action : PrepareTaskAction) : Schedule :=
  MkSchedule (Schedule_InvocationId m) (Schedule_CreatedAt m) (Schedule_Abort m)
    (Schedule_RunTasks m) (Schedule_PrepareTasks m ++ [action]).

Inductive Action :=
| ActAbort (a : AbortAction) | ActPrepare (a : PrepareTaskAction) | ActRun (a : RunTaskAction).

(** [pkg/scheduler/scheduler.go:95-110] Schedule.Actions *)
Definition Actions (m : Schedule) : list Action :=
  match Schedule_Abort m with Some a => [ActAbort a] | None => [] end ++
  (ActPrepare <$> Schedule_PrepareTasks m) ++ (ActRun <$> Schedule_RunTasks m).

(** [pkg/scheduler/scheduler.go:67-71] newRunTaskAction *)
Definition newRunTaskAction (taskID : string) : RunTaskAction := MkRunTaskAction taskID.
(** [pkg/scheduler/scheduler.go:73-77] newAbortAction *)
Definition newAbortAction (msg : string) : AbortAction := MkAbortAction msg.

Section policies.
Context `{MapRange} `{DirectedGraph} `{PTypes}.

(** [pkg/scheduler/scheduler.go:79-85] newPrepareTaskAction *)
Definition newPrepareTaskAction (taskID : string) (expectedAt : Z) : PrepareTaskAction :=
  MkPrepareTaskAction taskID (pt_TimestampProto expectedAt).

(** [pkg/scheduler/policies.go:155-163] getFailedTasks *)
Definition getFailedTasks (invocation : WorkflowInvocation) : res goerror (list TaskInvocation) :=
  runs ← WorkflowInvocation_TaskInvocations invocation;
  Ret (foldl (λ failedTasks '(_, task),
                if decide (TI_status task = TaskInvocationStatus_FAILED)
                then failedTasks ++ [task] else failedTasks) [] (range 1 runs)).

(** The provisional run of a task that was not started. *)
Definition provisional_run (now : Z) (invocation : WorkflowInvocation) (id : string)
    (task : option Task) : TaskInvocation :=
  MkTaskInvocation (Some (NewObjectMetadata now id))
    (Some (NewTaskInvocationSpec invocation task now))
    (Some (empty_TaskInvocationStatus TaskInvocationStatus_UNKNOWN)).

(** [pkg/scheduler/policies.go:165-183] getOpenTasks *)
Definition getOpenTasks (now : Z) (invocation : WorkflowInvocation) :
    res goerror (gmap string TaskInvocation) :=
  tasks ← WorkflowInvocation_Tasks (Some invocation);
  foldM (λ openTasks '(id, task),
    run ← WorkflowInvocation_TaskInvocation invocation id;
    let taskRun := match run with
                   | Some taskRun => taskRun
                   | None => provisional_run now invocation id task
                   end in
    Ret (if decide (TI_status taskRun = TaskInvocationStatus_UNKNOWN)
         then <[id := taskRun]> openTasks else openTasks)) ∅ (range 2 tasks).

(** The schedule of an invocation with failed tasks: the last failure wins. *)
Definition abort_schedule (schedule : Schedule) (failedTasks : list TaskInvocation) : Schedule :=
  foldl (λ schedule failedTask,
    let msg := match TaskInvocation_Status failedTask ≫= TaskInvocationStatus_Error with
               | Some err => Error_Message err
               | None => "Task '" +:+ TaskInvocation_ID failedTask +:+ "' failed"
               end in
    Schedule_with_Abort schedule (Some (newAbortAction msg))) schedule failedTasks.

(** The start of every policy: an empty schedule, or the one that aborts. *)
Definition new_schedule (now : Z) (invocation : WorkflowInvocation) : Schedule :=
  MkSchedule (WorkflowInvocation_ID invocation) (Some (pt_TimestampNow now)) None [] [].

(** [node.( *graph.TaskInvocationNode)] *)
Definition as_task_run (n : LinkedNode) : res goerror TaskInvocation :=
  match n with
  | TaskInvocationNode ti => Ret ti
  | TaskSpecNode _ _ => Panic "interface conversion"
  end.

(** [graph.Roots(graph.Parse(graph.NewTaskInstanceIterator(openTasks)))] *)
Definition horizon_of (openTasks : gmap string TaskInvocation) : res goerror (list LinkedNode) :=
  depGraph ← Parse (NewTaskInstanceIterator openTasks); Ret (Roots depGraph).

(** [pkg/scheduler/policies.go:25-48] HorizonPolicy.Evaluate *)
Definition HorizonPolicy_Evaluate (now : Z) (invocation : WorkflowInvocation) :
    res goerror Schedule :=
  let schedule := new_schedule now invocation in
  failedTasks ← getFailedTasks invocation;
  if decide (0 < length failedTasks) then Ret (abort_schedule schedule failedTasks)
  else
    openTasks ← getOpenTasks now invocation;
    horizon ← horizon_of openTasks;
    foldM (λ schedule node,
      ti ← as_task_run node;
      Ret (AddRunTask schedule (newRunTaskAction (Task_ID (TaskInvocation_Task ti)))))
      schedule horizon.

(** The loop of the prewarming policies: run the horizon and take it out of the
    open tasks. *)
Definition run_horizon (schedule : Schedule) (openTasks : gmap string TaskInvocation)
    (horizon : list LinkedNode) : res goerror (Schedule * gmap string TaskInvocation) :=
  foldM (λ '(schedule, openTasks) node,
    ti ← as_task_run node;
    Ret (AddRunTask schedule (newRunTaskAction (TaskInvocation_ID ti)),
         delete (TaskInvocation_ID ti) openTasks)) (schedule, openTasks) horizon.

(** [pkg/scheduler/policies.go:67-98] PrewarmAllPolicy.Evaluate *)
Definition PrewarmAllPolicy_Evaluate (coldStartDuration now : Z) (invocation : WorkflowInvocation) :
    res goerror Schedule :=
  let schedule := new_schedule now invocation in
  failedTasks ← getFailedTasks invocation;
  if decide (0 < length failedTasks) then Ret (abort_schedule schedule failedTasks)
  else
    openTasks ← getOpenTasks now invocation;
    horizon ← horizon_of openTasks;
    '(schedule, openTasks) ← run_horizon schedule openTasks horizon;
    let expectedAt := (now + coldStartDuration)%Z in
    Ret (foldl (λ schedule '(_, task),
           AddPrepareTask schedule (newPrepareTaskAction (TaskInvocation_ID task) expectedAt))
           schedule (range 3 openTasks)).

(** [pkg/scheduler/policies.go:117-153] PrewarmHorizonPolicy.Evaluate *)
Definition PrewarmHorizonPolicy_Evaluate (coldStartDuration now : Z)
    (invocation : WorkflowInvocation) : res goerror Schedule :=
  let schedule := new_schedule now invocation in
  failedTasks ← getFailedTasks invocation;
  if decide (0 < length failedTasks) then Ret (abort_schedule schedule failedTasks)
  else
    openTasks ← getOpenTasks now invocation;
    horizon ← horizon_of openTasks;
    '(schedule, openTasks) ← run_horizon schedule openTasks horizon;
    let expectedAt := (now + coldStartDuration)%Z in
    prewarmHorizon ← horizon_of openTasks;
    foldM (λ schedule node,
      ti ← as_task_run node;
      Ret (AddPrepareTask schedule
             (newPrepareTaskAction (Task_ID (TaskInvocation_Task ti)) expectedAt)))
      schedule prewarmHorizon.

(** [pkg/scheduler/scheduler.go:29-31] Policy *)
Inductive Policy :=
| HorizonPolicy
| PrewarmAllPolicy (coldStartDuration : Z)
| PrewarmHorizonPolicy (coldStartDuration : Z).

Definition Policy_Evaluate (p : Policy) : Z → WorkflowInvocation → res goerror Schedule :=
  match p with
  | HorizonPolicy => HorizonPolicy_Evaluate
  | PrewarmAllPolicy d => PrewarmAllPolicy_Evaluate d
  | PrewarmHorizonPolicy d => PrewarmHorizonPolicy_Evaluate d
  end.

(** [pkg/scheduler/scheduler.go:47-65] InvocationScheduler.Evaluate *)
Definition InvocationScheduler_Evaluate (policy : Policy) (now : Z)
    (invocation : WorkflowInvocation) : res goerror Schedule :=
  schedule ← Policy_Evaluate policy now invocation; Ret schedule.
End policies.

(** ** Specification *)

Section spec.
Context `{MapRange}.
Implicit Types (inv : WorkflowInvocation) (id : string).

(** The run of a task, if it was started. *)
Definition run_of inv id : option TaskInvocation := WI_task inv id.

(** A task of the invocation that was not started. *)
Definition open inv id : Prop := is_Some (inv_task_view inv id) ∧ run_of inv id = None.

(** What a task requires. *)
Definition reqs inv id : requires_map :=
  match inv_task_view inv id ≫= Task_Spec with Some s => TaskSpec_Requires s | None => ∅ end.

(** [b] waits for [a]: it requires [a], or it requires the parent of the dynamic
    task [a]. *)
Definition waits inv (a b : string) : Prop :=
  is_Some (reqs inv b !! a) ∨
  a ≠ b ∧ ∃ p, dynamic_parent (reqs inv a) = Some p ∧ is_Some (reqs inv b !! p).

Definition open_waits inv a b : Prop := open inv a ∧ open inv b ∧ waits inv a b.

(** Some run of the invocation failed. *)
Definition has_failed inv : Prop := ∃ id t, run_of inv id = Some t ∧
  TI_status t = TaskInvocationStatus_FAILED.

(** The invocations the policies are made for: well-formed ones, whose runs were
    all started by an event, whose tasks have their specs and do not require
    themselves, with identifiers the hash separates. *)
Record schedulable inv : Prop := {
  sched_wf : invocation_wf inv;
  sched_started : ∀ id t, run_of inv id = Some t → TI_status t ≠ TaskInvocationStatus_UNKNOWN;
  sched_specs : ∀ id t, inv_task_view inv id = Some t → is_Some (Task_Spec t);
  sched_self : ∀ id, reqs inv id !! id = None;
  sched_hash : hash_inj (λ k, is_Some (inv_task_view inv k) ∨
                              ∃ id, is_Some (reqs inv id !! k)) }.
End spec.

(** ** Open tasks and their graph *)

Section open_tasks.
Context `{MapRange} `{DirectedGraphLaws} `{PTypes}.
Implicit Types (inv : WorkflowInvocation) (id : string) (M : gmap string TaskInvocation).

Lemma run_of_status inv st id :
  WorkflowInvocation_Status inv = Some st → run_of inv id = WorkflowInvocationStatus_Tasks st !! id.
Proof. intros Hst. unfold run_of, WI_task. by rewrite Hst. Qed.

Lemma getFailedTasks_spec inv :
  is_Some (WorkflowInvocation_Status inv) →
  ∃ l, getFailedTasks inv = Ret l ∧
    (∀ t, t ∈ l ↔ TI_status t = TaskInvocationStatus_FAILED ∧ ∃ id, run_of inv id = Some t).
Proof.
  intros [st Hst]. unfold getFailedTasks.
  rewrite (WorkflowInvocation_TaskInvocations_spec inv st Hst). simpl.
  eexists; split; [done|].
  assert (∀ (l : list (string * TaskInvocation)) acc t,
    t ∈ foldl (λ failedTasks '(_, task),
                if decide (TI_status task = TaskInvocationStatus_FAILED)
                then failedTasks ++ [task] else failedTasks) acc l ↔
    t ∈ acc ∨ TI_status t = TaskInvocationStatus_FAILED ∧ t ∈ l.*2) as Hl.
  { induction l as [|[k t'] l IH]; intros acc t; simpl; [set_solver|].
    rewrite IH. case_decide; set_solver. }
  intros t. rewrite Hl, list_elem_of_fmap. setoid_rewrite (run_of_status inv st); [|done].
  split.
  - intros [?|(Hf & [k t'] & -> & Hin)]; [set_solver|]. split; [done|].
    exists k. by apply elem_of_range in Hin.
  - intros (Hf & k & Hk). right. split; [done|]. exists (k, t). split; [done|].
    by apply elem_of_range.
Qed.

Lemma getFailedTasks_none inv :
  is_Some (WorkflowInvocation_Status inv) → ¬ has_failed inv → getFailedTasks inv = Ret [].
Proof.
  intros Hst Hno. destruct (getFailedTasks_spec inv Hst) as ([|t l] & -> & Hl); [done|].
  exfalso. apply Hno. destruct (proj1 (Hl t)) as (Hf & id & Hid); [set_solver|]. by exists id, t.
Qed.

Lemma has_failed_cases inv :
  is_Some (WorkflowInvocation_Status inv) → has_failed inv ∨ ¬ has_failed inv.
Proof.
  intros Hst. destruct (getFailedTasks_spec inv Hst) as ([|t l] & _ & Hl).
  - right. intros (id & t & Hr & Hf). apply (not_elem_of_nil t), Hl. eauto.
  - left. destruct (proj1 (Hl t)) as (Hf & id & Hid); [by left|]. by exists id, t.
Qed.

(** The run the policies make up for an open task. *)
Definition open_run now inv id : TaskInvocation :=
  provisional_run now inv id (inv_task_view inv id).

Lemma getOpenTasks_spec now inv :
  schedulable inv →
  ∃ M, getOpenTasks now inv = Ret M ∧
    ∀ id ti, M !! id = Some ti ↔ open inv id ∧ ti = open_run now inv id.
Proof.
  intros Hs. pose proof (sched_wf _ Hs) as Hwf. destruct (invocation_wf_status _ Hwf) as [st Hst].
  destruct (WorkflowInvocation_Tasks_spec (E := goerror) inv Hwf) as (T & HT & HTid).
  unfold getOpenTasks. rewrite HT, bind_Ret_l.
  rewrite (foldM_Ret _ (λ openTasks '(id, task),
    match (match run_of inv id with
           | Some _ => None | None => Some (provisional_run now inv id task) end) with
    | Some r => <[id := r]> openTasks | None => openTasks end)).
  2:{ intros M [id task] _. unfold WorkflowInvocation_TaskInvocation.
      rewrite (run_of_status inv st id Hst), Hst. simpl.
      destruct (WorkflowInvocationStatus_Tasks st !! id) as [r|] eqn:Hr; simpl; [|done].
      rewrite decide_False; [done|]. apply (sched_started _ Hs id).
      by rewrite (run_of_status inv st). }
  eexists; split; [done|]. intros id ti.
  rewrite (foldl_omap_range 2 (λ id task, match run_of inv id with
    | Some _ => None | None => Some (provisional_run now inv id task) end)).
  rewrite HTid, lookup_empty. unfold open, open_run.
  destruct (inv_task_view inv id) as [t|] eqn:Hv; simpl.
  - destruct (run_of inv id) as [r|]; simpl.
    + split; [done|]. by intros [[_ ?] _].
    + split; [intros [= <-]; eauto|]. by intros [_ ->].
  - split; [done|]. intros [[[? ?] _] _]; simplify_eq.
Qed.

(** A map of open tasks, each with its provisional run. *)
Definition open_map now inv M : Prop :=
  ∀ id ti, M !! id = Some ti → open inv id ∧ ti = open_run now inv id.

Lemma open_run_facts now inv id :
  schedulable inv → open inv id →
  let n := TaskInvocationNode (open_run now inv id) in
  node_key n = id ∧ req n = reqs inv id ∧ is_ret (node_requires (E := unit) n) ∧
  TaskInvocation_ID (open_run now inv id) = id ∧
  Task_ID (TaskInvocation_Task (open_run now inv id)) = id.
Proof.
  intros Hs [[t Hv] _]. unfold node_key, req, reqs, node_requires, open_run, provisional_run.
  rewrite Hv. simpl.
  destruct (sched_specs _ Hs _ _ Hv) as [sp Hsp]. rewrite Hsp. simpl.
  pose proof (inv_task_view_id inv id t (sched_wf _ Hs) Hv) as Hid.
  by split_and!.
Qed.

Lemma it_nodes_instances M :
  it_nodes (NewTaskInstanceIterator M) = (λ p, TaskInvocationNode p.2) <$> range 0 M.
Proof.
  apply walk_spec; simpl.
  - by rewrite !length_fmap.
  - intros i. rewrite !list_lookup_fmap. destruct (range 0 M !! i) as [[k ti]|] eqn:Hi; simpl; [|done].
    apply list_elem_of_lookup_2, elem_of_range in Hi. by rewrite Hi.
Qed.

Section nodes.
Context (now : Z) (inv : WorkflowInvocation) (Hs : schedulable inv).
Context (M : gmap string TaskInvocation) (HM : open_map now inv M).

Let nodes := it_nodes (NewTaskInstanceIterator M).
Let node id := TaskInvocationNode (open_run now inv id).

Lemma elem_of_open_nodes n : n ∈ nodes ↔ ∃ id, is_Some (M !! id) ∧ n = node id.
Proof.
  unfold nodes. rewrite it_nodes_instances, list_elem_of_fmap. split.
  - intros ([id ti] & -> & Hin%elem_of_range). exists id. split; [by eexists|].
    apply HM in Hin as [_ ->]. done.
  - intros (id & [ti Hti] & ->). exists (id, ti). split; [|by apply elem_of_range].
    apply HM in Hti as [_ ->]. done.
Qed.

Lemma open_node id : is_Some (M !! id) → node_key (node id) = id ∧ req (node id) = reqs inv id.
Proof.
  intros [ti Hti]. apply HM in Hti as [Ho _]. by destruct (open_run_facts now inv id Hs Ho) as (? & ? & _).
Qed.

Lemma open_nodes_parsable : parsable nodes.
Proof.
  assert (node_key <$> nodes = (range 0 M).*1) as Hkeys.
  { unfold nodes. rewrite it_nodes_instances, <- list_fmap_compose.
    apply list_fmap_ext. intros i [id ti] Hi. simpl.
    apply list_elem_of_lookup_2, elem_of_range in Hi as Hti.
    pose proof (HM _ _ Hti) as [_ ->]. apply open_node. by eexists. }
  split.
  - intros n (id & [ti Hti] & ->)%elem_of_open_nodes. apply HM in Hti as [Ho _].
    by destruct (open_run_facts now inv id Hs Ho) as (_ & _ & ? & _).
  - rewrite Hkeys. apply NoDup_range.
  - intros n (id & Hid & ->)%elem_of_open_nodes. destruct (open_node id Hid) as [-> ->].
    by apply sched_self.
  - intros x y Hx Hy. apply (sched_hash _ Hs).
    + destruct Hx as [Hx|(n & (id & Hid & ->)%elem_of_open_nodes & Hreq)].
      * rewrite Hkeys in Hx. apply elem_of_range_fst in Hx as [ti Hti].
        apply HM in Hti as [[Hv _] _]. by left.
      * destruct (open_node id Hid) as [_ Hr]. rewrite Hr in Hreq. right. eauto.
    + destruct Hy as [Hy|(n & (id & Hid & ->)%elem_of_open_nodes & Hreq)].
      * rewrite Hkeys in Hy. apply elem_of_range_fst in Hy as [ti Hti].
        apply HM in Hti as [[Hv _] _]. by left.
      * destruct (open_node id Hid) as [_ Hr]. rewrite Hr in Hreq. right. eauto.
Qed.

Lemma depends_waits a b :
  is_Some (M !! a) → is_Some (M !! b) → depends nodes (node a) (node b) ↔ waits inv a b.
Proof.
  intros Ha Hb. unfold depends, static_dep, dynamic_dep, waits.
  destruct (open_node a Ha) as [Hka Hra], (open_node b Hb) as [Hkb Hrb].
  rewrite Hka, Hra, Hrb. rewrite !elem_of_open_nodes.
  assert (node a ≠ node b ↔ a ≠ b) as ->; [|naive_solver].
  split; [by intros Hne ->|]. intros Hne Heq. apply Hne. rewrite <- Hka, <- Hkb. by rewrite Heq.
Qed.

(** The horizon of a map of open tasks: the tasks that wait for none of them. *)
Lemma horizon_of_spec :
  ∃ ids, horizon_of M = Ret (node <$> ids) ∧ NoDup ids ∧
    ∀ id, id ∈ ids ↔ is_Some (M !! id) ∧ ∀ a, is_Some (M !! a) → ¬ waits inv a id.
Proof.
  pose proof open_nodes_parsable as Hp.
  destruct (Parse_spec (E := goerror) (NewTaskInstanceIterator M) Hp) as (g & Hg & Hn & He).
  fold nodes in Hn, He.
  pose proof (λ n, Roots_spec g nodes n Hp Hn He) as Hroots.
  exists (node_key <$> Roots g). unfold horizon_of. rewrite Hg. simpl.
  assert (∀ n, n ∈ Roots g → node (node_key n) = n) as Hnode.
  { intros n Hin. apply Hroots in Hin as [Hin _]. apply elem_of_open_nodes in Hin as (id & Hid & ->).
    by destruct (open_node id Hid) as [-> _]. }
  split_and!.
  - f_equal. rewrite <- list_fmap_compose. symmetry. rewrite <- (list_fmap_id (Roots g)) at 2.
    apply list_fmap_ext. intros i n Hi. by apply Hnode, list_elem_of_lookup_2 with i.
  - apply NoDup_fmap_2_strong; [|apply Roots_NoDup].
    intros a b Ha Hb Heq. rewrite <- (Hnode a Ha), <- (Hnode b Hb). by rewrite Heq.
  - intros id. rewrite list_elem_of_fmap. split.
    + intros (n & -> & Hin). pose proof (Hnode n Hin) as Hnn. apply Hroots in Hin as [Hin Hno].
      apply elem_of_open_nodes in Hin as (id & Hid & ->).
      destruct (open_node id Hid) as [-> _]. split; [done|]. intros a Ha Hw.
      apply (Hno (node a)). by apply depends_waits.
    + intros [Hid Hno]. exists (node id). destruct (open_node id Hid) as [Hk _]. split; [done|].
      apply Hroots. split; [apply elem_of_open_nodes; eauto|].
      intros n Hd. pose proof Hd as (Hin & _ & _). apply elem_of_open_nodes in Hin as (a & Ha & ->).
      apply (Hno a Ha). by apply depends_waits.
Qed.
End nodes.
End open_tasks.

(** ** The schedules *)

Definition run_ids (s : Schedule) : list string := RunTaskAction_TaskID <$> Schedule_RunTasks s.
Definition prepare_ids (s : Schedule) : list string :=
  PrepareTaskAction_TaskID <$> Schedule_PrepareTasks s.

Section schedules.
Context `{MapRange} `{DirectedGraphLaws} `{PTypes}.
Implicit Types (inv : WorkflowInvocation) (id : string) (M : gmap string TaskInvocation).

(** The tasks on the scheduling horizon. *)
Definition on_horizon inv id : Prop := open inv id ∧ ∀ a, open inv a → ¬ waits inv a id.

Lemma policy_no_failure {A} inv (s1 : res goerror A) (f : list TaskInvocation → res goerror A) :
  schedulable inv → ¬ has_failed inv →
  (failedTasks ← getFailedTasks inv;
   if decide (0 < length failedTasks) then f failedTasks else s1) = s1.
Proof.
  intros Hs Hno. rewrite getFailedTasks_none; [done|apply invocation_wf_status, Hs|done].
Qed.

(** The horizon of the open tasks, as every policy computes it. *)
Lemma horizon_open now inv :
  schedulable inv →
  ∃ M ids, getOpenTasks now inv = Ret M ∧ open_map now inv M ∧
    (∀ id, is_Some (M !! id) ↔ open inv id) ∧
    horizon_of M = Ret ((λ id, TaskInvocationNode (open_run now inv id)) <$> ids) ∧
    NoDup ids ∧ ∀ id, id ∈ ids ↔ on_horizon inv id.
Proof.
  intros Hs. destruct (getOpenTasks_spec now inv Hs) as (M & HM & Hopen).
  assert (open_map now inv M) as Hmap by (intros id ti; apply Hopen).
  assert (∀ id, is_Some (M !! id) ↔ open inv id) as Hdom.
  { intros id. split; [intros [ti Hti]; by apply Hopen in Hti as [? _]|].
    intros Ho. eexists. by apply Hopen. }
  destruct (horizon_of_spec now inv Hs M Hmap) as (ids & Hh & Hnd & Hids).
  exists M, ids. split_and!; try done. intros id. rewrite Hids. unfold on_horizon.
  by setoid_rewrite Hdom.
Qed.

Lemma foldM_run_ids now inv ids s :
  schedulable inv → (∀ id, id ∈ ids → open inv id) →
  ∃ s', foldM (λ schedule node,
      ti ← as_task_run node;
      Ret (AddRunTask schedule (newRunTaskAction (Task_ID (TaskInvocation_Task ti))))) s
      ((λ id, TaskInvocationNode (open_run now inv id)) <$> ids) = Ret s' ∧
    run_ids s' = run_ids s ++ ids ∧ Schedule_Abort s' = Schedule_Abort s ∧
    Schedule_PrepareTasks s' = Schedule_PrepareTasks s.
Proof.
  intros Hs. revert s. induction ids as [|id ids IH]; intros s Ho; cbn [fmap list_fmap foldM].
  { exists s. by rewrite app_nil_r. }
  destruct (open_run_facts now inv id Hs) as (_ & _ & _ & _ & Hid); [apply Ho; set_solver|].
  cbn [as_task_run]. rewrite bind_Ret_l, Hid, bind_Ret_l.
  destruct (IH (AddRunTask s (newRunTaskAction id))) as (s' & Hf & Hr & Ha & Hp);
    [intros; apply Ho; set_solver|].
  exists s'. split_and!; [done| |done|done]. rewrite Hr. unfold run_ids. simpl.
  by rewrite fmap_app, <- app_assoc.
Qed.

Lemma foldM_prepare_ids now inv at_ ids s :
  schedulable inv → (∀ id, id ∈ ids → open inv id) →
  ∃ s', foldM (λ schedule node,
      ti ← as_task_run node;
      Ret (AddPrepareTask schedule
             (newPrepareTaskAction (Task_ID (TaskInvocation_Task ti)) at_))) s
      ((λ id, TaskInvocationNode (open_run now inv id)) <$> ids) = Ret s' ∧
    prepare_ids s' = prepare_ids s ++ ids ∧ Schedule_Abort s' = Schedule_Abort s ∧
    Schedule_RunTasks s' = Schedule_RunTasks s.
Proof.
  intros Hs. revert s. induction ids as [|id ids IH]; intros s Ho; cbn [fmap list_fmap foldM].
  { exists s. by rewrite app_nil_r. }
  destruct (open_run_facts now inv id Hs) as (_ & _ & _ & _ & Hid); [apply Ho; set_solver|].
  cbn [as_task_run]. rewrite bind_Ret_l, Hid, bind_Ret_l.
  destruct (IH (AddPrepareTask s (newPrepareTaskAction id at_))) as (s' & Hf & Hr & Ha & Hp);
    [intros; apply Ho; set_solver|].
  exists s'. split_and!; [done| |done|done]. rewrite Hr. unfold prepare_ids. simpl.
  by rewrite fmap_app, <- app_assoc.
Qed.

Lemma run_horizon_spec now inv M ids s :
  schedulable inv → (∀ id, id ∈ ids → open inv id) →
  ∃ s' M', run_horizon s M ((λ id, TaskInvocationNode (open_run now inv id)) <$> ids) =
      Ret (s', M') ∧
    run_ids s' = run_ids s ++ ids ∧ Schedule_Abort s' = Schedule_Abort s ∧
    Schedule_PrepareTasks s' = Schedule_PrepareTasks s ∧
    ∀ id, M' !! id = if decide (id ∈ ids) then None else M !! id.
Proof.
  intros Hs. unfold run_horizon. revert s M. induction ids as [|id ids IH]; intros s M Ho.
  { exists s, M. rewrite app_nil_r. split_and!; done. }
  cbn [fmap list_fmap foldM].
  destruct (open_run_facts now inv id Hs) as (_ & _ & _ & Hid & _); [apply Ho; set_solver|].
  cbn [as_task_run]. rewrite bind_Ret_l, Hid, bind_Ret_l.
  destruct (IH (AddRunTask s (newRunTaskAction id)) (delete id M))
    as (s' & M' & Hf & Hr & Ha & Hp & HM'); [intros; apply Ho; set_solver|].
  exists s', M'. split_and!; [done| |done|done|].
  - rewrite Hr. unfold run_ids. simpl. by rewrite fmap_app, <- app_assoc.
  - intros id'. rewrite HM'. destruct (decide (id' ∈ ids)).
    + by rewrite decide_True by set_solver.
    + destruct (decide (id' = id)) as [->|].
      * by rewrite lookup_delete_eq, decide_True by set_solver.
      * by rewrite lookup_delete_ne, decide_False by set_solver.
Qed.

Lemma foldl_prepare (f : TaskInvocation → PrepareTaskAction) (l : list (string * TaskInvocation)) s :
  let s' := foldl (λ schedule '(_, task), AddPrepareTask schedule (f task)) s l in
  Schedule_PrepareTasks s' = Schedule_PrepareTasks s ++ ((λ p, f p.2) <$> l) ∧
  Schedule_RunTasks s' = Schedule_RunTasks s ∧ Schedule_Abort s' = Schedule_Abort s.
Proof.
  revert s. induction l as [|[k t] l IH]; intros s; simpl; [by rewrite app_nil_r|].
  destruct (IH (AddPrepareTask s (f t))) as (-> & -> & ->). simpl. by rewrite <- app_assoc.
Qed.

(** What every policy does for an invocation without failed tasks. *)
Lemma Policy_spec p now inv :
  schedulable inv → ¬ has_failed inv →
  ∃ s, Policy_Evaluate p now inv = Ret s ∧ Schedule_Abort s = None ∧
    NoDup (run_ids s) ∧ (∀ id, id ∈ run_ids s ↔ on_horizon inv id) ∧
    NoDup (prepare_ids s) ∧
    (∀ id, id ∈ prepare_ids s ↔
       match p with
       | HorizonPolicy => False
       | PrewarmAllPolicy _ => open inv id ∧ ¬ on_horizon inv id
       | PrewarmHorizonPolicy _ =>
           (open inv id ∧ ¬ on_horizon inv id) ∧
           ∀ a, open inv a → waits inv a id → on_horizon inv a
       end).
Proof.
  intros Hs Hno. destruct (horizon_open now inv Hs) as (M & ids & HM & Hmap & Hdom & Hh & Hnd & Hids).
  assert (∀ id, id ∈ ids → open inv id) as Hopen by (intros id Hid; by apply Hids).
  destruct p as [|d|d]; simpl; unfold HorizonPolicy_Evaluate, PrewarmAllPolicy_Evaluate,
    PrewarmHorizonPolicy_Evaluate; rewrite policy_no_failure by done; rewrite HM, bind_Ret_l, Hh, bind_Ret_l.
  - destruct (foldM_run_ids now inv ids (new_schedule now inv) Hs Hopen) as (s & Hf & Hr & Ha & Hp).
    exists s. split_and!; [done|done| | | |].
    + by rewrite Hr.
    + intros id. rewrite Hr. simpl. apply Hids.
    + unfold prepare_ids. rewrite Hp. constructor.
    + intros id. unfold prepare_ids. rewrite Hp. set_solver.
  - destruct (run_horizon_spec now inv M ids (new_schedule now inv) Hs Hopen)
      as (s & M' & -> & Hr & Ha & Hp & HM'). rewrite bind_Ret_l.
    pose proof (foldl_prepare (λ task, newPrepareTaskAction (TaskInvocation_ID task) (now + d))
      (range 3 M') s) as (Hp' & Hr' & Ha').
    assert (prepare_ids (foldl (λ schedule '(_, task), AddPrepareTask schedule
      (newPrepareTaskAction (TaskInvocation_ID task) (now + d))) s (range 3 M')) =
      (range 3 M').*1) as Hpre.
    { unfold prepare_ids. rewrite Hp', Hp. simpl. rewrite <- list_fmap_compose.
      apply list_fmap_ext. intros i [id ti] Hi. simpl.
      apply list_elem_of_lookup_2, elem_of_range in Hi. rewrite HM' in Hi. case_decide; [done|].
      apply Hmap in Hi as [Ho ->]. by apply open_run_facts. }
    eexists; split; [done|]. rewrite Hpre. unfold run_ids in *. rewrite Hr', Hr, Ha'. split_and!.
    + done.
    + done.
    + apply Hids.
    + apply NoDup_range.
    + intros id. rewrite elem_of_range_fst, HM', <- Hids. case_decide.
      * split; [by intros []|tauto].
      * rewrite Hdom. tauto.
  - destruct (run_horizon_spec now inv M ids (new_schedule now inv) Hs Hopen)
      as (s & M' & -> & Hr & Ha & Hp & HM'). rewrite bind_Ret_l.
    assert (open_map now inv M') as Hmap'.
    { intros id ti Hi. rewrite HM' in Hi. case_decide; [done|]. by apply Hmap. }
    assert (∀ id, is_Some (M' !! id) ↔ open inv id ∧ ¬ on_horizon inv id) as Hdom'.
    { intros id. rewrite HM', <- Hids. case_decide; [split; [by intros []|tauto]|].
      rewrite Hdom. tauto. }
    destruct (horizon_of_spec now inv Hs M' Hmap') as (ids' & -> & Hnd' & Hids').
    rewrite bind_Ret_l.
    assert (∀ id, id ∈ ids' → open inv id) as Hopen'
      by (intros id Hid; apply Hids' in Hid as [Hid _]; by apply Hdom' in Hid as [? _]).
    destruct (foldM_prepare_ids now inv (now + d) ids' s Hs Hopen') as (s' & Hf & Hp' & Ha' & Hr').
    exists s'. unfold run_ids. rewrite Hr', Ha', Hp'. fold (run_ids s). rewrite Hr.
    unfold prepare_ids. rewrite Hp. simpl. split_and!; try done.
    intros id. rewrite Hids', Hdom'. setoid_rewrite Hdom'. split.
    + intros [Hid Hall]. split; [done|]. intros a Ho Hw.
      rewrite <- Hids. destruct (decide (a ∈ ids)) as [|Hn]; [done|].
      rewrite Hids in Hn. by destruct (Hall a).
    + intros [Hid Hall]. split; [done|]. intros a [Ho Hn] Hw. by apply Hn, Hall.
Qed.


(** The prewarming policies run the same tasks as the horizon policy.  Prewarming
    everything prepares exactly the other open tasks, so that every open task gets
    one action; prewarming the horizon prepares those of them that wait only for
    tasks that are about to run. *)
Theorem Prewarm_partition (d now : Z) (inv : WorkflowInvocation) :
  schedulable inv → ¬ has_failed inv →
  ∃ sh sa sp, HorizonPolicy_Evaluate now inv = Ret sh ∧
    PrewarmAllPolicy_Evaluate d now inv = Ret sa ∧
    PrewarmHorizonPolicy_Evaluate d now inv = Ret sp ∧
    run_ids sa ≡ₚ run_ids sh ∧ run_ids sp ≡ₚ run_ids sh ∧
    NoDup (run_ids sa ++ prepare_ids sa) ∧
    (∀ id, id ∈ run_ids sa ++ prepare_ids sa ↔ open inv id) ∧
    NoDup (run_ids sp ++ prepare_ids sp) ∧
    (∀ id, id ∈ prepare_ids sp ↔ id ∈ prepare_ids sa ∧
       ∀ a, open inv a → waits inv a id → a ∈ run_ids sh).
Proof.
  intros Hs Hno.
  destruct (Policy_spec HorizonPolicy now inv Hs Hno) as (sh & He & _ & Hnd & Hr & _ & _).
  destruct (Policy_spec (PrewarmAllPolicy d) now inv Hs Hno)
    as (sa & Hea & _ & Hnda & Hra & Hndp & Hpa).
  destruct (Policy_spec (PrewarmHorizonPolicy d) now inv Hs Hno)
    as (sp & Hep & _ & Hnds & Hrs & Hnds' & Hps).
  exists sh, sa, sp. split_and!; try done.
  - apply NoDup_Permutation; [done|done|]. intros id. by rewrite Hra, Hr.
  - apply NoDup_Permutation; [done|done|]. intros id. by rewrite Hrs, Hr.
  - apply NoDup_app. split_and!; [done| |done]. intros id Hid Hid'.
    apply Hpa in Hid' as [_ Hn]. by apply Hn, Hra.
  - intros id. rewrite elem_of_app, Hpa. split.
    + intros [Hid|[? _]]; [|done]. by apply Hra in Hid as [? _].
    + intros Ho. destruct (decide (id ∈ run_ids sa)) as [|Hn]; [by left|right].
      by rewrite Hra in Hn.
  - apply NoDup_app. split_and!; [done| |done]. intros id Hid Hid'.
    apply Hps in Hid' as [[_ Hn] _]. by apply Hn, Hrs.
  - intros id. rewrite Hps, Hpa. by setoid_rewrite Hr.
Qed.

Lemma Policy_abort_spec (p : Policy) (now : Z) (inv : WorkflowInvocation) :
  is_Some (WorkflowInvocation_Status inv) → has_failed inv →
  ∃ s reason, Policy_Evaluate p now inv = Ret s ∧
    Schedule_Abort s = Some (MkAbortAction reason) ∧ run_ids s = [] ∧ prepare_ids s = [] ∧
    ∃ id t, run_of inv id = Some t ∧ TI_status t = TaskInvocationStatus_FAILED ∧
      reason = match TaskInvocation_Status t ≫= TaskInvocationStatus_Error with
               | Some err => Error_Message err
               | None => "Task '" +:+ TaskInvocation_ID t +:+ "' failed" end.
Proof.
  intros Hst (id & t & Hid & Hf). destruct (getFailedTasks_spec inv Hst) as (l & Hl & Hin).
  assert (t ∈ l) as Ht by (apply Hin; eauto).
  assert (Policy_Evaluate p now inv = Ret (abort_schedule (new_schedule now inv) l)) as ->.
  { destruct l as [|t0 l]; [set_solver|].
    destruct p; simpl; unfold HorizonPolicy_Evaluate, PrewarmAllPolicy_Evaluate,
      PrewarmHorizonPolicy_Evaluate; rewrite Hl, bind_Ret_l; by rewrite decide_True by (simpl; lia). }
  assert (∀ l s, let s' := abort_schedule s l in
    Schedule_RunTasks s' = Schedule_RunTasks s ∧ Schedule_PrepareTasks s' = Schedule_PrepareTasks s ∧
    (l = [] ∧ s' = s ∨ ∃ t, t ∈ l ∧ Schedule_Abort s' = Some (MkAbortAction
      (match TaskInvocation_Status t ≫= TaskInvocationStatus_Error with
       | Some err => Error_Message err
       | None => "Task '" +:+ TaskInvocation_ID t +:+ "' failed" end)))) as Habort.
  { clear. induction l as [|t l IH]; intros s; simpl; [auto|].
    destruct (IH (Schedule_with_Abort s (Some (newAbortAction
      match TaskInvocation_Status t ≫= TaskInvocationStatus_Error with
      | Some err => Error_Message err
      | None => "Task '" +:+ TaskInvocation_ID t +:+ "' failed" end)))) as (Hr & Hp & Hcase).
    split_and!; [by rewrite Hr|by rewrite Hp|]. right.
    destruct Hcase as [[-> _]|(t' & Ht' & Ha)].
    - exists t. split; [set_solver|done].
    - exists t'. split; [set_solver|done]. }
  destruct (Habort l (new_schedule now inv)) as (Hr & Hp & [[-> _]|(t' & Ht' & Ha)]); [set_solver|].
  eexists _, _. split; [done|]. split; [exact Ha|].
  unfold run_ids, prepare_ids. rewrite Hr, Hp. split_and!; [done|done|].
  apply Hin in Ht' as (Hf' & id' & Hid'). eauto.
Qed.

(** An invocation with a failed task is aborted by every policy: nothing is run
    or prepared, and the reason is the error of one of the failed tasks. *)
Theorem Policy_aborts (p : Policy) (now : Z) (inv : WorkflowInvocation) :
  is_Some (WorkflowInvocation_Status inv) → has_failed inv →
  ∃ s reason, Policy_Evaluate p now inv = Ret s ∧
    Schedule_Abort s = Some (MkAbortAction reason) ∧ run_ids s = [] ∧ prepare_ids s = [] ∧
    ∃ id t, run_of inv id = Some t ∧ TI_status t = TaskInvocationStatus_FAILED ∧
      reason = match TaskInvocation_Status t ≫= TaskInvocationStatus_Error with
               | Some err => Error_Message err
               | None => "Task '" +:+ TaskInvocation_ID t +:+ "' failed" end.
Proof. apply Policy_abort_spec. Qed.

Lemma Policy_runs (p : Policy) (now : Z) (inv : WorkflowInvocation) :
  schedulable inv → ¬ has_failed inv →
  (∀ id, ¬ tc (open_waits inv) id id) → (∃ id, open inv id) →
  ∃ s id, Policy_Evaluate p now inv = Ret s ∧ id ∈ run_ids s.
Proof.
  intros Hs Hno Hac [id Ho].
  destruct (Policy_spec p now inv Hs Hno) as (s & He & _ & _ & Hr & _).
  destruct (getOpenTasks_spec now inv Hs) as (M & _ & HM).
  assert (∀ a b, Decision (open_waits inv a b)) as Hdec.
  { intros a b. unfold open_waits, open, waits.
    destruct (dynamic_parent (reqs inv a)) as [q|] eqn:Hq.
    - destruct (decide ((is_Some (inv_task_view inv a) ∧ run_of inv a = None) ∧
        (is_Some (inv_task_view inv b) ∧ run_of inv b = None) ∧
        (is_Some (reqs inv b !! a) ∨ a ≠ b ∧ is_Some (reqs inv b !! q)))); [left|right]; naive_solver.
    - destruct (decide ((is_Some (inv_task_view inv a) ∧ run_of inv a = None) ∧
        (is_Some (inv_task_view inv b) ∧ run_of inv b = None) ∧
        is_Some (reqs inv b !! a))); [left|right]; naive_solver. }
  destruct (acyclic_source (open_waits inv) (elements (dom M)) id Hdec) as (y & Hy & Hsrc); [|done| |].
  - intros a b (Ha & _ & _). apply elem_of_elements, elem_of_dom. eexists. by apply HM.
  - apply elem_of_elements, elem_of_dom. eexists. by apply HM.
  - exists s, y. split; [done|]. apply Hr.
    apply elem_of_elements, elem_of_dom in Hy as [ti Hti]. apply HM in Hti as [Hoy _].
    split; [done|]. intros a Ha Hw. by apply (Hsrc a).
Qed.

(** Scheduling makes progress: while there are open tasks and they do not wait for
    each other in a circle, every policy runs some task. *)
Theorem Policy_progress (p : Policy) (now : Z) (inv : WorkflowInvocation) :
  schedulable inv → ¬ has_failed inv →
  (∀ id, ¬ tc (open_waits inv) id id) → (∃ id, open inv id) →
  ∃ s id, Policy_Evaluate p now inv = Ret s ∧ id ∈ run_ids s.
Proof. apply Policy_runs. Qed.
End schedules.
