(* ===== verification/Bundle.v ===== *)
(** Component [cmd/fission-workflows-bundle]: the flags of the server, what they switch on, the
    subscriptions of its caches, and its shutdown.  The flags are functions from their names; the servers, the
    tracer and the metrics are left out. *)

From stdpp Require Import base gmap strings list.
From S2P Require Import Prelude Data Types TypedValues FnRefs NetHttp Fes Pubsub MemBackend Nats Scheduler.

(** ** Options *)

(** The flags of the command line, and a fresh identifier. *)
Record Flags := MkFlags {
  flag_Bool : string → bool; flag_String : string → string; flag_Duration : string → Z; flag_uid : string }.

(** [pkg/fes/backend/nats/client.go:49-54] Config *)
Record NatsConfig := MkNatsConfig { Cluster : string; Client : string; NatsURL : string; AutoReconnect : bool }.

(** [cmd/fission-workflows-bundle/bundle/bundle.go:111-115] FissionOptions *)
Record FissionOptions := MkFissionOptions { ExecutorAddress : string; ControllerAddr : string; RouterAddr : string }.

(** The field [server] is not set anywhere. *)
(** [cmd/fission-workflows-bundle/bundle/fissionproxy.go:17-24] FissionProxyConfig *)
Record FissionProxyConfig := MkFissionProxyConfig {
  DefaultTimeout : Z; ProxyAddr : string; WorkflowsAddr : string; ExposeMetrics : bool; proxy_server : option () }.

(** [cmd/fission-workflows-bundle/bundle/bundle.go:95-109] Options *)
Record Options := MkOptions {
  NATS : option NatsConfig;
  SchedulerPolicy : Policy;
  Fission : option FissionOptions;
  FissionProxy : option FissionProxyConfig;
  InternalRuntime : bool;
  InvocationController : bool;
  WorkflowController : bool;
  AdminAPI : bool;
  WorkflowAPI : bool;
  HTTPGateway : bool;
  InvocationAPI : bool;
  Metrics : bool;
  Debug : bool }.

(** [cmd/fission-workflows-bundle/main.go:76-86] parseFissionOptions *)
Definition parseFissionOptions (c : Flags) : option FissionOptions :=
  if negb (flag_Bool c "fission") then None
  else Some (MkFissionOptions (flag_String c "fission-executor") (flag_String c "fission-controller") (flag_String c "fission-router")).

(** [cmd/fission-workflows-bundle/main.go:88-104] parseNatsOptions *)
Definition parseNatsOptions (c : Flags) : option NatsConfig :=
  if negb (flag_Bool c "nats") then None else
  let client := flag_String c "nats-client" in
  let client := if decide (client = "") then "workflow-bundle-" +:+ flag_uid c else client in
  Some (MkNatsConfig (flag_String c "nats-cluster") client (flag_String c "nats-url") true).

(** [cmd/fission-workflows-bundle/bundle/fissionproxy.go:26-36] ParseFissionProxyConfig *)
Definition ParseFissionProxyConfig (c : Flags) : option FissionProxyConfig :=
  if flag_Bool c "fission.proxy" then None
  else Some (MkFissionProxyConfig (flag_Duration c "fission.proxy.timeout") (flag_String c "fission.proxy.addr") ":5555"
               (flag_Bool c "metrics") None).

(** [cmd/fission-workflows-bundle/bundle/scheduler.go:18-26] schedulerPolicies *)
Definition schedulerPolicies : gmap string (Z → Policy) :=
  {[ "prewarm-all" := PrewarmAllPolicy; "prewarm-horizon" := PrewarmHorizonPolicy; "horizon" := λ _, HorizonPolicy ]}.

(** [cmd/fission-workflows-bundle/bundle/scheduler.go:28-35] ParseSchedulerConfig *)
Definition ParseSchedulerConfig (c : Flags) : res goerror Policy :=
  let policyName := flag_String c "scheduler.policy" in
  match schedulerPolicies !! policyName with
  | None => Throw (ErrFmt ("unknown scheduler policy '" +:+ policyName +:+ "'"))
  | Some policy => Ret (policy (flag_Duration c "scheduler.coldstart"))
  end.

(** An error ends the process. *)
(** [cmd/fission-workflows-bundle/main.go:37-64] main: the action of the command *)
Definition bundle_options (c : Flags) : res goerror Options :=
  policy ← ParseSchedulerConfig c;
  Ret (MkOptions (parseNatsOptions c) policy (parseFissionOptions c) (ParseFissionProxyConfig c)
    (flag_Bool c "internal")
    (flag_Bool c "controller" || flag_Bool c "invocation-controller")
    (flag_Bool c "controller" || flag_Bool c "workflow-controller")
    (flag_Bool c "api" || flag_Bool c "api-admin")
    (flag_Bool c "api" || flag_Bool c "api-workflow")
    (flag_Bool c "api" || flag_Bool c "api-http")
    (flag_Bool c "api" || flag_Bool c "api-workflow-invocation")
    (flag_Bool c "metrics") (flag_Bool c "debug")).

(** The names of the runtimes and of the resolvers of a bundle. *)
(** [cmd/fission-workflows-bundle/bundle/bundle.go:213-239] Run: the function runtimes *)
Definition bundle_runtimes (opts : Options) : list string * list string :=
  let runtimes := if InternalRuntime opts || (match Fission opts with Some _ => true | None => false end)
                  then ["workflows"] else [] in
  let '(runtimes, resolvers) :=
    if InternalRuntime opts then (runtimes ++ ["internal"], ["internal"]) else (runtimes, []) in
  match Fission opts with
  | Some _ => (runtimes ++ ["fission"], resolvers ++ ["fission"])
  | None => (runtimes, resolvers)
  end.

(** ** The caches and the event store *)

(** [cmd/fission-workflows-bundle/bundle/bundle.go:405-410] setupWorkflowInvocationCache: the subscription *)
Definition invocation_subscription : SubscriptionOptions :=
  MkSubscriptionOptions 1000 (Some (OrMatcher [InMatcher "aggregate.type" [TypeInvocation];
                                               InMatcher "parent.type" [TypeInvocation]])).

(** [cmd/fission-workflows-bundle/bundle/bundle.go:425-428] setupWorkflowCache: the subscription *)
Definition workflow_subscription : SubscriptionOptions :=
  MkSubscriptionOptions 50 (Some (InMatcher "aggregate.type" [TypeWorkflow])).

(** [cmd/fission-workflows-bundle/bundle/bundle.go:384-386] setupNatsEventStoreClient: the default of the client *)
Definition nats_client (config : NatsConfig) (uid : string) : string :=
  if decide (Client config = "") then uid else Client config.

(** The connection is a parameter; that watching fails is a panic. *)
(** [cmd/fission-workflows-bundle/bundle/bundle.go:383-402] setupNatsEventStoreClient *)
Definition setupNatsEventStoreClient {S} `{!Stan S} (connect : string → res goerror S) (config : NatsConfig) (uid : string) :
    res goerror (EventStore (S := S)) :=
  match connect (nats_client config uid) with
  | Throw _ | Panic _ => Panic "connect"
  | Ret s =>
      match Watch (MkAggregate "" TypeInvocation) (NewEventStore s) with
      | (Ret _, es) => match Watch (MkAggregate "" TypeWorkflow) es with
                       | (Ret _, es) => Ret es
                       | _ => Panic "watch"
                       end
      | _ => Panic "watch"
      end
  end.

(** What the two subscriptions hear. *)
Lemma subscription_labels ev a : Event_Aggregate ev = Some a →
  selects event_labels invocation_subscription ev =
    bool_decide (Aggregate_Type a = TypeInvocation ∨ Aggregate_Type <$> Event_Parent ev = Some TypeInvocation) ∧
  selects event_labels workflow_subscription ev = bool_decide (Aggregate_Type a = TypeWorkflow).
Proof.
  intros Ha. destruct (event_labels_types ev a Ha) as [Hagg Hpar].
  unfold selects, invocation_subscription, workflow_subscription. cbn [LabelMatcher Matches existsb]. rewrite Hagg, Hpar.
  cbn [existsb].
  rewrite !orb_false_r. split; [|done]. rewrite bool_decide_or. f_equal. apply bool_decide_ext.
  destruct (Event_Parent ev) as [p|]; cbn; [|done]. split; [by intros ->|by intros [= ->]].
Qed.

(** Every event reaches the cache of its stream.  The cache of invocations hears the events of
    invocations and those whose parent is one, the runs of their tasks; the cache of
    workflows hears the events of workflows.  So an event of the stream of an invocation is heard by the
    first, and one of the stream of a workflow that names it as its aggregate by the second, and no event
    of one aggregate by both unless a workflow's event has an invocation for a parent. *)
Theorem caches_hear (ev : Event) (a key : Aggregate) :
  Event_Aggregate ev = Some a → event_key ev = Some key →
  let invocations := selects event_labels invocation_subscription ev in
  let workflows := selects event_labels workflow_subscription ev in
  (Aggregate_Type key = TypeInvocation → invocations = true) ∧
  (Aggregate_Type key = TypeWorkflow → a = key → workflows = true) ∧
  (invocations = true → workflows = true →
   Aggregate_Type a = TypeWorkflow ∧ ∃ p, Event_Parent ev = Some p ∧ Aggregate_Type p = TypeInvocation) ∧
  (Aggregate_Type a ≠ TypeInvocation → Aggregate_Type a ≠ TypeWorkflow → Event_Parent ev = None →
   invocations = false ∧ workflows = false).
Proof.
  intros Ha Hk invocations workflows. destruct (subscription_labels ev a Ha) as [Hi Hw].
  subst invocations workflows. rewrite Hi, Hw. rewrite !bool_decide_eq_true, !bool_decide_eq_false.
  unfold event_key in Hk. split_and!.
  - intros Ht. destruct (Event_Parent ev) as [p|]; [injection Hk as <-; right; cbn; by f_equal|].
    left. rewrite Ha in Hk. by injection Hk as <-.
  - by intros Ht ->.
  - intros [Ht|Ht] Ht'; [by rewrite Ht in Ht'|]. split; [done|].
    apply fmap_Some in Ht as (p & -> & Hp). by exists p.
  - intros Hni Hnw Hp. rewrite Hp. split; [|done]. intros [|]; done.
Qed.

(** ** The application *)

(** What is closed at the end, by name; closing is what it returns. *)
(** [cmd/fission-workflows-bundle/bundle/bundle.go:65-68] App *)
Definition App := list (string * option goerror).

(** [cmd/fission-workflows-bundle/bundle/bundle.go:70-76] App.RegisterCloser *)
Definition RegisterCloser (name : string) (closer : option goerror) (app : App) : res goerror App :=
  if decide (name ∈ app.*1) then Panic ("duplicate registry for key " +:+ name) else Ret (app ++ [(name, closer)]).

(** All closers are called; the errors are logged. *)
(** [cmd/fission-workflows-bundle/bundle/bundle.go:78-93] App.Close *)
Definition App_Close (app : App) : option goerror :=
  if existsb (λ p, match p.2 with Some _ => true | None => false end) app
  then Some (ErrNew "error(s) occurred while closing application") else None.

(** A process is the proxy's configuration, which may be a [nil] pointer. *)
(** [cmd/fission-workflows-bundle/bundle/fissionproxy.go:62-74] FissionProxyConfig.Close *)
Definition FissionProxyConfig_Close (c : option FissionProxyConfig) : res goerror () :=
  match c with
  | None => Ret ()
  | Some c => _ ← deref (proxy_server c); Ret ()
  end.

(** [cmd/fission-workflows-bundle/bundle/bundle.go:562-569] Processes.Close *)
Definition Processes_Close (p : list (option FissionProxyConfig)) : res goerror () :=
  foldM (λ _ proc, match FissionProxyConfig_Close proc with Throw _ => Ret () | r => r end) () p.

(** An interface that holds a [nil] pointer is not [nil]: the process is always registered. *)
(** [cmd/fission-workflows-bundle/bundle/bundle.go:592-596] Processes.Register *)
Definition Processes_Register (process : option FissionProxyConfig) (p : list (option FissionProxyConfig)) :
    list (option FissionProxyConfig) := p ++ [process].

(** The shutdown: the processes, and then the application. *)
(** [cmd/fission-workflows-bundle/bundle/bundle.go:359-361] Run: the end *)
Definition bundle_shutdown (opts : Options) (app : App) : res goerror (option goerror) :=
  _ ← Processes_Close (Processes_Register (FissionProxy opts) []);
  Ret (App_Close app).

(** The flag of the proxy is inverted, and its shutdown panics.  The options have a proxy
    exactly if the flag that enables it is not given; and then the end of the bundle panics, on the server
    that is never set, before the caches are closed, while with the flag it closes them. *)
Theorem proxy_flag_inverted (c : Flags) (opts : Options) (app : App) :
  bundle_options c = Ret opts →
  (is_Some (FissionProxy opts) ↔ flag_Bool c "fission.proxy" = false) ∧
  if flag_Bool c "fission.proxy" then bundle_shutdown opts app = Ret (App_Close app)
  else ∃ why, bundle_shutdown opts app = Panic why.
Proof.
  unfold bundle_options. intros (policy & _ & [= <-])%bind_Ret_inv. unfold bundle_shutdown, ParseFissionProxyConfig. cbn.
  destruct (flag_Bool c "fission.proxy"); cbn.
  - split; [|done]. split; [by intros []|done].
  - split; [split; eauto|]. by eexists.
Qed.

(** ** Concrete flags *)

Definition default_flags (proxy : bool) : Flags := MkFlags
  (λ name, bool_decide (name = "fission.proxy") && proxy || bool_decide (name = "internal"))
  (λ name, if decide (name = "scheduler.policy") then "horizon" else "") (λ _, 0%Z) "uid".

Lemma proxy_flag_inverted_witness :
  ∃ opts, bundle_options (default_flags false) = Ret opts ∧ is_Some (FissionProxy opts) ∧
    ∃ why, bundle_shutdown opts [("cache-workflow", None)] = Panic why.
Proof.
  eexists. split; [vm_compute; reflexivity|].
  match goal with |- is_Some (FissionProxy ?o) ∧ _ => set (opts := o) end.
  destruct (proxy_flag_inverted (default_flags false) opts [("cache-workflow", None)]) as [Hp Hs].
  - vm_compute. reflexivity.
  - split; [apply Hp; by vm_compute|]. exact Hs.
Defined.

Definition task_run_event : Event :=
  MkEvent "" "TaskStarted" (Some (MkAggregate "t" TypeTaskRun)) (Some (MkTimestamp 1 0)) None
    (Some (MkAggregate "wi-1" TypeInvocation)) None ∅.

Lemma caches_hear_witness : selects event_labels invocation_subscription task_run_event = true.
Proof.
  exact (proj1 (caches_hear task_run_event (MkAggregate "t" TypeTaskRun) (MkAggregate "wi-1" TypeInvocation) eq_refl eq_refl) eq_refl).
Defined.
