(* ===== verification/Validate.v ===== *)
(** Component [pkg/types/validate]: the validation of workflow and task
    specifications and of the objects built from them.  A validation returns [nil]
    ([Ret]), a [validate.Error] ([Throw]) or panics. *)

From stdpp Require Import base gmap strings list relations.
From S2P Require Import Prelude Data Types Graph.
From Stdlib Require Import Ascii.

(** ** Errors *)

(** [pkg/types/validate/validate.go:18-37] ErrObjectEmpty, ..., ErrNoStatus *)
Definition ErrObjectEmpty : goerror := ErrNew "no object provided".
Definition ErrInvalidAPIVersion : goerror := ErrNew "unknown API version".
Definition ErrWorkflowWithoutTasks : goerror := ErrNew "workflow needs at least one task".
Definition ErrUndefinedDependency : goerror := ErrNew "task contains undefined dependency".
Definition ErrTaskIDMissing : goerror := ErrNew "task misses an id".
Definition ErrTaskNotUnique : goerror := ErrNew "task is not unique".
Definition ErrWorkflowWithoutStartTasks : goerror :=
  ErrNew "workflow does not contain any start tasks (tasks with 0 dependencies)".
Definition ErrTaskRequiresFnRef : goerror := ErrNew "task requires a function name".
Definition ErrCircularDependency : goerror := ErrNew "workflow contains circular dependency".
Definition ErrInvalidOutputTask : goerror := ErrNew "unknown output task".
Definition ErrNoParentTaskDependency : goerror :=
  ErrNew "dynamic task does not contain parent dependency".
Definition ErrMultipleParentTaskDependency : goerror :=
  ErrNew "dynamic task contains multiple parent tasks".
Definition ErrNoWorkflowInvocation : goerror := ErrNew "workflow invocation id is required".
Definition ErrNoTaskInvocation : goerror := ErrNew "task invocation id is required".
Definition ErrNoFnRef : goerror := ErrNew "function reference is required".
Definition ErrNoWorkflow : goerror := ErrNew "workflow id is required".
Definition ErrNoID : goerror := ErrNew "id is required".
Definition ErrNoStatus : goerror := ErrNew "status is required".

(** The text of [fmt.Errorf("%v: '%v'", err, s)]. *)
Definition errorf (err : goerror) (s : string) : goerror :=
  match err with
  | ErrNew text => ErrFmt (text +:+ ": '" +:+ s +:+ "'")
  | _ => ErrFmt s
  end.

(** [pkg/types/validate/validate.go:86-91] Error.getOrNil *)
Definition getOrNil (subject : string) (errs : list goerror) : option goerror :=
  match errs with [] => None | _ => Some (ErrInvalid subject errs) end.

(** [pkg/types/validate/validate.go:93-98] Error.append *)
Definition append (errs : list goerror) (err : option goerror) : list goerror :=
  match err with None => errs | Some e => errs ++ [e] end.

(** The errors of a [validate.Error], and [err == other] for other errors. *)
(** [pkg/types/validate/validate.go:57-71] Error.Contains *)
Fixpoint Contains (ie : goerror) (err : string) : bool :=
  match ie with
  | ErrInvalid _ errs =>
      existsb (λ e, match e with
                    | ErrInvalid _ _ => Contains e err
                    | ErrNew t => bool_decide (t = err)
                    | _ => false
                    end) errs
  | _ => false
  end.

(** The flattened errors are computed and dropped: the method returns the field. *)
(** [pkg/types/validate/validate.go:44-55] Error.Reasons *)
Definition Reasons (ie : goerror) : list goerror :=
  match ie with ErrInvalid _ errs => errs | _ => [] end.

Definition returned (e : option goerror) : res goerror () :=
  match e with None => Ret () | Some e => Throw e end.

(** ** Tasks *)

(** [pkg/types/validate/validate.go:166-179] TaskSpec *)
Definition validate_TaskSpec (spec : option TaskSpec) : option goerror :=
  match spec with
  | None => getOrNil "TaskSpec" (append [] (Some ErrObjectEmpty))
  | Some spec =>
      getOrNil "TaskSpec"
        (append [] (if decide (TaskSpec_FunctionRef spec = "") then Some ErrTaskRequiresFnRef else None))
  end.

Section tasks.
Context `{MapRange}.

(** [pkg/types/validate/validate.go:181-203] DynamicTaskSpec *)
Definition validate_DynamicTaskSpec (task : option TaskSpec) : res goerror () :=
  match validate_TaskSpec task with
  | Some err => Throw err
  | None =>
      task ← deref task;
      parents ← foldM (λ (parents : nat) '(_, params),
                  p ← deref params;
                  Ret (if decide (TaskDependencyParameters_Type p =
                                  TaskDependencyParameters_DYNAMIC_OUTPUT)
                       then S parents else parents)) 0 (range 0 (TaskSpec_Requires task));
      returned (getOrNil "TaskSpec.dynamic"
        (append [] (if decide (parents = 0) then Some ErrNoParentTaskDependency
                    else if decide (1 < parents) then Some ErrMultipleParentTaskDependency
                    else None)))
  end.
End tasks.

(** [pkg/types/validate/validate.go:222-234] ObjectMetadata *)
Definition validate_ObjectMetadata (o : option ObjectMetadata) : option goerror :=
  match o with
  | None => getOrNil "WorkflowInvocationSpec" (append [] (Some ErrObjectEmpty))
  | Some o =>
      getOrNil "WorkflowInvocationSpec"
        (append [] (if decide (ObjectMetadata_Id o = "") then Some ErrNoID else None))
  end.

(** [pkg/types/validate/validate.go:205-220] Task *)
Definition validate_Task (task : option Task) : option goerror :=
  match task with
  | None => getOrNil "Task" (append [] (Some ErrObjectEmpty))
  | Some task =>
      let errs := append [] (validate_TaskSpec (Task_Spec task)) in
      let errs := append errs (validate_ObjectMetadata (Task_Metadata task)) in
      getOrNil "Task" (append errs (match Task_Status task with
                                    | None => Some ErrNoStatus | Some _ => None end))
  end.

(** ** Invocations *)

(** [pkg/types/validate/validate.go:236-249] WorkflowInvocationSpec *)
Definition validate_WorkflowInvocationSpec (spec : option WorkflowInvocationSpec) :
    option goerror :=
  match spec with
  | None => getOrNil "WorkflowInvocationSpec" (append [] (Some ErrObjectEmpty))
  | Some spec =>
      getOrNil "WorkflowInvocationSpec"
        (append [] (match WorkflowInvocationSpec_Workflow spec with
                    | Some _ => if decide (WorkflowInvocationSpec_WorkflowId spec = "")
                                then Some ErrNoWorkflow else None
                    | None => None
                    end))
  end.

(** [pkg/types/validate/validate.go:251-271] TaskInvocationSpec *)
Definition validate_TaskInvocationSpec (spec : option TaskInvocationSpec) : option goerror :=
  match spec with
  | None => getOrNil "TaskInvocationSpec" (append [] (Some ErrObjectEmpty))
  | Some spec =>
      let errs := append [] (if decide (TaskInvocationSpec_InvocationId spec = "")
                             then Some ErrNoWorkflowInvocation else None) in
      let errs := append errs (if decide (TaskInvocationSpec_TaskId spec = "")
                               then Some ErrNoTaskInvocation else None) in
      getOrNil "TaskInvocationSpec"
        (append errs (match TaskInvocationSpec_FnRef spec with
                      | None => Some ErrNoFnRef | Some _ => None end))
  end.

(** [pkg/types/validate/validate.go:311-316] NewError *)
Definition NewError (subject : string) (errs : list goerror) : goerror := ErrInvalid subject errs.

(** ** Workflows *)

Definition lower (c : ascii) : ascii :=
  if decide (65 ≤ N_of_ascii c ∧ N_of_ascii c ≤ 90)%N then ascii_of_N (N_of_ascii c + 32) else c.

Fixpoint string_map (f : ascii → ascii) (s : string) : string :=
  match s with EmptyString => EmptyString | String c s => String (f c) (string_map f s) end.

(** [strings.EqualFold]; only ASCII letters fold to the letters of an API version. *)
Definition EqualFold (s t : string) : bool := bool_decide (string_map lower s = string_map lower t).

Section workflow.
Context `{MapRange} `{DirectedGraph}.

(** The body of the first loop over the tasks: [errs] and [refTable]. *)
Definition check_task (acc : list goerror * gmap string (option TaskSpec))
    (entry : string * option TaskSpec) : list goerror * gmap string (option TaskSpec) :=
  let '(errs, refTable) := acc in
  let '(taskID, task) := entry in
  let errs := append errs (if decide (taskID = "") then Some ErrTaskIDMissing else None) in
  let errs := append errs (validate_TaskSpec task) in
  let errs := append errs (match refTable !! taskID with
                           | Some _ => Some (errorf ErrTaskNotUnique taskID) | None => None end) in
  (errs, <[taskID := task]> refTable).

(** The body of the second loop: [errs] and [startTasks]. *)
Definition check_dependencies (refTable : gmap string (option TaskSpec))
    (acc : list goerror * list TaskSpec) (entry : string * option TaskSpec) :
    res goerror (list goerror * list TaskSpec) :=
  let '(errs, startTasks) := acc in
  let '(taskID, task) := entry in
  task ← deref task;
  let startTasks := if decide (TaskSpec_Requires task = ∅) then startTasks ++ [task]
                    else startTasks in
  Ret (foldl (λ errs '(depName, _),
         append errs (match refTable !! depName with
                      | Some _ => None
                      | None => Some (errorf ErrUndefinedDependency (taskID +:+ "->" +:+ depName))
                      end)) errs (range 2 (TaskSpec_Requires task)), startTasks).

(** [pkg/types/validate/validate.go:101-164] WorkflowSpec *)
Definition validate_WorkflowSpec (spec : option WorkflowSpec) : res goerror () :=
  match spec with
  | None => returned (getOrNil "WorkflowSpec" (append [] (Some ErrObjectEmpty)))
  | Some spec =>
      let version := WorkflowSpec_ApiVersion spec in
      let tasks := WorkflowSpec_Tasks spec in
      let errs := append [] (if decide (version ≠ "" ∧ EqualFold version WorkflowAPIVersion = false)
                             then Some (errorf ErrInvalidAPIVersion version) else None) in
      let errs := append errs (if decide (tasks = ∅) then Some ErrWorkflowWithoutTasks else None) in
      let errs := append errs (match tasks !! WorkflowSpec_OutputTask spec with
                               | None => Some ErrInvalidOutputTask | Some _ => None end) in
      let '(errs, refTable) := foldl check_task (errs, ∅) (range 0 tasks) in
      '(errs, startTasks) ← foldM (check_dependencies refTable) (errs, []) (range 1 tasks);
      dg ← Parse (NewTaskSpecIterator tasks);
      let errs := append errs (if decide (0 < length (dg_cycles dg))
                               then Some ErrCircularDependency else None) in
      let errs := append errs (if decide (length startTasks = 0)
                               then Some ErrWorkflowWithoutStartTasks else None) in
      returned (getOrNil "WorkflowSpec" errs)
  end.

(** [pkg/types/validate/validate.go:300-309] Flow *)
Definition validate_Flow (flow : Flow) : res goerror () :=
  match Flow_Workflow flow, Flow_Task flow with
  | None, None => Throw ErrObjectEmpty
  | Some wf, _ => validate_WorkflowSpec (Some wf)
  | None, task => returned (validate_TaskSpec task)
  end.
End workflow.

(** ** Specification *)

Definition spec_reqs (spec : WorkflowSpec) (id : string) : requires_map :=
  match WorkflowSpec_Tasks spec !! id with
  | Some (Some t) => TaskSpec_Requires t | _ => ∅ end.

(** Task [b] of the specification waits for task [a]. *)
Definition spec_waits `{MapRange} (spec : WorkflowSpec) (a b : string) : Prop :=
  is_Some (WorkflowSpec_Tasks spec !! a) ∧ is_Some (WorkflowSpec_Tasks spec !! b) ∧
  (is_Some (spec_reqs spec b !! a) ∨
   a ≠ b ∧ ∃ p, dynamic_parent (spec_reqs spec a) = Some p ∧ is_Some (spec_reqs spec b !! p)).

(** The specifications the validation answers for without a panic: no task is
    [nil] or requires itself, and the hash separates the names in play. *)
Record checkable (spec : WorkflowSpec) : Prop := {
  checkable_tasks : ∀ id, WorkflowSpec_Tasks spec !! id ≠ Some None;
  checkable_self : ∀ id, spec_reqs spec id !! id = None;
  checkable_hash : hash_inj (λ k, is_Some (WorkflowSpec_Tasks spec !! k) ∨
                                  ∃ id, is_Some (spec_reqs spec id !! k)) }.

(** What a valid workflow is. *)
Record valid_spec `{MapRange} (spec : WorkflowSpec) : Prop := {
  valid_version : WorkflowSpec_ApiVersion spec = "" ∨
    EqualFold (WorkflowSpec_ApiVersion spec) WorkflowAPIVersion = true;
  valid_output : is_Some (WorkflowSpec_Tasks spec !! WorkflowSpec_OutputTask spec);
  valid_ids : WorkflowSpec_Tasks spec !! "" = None;
  valid_functions : ∀ id t, WorkflowSpec_Tasks spec !! id = Some (Some t) → TaskSpec_FunctionRef t ≠ "";
  valid_requires : ∀ id dep, is_Some (spec_reqs spec id !! dep) →
    is_Some (WorkflowSpec_Tasks spec !! dep);
  valid_acyclic : ∀ id, ¬ tc (spec_waits spec) id id }.

(** ** Correctness *)

Lemma append_nil errs e : append errs e = [] ↔ errs = [] ∧ e = None.
Proof. destruct e; simpl; [|naive_solver]. split; [by destruct errs|naive_solver]. Qed.

Lemma if_error (P : Prop) `{Decision P} (e : goerror) :
  (if decide P then Some e else None) = None ↔ ¬ P.
Proof. case_decide; naive_solver. Qed.

Lemma getOrNil_None s errs : getOrNil s errs = None ↔ errs = [].
Proof. by destruct errs. Qed.

Lemma returned_Ret e : returned e = Ret () ↔ e = None.
Proof. by destruct e. Qed.

Lemma validate_TaskSpec_None t :
  validate_TaskSpec (Some t) = None ↔ TaskSpec_FunctionRef t ≠ "".
Proof. unfold validate_TaskSpec. rewrite getOrNil_None, append_nil. case_decide; naive_solver. Qed.

Lemma validate_TaskSpec_Some t : validate_TaskSpec t = None → is_Some t.
Proof. destruct t; [by eexists|done]. Qed.

Section loops.
Context `{MapRange}.
Implicit Types (l : list (string * option TaskSpec)).

Lemma fold_check_task l errs ref :
  NoDup l.*1 → (∀ k, k ∈ l.*1 → ref !! k = None) →
  let '(errs', ref') := foldl check_task (errs, ref) l in
  (errs' = [] ↔ errs = [] ∧ ∀ k t, (k, t) ∈ l → k ≠ "" ∧ validate_TaskSpec t = None) ∧
  ∀ k, is_Some (ref' !! k) ↔ is_Some (ref !! k) ∨ k ∈ l.*1.
Proof.
  revert errs ref. induction l as [|[k t] l IH]; intros errs ref Hnd Hfresh.
  { simpl. split; [naive_solver set_solver|set_solver]. }
  rewrite fmap_cons in *. apply NoDup_cons in Hnd as [Hk Hnd]. cbn [foldl check_task fst] in *.
  rewrite (Hfresh k) by set_solver.
  set (errs1 := append (append (append errs _) _) None).
  assert (errs1 = [] ↔ errs = [] ∧ k ≠ "" ∧ validate_TaskSpec t = None) as Herrs1.
  { unfold errs1. rewrite !append_nil. case_decide; naive_solver. }
  specialize (IH errs1 (<[k := t]> ref) Hnd).
  destruct (foldl check_task (errs1, <[k:=t]> ref) l) as [errs' ref'].
  destruct IH as [He Hr].
  { intros k' Hk'. rewrite lookup_insert_ne by set_solver. apply Hfresh. set_solver. }
  split.
  - rewrite He, Herrs1. split.
    + intros [(-> & ? & ?) Hl]. split; [done|]. intros k' t' [[= -> ->]|Hin]%elem_of_cons; auto.
    + intros [-> Hl]. split; [|intros; apply Hl; set_solver]. split; [done|]. apply Hl. set_solver.
  - intros k'. rewrite Hr, elem_of_cons.
    destruct (decide (k = k')) as [->|Hne];
      [rewrite lookup_insert_eq|rewrite lookup_insert_ne by done]; naive_solver.
Qed.

Lemma fold_check_requires (f : string → goerror) (ref : gmap string (option TaskSpec))
    (l : list (string * option TaskDependencyParameters)) errs :
  foldl (λ errs '(depName, _), append errs (match ref !! depName with
    | Some _ => None | None => Some (f depName) end)) errs l = [] ↔
  errs = [] ∧ ∀ dep, dep ∈ l.*1 → is_Some (ref !! dep).
Proof.
  revert errs. induction l as [|[dep p] l IH]; intros errs; [simpl; set_solver|].
  cbn [foldl]. rewrite IH, append_nil, fmap_cons. cbn [fst]. split.
  - intros [[-> Hd] Hl]. split; [done|]. intros d [->|Hin]%elem_of_cons; [|auto].
    destruct (ref !! dep); [by eexists|done].
  - intros [-> Hl]. split; [split; [done|]|intros; apply Hl; set_solver].
    destruct (Hl dep) as [x ->]; [set_solver|done].
Qed.

Lemma fold_check_dependencies (ref : gmap string (option TaskSpec)) l errs starts :
  (∀ k t, (k, t) ∈ l → is_Some t) →
  ∃ errs' starts', foldM (check_dependencies ref) (errs, starts) l = Ret (errs', starts') ∧
    (errs' = [] ↔ errs = [] ∧ ∀ k t dep, (k, Some t) ∈ l →
       is_Some (TaskSpec_Requires t !! dep) → is_Some (ref !! dep)) ∧
    (starts' = [] ↔ starts = [] ∧ ∀ k t, (k, Some t) ∈ l → TaskSpec_Requires t ≠ ∅).
Proof.
  revert errs starts. induction l as [|[k t] l IH]; intros errs starts Hl.
  { exists errs, starts. split; [done|]. set_solver. }
  destruct (Hl k t) as [t' ->]; [set_solver|]. cbn [foldM check_dependencies deref].
  rewrite !bind_Ret_l.
  assert (∀ e s, _) as IH' by (intros e s; apply (IH e s); intros k0 t0 Ht0; apply (Hl k0 t0), elem_of_cons; by right).
  match goal with |- context [foldM _ (?e, ?s) l] =>
    destruct (IH' e s) as (errs' & starts' & Hf & He & Hs) end. rewrite Hf.
  exists errs', starts'. split; [done|]. split.
  - rewrite He, (fold_check_requires (λ dep, errorf ErrUndefinedDependency (k +:+ "->" +:+ dep))).
    split.
    + intros [[-> Hreq] Hrest]. split; [done|]. intros k2 t2 dep [[= -> ->]|Hin]%elem_of_cons Hdep;
        [|by eapply Hrest]. apply Hreq. by apply elem_of_range_fst.
    + intros [-> Hall]. split; [split; [done|]|].
      * intros dep Hdep%elem_of_range_fst. apply (Hall k t' dep); [by left|done].
      * intros k2 t2 dep Hin. apply (Hall k2 t2 dep). by right.
  - rewrite Hs. case_decide as Hreq.
    + split; [intros [Hbad _]; by destruct starts|]. intros [_ Hall]. exfalso.
      apply (Hall k t'); [by left|done].
    + split.
      * intros [-> Hrest]. split; [done|]. intros k2 t2 [[= -> ->]|Hin]%elem_of_cons; [done|eauto].
      * intros [-> Hall]. split; [done|]. intros k2 t2 Hin. apply (Hall k2 t2). by right.
Qed.
End loops.

Section spec_graph.
Context `{MapRange} `{DirectedGraphLaws}.
Implicit Types (spec : WorkflowSpec).

Lemma it_nodes_specs (tasks : gmap string (option TaskSpec)) :
  it_nodes (NewTaskSpecIterator tasks) = (λ p, TaskSpecNode p.1 p.2) <$> range 0 tasks.
Proof.
  apply walk_spec; simpl.
  - by rewrite !length_fmap.
  - intros i. rewrite !list_lookup_fmap. destruct (range 0 tasks !! i) as [[k t]|] eqn:Hi; simpl; [|done].
    apply list_elem_of_lookup_2, elem_of_range in Hi. by rewrite Hi.
Qed.

Section nodes.
Context (spec : WorkflowSpec) (Hc : checkable spec).
Let nodes := it_nodes (NewTaskSpecIterator (WorkflowSpec_Tasks spec)).
Let node id := TaskSpecNode id (WorkflowSpec_Tasks spec !! id ≫= (λ t, t)).

Lemma elem_of_spec_nodes n : n ∈ nodes ↔ ∃ id, is_Some (WorkflowSpec_Tasks spec !! id) ∧ n = node id.
Proof.
  unfold nodes, node. rewrite it_nodes_specs, list_elem_of_fmap. split.
  - intros ([id t] & -> & Hin%elem_of_range). exists id. rewrite Hin. split; [by eexists|done].
  - intros (id & [t Ht] & ->). exists (id, t). rewrite Ht. split; [done|by apply elem_of_range].
Qed.

Lemma spec_node id : is_Some (WorkflowSpec_Tasks spec !! id) →
  is_ret (node_requires (E := unit) (node id)) ∧ req (node id) = spec_reqs spec id.
Proof.
  intros [t Ht]. unfold req, node_requires, node, spec_reqs. rewrite Ht. simpl.
  destruct t as [t|]; [done|]. by destruct (checkable_tasks _ Hc id).
Qed.

Lemma spec_nodes_parsable : parsable nodes.
Proof.
  assert (node_key <$> nodes = (range 0 (WorkflowSpec_Tasks spec)).*1) as Hkeys.
  { unfold nodes. rewrite it_nodes_specs, <- list_fmap_compose. by apply list_fmap_ext. }
  split.
  - intros n (id & Hid & ->)%elem_of_spec_nodes. by apply spec_node.
  - rewrite Hkeys. apply NoDup_range.
  - intros n (id & Hid & ->)%elem_of_spec_nodes. destruct (spec_node id Hid) as [_ ->].
    apply (checkable_self _ Hc).
  - intros x y Hx Hy. apply (checkable_hash _ Hc).
    + destruct Hx as [Hx|(n & (id & Hid & ->)%elem_of_spec_nodes & Hreq)].
      * left. rewrite Hkeys in Hx. by apply elem_of_range_fst in Hx.
      * right. destruct (spec_node id Hid) as [_ Hr]. rewrite Hr in Hreq. eauto.
    + destruct Hy as [Hy|(n & (id & Hid & ->)%elem_of_spec_nodes & Hreq)].
      * left. rewrite Hkeys in Hy. by apply elem_of_range_fst in Hy.
      * right. destruct (spec_node id Hid) as [_ Hr]. rewrite Hr in Hreq. eauto.
Qed.

Lemma depends_spec_waits n m :
  depends nodes n m ↔ ∃ a b, n = node a ∧ m = node b ∧ spec_waits spec a b.
Proof.
  unfold depends, static_dep, dynamic_dep, spec_waits. rewrite !elem_of_spec_nodes. split.
  - intros ((a & Ha & ->) & (b & Hb & ->) & Hd).
    destruct (spec_node a Ha) as [_ Hra], (spec_node b Hb) as [_ Hrb].
    rewrite Hra, Hrb in Hd. exists a, b. split_and!; try done.
    destruct Hd as [?|[Hne ?]]; [by left|right]. split; [|done]. by intros ->.
  - intros (a & b & -> & -> & Ha & Hb & Hd).
    destruct (spec_node a Ha) as [_ Hra], (spec_node b Hb) as [_ Hrb].
    rewrite Hra, Hrb. split_and!; [eauto|eauto|].
    destruct Hd as [?|[Hne ?]]; [by left|right]. split; [|done]. by intros [= ?].
Qed.

Lemma spec_waits_cycle id : tc (spec_waits spec) id id → ∃ n, tc (depends nodes) n n.
Proof.
  intros Hcyc. exists (node id). revert Hcyc. apply tc_congruence.
  intros a b Hab. apply depends_spec_waits. eauto.
Qed.

Lemma depends_cycle n : tc (depends nodes) n n → ∃ id, tc (spec_waits spec) id id.
Proof.
  intros Hcyc.
  assert (∀ n m, tc (depends nodes) n m → ∃ a b, n = node a ∧ m = node b ∧ tc (spec_waits spec) a b)
    as Hl.
  { clear n Hcyc. intros n m. induction 1 as [n m Hnm|n m o Hnm _ (b' & c & -> & -> & Hbc)].
    - apply depends_spec_waits in Hnm as (a & b & -> & -> & ?). exists a, b. split_and!; [done..|by apply tc_once].
    - apply depends_spec_waits in Hnm as (a & b & -> & Hb & ?). exists a, c. split_and!; [done..|].
      injection Hb as ->. by eapply tc_l. }
  destruct (Hl n n Hcyc) as (a & b & -> & Hb & Hab). injection Hb as ->. eauto.
Qed.
End nodes.

(** A workflow without cycles has a task to start with. *)
Lemma valid_start spec :
  valid_spec spec → checkable spec →
  ∃ id t, WorkflowSpec_Tasks spec !! id = Some (Some t) ∧ TaskSpec_Requires t = ∅.
Proof.
  intros [_ Hout _ _ Hreq Hac] Hc.
  destruct (acyclic_source (spec_waits spec) (elements (dom (WorkflowSpec_Tasks spec)))
    (WorkflowSpec_OutputTask spec)) as (id & Hid & Hsrc); [| |done| |].
  - intros a b. unfold spec_waits.
    destruct (dynamic_parent (spec_reqs spec a)) as [q|].
    + destruct (decide (is_Some (WorkflowSpec_Tasks spec !! a) ∧
        is_Some (WorkflowSpec_Tasks spec !! b) ∧
        (is_Some (spec_reqs spec b !! a) ∨ a ≠ b ∧ is_Some (spec_reqs spec b !! q))));
        [left|right]; naive_solver.
    + destruct (decide (is_Some (WorkflowSpec_Tasks spec !! a) ∧
        is_Some (WorkflowSpec_Tasks spec !! b) ∧ is_Some (spec_reqs spec b !! a)));
        [left|right]; naive_solver.
  - intros a b (Ha & _). by apply elem_of_elements, elem_of_dom.
  - by apply elem_of_elements, elem_of_dom.
  - apply elem_of_elements, elem_of_dom in Hid as [[t|] Ht]; [|by destruct (checkable_tasks _ Hc id)].
    exists id, t. split; [done|]. apply map_empty. intros dep.
    destruct (TaskSpec_Requires t !! dep) as [p|] eqn:Hdep; [|done]. exfalso.
    assert (is_Some (spec_reqs spec id !! dep)) as Hr
      by (unfold spec_reqs; rewrite Ht; by exists p).
    apply (Hsrc dep). split_and!; [by eapply Hreq|by eexists|by left].
Qed.
End spec_graph.

Section correct.
Context `{MapRange} `{DirectedGraphLaws}.

Lemma validate_WorkflowSpec_spec (spec : WorkflowSpec) :
  checkable spec →
  (validate_WorkflowSpec (Some spec) = Ret () ↔ valid_spec spec) ∧
  (¬ valid_spec spec → ∃ errs, validate_WorkflowSpec (Some spec) = Throw (ErrInvalid "WorkflowSpec" errs)).
Proof.
  intros Hc. unfold validate_WorkflowSpec.
  set (tasks := WorkflowSpec_Tasks spec).
  set (errs0 := append (append (append [] _) _) _).
  pose proof (fold_check_task (range 0 tasks) errs0 ∅ (NoDup_range 0 tasks)) as Hf.
  destruct (foldl check_task (errs0, ∅) (range 0 tasks)) as [errs1 ref].
  destruct Hf as [He1 Href]; [intros; by apply lookup_empty|].
  destruct (fold_check_dependencies ref (range 1 tasks) errs1 []) as (errs2 & starts & -> & He2 & Hs2).
  { intros k t Hin%elem_of_range. destruct t as [t|]; [by eexists|].
    by destruct (checkable_tasks _ Hc k). }
  rewrite bind_Ret_l.
  pose proof (spec_nodes_parsable spec Hc) as Hp.
  destruct (Parse_spec (E := goerror) (NewTaskSpecIterator tasks) Hp) as (g & Hg & Hn & Hedge).
  rewrite Hg, bind_Ret_l.
  assert (dg_cycles g = [] ↔ ∀ id, ¬ tc (spec_waits spec) id id) as Hcyc.
  { rewrite (edges_cycles g _ Hp Hedge). split.
    - intros Hno id [n Hn']%(spec_waits_cycle spec Hc). by apply (Hno n).
    - intros Hno n [id Hid]%(depends_cycle spec Hc). by apply (Hno id). }
  set (errs3 := append (append errs2 _) _).
  assert (errs3 = [] ↔ valid_spec spec) as Hvalid.
  { unfold errs3, errs0, tasks in *. rewrite !append_nil, He2, He1, !append_nil, !if_error.
    assert (∀ k, is_Some (ref !! k) ↔ is_Some (WorkflowSpec_Tasks spec !! k)) as Href'.
    { intros k. rewrite Href, elem_of_range_fst, lookup_empty, is_Some_alt. naive_solver. }
    clear Href He1 He2. setoid_rewrite elem_of_range. setoid_rewrite Href'. split.
    - intros (((((((_ & Hver) & _) & Hout) & Htask) & Hdep) & Hcy) & _). split.
      + destruct (decide (WorkflowSpec_ApiVersion spec = "")); [by left|right].
        by destruct (EqualFold _ _); [|destruct Hver].
      + by destruct (WorkflowSpec_Tasks spec !! WorkflowSpec_OutputTask spec).
      + destruct (WorkflowSpec_Tasks spec !! "") as [t|] eqn:Ht; [|done].
        by destruct (Htask _ _ Ht).
      + intros id t Ht. apply validate_TaskSpec_None. by eapply Htask.
      + intros id dep Hr. unfold spec_reqs in Hr.
        destruct (WorkflowSpec_Tasks spec !! id) as [[t|]|] eqn:Ht;
          [by eapply Hdep|by destruct Hr..].
      + apply Hcyc. destruct (dg_cycles g); [done|simpl in Hcy; lia].
    - intros Hv. destruct (valid_start spec Hv Hc) as (s & ts & Hs & Hsr).
      destruct Hv as [Hver [out Hout] Hids Hfn Hreq Hac]. rewrite Hout. split_and!; try done.
      + intros [? ?]. destruct Hver; congruence.
      + intros Hemp. by rewrite Hemp, lookup_empty in Hs.
      + intros k t Ht. split; [by intros ->; rewrite Hids in Ht|].
        destruct t as [t|]; [|by destruct (checkable_tasks _ Hc k)].
        apply validate_TaskSpec_None. by eapply Hfn.
      + intros k t dep Ht Hdep. apply (Hreq k). unfold spec_reqs. by rewrite Ht.
      + apply Hcyc in Hac as ->. simpl. lia.
      + intros ->%nil_length_inv. destruct Hs2 as [Hs2 _]. destruct (Hs2 eq_refl) as [_ Hs2'].
        apply (Hs2' s ts); [by apply elem_of_range|done]. }
  split.
  - rewrite returned_Ret, getOrNil_None. done.
  - intros Hno. rewrite <- Hvalid in Hno. destruct errs3 as [|e errs]; [done|]. simpl. eauto.
Qed.

End correct.

(** A workflow of two tasks, the second waiting for the first. *)
Definition task_spec (requires : requires_map) : option TaskSpec :=
  Some (MkTaskSpec "noop" ∅ requires 0 None None None).
Definition static_parameters : option TaskDependencyParameters :=
  Some (MkTaskDependencyParameters TaskDependencyParameters_DATA "").

Definition pipeline : WorkflowSpec :=
  MkWorkflowSpec "1" {[ "a" := task_spec ∅; "b" := task_spec {[ "a" := static_parameters ]} ]}
    "b" "" "" "" false.

Lemma pipeline_checkable : checkable pipeline.
Proof.
  assert (∀ id dep, is_Some (spec_reqs pipeline id !! dep) → id = "b" ∧ dep = "a") as Hreqs.
  { intros id dep [p Hp]. unfold spec_reqs, pipeline in Hp. simpl in Hp.
    destruct (decide (id = "a")) as [->|Ha]; [done|]. rewrite lookup_insert_ne in Hp by done.
    destruct (decide (id = "b")) as [->|Hb]; [|by rewrite lookup_singleton_ne in Hp].
    rewrite lookup_singleton_eq in Hp. simpl in Hp.
    by apply lookup_singleton_Some in Hp as [<- _]. }
  split.
  - intros id. simpl. destruct (decide (id = "a")) as [->|Ha]; [done|].
    rewrite lookup_insert_ne by done. intros Hs. by apply lookup_singleton_Some in Hs as [_ ?].
  - intros id. destruct (spec_reqs pipeline id !! id) eqn:Hs; [|done].
    destruct (Hreqs id id) as [-> ?]; [by eexists|done].
  - assert (∀ k, is_Some (WorkflowSpec_Tasks pipeline !! k) ∨
                 (∃ id, is_Some (spec_reqs pipeline id !! k)) → k = "a" ∨ k = "b") as Hk.
    { intros k [Hk|(id & Hr%Hreqs)]; [|naive_solver]. simpl in Hk.
      destruct (decide (k = "a")); [by left|]. rewrite lookup_insert_ne in Hk by done.
      destruct Hk as [? Hk]. apply lookup_singleton_Some in Hk as [<- _]. by right. }
    intros x y [->| ->]%Hk [->| ->]%Hk Heq; try done; vm_compute in Heq; discriminate.
Qed.


(** ** Findings *)

(** The validation of a workflow whose only task requires itself. *)
Definition self_dependent : WorkflowSpec :=
  MkWorkflowSpec "1" {[ "a" := task_spec {[ "a" := static_parameters ]} ]} "a" "" "" "" false.

(** The validation panics on a task that requires itself, and on a task that is
    [nil], instead of reporting the circular dependency or the missing task: the
    graph refuses the self edge, and the second loop dereferences the task. *)
Theorem validate_WorkflowSpec_panics :
  let _ := plain_range in
  validate_WorkflowSpec (Some self_dependent) = Panic "simple: adding self edge" ∧
  ¬ no_panic (validate_WorkflowSpec
    (Some (MkWorkflowSpec "1" {[ "a" := None ]} "a" "" "" "" false))).
Proof. split; [by vm_compute|vm_compute; by intros []]. Qed.
