(* ===== verification/ErrorText.v ===== *)
(** Components [pkg/types/validate] and [pkg/fes], the texts of their errors: the [Error] methods
    and the two ways to print the errors of a validation.  The text of an error that
    [errors.New] or [fmt.Errorf] made is the one the model keeps of it. *)

From stdpp Require Import base gmap strings list pretty.
From S2P Require Import Prelude Data Types TypedValues FnRefs NetHttp Fes.
From Stdlib Require Import Ascii.

(** The errors of a validation, numbered from zero. *)
Fixpoint numbered (n : nat) (texts : list string) : list string :=
  match texts with
  | [] => []
  | text :: texts => ("(" +:+ pretty n +:+ ") " +:+ text) :: numbered (S n) texts
  end.

(** [err.Error()] for every kind of error. *)
(** [pkg/fes/types.go:118-127] EventStoreErr.Error *)
Definition EventStoreErr_Error (s : string) (k : option Aggregate) (cause : option string) : string :=
  let msg := match k with
             | Some k => if decide (Aggregate_Id k = "" ∧ Aggregate_Type k = "") then s
                         else Aggregate_Format k +:+ ": " +:+ s
             | None => s
             end in
  match cause with Some c => msg +:+ ": " +:+ c | None => msg end.

(** [pkg/types/validate/validate.go:73-84] Error.Error *)
Definition Error_Error (subject : string) (reasons : list string) : string :=
  let vt := if decide (subject = "") then "Value" else subject in
  (vt +:+ " is invalid") +:+ ": " +:+ join "; " (numbered 0 reasons).

Fixpoint error_string (err : goerror) : string :=
  match err with
  | ErrNew text | ErrFmt text => text
  | ErrEventStore s k _ cause =>
      EventStoreErr_Error s k (match cause with Some c => Some (error_string c) | None => None end)
  | ErrInvalid subject errs => Error_Error subject (map error_string errs)
  end.

Fixpoint indent (depth : nat) : string :=
  match depth with O => "" | S depth => "  " +:+ indent depth end.

Fixpoint concat_all (l : list string) : string :=
  match l with [] => "" | s :: l => s +:+ concat_all l end.

(** [pkg/types/validate/validate.go:283-298] format *)
Fixpoint format (rawErr : goerror) (depth : nat) : string :=
  match rawErr with
  | ErrInvalid subject errs =>
      let result := indent depth +:+ error_string rawErr +:+ newline in
      let result := result +:+ concat_all (map (λ nested, format nested (S depth)) errs) in
      if decide (length errs = 0) then result +:+ indent (S depth) +:+ "unknown error" +:+ newline else result
  | _ => indent depth +:+ error_string rawErr +:+ newline
  end.

(** [pkg/types/validate/validate.go:274-276] Format *)
Definition Format (rawErr : goerror) : string := TrimSpace (format rawErr 0).

(** [strings.Replace(s, "\n", ";", -1)] *)
Fixpoint replace_newlines (s : string) : string :=
  match s with
  | EmptyString => EmptyString
  | String c s => String (if decide (c = "010"%char) then ";"%char else c) (replace_newlines s)
  end.

(** [pkg/types/validate/validate.go:279-281] FormatConcise *)
Definition FormatConcise (rawErr : goerror) : string := replace_newlines (Format rawErr).

(** The concise text is a single line. *)
Lemma FormatConcise_single_line err : without "010" (FormatConcise err).
Proof.
  unfold FormatConcise. induction (Format err) as [|c s IH]; [done|]. unfold without. cbn.
  rewrite andb_true_iff. split; [|exact IH]. apply bool_decide_eq_true. by case_decide.
Qed.

(** The reasons are printed below the error, one per line and two blanks further to the right. *)
Example Format_reasons :
  Format (ErrInvalid "WorkflowSpec" [ErrNew "unknown output task"; ErrInvalid "TaskSpec" [ErrNew "no function"]]) =
  concat_all
    ["WorkflowSpec is invalid: (0) unknown output task; (1) TaskSpec is invalid: (0) no function"; newline;
     "  unknown output task"; newline;
     "  TaskSpec is invalid: (0) no function"; newline;
     "    no function"].
Proof. by vm_compute. Qed.

Example Format_empty :
  FormatConcise (ErrInvalid "" []) = "Value is invalid: ;  unknown error".
Proof. by vm_compute. Qed.
