(* ===== verification/Remote.v ===== *)
(** Components [pkg/util/backoff], [pkg/fnenv/http] and [pkg/fnenv/fission]: functions behind
    HTTP.  The client, the services of Fission and the contexts are parameters; the
    requests that are sent are recorded. *)

From stdpp Require Import base gmap strings list.
From S2P Require Import Prelude Data Types TypedValues FnRefs NetHttp MediaType Httpconv Fes Graph Validate.
From Stdlib Require Import Ascii.

(** ** pkg/util/backoff *)

Definition Policy : Type := Z → Z → Z.

(** [pkg/util/backoff/backoff.go:8-15] Instance *)
Record Backoff := MkBackoff {
  MaxRetries : Z;
  BaseRetryDuration : Z;
  BackoffPolicy : Policy;
  MaxBackoffDuration : Z;
  Attempt : Z }.

(** The shift is one of 64 bits, and so is the product. *)
(** [pkg/util/backoff/backoff.go:61-63] ExponentialBackoff *)
Definition ExponentialBackoff (i unit : Z) : Z :=
  to_i64 ((if decide (0 ≤ i)%Z then to_i64 (Z.shiftl 1 i) else 0) * unit).

(** [pkg/util/backoff/backoff.go:65-70] min *)
Definition min_duration (l r : Z) : Z := if decide (l < r)%Z then l else r.

(** The pause, whether the caller is finished, and the instance afterwards.  [ctx] is [None]
    without a context, and otherwise says whether the context was done before the pause
    was over. *)
(** [pkg/util/backoff/backoff.go:17-35] Instance.Backoff *)
Definition Backoff_Backoff (i : Backoff) (ctx : option bool) : Z * bool * Backoff :=
  let backoff := min_duration (BackoffPolicy i (Attempt i) (BaseRetryDuration i)) (MaxBackoffDuration i) in
  let i' := MkBackoff (to_i64 (MaxRetries i + 1)) (BaseRetryDuration i) (BackoffPolicy i) (MaxBackoffDuration i) (Attempt i) in
  let exhausted := bool_decide (Attempt i' = to_i64 (MaxRetries i' - 1)) in
  (backoff, match ctx with None => exhausted | Some true => exhausted | Some false => true end, i').

(** The attempts the channel yields and the pause after each, when the context is done after
    [received] of them. *)
(** [pkg/util/backoff/backoff.go:37-53] Instance.C *)
Definition Backoff_C (i : Backoff) (received : nat) : list (nat * Z) :=
  (λ attempt, (attempt, BackoffPolicy i (Z.of_nat attempt) (BaseRetryDuration i))) <$>
  seq 0 (received `min` Z.to_nat (MaxRetries i)).

(** [pkg/util/backoff/backoff.go:55-57] New *)
Definition Backoff_New : Backoff := MkBackoff 0 0 (λ _ _, 0%Z) 0 0.

(** The channel yields every attempt once and in order, never more than [MaxRetries], and
    pauses twice as long after each: about seven minutes for the twelve attempts of the
    runtimes, since the bound on the pauses is not looked at. *)
Lemma Backoff_C_attempts (i : Backoff) (received : nat) :
  (Backoff_C i received).*1 = seq 0 (received `min` Z.to_nat (MaxRetries i)).
Proof. unfold Backoff_C. rewrite <- list_fmap_compose. apply list_fmap_id. Qed.

Definition retries : Backoff := MkBackoff 12 (100 * 10 ^ 6) ExponentialBackoff (10 * 10 ^ 9) 0.

Example retries_pauses :
  (λ p, p.2 / 10 ^ 6)%Z <$> Backoff_C retries 20 =
  [100; 200; 400; 800; 1600; 3200; 6400; 12800; 25600; 51200; 102400; 204800]%Z.
Proof. by vm_compute. Qed.

(** ** Sending a request *)

(** A request with the text of its URL. *)
Record Sent := MkSent { Sent_URL : string; Sent_Request : Request }.

Definition with_body (body : option (res goerror string)) (req : Request) : Request :=
  MkRequest (Req_Method req) (Req_RawQuery req) (Req_Header req) body.

(** The query of a URL. *)
Definition raw_query (url : string) : string := default "" (cut "?" (cut "#" url).1).2.

Section remote.
Context `{MapRange} `{Proto} `{PTypes} `{Rfc2231} `{Codecs} `{Fmt} (fuel : nat).
Context (parse_literal : string → option string).

(** What the client answers to the [n]-th attempt, and what that attempt leaves unread of
    the body: the reader of the body is not reset between attempts. *)
Context (client_Do : nat → Sent → res goerror ClientResponse) (left : nat → string → string).

(** How many attempts a context with this deadline grants before it is done. *)
Context (granted : Z → nat).

Notation M := (st (list Sent) goerror).

Definition remaining (n : nat) (req : Request) : Request :=
  match Req_Body req with
  | Some (Ret b) => with_body (Some (Ret (left n b))) req
  | _ => req
  end.

Definition send (n : nat) (s : Sent) : M (option ClientResponse) := λ log,
  (match client_Do n s with Ret resp => Ret (Some resp) | Throw _ => Ret None | Panic w => Panic w end, log ++ [s]).

(** The loop over the attempts: the first response, if there is one. *)
Fixpoint try_request (url : string) (attempts : list nat) (req : Request) : M (option ClientResponse) :=
  match attempts with
  | [] => mret None
  | n :: attempts =>
      resp ← send n (MkSent url req);
      match resp with
      | Some resp => mret (Some resp)
      | None => try_request url attempts (remaining n req)
      end
  end.

(** The request under way: its formatting, its attempts, and the response. *)
Definition perform (h : HTTPMapper) (url : string) (req : Request) (inputs : gmap string TypedValue)
    (inject : Header → Header) (deadline : option Timestamp) : M ClientResponse :=
  let '(r, req) := FormatRequest fuel h (Some (Some <$> inputs)) req in
  _ ← lift r;
  let req := MkRequest (Req_Method req) (Req_RawQuery req) (inject <$> Req_Header req) (Req_Body req) in
  let '(deadline, ok) := pt_Timestamp deadline in
  if negb ok then throw (ErrFmt "timestamp") else
  resp ← try_request url (Backoff_C retries (granted deadline)).*1 req;
  match resp with
  | None => throw (ErrFmt ("error executing function at " +:+ url))
  | Some resp => mret resp
  end.

Definition failed_status (message : string) : TaskInvocationStatus :=
  MkTaskInvocationStatus TaskInvocationStatus_FAILED None None (Some (MkError message)) None.

Definition succeeded_status (output headers : option TypedValue) : TaskInvocationStatus :=
  MkTaskInvocationStatus TaskInvocationStatus_SUCCEEDED None output None headers.

(** ** The attempts *)

(** The body the [n]-th attempt sends: what the ones before it have left of it. *)
Fixpoint body_at (n : nat) (b : string) : string :=
  match n with O => b | S n => left n (body_at n b) end.

Definition attempted (req : Request) (n : nat) : Request :=
  match Req_Body req with
  | Some (Ret b) => with_body (Some (Ret (body_at n b))) req
  | _ => req
  end.

Lemma remaining_attempted req n : remaining n (attempted req n) = attempted req (S n).
Proof. destruct req as [m q hd [[b|e|w]|]]; done. Qed.

Lemma attempted_0 req : attempted req 0 = req.
Proof. by destruct req as [m q hd [[b|e|w]|]]. Qed.

Definition attempt (url : string) (req : Request) (n : nat) : Sent := MkSent url (attempted req n).

(** The attempts fail before the one that is answered. *)
Definition failed (url : string) (req : Request) (n : nat) : Prop :=
  ∃ e, client_Do n (attempt url req n) = Throw e.

(** Either one of the attempts is answered and the others before it have failed, or all of them
    have. *)
Definition tried (url : string) (req : Request) (from k : nat) (log : list Sent)
    (r : res goerror (option ClientResponse) * list Sent) : Prop :=
  ∃ j, j ≤ k ∧ r.2 = log ++ (attempt url req <$> seq from j) ∧
    match r.1 with
    | Ret (Some resp) => ∃ i, j = S i ∧ client_Do (from + i) (attempt url req (from + i)) = Ret resp ∧
                          ∀ m, from ≤ m < from + i → failed url req m
    | Ret None => j = k ∧ ∀ m, from ≤ m < from + k → failed url req m
    | _ => False
    end.

Lemma try_request_spec url req k : ∀ from log,
  (∀ n s, no_panic (client_Do n s)) →
  tried url req from k log (try_request url (seq from k) (attempted req from) log).
Proof.
  induction k as [|k IH]; intros from log Hnp.
  { exists 0. split_and!; [done|by rewrite List.app_nil_r|]. cbn. split; [done|]. intros; lia. }
  cbn [seq try_request]. unfold send, mbind, st_bind. fold (attempt url req from).
  pose proof (Hnp from (attempt url req from)) as Hp.
  destruct (client_Do from (attempt url req from)) as [resp|e|w] eqn:Hd; [| |done].
  - exists 1. split_and!; [lia|done|]. cbn. exists 0. rewrite Nat.add_0_r. split_and!; [done|done|lia].
  - rewrite remaining_attempted. destruct (IH (S from) (log ++ [attempt url req from]) Hnp) as (j & Hj & Hlog & Hr).
    exists (S j). split_and!; [lia| |].
    + rewrite Hlog, <- app_assoc. done.
    + assert (∀ m, from ≤ m < S from + (j `max` k) → m = from ∨ S from ≤ m) as Hm by lia.
      destruct (try_request _ _ _ _) as [[[resp|]|e'|w] log']; simpl in Hr |- *; [| |done|done].
      * destruct Hr as (i & -> & Hi & Hf). exists (S i). rewrite <- Nat.add_succ_comm. split_and!; [done|done|].
        intros m Hm'. destruct (decide (m = from)) as [->|Hne]; [by exists e|]. apply Hf. lia.
      * destruct Hr as [-> Hf]. split; [done|].
        intros m Hm'. destruct (decide (m = from)) as [->|Hne]; [by exists e|]. apply Hf. lia.
Qed.

(** What an invocation that reaches the network does: at most twelve requests with one URL, method and
    headers, until one is answered. *)
Definition performed (url : string) (req : Request) (deadline : Z) (r : res goerror ClientResponse * list Sent) : Prop :=
  ∃ k, r.2 = attempt url req <$> seq 0 k ∧ k ≤ 12 ∧
    ((∃ i resp, k = S i ∧ r.1 = Ret resp ∧ client_Do i (attempt url req i) = Ret resp ∧ ∀ m, m < i → failed url req m) ∨
     (∃ e, r.1 = Throw e) ∧ k = granted deadline `min` 12 ∧ ∀ m, m < k → failed url req m).

Lemma perform_spec h url req inputs inject deadline t req' :
  (∀ n s, no_panic (client_Do n s)) →
  FormatRequest fuel h (Some (Some <$> inputs)) req = (Ret (), req') → pt_Timestamp deadline = (t, true) →
  performed url (MkRequest (Req_Method req') (Req_RawQuery req') (inject <$> Req_Header req') (Req_Body req')) t
    (perform h url req inputs inject deadline []).
Proof.
  intros Hnp Hf Ht. set (req1 := MkRequest _ _ _ _). unfold perform. rewrite Hf, st_lift_Ret. fold req1.
  cbv zeta. rewrite Ht. cbn [negb]. rewrite Backoff_C_attempts. cbn [retries MaxRetries].
  change (Z.to_nat 12) with 12.
  pose proof (try_request_spec url req1 (granted t `min` 12) 0 [] Hnp) as Htried. rewrite attempted_0 in Htried.
  destruct Htried as (j & Hj & Hlog & Hr). exists j. unfold mbind, st_bind.
  destruct (try_request _ _ _ _) as [[[resp|]|e'|w] log']; simpl in Hlog, Hr; [| |done|done].
  - destruct Hr as (i & -> & Hi & Hfl). split_and!; [done|lia|]. left. exists i, resp. split_and!; [done..|].
    intros m Hm. apply Hfl. lia.
  - destruct Hr as [-> Hfl]. split_and!; [done|lia|]. right. split_and!; [by eexists|done|].
    intros m Hm. apply Hfl. lia.
Qed.

(** The requests of an invocation: those of [req], the first with its body. *)
Definition requests_of (url : string) (req : Request) (log : list Sent) : Prop :=
  length log ≤ 12 ∧
  (∀ n s, log !! n = Some s → Sent_URL s = url ∧ Req_Method (Sent_Request s) = Req_Method req ∧
     Req_RawQuery (Sent_Request s) = Req_RawQuery req ∧ Req_Header (Sent_Request s) = Req_Header req) ∧
  (∀ s, log !! 0 = Some s → Sent_Request s = req) ∧
  (∀ b, Req_Body req = Some (Ret b) → (∀ n b, left n b = "") →
     ∀ n s, log !! S n = Some s → Req_Body (Sent_Request s) = Some (Ret "")).

Lemma requests_of_attempts url req k : k ≤ 12 → requests_of url req (attempt url req <$> seq 0 k).
Proof.
  intros Hk. assert (∀ n s, (attempt url req <$> seq 0 k) !! n = Some s → s = attempt url req n) as Hs.
  { intros n s. rewrite list_lookup_fmap. destruct (seq 0 k !! n) as [m|] eqn:Hn; [|done].
    apply lookup_seq in Hn as [-> _]. by intros [= <-]. }
  assert (∀ n, Req_Method (attempted req n) = Req_Method req ∧ Req_RawQuery (attempted req n) = Req_RawQuery req ∧
    Req_Header (attempted req n) = Req_Header req) as Ha.
  { intros n. unfold attempted. destruct (Req_Body req) as [[]|]; done. }
  split_and!.
  - by rewrite length_fmap, length_seq.
  - intros n s ->%Hs. split; [done|]. apply Ha.
  - intros s ->%Hs. apply attempted_0.
  - intros b Hb Hleft n s ->%Hs. unfold attempt, attempted. cbn [Sent_Request]. rewrite Hb. cbn. by rewrite Hleft.
Qed.

(** ** pkg/fnenv/http *)

Definition ErrUnsupportedScheme : goerror := ErrNew "fnenv/http: unsupported scheme".

(** [pkg/fnenv/http/http.go:25-32] New *)
Definition http_mapper : HTTPMapper :=
  let mapper := Clone DefaultHTTPMapper in
  MkHTTPMapper "GET" (ValueTypeResolver mapper) (DefaultMediaType mapper) (MediaTypeResolver mapper).

(** [url_String s]: the text of the URL [s] is parsed to. *)
(** [pkg/fnenv/http/http.go:40-55] Runtime.Resolve *)
Definition http_Resolve (url_String : string → string) (ref : FnRef) : res goerror string :=
  match ValidateFnRef ref false with
  | Some err => Throw err
  | None =>
      match url_Parse parse_literal (FnRef_Format ref) with
      | None => Throw (ErrFmt "parse")
      | Some targetUrl =>
          if negb (bool_decide (URL_Scheme targetUrl = "http" ∨ URL_Scheme targetUrl = "https"))
          then Throw ErrUnsupportedScheme
          else Ret (url_String (FnRef_Format ref))
      end
  end.

(** [pkg/fnenv/http/http.go:57-140] Runtime.Invoke *)
Definition http_Invoke (spec : option TaskInvocationSpec) : M TaskInvocationStatus :=
  spec ← lift (deref spec);
  fnref ← lift (deref (TaskInvocationSpec_FnRef spec));
  let fnUrl := FnRef_Format fnref in
  _ ← lift (match url_Parse parse_literal fnUrl with None => Throw (ErrFmt "parse") | Some _ => Ret () end);
  let req := MkRequest "" (Some (raw_query fnUrl)) None None in
  resp ← perform http_mapper fnUrl req (TaskInvocationSpec_Inputs spec) id (TaskInvocationSpec_Deadline spec);
  output ← lift (ParseResponse fuel http_mapper resp);
  if decide (400 ≤ CR_StatusCode resp)%Z then
    msg ← lift (unwrap_or_nil fuel output);
    mret (failed_status ("HTTP runtime request error: " +:+ Sprint msg))
  else mret (succeeded_status output None).

(** ** pkg/fnenv/fission *)

Definition NamespaceDefault : string := "default".

(** [strings.TrimLeft(s, "/")] and its kin are [trim_left], [trim_right] and [trim_slashes]. *)
(** [pkg/fnenv/fission/fission.go:247-255] FunctionEnv.createRouterURL *)
Definition createRouterURL (routerURL : string) (fn : FnRef) : string :=
  let id := trim_left (FnRef_ID fn) in
  let baseUrl := trim_right routerURL in
  let ns := if decide (FnRef_Namespace fn ≠ NamespaceDefault ∧ FnRef_Namespace fn ≠ "")
            then trim_slashes (FnRef_Namespace fn) +:+ "/" else "" in
  baseUrl +:+ "/fission-function/" +:+ ns +:+ id.

(** The name and the namespace of a function. *)
(** [pkg/fnenv/fission/fission.go:239-245] createFunctionMeta *)
Definition createFunctionMeta (fn : FnRef) : string * string := (FnRef_ID fn, NamespaceDefault).

(** [inject] adds the headers of the tracer. *)
(** [pkg/fnenv/fission/fission.go:67-185] FunctionEnv.Invoke *)
Definition fission_Invoke (routerURL : string) (inject : Header → Header) (spec : option TaskInvocationSpec) :
    M TaskInvocationStatus :=
  _ ← lift (match validate_TaskInvocationSpec spec with Some err => Throw err | None => Ret () end);
  spec ← lift (deref spec);
  fnRef ← lift (deref (TaskInvocationSpec_FnRef spec));
  let fnUrl := createRouterURL routerURL fnRef in
  _ ← lift (match url_Parse parse_literal fnUrl with None => Panic "failed to create request" | Some _ => Ret () end);
  let req := MkRequest "POST" (Some (raw_query fnUrl)) (Some ∅) None in
  resp ← perform DefaultHTTPMapper fnUrl req (TaskInvocationSpec_Inputs spec) inject (TaskInvocationSpec_Deadline spec);
  output ← lift (match ParseResponse fuel DefaultHTTPMapper resp with
                 | Throw _ => Throw (ErrFmt "failed to parse output") | r => r end);
  outHeaders ← lift (ParseResponseHeaders fuel resp);
  if decide (400 ≤ CR_StatusCode resp)%Z then
    msg ← lift (unwrap_or_nil fuel output);
    mret (failed_status ("fission function error: " +:+ Sprint msg))
  else mret (succeeded_status output outHeaders).

(** How the response of a function is reported. *)
Definition reports (message : string) (output headers : option TypedValue) (resp : ClientResponse)
    (r : res goerror TaskInvocationStatus) : Prop :=
  if decide (400 ≤ CR_StatusCode resp)%Z
  then ∀ v, unwrap_or_nil fuel output = Ret v → r = Ret (failed_status (message +:+ Sprint v))
  else r = Ret (succeeded_status output headers).

(** The outcome of the attempts, in terms of the responses. *)
Definition decided_by (url : string) (req : Request) (deadline : Z) (report : ClientResponse → res goerror TaskInvocationStatus → Prop)
    (r : res goerror TaskInvocationStatus) (log : list Sent) : Prop :=
  (∃ i resp, length log = S i ∧ client_Do i (attempt url req i) = Ret resp ∧ (∀ m, m < i → failed url req m) ∧ report resp r) ∨
  ((∃ e, r = Throw e) ∧ length log = granted deadline `min` 12 ∧ ∀ m, m < length log → failed url req m).

Lemma decided url req t (m : M ClientResponse) (k : ClientResponse → M TaskInvocationStatus) report :
  performed url req t (m []) → (∀ resp log, report resp (k resp log).1 ∧ (k resp log).2 = log) →
  let '(r, log) := (resp ← m; k resp) [] in
  requests_of url req log ∧ decided_by url req t report r log.
Proof.
  intros (n & Hlog & Hn & Hr) Hk. unfold mbind, st_bind. destruct (m []) as [r log]. simpl in Hlog, Hr. subst log.
  destruct Hr as [(i & resp & -> & -> & Hi & Hf)|([e ->] & -> & Hf)].
  - destruct (Hk resp (attempt url req <$> seq 0 (S i))) as [Hrep Hl].
    destruct (k resp _) as [r log]. cbn [fst snd] in Hrep, Hl. subst log.
    split; [by apply requests_of_attempts|]. left. exists i, resp. rewrite length_fmap, length_seq. done.
  - split; [by apply requests_of_attempts|]. right. rewrite length_fmap, length_seq. split; [by exists e|done].
Qed.


Section services.
(** The controller, the executor and the sending of a POST request to the executor. *)
Context (FunctionGet : string → string → res goerror ()) (GetServiceForFunction : string → string → res goerror string)
        (Post : string → string → string → res goerror ClientResponse) (MakeErrorFromHTTP : ClientResponse → goerror)
        (url_String : string → string) (executorURL : string).

(** [pkg/fnenv/fission/fission.go:200-218] FunctionEnv.Resolve *)
Definition fission_Resolve (ref : FnRef) : res goerror string :=
  let ns := if decide (FnRef_Namespace ref = "") then NamespaceDefault else FnRef_Namespace ref in
  _ ← FunctionGet (FnRef_ID ref) ns; Ret (FnRef_ID ref).

(** [pkg/fnenv/fission/fission.go:220-237] FunctionEnv.getFnURL *)
Definition getFnURL (fn : FnRef) : res goerror string :=
  let '(name, ns) := createFunctionMeta fn in
  serviceURL ← GetServiceForFunction name ns;
  let rawURL := "http://" +:+ serviceURL in
  match url_Parse parse_literal rawURL with
  | None => Panic "parse"
  | Some _ => Ret (url_String rawURL)
  end.

(** [pkg/fnenv/fission/fission.go:257-269] FunctionEnv.tapService *)
Definition tapService (serviceUrlStr : string) : res goerror () :=
  resp ← Post (executorURL +:+ "/v2/tapService") "application/octet-stream" serviceUrlStr;
  if decide (CR_StatusCode resp ≠ 200%Z) then Throw (MakeErrorFromHTTP resp) else Ret ().

(** [pkg/fnenv/fission/fission.go:189-198] FunctionEnv.Prepare *)
Definition fission_Prepare (fn : FnRef) (expectedAt : Z) : res goerror () :=
  reqURL ← getFnURL fn; tapService reqURL.
End services.
End remote.
