(* ===== verification/Parse.v ===== *)
(** Components [pkg/parse/yaml], [pkg/parse/protobuf] and [pkg/parse]: how the text of a
    workflow becomes a specification. *)

From stdpp Require Import base gmap strings list pretty sorting.
From S2P Require Import Prelude Data Types TypedValues Validate.

(** ** What the YAML reader yields

    The values of type [interface{}] yaml.v2 and encoding/json decode into.  A
    [map[interface{}]interface{}] is the list of its entries in the order a loop visits
    them; a [map[string]interface{}] comes out of JSON and of [convertInterfaceMaps]. *)
Inductive yval :=
| YNil
| YBool (b : bool)
| YInt (n : Z)
| YInt64 (n : Z)
| YUint64 (n : Z)
| YFloat64 (bits : Z)
| YString (s : string)
| YList (l : list yval)
| YMap (m : list (yval * yval))
| YDict (m : gmap string yval).

(** [pkg/parse/yaml/parser.go:238-243] taskSpec *)
Record taskSpec := MktaskSpec {
  taskSpec_ID : string;
  taskSpec_Run : string;
  taskSpec_Inputs : yval;
  taskSpec_Requires : list string }.

(** [pkg/parse/yaml/parser.go:231-236] workflowSpec *)
Record workflowSpec := MkworkflowSpec {
  workflowSpec_APIVersion : string;
  workflowSpec_Description : string;
  workflowSpec_Output : string;
  workflowSpec_Tasks : gmap string (option taskSpec) }.

Definition empty_def : workflowSpec := MkworkflowSpec "" "" "" ∅.

(** The value as [typedvalues.Wrap] sees it. *)
Fixpoint go_value (v : yval) : gval :=
  match v with
  | YNil => VNil
  | YBool b => VBool b
  | YInt n => VInt n
  | YInt64 n => VInt64 n
  | YUint64 n => VUInt64 n
  | YFloat64 x => VFloat64 x
  | YString s => VString s
  | YList l => VList (go_value <$> l)
  | YMap _ => VOther "map[interface {}]interface {}"
  | YDict m => VMap (go_value <$> m)
  end.

(** ** encoding/json *)

(** The bits of a number that is neither infinite nor no number. *)
Definition finite64 (bits : Z) : bool := bool_decide (Z.land (Z.shiftr bits 52) 2047 ≠ 2047)%Z.

Section json.
(** The nearest [float64] of an integer. *)
Context (float64_of : Z → Z).

(** [json.Unmarshal] of [json.Marshal], at type [interface{}]: numbers come back as
    floats; a map whose keys are no strings and a float that is no number are refused. *)
Fixpoint json (v : yval) : option yval :=
  match v with
  | YInt n | YInt64 n | YUint64 n => Some (YFloat64 (float64_of n))
  | YFloat64 x => if finite64 x then Some (YFloat64 x) else None
  | YList l => YList <$> mapM json l
  | YMap _ => None
  | YDict m =>
      let m' := json <$> m in
      if decide (map_Forall (λ _ o, is_Some o) m') then Some (YDict (omap id m')) else None
  | _ => Some v
  end.

(** The values of the keys of an object that name a field, in the order of the text: the
    keys are written sorted, and are matched without regard to case. *)
Definition fields (m : gmap string yval) (name : string) : list yval :=
  let keys := merge_sort String.le
    (filter (λ k, EqualFold k name = true) (map_to_list m).*1) in
  omap (λ k, m !! k) keys.

(** A [null] leaves a string alone; a value of another type is an error. *)
Definition decode_string (s : option string) (v : yval) : option string :=
  s ← s; match v with YNil => Some s | YString s => Some s | _ => None end.

Definition decode_strings (l : option (list string)) (v : yval) : option (list string) :=
  l ← l; match v with
         | YNil => Some []
         | YList vs => mapM (decode_string (Some "")) vs
         | _ => None
         end.

Definition decode_taskSpec (v : yval) : option taskSpec :=
  match v with
  | YDict m =>
      id ← foldl decode_string (Some "") (fields m "ID");
      run ← foldl decode_string (Some "") (fields m "Run");
      requires ← foldl decode_strings (Some []) (fields m "Requires");
      Some (MktaskSpec id run (default YNil (last (fields m "Inputs"))) requires)
  | _ => None
  end.

(** The values of the map of tasks are pointers. *)
Definition decode_task (v : yval) : option (option taskSpec) :=
  match v with YNil => Some None | _ => Some <$> decode_taskSpec v end.

Definition decode_tasks (tasks : option (gmap string (option taskSpec))) (v : yval) :
    option (gmap string (option taskSpec)) :=
  tasks ← tasks; match v with
  | YNil => Some ∅
  | YDict m =>
      let m' := decode_task <$> m in
      if decide (map_Forall (λ _ o, is_Some o) m') then Some (omap id m' ∪ tasks) else None
  | _ => None
  end.

Definition decode_workflowSpec (v : yval) : option workflowSpec :=
  match v with
  | YDict m =>
      version ← foldl decode_string (Some "") (fields m "APIVersion");
      description ← foldl decode_string (Some "") (fields m "Description");
      output ← foldl decode_string (Some "") (fields m "Output");
      tasks ← foldl decode_tasks (Some ∅) (fields m "Tasks");
      Some (MkworkflowSpec version description output tasks)
  | _ => None
  end.
End json.

(** ** The translation *)

Section yaml.
Context `{MapRange} `{Proto} (wrap_fuel : nat).
(** [fmt.Sprintf("%v", v)], and the nearest [float64] of an integer. *)
Context (Sprint : yval → string) (float64_of : Z → Z).

(** Maps in maps are converted, maps in lists are not. *)
(** [pkg/parse/yaml/parser.go:216-225] convertInterfaceMaps *)
Fixpoint convert (v : yval) : yval :=
  match v with
  | YMap src => YDict (foldl (λ res '(k, v), <[Sprint k := convert v]> res) ∅ src)
  | _ => v
  end.
Definition convertInterfaceMaps (src : list (yval * yval)) : gmap string yval :=
  foldl (λ res '(k, v), <[Sprint k := convert v]> res) ∅ src.

(** [pkg/parse/yaml/yaml.go:52-63] cleanupMapValue *)
Fixpoint cleanupMapValue (v : yval) : yval :=
  match v with
  | YList l => YList (cleanupMapValue <$> l)
  | YMap m => YDict (foldl (λ res '(k, v), <[Sprint k := cleanupMapValue v]> res) ∅ m)
  | YString s => YString s
  | _ => YString (Sprint v)
  end.

(** [pkg/parse/yaml/yaml.go:36-42] cleanupInterfaceArray *)
Definition cleanupInterfaceArray (l : list yval) : list yval := cleanupMapValue <$> l.

(** [pkg/parse/yaml/yaml.go:44-50] cleanupInterfaceMap *)
Definition cleanupInterfaceMap (m : list (yval * yval)) : gmap string yval :=
  foldl (λ res '(k, v), <[Sprint k := cleanupMapValue v]> res) ∅ m.

(** [typedvalues.Wrap] of a value that is not a [nil] pointer. *)
Definition wrap (v : gval) : res goerror TypedValue := tv ← Wrap wrap_fuel v; deref tv.

Section recursion.
Context (parseInput : yval → res goerror TypedValue).

(** [pkg/parse/yaml/parser.go:104-139] parseInputs *)
Definition parseInputs (i : yval) : res goerror (gmap string TypedValue) :=
  match i with
  | YNil => Ret ∅
  | YDict v =>
      foldM (λ result '(inputKey, inputVal),
        typedVal ← parseInput inputVal; Ret (<[inputKey := typedVal]> result)) ∅ (range 0 v)
  | YMap v =>
      foldM (λ result '(inputKey, inputVal),
        typedVal ← parseInput inputVal; Ret (<[Sprint inputKey := typedVal]> result)) ∅ v
  | _ => p ← parseInput i; Ret {[ InputMain := p ]}
  end.

Definition defaultFunctionRef : string := "noop".

(** [&types.TaskDependencyParameters{}] *)
Definition no_parameters : TaskDependencyParameters :=
  MkTaskDependencyParameters TaskDependencyParameters_DATA "".

Definition dependencies (requires : list string) : gmap string (option TaskDependencyParameters) :=
  foldl (λ deps dep, <[dep := Some no_parameters]> deps) ∅ requires.

(** [pkg/parse/yaml/parser.go:77-101] parseTask *)
Definition parseTask (t : taskSpec) : res goerror TaskSpec :=
  let deps := dependencies (taskSpec_Requires t) in
  inputs ← parseInputs (taskSpec_Inputs t);
  let fn := if decide (taskSpec_Run t = "") then defaultFunctionRef else taskSpec_Run t in
  Ret (MkTaskSpec fn inputs deps (to_i32 (Z.of_nat (size deps))) None None None).

(** [pkg/parse/yaml/parser.go:54-75] parseWorkflow *)
Definition parseWorkflow (def : workflowSpec) : res goerror WorkflowSpec :=
  tasks ← foldM (λ (tasks : gmap string (option TaskSpec)) '(id, task),
    match task with
    | None => Ret tasks
    | Some task => p ← parseTask task; Ret (<[id := Some p]> tasks)
    end) ∅ (range 1 (workflowSpec_Tasks def));
  Ret (MkWorkflowSpec (workflowSpec_APIVersion def) tasks (workflowSpec_Output def) "" "" "" false).
End recursion.

(** [p, err := f(td); if err == nil { i = p } else { i = res }; return Wrap(i)] *)
Definition or_map {A} (m : res goerror A) (message : A → message) (res : gmap string yval) :
    Prelude.res goerror TypedValue :=
  match m with
  | Ret p => wrap (VMessage (message p))
  | Throw _ => wrap (go_value (YDict res))
  | Panic why => Panic why
  end.

(** The body of the function.  A map with a key [run] or [tasks] is read, by way of JSON,
    as a task or a workflow; an error of [json.Marshal] is ignored, and one of
    [json.Unmarshal] panics.  The function calls itself, as [parseInput], on the inputs of
    these. *)
(** [pkg/parse/yaml/parser.go:141-214] parseInput *)
Definition parseInput_body (parseInput : yval → res goerror TypedValue) (i : yval) :
    res goerror TypedValue :=
  match i with
  | YList t => wrap (go_value (YList (convert <$> t)))
  | YMap t =>
      let res := convertInterfaceMaps t in
      let via_json {A} (decode : yval → option A) : Prelude.res goerror A :=
        match json float64_of (YDict res) ≫= decode with
        | Some td => Ret td | None => Panic "json: cannot unmarshal" end in
      match res !! "run", res !! "tasks" with
      | Some _, _ =>
          td ← via_json decode_taskSpec;
          or_map (parseTask parseInput td) TaskSpecMessage res
      | None, Some _ =>
          td ← via_json decode_workflowSpec;
          or_map (parseWorkflow parseInput td) WorkflowSpecMessage res
      | None, None => wrap (go_value (YDict res))
      end
  | _ => wrap (go_value i)
  end.

(** [fuel] bounds the nesting of the calls. *)
Fixpoint parseInput (fuel : nat) : yval → res goerror TypedValue :=
  match fuel with
  | O => λ _, Panic "fuel"
  | S fuel => parseInput_body (parseInput fuel)
  end.
End yaml.

(** ** Readers *)

(** A parser reads the text that is left in the reader. *)
(** [pkg/parse/parser.go:20-22] Parser *)
Definition Parser : Type := st string goerror WorkflowSpec.

(** [ioutil.ReadAll] leaves nothing in the reader. *)
Definition ReadAll : st string goerror string := λ r, (Ret r, "").

(** [failed to ...: %v] *)
Definition annotate {S A} (text : string) (m : st S goerror A) : st S goerror A :=
  catch m (λ e, throw (wrapf e text)).

Section readers.
Context `{MapRange} `{Proto} (wrap_fuel fuel : nat) (Sprint : yval → string) (float64_of : Z → Z).

(** yaml.v2 into a [workflowSpec], [proto.Unmarshal] and [jsonpb.Unmarshal] into a
    [WorkflowSpec]; [None] is an error. *)
Context (yaml_Unmarshal : string → option workflowSpec).
Context (proto_Unmarshal jsonpb_Unmarshal : string → option WorkflowSpec).

(** [pkg/parse/yaml/parser.go:40-52] read *)
Definition yaml_read : st string goerror workflowSpec :=
  bs ← ReadAll;
  match yaml_Unmarshal bs with Some i => mret i | None => throw (ErrFmt "yaml: unmarshal") end.

(** [pkg/parse/yaml/parser.go:26-38] Parser.Parse *)
Definition yaml_Parse : Parser :=
  b ← annotate "failed to read workflow definition" yaml_read;
  annotate "failed to parse workflow definition"
    (lift (parseWorkflow Sprint (parseInput wrap_fuel Sprint float64_of fuel) b)).

(** [pkg/parse/protobuf/parser.go:28-44] Parser.Parse *)
Definition protobuf_Parse : Parser :=
  bs ← ReadAll;
  match proto_Unmarshal bs with
  | Some wf => mret wf
  | None => match jsonpb_Unmarshal bs with
            | Some wf => mret wf
            | None => throw (ErrFmt "failed to parse protobuf-encoded workflow")
            end
  end.

(** ** The parser of parsers *)

(** [pkg/parse/parser.go:40-42] MetaParser *)
Record MetaParser := MkMetaParser { parsers : gmap string Parser }.

(** [pkg/parse/parser.go:44-48] NewMetaParser *)
Definition NewMetaParser (parsers : gmap string Parser) : MetaParser := MkMetaParser parsers.

(** The loop: an error of a parser is logged, and the next one is tried. *)
Fixpoint try_parsers (mp : MetaParser) (names : list string) : st string goerror (option WorkflowSpec) :=
  match names with
  | [] => mret None
  | name :: names =>
      match (parsers mp !! name : option Parser) with
      | None => try_parsers mp names
      | Some p => catch (wf ← (p : Parser); mret (Some wf)) (λ _, try_parsers mp names)
      end
  end.

(** [nil] for [names] is no arguments. *)
(** [pkg/parse/parser.go:54-78] MetaParser.ParseWith *)
Definition ParseWith (mp : MetaParser) (names : option (list string)) : Parser :=
  match names with
  | None => throw (ErrNew "no parsers provided")
  | Some names =>
      result ← try_parsers mp names;
      match result with
      | None => throw (ErrNew "failed to parse workflow")
      | Some result => mret result
      end
  end.

(** [pkg/parse/parser.go:80-83] MetaParser.Supports *)
Definition Supports (mp : MetaParser) (s : string) : bool := bool_decide (is_Some (parsers mp !! s)).

(** [pkg/parse/parser.go:85-93] MetaParser.Parsers *)
Definition Parsers (mp : MetaParser) : list string := (range 2 (parsers mp)).*1.

(** [pkg/parse/parser.go:50-52] MetaParser.Parse *)
Definition MetaParser_Parse (mp : MetaParser) : Parser := ParseWith mp (Some (Parsers mp)).

(** [pkg/parse/parser.go:13-18] DefaultParser *)
Definition DefaultParser : MetaParser :=
  NewMetaParser {[ "yaml" := yaml_Parse; "pb" := protobuf_Parse ]}.
End readers.

(** ** The translation is total and says what it reads *)

Section lemmas.
Context `{MapRange} `{Proto} (wrap_fuel : nat) (Sprint : yval → string) (float64_of : Z → Z).
Notation parseInput := (parseInput wrap_fuel Sprint float64_of).
Notation body := (parseInput_body wrap_fuel Sprint float64_of).

Definition scalar (i : yval) : Prop := match i with YMap _ => False | _ => True end.

Lemma body_scalar f g i : scalar i → body f i = body g i.
Proof. by destruct i. Qed.

(** Inputs whose values are no maps of YAML. *)
Definition flat (i : yval) : Prop :=
  match i with
  | YMap _ => False
  | YDict m => map_Forall (λ _ v, scalar v) m
  | _ => True
  end.

(** What comes out of JSON contains no map of YAML. *)
Definition is_json (v : yval) : Prop := ∃ v0, json float64_of v0 = Some v.

Lemma is_json_dict m k v : is_json (YDict m) → m !! k = Some v → is_json v.
Proof.
  intros [v0 Hj] Hk. destruct v0; cbn in Hj; try by simplify_eq.
  - by destruct (finite64 bits); simplify_eq.
  - by apply fmap_Some in Hj as (? & _ & ?).
  - case_decide; [|done]. injection Hj as <-. rewrite lookup_omap, lookup_fmap in Hk.
    destruct (m0 !! k) as [w|]; [|done]. by exists w.
Qed.

Lemma is_json_scalar v : is_json v → scalar v.
Proof.
  intros [v0 Hj]. destruct v0; cbn in Hj; try (by simplify_eq).
  - by destruct (finite64 bits); simplify_eq.
  - by apply fmap_Some in Hj as (? & _ & ->).
  - by case_decide; simplify_eq.
Qed.

Lemma is_json_flat v : is_json v → flat v.
Proof.
  intros Hj. pose proof (is_json_scalar v Hj) as Hs. destruct v; try done.
  intros k x Hx. by apply is_json_scalar, (is_json_dict m k).
Qed.

Lemma elem_of_fields m name v : v ∈ fields m name → ∃ k, m !! k = Some v.
Proof. unfold fields. rewrite list_elem_of_omap. intros (k & _ & Hk). by exists k. Qed.

Lemma decode_taskSpec_flat v td : is_json v → decode_taskSpec v = Some td → flat (taskSpec_Inputs td).
Proof.
  intros Hj Hd. destruct v; try done. cbn in Hd.
  destruct (foldl _ _ (fields m "ID")) as [id|]; [|done]. cbn in Hd.
  destruct (foldl _ _ (fields m "Run")) as [run|]; [|done]. cbn in Hd.
  destruct (foldl _ _ (fields m "Requires")) as [req|]; [|done]. injection Hd as <-. cbn.
  destruct (last (fields m "Inputs")) as [v|] eqn:Hl; [|done].
  apply last_Some_elem_of, elem_of_fields in Hl as [k Hk].
  by apply is_json_flat, (is_json_dict m k).
Qed.

Lemma decode_tasks_flat l tasks0 tasks :
  (∀ v, v ∈ l → is_json v) → (∀ id t, tasks0 !! id = Some (Some t) → flat (taskSpec_Inputs t)) →
  foldl decode_tasks (Some tasks0) l = Some tasks →
  ∀ id t, tasks !! id = Some (Some t) → flat (taskSpec_Inputs t).
Proof.
  revert tasks0. induction l as [|v l IH]; intros tasks0 Hl Ht0 Hf; cbn in Hf; [by simplify_eq|].
  assert (∀ l, foldl decode_tasks None l = None) as Hnone by (clear; induction l; done).
  assert (is_json v) as Hv by (apply Hl; set_solver).
  destruct v; try by rewrite Hnone in Hf.
  - eapply IH; [set_solver| |exact Hf]. intros id t. by rewrite lookup_empty.
  - case_decide as Hall; [|by rewrite Hnone in Hf].
    eapply IH; [set_solver| |exact Hf]. intros id t [Ht|[_ Ht]]%lookup_union_Some_raw; [|eauto].
    rewrite lookup_omap, lookup_fmap in Ht. destruct (m !! id) as [w|] eqn:Hw; [|done]. cbn in Ht.
    unfold decode_task in Ht. destruct w; try done;
      (destruct (decode_taskSpec _) eqn:Hd in Ht; [|done]); injection Ht as <-;
      eapply decode_taskSpec_flat; [|exact Hd]; by eapply is_json_dict.
Qed.

Lemma decode_workflowSpec_flat v td id t :
  is_json v → decode_workflowSpec v = Some td →
  workflowSpec_Tasks td !! id = Some (Some t) → flat (taskSpec_Inputs t).
Proof.
  intros Hj Hd. destruct v; try done. cbn in Hd.
  destruct (foldl _ _ (fields m "APIVersion")) as [v|]; [|done]. cbn in Hd.
  destruct (foldl _ _ (fields m "Description")) as [d|]; [|done]. cbn in Hd.
  destruct (foldl _ _ (fields m "Output")) as [o|]; [|done]. cbn in Hd.
  destruct (foldl _ _ (fields m "Tasks")) as [tasks|] eqn:Ht; [|done]. injection Hd as <-. cbn.
  eapply decode_tasks_flat; [|by intros ? ?; rewrite lookup_empty|exact Ht].
  intros v' [k Hk]%elem_of_fields. by eapply is_json_dict.
Qed.

(** The entries of the inputs, in the order of the loop. *)
Definition input_entries (i : yval) : list (string * yval) :=
  match i with
  | YNil => []
  | YDict m => range 0 m
  | YMap m => (λ '(k, v), (Sprint k, v)) <$> m
  | _ => [(InputMain, i)]
  end.

Lemma parseInputs_entries f i :
  parseInputs Sprint f i =
    foldM (λ result '(k, v), tv ← f v; Ret (<[k := tv]> result)) ∅ (input_entries i).
Proof.
  assert (∀ r : res goerror TypedValue, (p ← r; Ret {[ InputMain := p ]}) =
    (s ← (tv ← r; Ret (<[InputMain := tv]> (∅ : gmap string TypedValue))); Ret s)) as Hone
    by by intros [].
  destruct i; try done; try apply Hone.
  cbn. generalize (∅ : gmap string TypedValue). induction m as [|[k v] m IH]; intros r; [done|].
  cbn. destruct (f v); [cbn; apply IH|done..].
Qed.

Lemma parseInputs_flat f g i :
  flat i → (∀ v, scalar v → f v = g v) → parseInputs Sprint f i = parseInputs Sprint g i.
Proof.
  intros Hi Hfg. rewrite !parseInputs_entries. apply foldM_ext. intros s [k v] Hin.
  rewrite (Hfg v); [done|]. destruct i; try done;
    try (by apply list_elem_of_singleton in Hin; injection Hin as _ ->).
  - by apply elem_of_nil in Hin.
  - apply elem_of_range in Hin. by eapply Hi.
Qed.

Lemma parseTask_flat f g t : flat (taskSpec_Inputs t) →
  parseTask Sprint (body f) t = parseTask Sprint (body g) t.
Proof.
  intros Hf. unfold parseTask. by rewrite (parseInputs_flat _ (body g)) by auto using body_scalar.
Qed.

Lemma parseWorkflow_flat f g td :
  (∀ id t, workflowSpec_Tasks td !! id = Some (Some t) → parseTask Sprint f t = parseTask Sprint g t) →
  parseWorkflow Sprint f td = parseWorkflow Sprint g td.
Proof.
  intros Hfg. unfold parseWorkflow. f_equal. apply foldM_ext.
  intros s [id [t|]] Hin%elem_of_range; [|done]. by rewrite (Hfg id).
Qed.

(** The recursion of [parseInput] ends at the second level: on every value, the body of the
    function calls itself on values whose own inputs need no call.  Two units of fuel are
    enough, and what a deeper call would answer does not matter. *)
Theorem parseInput_terminates (deeper : yval → res goerror TypedValue) (i : yval) :
  body (body deeper) i = parseInput 2 i ∧ ∀ fuel, 2 ≤ fuel → parseInput fuel i = parseInput 2 i.
Proof.
  assert (∀ f g, body (body f) i = body (body g) i) as Hall.
  { intros f g. destruct i as [| | | | | | | |m|]; try done. unfold parseInput_body at 1 3.
    destruct (json float64_of (YDict (convertInterfaceMaps Sprint m))) as [v|] eqn:Hj; [|done].
    assert (is_json v) as Hv by by eexists. cbn [mbind option_bind].
    destruct (_ !! "run"); [|destruct (_ !! "tasks"); [|done]].
    - destruct (decode_taskSpec v) as [td|] eqn:Hd; [|done]. rewrite !bind_Ret_l.
      rewrite (parseTask_flat f g); [done|]. by eapply decode_taskSpec_flat.
    - destruct (decode_workflowSpec v) as [td|] eqn:Hd; [|done]. rewrite !bind_Ret_l.
      rewrite (parseWorkflow_flat _ (body g)); [done|].
      intros id t Ht. apply parseTask_flat. by eapply decode_workflowSpec_flat. }
  split; [apply Hall|]. intros [|[|fuel]] Hf; [lia..|]. apply Hall.
Qed.


(** ** What a specification says *)

Lemma dependencies_lookup requires dep p :
  dependencies requires !! dep = Some p ↔ p = Some no_parameters ∧ dep ∈ requires.
Proof.
  unfold dependencies.
  assert (∀ m : gmap string (option TaskDependencyParameters),
    foldl (λ deps dep, <[dep := Some no_parameters]> deps) m requires !! dep = Some p ↔
    (p = Some no_parameters ∧ dep ∈ requires) ∨ (m !! dep = Some p ∧ dep ∉ requires)) as Hall.
  { induction requires as [|x l IH]; intros m; cbn; [set_solver|]. rewrite IH.
    destruct (decide (x = dep)) as [->|Hne];
      [rewrite lookup_insert_eq|rewrite lookup_insert_ne by done]; [|set_solver].
    destruct (decide (dep ∈ l)); set_solver. }
  rewrite Hall, lookup_empty. naive_solver.
Qed.

(** The parsed inputs: every one is the parsed value of an entry of its name, the last. *)
Definition inputs_read (f : yval → res goerror TypedValue) (entries : list (string * yval))
    (inputs : gmap string TypedValue) : Prop :=
  ∀ k, match inputs !! k with
       | Some tv => ∃ before v after, entries = before ++ (k, v) :: after ∧ k ∉ after.*1 ∧ f v = Ret tv
       | None => k ∉ entries.*1 end.

Lemma parseInputs_read f i inputs :
  parseInputs Sprint f i = Ret inputs → inputs_read f (input_entries i) inputs.
Proof.
  rewrite parseInputs_entries. revert inputs. induction (input_entries i) as [|[k v] l IH] using rev_ind;
    intros inputs Hf.
  { injection Hf as <-. intros k. rewrite lookup_empty. set_solver. }
  rewrite foldM_app in Hf. bind_inv Hf as inputs0 Hpre. cbn in Hf. bind_inv Hf as r Hr.
  injection Hf as ->. bind_inv Hr as tv Htv. injection Hr as <-. intros k'.
  destruct (decide (k = k')) as [->|Hne].
  { rewrite lookup_insert_eq. exists l, v, []. split; [done|]. split; [set_solver|done]. }
  rewrite lookup_insert_ne by done. specialize (IH inputs0 Hpre k').
  destruct (inputs0 !! k') as [tv'|]; [|rewrite fmap_app; set_solver].
  destruct IH as (before & v' & after & -> & Hn & Hv).
  exists before, v', (after ++ [(k, v)]). split; [by rewrite <- app_assoc|]. split; [|done].
  rewrite fmap_app. set_solver.
Qed.

Definition task_read (f : yval → res goerror TypedValue) (t : taskSpec) (p : TaskSpec) : Prop :=
  TaskSpec_FunctionRef p = (if decide (taskSpec_Run t = "") then "noop" else taskSpec_Run t) ∧
  (∀ dep params, TaskSpec_Requires p !! dep = Some params ↔
     params = Some no_parameters ∧ dep ∈ taskSpec_Requires t) ∧
  TaskSpec_Await p = to_i32 (Z.of_nat (size (TaskSpec_Requires p))) ∧
  inputs_read f (input_entries (taskSpec_Inputs t)) (TaskSpec_Inputs p).

Lemma parseTask_read f t p : parseTask Sprint f t = Ret p → task_read f t p.
Proof.
  unfold parseTask. intros Hp. bind_inv Hp as inputs Hi. injection Hp as <-.
  split_and!; [done|intros; apply dependencies_lookup|done|by apply parseInputs_read].
Qed.

(** C10: A workflow that was translated has the version and the output of the definition and
    exactly its tasks that are not empty: each runs the function it names, [noop] by
    default, requires exactly the tasks it lists, waits for as many as there are
    different ones, and has the parsed inputs of the definition, a single value being the
    default input. *)
Theorem parseWorkflow_reads (fuel : nat) (def : workflowSpec) (spec : WorkflowSpec) :
  parseWorkflow Sprint (parseInput fuel) def = Ret spec →
  WorkflowSpec_ApiVersion spec = workflowSpec_APIVersion def ∧
  WorkflowSpec_OutputTask spec = workflowSpec_Output def ∧
  ∀ id, match mjoin (workflowSpec_Tasks def !! id) with
        | Some t => ∃ p, WorkflowSpec_Tasks spec !! id = Some (Some p) ∧ task_read (parseInput fuel) t p
        | None => WorkflowSpec_Tasks spec !! id = None
        end.
Proof.
  unfold parseWorkflow. intros Hp. bind_inv Hp as tasks Ht. injection Hp as <-.
  split; [done|]. split; [done|]. cbn [WorkflowSpec_Tasks]. intros id.
  pose proof (NoDup_range 1 (workflowSpec_Tasks def)) as Hnd.
  assert (workflowSpec_Tasks def !! id = (list_to_map (range 1 (workflowSpec_Tasks def)) : gmap _ _) !! id)
    as -> by by rewrite range_list_to_map.
  revert tasks Ht Hnd. induction (range 1 (workflowSpec_Tasks def)) as [|[k t] l IH] using rev_ind;
    intros tasks Ht Hnd; [by injection Ht as <-|].
  rewrite foldM_app in Ht. bind_inv Ht as tasks0 Hpre. cbn in Ht.
  rewrite fmap_app in Hnd. apply NoDup_app in Hnd as (Hnd & Hk & _).
  specialize (IH tasks0 Hpre Hnd).
  assert (k ∉ l.*1) as Hnew by (intros Hin; apply (Hk k Hin); cbn; set_solver).
  rewrite list_to_map_snoc by done. destruct (decide (k = id)) as [->|Hne].
  - rewrite lookup_insert_eq. destruct t as [t|]; cbn in Ht |- *.
    + bind_inv Ht as r Hr. injection Ht as ->. bind_inv Hr as p Hp. injection Hr as <-.
      exists p. rewrite lookup_insert_eq. split; [done|]. by apply parseTask_read.
    + injection Ht as <-. by rewrite (not_elem_of_list_to_map_1 l id Hnew) in IH.
  - rewrite lookup_insert_ne by done. destruct t as [t|]; cbn in Ht.
    + bind_inv Ht as r Hr. injection Ht as ->. bind_inv Hr as p Hp. injection Hr as <-.
      by rewrite lookup_insert_ne.
    + by injection Ht as <-.
Qed.
End lemmas.

(** ** The parser of parsers *)

Section meta.
Context `{MapRange} `{Proto} (wrap_fuel fuel : nat) (Sprint : yval → string) (float64_of : Z → Z).
Context (yaml_Unmarshal : string → option workflowSpec).
Context (proto_Unmarshal jsonpb_Unmarshal : string → option WorkflowSpec).
Notation yaml := (yaml_Parse wrap_fuel fuel Sprint float64_of yaml_Unmarshal).
Notation protobuf := (protobuf_Parse proto_Unmarshal jsonpb_Unmarshal).
Notation default_parser :=
  (DefaultParser wrap_fuel fuel Sprint float64_of yaml_Unmarshal proto_Unmarshal jsonpb_Unmarshal).

Definition empty_spec : WorkflowSpec := MkWorkflowSpec "" ∅ "" "" "" "" false.

(** Both formats read the empty text as the value with nothing set. *)
Context (yaml_empty : yaml_Unmarshal "" = Some empty_def).
Context (proto_empty : proto_Unmarshal "" = Some empty_spec).

Lemma yaml_rest text : (yaml text).2 = "".
Proof.
  unfold yaml_Parse, annotate, yaml_read, catch, lift, mbind, st_bind, ReadAll.
  destruct (yaml_Unmarshal text); [|done]. cbn. by destruct (parseWorkflow _ _ _).
Qed.

Lemma yaml_nothing : yaml "" = (Ret empty_spec, "").
Proof.
  unfold yaml_Parse, annotate, yaml_read, catch, lift, mbind, st_bind, ReadAll.
  rewrite yaml_empty. unfold mret, st_ret. unfold parseWorkflow. cbn [workflowSpec_Tasks empty_def].
  by rewrite range_empty.
Qed.

Lemma protobuf_rest text : (protobuf text).2 = "" ∧ no_panic (protobuf text).1.
Proof.
  unfold protobuf_Parse, mbind, st_bind, ReadAll.
  destruct (proto_Unmarshal text); [done|]. by destruct (jsonpb_Unmarshal text).
Qed.

Lemma protobuf_nothing : protobuf "" = (Ret empty_spec, "").
Proof. unfold protobuf_Parse, mbind, st_bind, ReadAll. by rewrite proto_empty. Qed.

Lemma default_order : ∃ first second, Parsers default_parser = [first; second] ∧
  (first = "yaml" ∧ second = "pb" ∨ first = "pb" ∧ second = "yaml").
Proof.
  assert (Parsers default_parser ≡ₚ ["yaml"; "pb"]) as Hp.
  { unfold Parsers, DefaultParser, NewMetaParser. cbn [parsers].
    rewrite (range_perm 2), map_to_list_insert, map_to_list_singleton; [done|].
    by rewrite lookup_singleton_ne. }
  symmetry in Hp. apply Permutation_length_2_inv in Hp as [->| ->]; eauto 6.
Qed.

Lemma try_first (mp : MetaParser) (first second : string) (p q : Parser) text spec :
  parsers mp !! first = Some p → parsers mp !! second = Some q → q "" = (Ret spec, "") →
  (p text).2 = "" →
  ParseWith mp (Some [first; second]) text =
    (match (p text).1 with Throw _ => Ret spec | r => r end, "").
Proof.
  intros Hp Hq Hqe Hrest. unfold ParseWith. cbn [try_parsers].
  change (st string goerror WorkflowSpec) with Parser. rewrite Hp, Hq.
  unfold catch, mbind, st_bind. destruct (p text) as [[w|e|why] s]; cbn in Hrest; subst s; cbn; [done| |done].
  by rewrite Hqe.
Qed.

(** The parser of workflows reads the text with the parser that happens to come first in
    the order of a Go map, and if that fails, hands the next one the reader that is
    already at its end: the result is then the empty workflow, and never an error.  A
    workflow in the format of the second parser is thus silently lost. *)
Theorem Parse_second_format_lost (text : string) :
  let '(r, rest) := MetaParser_Parse default_parser text in
  rest = "" ∧ (∀ err, r ≠ Throw err) ∧
  ∃ first second, Parsers default_parser = [first; second] ∧
    (first = "yaml" ∧ r = match (yaml text).1 with Throw _ => Ret empty_spec | r => r end ∨
     first = "pb" ∧ r = match (protobuf text).1 with Throw _ => Ret empty_spec | r => r end).
Proof.
  unfold MetaParser_Parse. destruct default_order as (first & second & -> & [[-> ->]|[-> ->]]).
  - rewrite (try_first _ "yaml" "pb" yaml protobuf text empty_spec); try done;
      [|apply protobuf_nothing|apply yaml_rest].
    split_and!; [done|by destruct (yaml text).1|]. exists "yaml", "pb". auto.
  - rewrite (try_first _ "pb" "yaml" protobuf yaml text empty_spec); try done;
      [|apply yaml_nothing|apply protobuf_rest].
    split_and!; [done|by destruct (protobuf text).1|]. exists "pb", "yaml". auto.
Qed.
End meta.

(** ** Runs *)

#[local] Instance parse_range : MapRange := plain_range.
#[local] Instance parse_proto : Proto := table_proto [StringValue "hello"].

(** [fmt.Sprintf] for the keys of the runs, which are strings. *)
Definition sprint_string (v : yval) : string := match v with YString s => s | _ => "" end.

Definition sample_def : workflowSpec := MkworkflowSpec "1" "" "a"
  {[ "a" := Some (MktaskSpec "" "" (YString "hello") ["b"; "b"]); "b" := Some (MktaskSpec "" "fetch" YNil []);
     "c" := None ]}.

Lemma parseInput_terminates_witness :
  parseInput 2 sprint_string id 7 (YString "hello") = parseInput 2 sprint_string id 2 (YString "hello").
Proof. apply (parseInput_terminates 2 sprint_string id (λ _, Panic "")). lia. Defined.

Lemma parseWorkflow_reads_witness :
  ∃ spec, parseWorkflow sprint_string (parseInput 2 sprint_string id 2) sample_def = Ret spec ∧
    WorkflowSpec_Tasks spec !! "c" = None ∧
    ∃ p, WorkflowSpec_Tasks spec !! "a" = Some (Some p) ∧ TaskSpec_FunctionRef p = "noop".
Proof.
  destruct (parseWorkflow sprint_string (parseInput 2 sprint_string id 2) sample_def) as [spec|e|w] eqn:Hp;
    [|by vm_compute in Hp|by vm_compute in Hp].
  destruct (parseWorkflow_reads 2 sprint_string id 2 sample_def spec Hp) as (_ & _ & Ht).
  exists spec. split; [reflexivity|]. split; [exact (Ht "c")|].
  destruct (Ht "a") as (p & Hl & Hf & _). exists p. split; [exact Hl|]. rewrite Hf. reflexivity.
Defined.

Definition yaml_reader (s : string) : option workflowSpec :=
  if decide (s = "") then Some empty_def else if decide (s = "yaml") then Some sample_def else None.
Definition proto_reader (s : string) : option WorkflowSpec :=
  if decide (s = "") then Some empty_spec
  else if decide (s = "pb") then Some (MkWorkflowSpec "1" ∅ "a" "" "" "" false) else None.
Definition sample_parser : MetaParser :=
  DefaultParser 2 2 sprint_string id yaml_reader proto_reader (λ _, None).

(** A workflow in the protobuf format, with the YAML parser first. *)
Lemma Parse_second_format_lost_witness :
  (MetaParser_Parse sample_parser "pb").1 = Ret empty_spec ∧
  (protobuf_Parse proto_reader (λ _, None) "pb").1 = Ret (MkWorkflowSpec "1" ∅ "a" "" "" "" false).
Proof.
  split; [|reflexivity].
  pose proof (Parse_second_format_lost 2 2 sprint_string id yaml_reader proto_reader (λ _, None)
    eq_refl eq_refl "pb") as Hp.
  change (DefaultParser 2 2 sprint_string id yaml_reader proto_reader (λ _, None)) with sample_parser in Hp.
  destruct (MetaParser_Parse sample_parser "pb") as [r rest].
  destruct Hp as (_ & _ & first & second & Ho & [[-> Hr]|[-> _]]); [|vm_compute in Ho; discriminate Ho].
  rewrite Hr. by vm_compute.
Defined.

(** A task among the inputs whose own inputs are a list of maps makes the parser panic:
    the maps of the list are not converted, JSON refuses them, and the error is ignored. *)
Theorem parseInput_panics :
  parseInput 2 sprint_string id 2 (YMap [(YString "run", YString "compose");
    (YString "inputs", YList [YMap [(YString "a", YString "b")]])]) = Panic "json: cannot unmarshal".
Proof. by vm_compute. Qed.
