(* ===== verification/Commands.v ===== *)
(** Component [cmd/fission-workflows], the command line: validating and parsing definitions, the
    specification of an invocation and the events and statuses that are printed.  The files, the client of the
    server and the libraries that print are parameters; what a command prints is a list of
    lines or rows. *)

From stdpp Require Import base gmap strings list sorting.
From S2P Require Import Prelude Data Types TypedValues FnRefs NetHttp Fes Graph Validate ErrorText Parse.

Section definitions.
Context `{MapRange} `{Proto} (wrap_fuel fuel : nat) (Sprint : yval → string) (float64_of : Z → Z).
Context (yaml_Unmarshal : string → option workflowSpec) (proto_Unmarshal jsonpb_Unmarshal : string → option WorkflowSpec).

(** The content of a file, and [fmt.Errorf] of a text it takes for a format. *)
Context (Open : string → res goerror string) (Errorf : string → goerror).
(** [jsonpb.Unmarshal] into a [nil] specification. *)
Context (jsonpb_into_nil : string → res goerror ()).

(** The reasons of an invalid specification are printed. *)
Definition print_invalid (r : res goerror ()) : res goerror () :=
  match r with
  | Throw (ErrInvalid _ _ as invalid) => Throw (Errorf (Format invalid))
  | Throw _ => Throw (ErrFmt "unknown error")
  | r => r
  end.

(** The specification [json] is read into stays [nil]. *)
(** [cmd/fission-workflows/validate.go:51-92] validateWorkflowDefinition *)
Definition validateWorkflowDefinition (path fType : string) : res goerror () :=
  file ← (match Open path with Throw _ => Throw (ErrFmt "failed to read file") | r => r end);
  spec ← (if decide (fType = "yaml") then
            match (yaml_Parse wrap_fuel fuel Sprint float64_of yaml_Unmarshal file).1 with
            | Throw _ => Throw (ErrFmt "failed to parse yaml definition") | Panic w => Panic w | Ret spec => Ret (Some spec) end
          else if decide (fType = "proto") then
            match (protobuf_Parse proto_Unmarshal jsonpb_Unmarshal file).1 with
            | Throw _ => Throw (ErrFmt "failed to parse protobuf definition") | Panic w => Panic w | Ret spec => Ret (Some spec) end
          else if decide (fType = "json") then
            match jsonpb_into_nil file with
            | Throw _ => Throw (ErrFmt "failed to parse json definition") | Panic w => Panic w | Ret _ => Ret None end
          else Throw (ErrFmt "unsupported workflow definition format"));
  print_invalid (validate_WorkflowSpec spec).

(** The files that are reported, and whether the command fails. *)
(** [cmd/fission-workflows/validate.go:27-48] cmdValidate: the action *)
Definition cmdValidate (paths : list string) (fType : string) : res goerror (list string * bool) :=
  foldM (λ '(reported, failed) path,
    match validateWorkflowDefinition path fType with
    | Throw _ => Ret (reported ++ [path], true)
    | Ret _ => Ret (reported, failed)
    | Panic w => Panic w
    end) ([], false) paths.

(** A definition is valid for the command exactly if it can be read in the format and its
    specification is valid; none is in the format [json]. *)
Lemma validateWorkflowDefinition_ok path fType :
  validateWorkflowDefinition path fType = Ret () ↔
  ∃ file spec, Open path = Ret file ∧ validate_WorkflowSpec (Some spec) = Ret () ∧
    (fType = "yaml" ∧ (yaml_Parse wrap_fuel fuel Sprint float64_of yaml_Unmarshal file).1 = Ret spec ∨
     fType = "proto" ∧ (protobuf_Parse proto_Unmarshal jsonpb_Unmarshal file).1 = Ret spec).
Proof.
  unfold validateWorkflowDefinition.
  destruct (Open path) as [file|e|w]; cbn [mbind res_bind]; [|split; [done|naive_solver]..].
  assert (∀ r, print_invalid r = Ret () ↔ r = Ret ()) as Hv by (intros [[]|[]|w]; naive_solver).
  destruct (decide (fType = "yaml")) as [->|Hy].
  { destruct (yaml_Parse _ _ _ _ _ file).1 as [spec|e|w] eqn:Hp; cbn [mbind res_bind].
    - rewrite Hv. split; [intros Hok; exists file, spec; auto|].
      intros (f & spec' & [= <-] & Hok & [[_ Hs]|[Hs _]]); congruence.
    - split; [done|]. intros (f & spec & [= <-] & _ & [[_ Hs]|[Hs _]]); congruence.
    - split; [done|]. intros (f & spec & [= <-] & _ & [[_ Hs]|[Hs _]]); congruence. }
  destruct (decide (fType = "proto")) as [->|Hpr].
  { destruct (protobuf_Parse _ _ file).1 as [spec|e|w] eqn:Hp; cbn [mbind res_bind].
    - rewrite Hv. split; [intros Hok; exists file, spec; auto|].
      intros (f & spec' & [= <-] & Hok & [[Hs _]|[_ Hs]]); congruence.
    - split; [done|]. intros (f & spec & [= <-] & _ & [[Hs _]|[_ Hs]]); congruence.
    - split; [done|]. intros (f & spec & [= <-] & _ & [[Hs _]|[_ Hs]]); congruence. }
  split; [|naive_solver]. destruct (decide (fType = "json")); [|done].
  destruct (jsonpb_into_nil file); cbn [mbind res_bind]; [|done|done]. by rewrite Hv.
Qed.
End definitions.

(** ** Invoking *)

(** The specification with the deadline is made and thrown away. *)
(** [cmd/fission-workflows/invoke.go:95-99] cmdInvoke: the specification *)
Definition cmdInvoke_spec (workflowID : string) (inputs : gmap string TypedValue) : WorkflowInvocationSpec :=
  MkWorkflowInvocationSpec workflowID inputs "" None None.

(** [cmd/fission-workflows/invoke.go:207-213] subjectType *)
Inductive subjectType := subjectTypeRegular | subjectTypeSuccess | subjectTypeError.

(** [cmd/fission-workflows/invoke.go:216-223] event *)
Record event := MkEventLine {
  event_timestamp : Z; event_subject : string; event_subjectType : subjectType; event_target : string;
  event_message : string; event_data : message }.

Section events.
Context `{Proto} `{PTypes}.
(** The text of a message, and the line of an event. *)
Context (message_String : message → string) (eventToTabString : event → string).

(** [cmd/fission-workflows/invoke.go:225-244] parseInvocationEvent *)
Definition parseInvocationEvent (fesEvent : Event) : res goerror event :=
  e ← ParseEventData fesEvent;
  let '(ts, ok) := pt_Timestamp (Event_Timestamp fesEvent) in
  if negb ok then Throw (ErrFmt "timestamp")
  else Ret (MkEventLine ts (event_type e) subjectTypeRegular "" (message_String e) e).

(** The part of the event that is printed depends on its kind. *)
Definition classify (ev : Event) (e : event) : event * bool :=
  let with_type t target := MkEventLine (event_timestamp e) (event_subject e) t target (event_message e) (event_data e) in
  match event_data e with
  | InvocationFailed _ | InvocationCanceled _ => (with_type subjectTypeError (event_target e), true)
  | InvocationCompleted _ _ => (with_type subjectTypeSuccess (event_target e), true)
  | TaskSucceeded _ => (with_type subjectTypeSuccess (Event_Id ev), false)
  | _ => (e, false)
  end.

(** Whether the invocation is finished, the lines that were printed, and the error. *)
(** [cmd/fission-workflows/invoke.go:168-205] fetchAndPrintEvents *)
Definition fetchAndPrintEvents (fetched : res goerror (list Event)) (offset : nat) :
    res goerror (bool * list string * option goerror) :=
  match fetched with
  | Panic w => Panic w
  | Throw _ => Ret (false, [], Some (ErrFmt "failed to fetch events"))
  | Ret evs =>
      if decide (length evs < offset) then Panic "slice bounds out of range" else
      foldM (λ '(finished, out, err) ev,
        match err with
        | Some _ => Ret (finished, out, err)
        | None =>
            match parseInvocationEvent ev with
            | Panic w => Panic w
            | Throw _ => Ret (finished, out, Some (ErrFmt "failed to parse events"))
            | Ret e => let '(e, ends) := classify ev e in Ret (finished || ends, out ++ [eventToTabString e], None)
            end
        end) (false, [], None) (drop offset evs)
  end.

(** The offset is passed by value and never moves. *)
(** [cmd/fission-workflows/invoke.go:107-126] cmdInvoke: the polls for events *)
Fixpoint poll_events (polls : list (res goerror (list Event))) : res goerror (list string) :=
  match polls with
  | [] => Ret []
  | fetched :: polls =>
      r ← fetchAndPrintEvents fetched 0;
      let '(finished, out, err) := (r : bool * list string * option goerror) in
      if finished then Ret out
      else match err with
           | Some _ => Ret out
           | None => rest ← poll_events polls; Ret (out ++ rest)
           end
  end.

(** An event is printed at every poll. *)
Lemma poll_events_repeats evs out : fetchAndPrintEvents (Ret evs) 0 = Ret (false, out, None) →
  poll_events [Ret evs; Ret evs] = Ret (out ++ out).
Proof. intros Hf. cbn [poll_events]. rewrite Hf. cbn [mbind res_bind]. by rewrite List.app_nil_r. Qed.
End events.

(** ** Statuses *)

Section statuses.
Context (status_String : TaskInvocationStatus_Status → string) (TimestampString : option Timestamp → string).

Notation row := (string * string * string * string)%type.

(** The tasks in the order of their names; one that was not started is scheduled. *)
(** [cmd/fission-workflows/invocation.go:214-237] collectStatus *)
Definition collectStatus (tasks : gmap string TaskSpec) (taskStatus : gmap string TaskInvocation) (rows : list row) :
    res goerror (list row) :=
  foldM (λ rows id,
    match taskStatus !! id with
    | None => Ret (rows ++ [(id, status_String TaskInvocationStatus_SCHEDULED, "", "")])
    | Some ti =>
        status ← deref (TaskInvocation_Status ti);
        metadata ← deref (TaskInvocation_Metadata ti);
        Ret (rows ++ [(id, status_String (TaskInvocationStatus_Status_ status),
                       TimestampString (ObjectMetadata_CreatedAt metadata),
                       TimestampString (TaskInvocationStatus_UpdatedAt status))])
    end) rows (merge_sort String.le (map_to_list tasks).*1).

(** Every task of the map has one row. *)
Lemma collectStatus_rows tasks taskStatus rows rows' :
  collectStatus tasks taskStatus rows = Ret rows' →
  ∃ new, rows' = rows ++ new ∧ (λ r, r.1.1.1) <$> new ≡ₚ (map_to_list tasks).*1.
Proof.
  unfold collectStatus. pose proof (merge_sort_Permutation String.le (map_to_list tasks).*1) as Hperm. revert Hperm.
  generalize (merge_sort String.le (map_to_list tasks).*1). intros ids Hperm Hrun.
  assert (∃ new, rows' = rows ++ new ∧ (λ r : row, r.1.1.1) <$> new = ids) as (new & -> & Hids).
  2:{ exists new. split; [done|]. by rewrite Hids. }
  clear Hperm. revert rows Hrun. induction ids as [|id ids IH]; intros rows Hrun.
  - injection Hrun as <-. exists []. by rewrite List.app_nil_r.
  - cbn [foldM] in Hrun. apply bind_Ret_inv in Hrun as (rows1 & H1 & H2).
    assert (∃ r, rows1 = rows ++ [r] ∧ r.1.1.1 = id) as (r & -> & Hr).
    { destruct (taskStatus !! id) as [ti|]; [|injection H1 as <-; by eexists].
      apply bind_Ret_inv in H1 as (st & _ & H1). apply bind_Ret_inv in H1 as (md & _ & [= <-]). by eexists. }
    apply IH in H2 as (new & -> & Hids). exists (r :: new). rewrite <- List.app_assoc. split; [done|].
    cbn. by rewrite Hr, Hids.
Qed.
End statuses.

(** The path that is put before the routes of the server. *)
(** [cmd/fission-workflows/portforward.go:47-51] getClient: the address *)
Definition client_url (url path : string) (TrimSuffix_slash : string → string) : res goerror string :=
  match path with
  | EmptyString => Panic "index out of range"
  | String c _ => Ret (url +:+ TrimSuffix_slash (if decide (String c "" = "/") then path else "/" +:+ path))
  end.
