(* ===== verification/Builtins.v ===== *)
(** Components [pkg/fnenv/native] and [pkg/fnenv/native/builtin]: the runtime that runs
    functions in the process of the engine, and its built-in functions, which make the
    control flow of workflows out of values, tasks and generated workflows. *)

From stdpp Require Import base gmap strings list pretty.
From S2P Require Import Prelude Data Types TypedValues ControlFlow Graph Validate.

(** ** Inputs *)

Notation Inputs := (gmap string TypedValue).

(** [pkg/fnenv/native/builtin/builtin.go:31-53] ensureInput *)
Definition ensureInput (inputs : Inputs) (key : string) (validTypes : list string) :
    res goerror TypedValue :=
  match inputs !! key with
  | None => Throw (ErrFmt ("input '" +:+ key +:+ "' is not set"))
  | Some tv =>
      if decide (validTypes = []) then Ret tv
      else if decide (ValueType (Some tv) ∈ validTypes) then Ret tv
      else Throw (ErrFmt ("input '" +:+ key +:+ "' is not a validType type"))
  end.

(** The last field that was tried is returned with the value. *)
(** [pkg/fnenv/native/builtin/builtin.go:75-86] getFirstDefinedTypedValue *)
Fixpoint getFirstDefinedTypedValue (inputs : Inputs) (key : string) (fields : list string) :
    string * option TypedValue :=
  match fields with
  | [] => (key, None)
  | f :: fields => match inputs !! f with
                   | Some val => (f, Some val)
                   | None => getFirstDefinedTypedValue inputs f fields
                   end
  end.

(** [SetMetadata] on a value that is there. *)
Definition with_metadata (tv : TypedValue) (k v : string) : TypedValue :=
  MkTypedValue (TypedValue_Value tv) (<[k := v]> (TypedValue_Metadata tv)).

(** [fmt.Sprintf("do_%d", n)] *)
(** [pkg/fnenv/native/builtin/repeat.go:109-111] taskID *)
Definition taskID (n : Z) : string := "do_" +:+ pretty n.

(** [fmt.Sprintf("{output('%s')}", task)] *)
Definition output_of (task : string) : string := "{output('" +:+ task +:+ "')}".

Section builtins.
Context `{MapRange} `{Proto} (fuel : nat).
(** [%v] of a value, [time.ParseDuration] and [Duration.String], the conversions of
    floats: the standard library. *)
Context (show : gval → string) (ParseDuration : string → option Z) (Duration_String : Z → string).
Context (float32_int64 float64_int64 : Z → Z).

(** [pkg/fnenv/native/native.go:24-26] InternalFunction *)
Definition InternalFunction : Type := TaskInvocationSpec → res goerror (option TypedValue).

Notation inputs_of := TaskInvocationSpec_Inputs.
Notation unwrap_int := (UnwrapInt64 fuel float32_int64 float64_int64).

(** [*typedvalues.MustWrap(v)] *)
Definition must_wrap (v : gval) : res goerror TypedValue := tv ← MustWrap fuel v; deref tv.

(** [pkg/fnenv/native/builtin/noop.go:40-59] FunctionNoop.Invoke *)
Definition FunctionNoop : InternalFunction := λ spec,
  let output := inputs_of spec !! InputMain in
  _ ← MustUnwrap fuel output;
  Ret output.

(** [pkg/fnenv/native/builtin/compose.go:56-87] FunctionCompose.Invoke *)
Definition FunctionCompose : InternalFunction := λ spec,
  let inputs := inputs_of spec in
  output ← (if decide (size inputs = 0) then Ret None else
            match inputs !! InputMain with
            | Some defaultInput =>
                if decide (size inputs = 1) then Ret (Some defaultInput) else
                results ← foldM (λ (results : gmap string gval) '(k, v),
                  i ← Unwrap fuel (Some v); Ret (<[k := i]> results)) ∅ (range 0 inputs);
                Wrap fuel (VMap results)
            | None =>
                results ← foldM (λ (results : gmap string gval) '(k, v),
                  i ← Unwrap fuel (Some v); Ret (<[k := i]> results)) ∅ (range 0 inputs);
                Wrap fuel (VMap results)
            end);
  _ ← MustUnwrap fuel output;
  Ret output.

(** The default message is used only if there are no inputs at all. *)
(** [pkg/fnenv/native/builtin/fail.go:44-67] FunctionFail.Invoke *)
Definition FunctionFail : InternalFunction := λ spec,
  let inputs := inputs_of spec in
  output ← (if decide (size inputs = 0) then MustWrap fuel (VString "fail function triggered")
            else Ret (inputs !! InputMain));
  msg ← Unwrap fuel output;
  Throw (ErrFmt (show msg)).

(** [pkg/fnenv/native/builtin/if.go:57-85] FunctionIf.Invoke *)
Definition FunctionIf : InternalFunction := λ spec,
  let inputs := inputs_of spec in
  expr ← ensureInput inputs "if" [];
  i ← Unwrap fuel (Some expr);
  match i with
  | VBool condition => Ret (if condition : bool then inputs !! "then" else inputs !! "else")
  | _ => Throw (ErrFmt "condition needs to be a 'bool'")
  end.

(** ** Switch *)

(** [pkg/fnenv/native/builtin/switch.go:79-85] FunctionSwitch.getSwitch *)
Definition getSwitch (inputs : Inputs) : res goerror string :=
  tv ← ensureInput inputs "switch" []; UnwrapString fuel (Some tv).

(** A missing value of a case is [nil]. *)
(** [pkg/fnenv/native/builtin/switch.go:87-120] FunctionSwitch.getCases *)
Definition getCases (inputs : Inputs) :
    res goerror (gmap string (option TypedValue) * option TypedValue) :=
  let defaultCase := inputs !! "default" in
  match inputs !! "cases" with
  | None => Ret (∅, defaultCase)
  | Some switchCases =>
      ir ← UnwrapArray fuel (Some switchCases);
      cases ← foldM (λ (cases : gmap string (option TypedValue)) c,
        match c with
        | VMap m =>
            tva ← Wrap fuel (default VNil (m !! "action"));
            match m !! "case" with
            | None => Throw (ErrNew "case in switch does not have a key")
            | Some (VString key) => Ret (<[key := tva]> cases)
            | Some _ => Throw (ErrNew "case key should be a string")
            end
        | _ => Throw (ErrNew "invalid case provided")
        end) ∅ ir;
      Ret (cases, defaultCase)
  end.

(** [pkg/fnenv/native/builtin/switch.go:57-77] FunctionSwitch.Invoke *)
Definition FunctionSwitch : InternalFunction := λ spec,
  switchVal ← getSwitch (inputs_of spec);
  '(cases, defaultCase) ← getCases (inputs_of spec);
  match cases !! switchVal with
  | Some tv => Ret tv
  | None => Ret defaultCase
  end.

(** ** Foreach *)

(** A boolean input, [true] or [false] if it is missing. *)
(** [pkg/fnenv/native/builtin/foreach.go:85-105] FunctionForeach.Invoke (part) *)
Definition bool_input (inputs : Inputs) (key : string) (dflt : bool) : res goerror bool :=
  match inputs !! key with
  | None => Ret dflt
  | Some tv => wrap_err "could not be parsed into a boolean" (UnwrapBool fuel (Some tv))
  end.

(** One round of the loop over the elements: a copy of the task, with the element. *)
(** [pkg/fnenv/native/builtin/foreach.go:115-130] FunctionForeach.Invoke (part) *)
Definition foreach_task (flow : Flow) (seq : bool) (k : nat) (item : gval) : res goerror (option TaskSpec) :=
  let f := Flow_Clone (Some flow) in
  itemTv ← must_wrap item;
  let f := Flow_Input f "_item" (with_metadata itemTv MetadataPriority "1000") in
  let t := f ≫= Flow_Task in
  if seq && bool_decide (k ≠ 0)
  then t ← deref t; Ret (Some (TaskSpec_Require t (taskID (Z.of_nat k - 1)) []))
  else Ret t.

(** The loop: the tasks of the elements, in order. *)
Fixpoint foreach_tasks (flow : Flow) (seq : bool) (k : nat) (foreach : list gval) (wf : WorkflowSpec) :
    res goerror WorkflowSpec :=
  match foreach with
  | [] => Ret wf
  | item :: foreach =>
      t ← foreach_task flow seq k item;
      foreach_tasks flow seq (S k) foreach (WorkflowSpec_AddTask wf (taskID (Z.of_nat k)) t)
  end.

Definition empty_workflow (outputTask : string) : WorkflowSpec :=
  MkWorkflowSpec "" ∅ outputTask "" "" "" false.

(** The names of the tasks of [n] elements. *)
Definition element_names (n : nat) : list string := (λ k, taskID (Z.of_nat k)) <$> seq 0 n.

(** The task that collects the outputs of the others. *)
(** [pkg/fnenv/native/builtin/foreach.go:132-145] FunctionForeach.Invoke (part) *)
Definition collector (tasks : list string) (collect : bool) : res goerror TaskSpec :=
  let output := if collect then (λ k, VString (output_of k)) <$> tasks else [] in
  tv ← must_wrap (VList output);
  Ret (TaskSpec_Input (MkTaskSpec "compose" ∅ (Require_ tasks) 0 None None None) InputMain tv).

(** [pkg/fnenv/native/builtin/foreach.go:57-148] FunctionForeach.Invoke *)
Definition FunctionForeach : InternalFunction := λ spec,
  let inputs := inputs_of spec in
  headerTv ← ensureInput inputs "foreach" [];
  i ← Unwrap fuel (Some headerTv);
  match i with
  | VList foreach =>
      taskTv ← ensureInput inputs "do" [TypeTask];
      flow ← UnwrapControlFlow fuel (Some taskTv);
      if decide (Flow_Workflow flow ≠ None)
      then Throw (ErrNew "foreach does not support workflow inputs (yet)") else
      collect ← bool_input inputs "collect" true;
      seq ← bool_input inputs "sequential" false;
      wf ← foreach_tasks flow seq 0 foreach (empty_workflow "collector");
      ct ← collector (element_names (length foreach)) collect;
      Wrap fuel (VMessage (WorkflowSpecMessage (WorkflowSpec_AddTask wf "collector" (Some ct))))
  | _ => Throw (ErrFmt "condition needs to be a 'array'")
  end.

(** ** Repeat *)

(** One round of the loop: a copy of the task, which depends on the previous one. *)
(** [pkg/fnenv/native/builtin/repeat.go:93-103] createRepeatTasks (part) *)
Definition repeat_task (task : TaskSpec) (n : Z) : res goerror TaskSpec :=
  if decide (0 < n)%Z then
    let prevTask := taskID (n - 1) in
    prev ← must_wrap (VString (output_of prevTask));
    Ret (TaskSpec_Input (TaskSpec_Require task prevTask []) "_prev" (with_metadata prev MetadataPriority "100"))
  else Ret task.

(** [pkg/fnenv/native/builtin/repeat.go:89-107] createRepeatTasks *)
Definition createRepeatTasks (task : TaskSpec) (times : Z) : res goerror (gmap string (option TaskSpec)) :=
  foldM (λ tasks n, t ← repeat_task task (Z.of_nat n); Ret (<[taskID (Z.of_nat n) := Some t]> tasks))
    ∅ (seq 0 (Z.to_nat times)).

(** [pkg/fnenv/native/builtin/repeat.go:54-87] FunctionRepeat.Invoke *)
Definition FunctionRepeat : InternalFunction := λ spec,
  let inputs := inputs_of spec in
  match inputs !! "times" with
  | None => Throw (ErrFmt "repeat needs 'times'")
  | Some n =>
      times ← unwrap_int (Some n);
      match inputs !! "do" with
      | None => Throw (ErrFmt "repeat needs 'do'")
      | Some doVal =>
          doTask ← UnwrapTask fuel (Some doVal);
          let doTask := TaskSpec_with_Requires doTask ∅ in
          if decide (0 < times)%Z then
            tasks ← createRepeatTasks doTask times;
            MustWrap fuel (VMessage (WorkflowSpecMessage
              (MkWorkflowSpec "" tasks (taskID (times - 1)) "" "" "" false)))
          else Ret None
      end
  end.

(** ** While *)

(** The delay of a loop; [nil] is no input. *)
(** [pkg/fnenv/native/builtin/while.go:103-116] FunctionWhile.Invoke (part) *)
Definition delay_input (inputs : Inputs) : res goerror Z :=
  match inputs !! "delay" with
  | None => Ret 0%Z
  | Some delayTv =>
      s ← wrap_err "failed to parse delay" (UnwrapString fuel (Some delayTv));
      match ParseDuration s with
      | Some d => Ret d
      | None => Throw (ErrFmt "failed to parse duration")
      end
  end.

(** The number of rounds so far. *)
(** [pkg/fnenv/native/builtin/while.go:94-101] FunctionWhile.Invoke (part) *)
Definition count_input (inputs : Inputs) : res goerror Z :=
  match inputs !! "_count" with
  | None => Ret 0%Z
  | Some countTv => wrap_err "failed to format _count to a number" (unwrap_int (Some countTv))
  end.

(** The action of the next round: a flow is given the count, and the previous output from
    the second round on. *)
(** [pkg/fnenv/native/builtin/while.go:145-159] FunctionWhile.Invoke (part) *)
Definition while_action (action countTv prevTv : TypedValue) (count : Z) : res goerror (option TypedValue) :=
  if IsControlFlow (Some action) then
    cf ← wrap_err "failed to format workflow action" (UnwrapControlFlow fuel (Some action));
    let cf := if decide (0 < count)%Z then Flow_Input (Some cf) "_prev" prevTv else Some cf in
    let cf := Flow_Input cf "_count" countTv in
    wrap_err "failed to format task action"
      (match cf with
       | Some cf => Wrap fuel (VMessage (FlowMessage cf))
       | None => Wrap fuel VNil end)
  else Ret (Some action).

(** The workflow of one round: the action, after a wait if there is a delay, and then the
    loop again. *)
(** [pkg/fnenv/native/builtin/while.go:161-193] FunctionWhile.Invoke (part) *)
Definition while_workflow (action exprSrcTv delayTv limitTv countTv prevTv : TypedValue) (delay : Z) :
    WorkflowSpec :=
  let action_task := MkTaskSpec "noop" {[ InputMain := action ]} ∅ 0 None None None in
  let condition := MkTaskSpec "while"
    {[ "expr" := exprSrcTv; "delay" := delayTv; "limit" := limitTv; "do" := action;
       "_count" := countTv; "_prev" := prevTv ]} (Require_ ["action"]) 0 None None None in
  MkWorkflowSpec ""
    (if decide (0 < delay)%Z then
       {[ "action" := Some (TaskSpec_Require action_task "wait" []); "condition" := Some condition;
          "wait" := Some (MkTaskSpec "sleep" {[ InputMain := delayTv ]} ∅ 0 None None None) ]}
     else {[ "action" := Some action_task; "condition" := Some condition ]})
    "condition" "" "" "" false.

Definition ErrLimitExceeded : goerror := ErrNew "while limit exceeded".

(** [pkg/fnenv/native/builtin/while.go:66-200] FunctionWhile.Invoke *)
Definition FunctionWhile : InternalFunction := λ spec,
  let inputs := inputs_of spec in
  exprTv ← ensureInput inputs "expr" [TypeBool];
  expr ← wrap_err "failed to format while condition to a boolean" (UnwrapBool fuel (Some exprTv));
  match GetMetadataValue (Some exprTv) "src" with
  | (_, false) => Throw (ErrFmt "could not get source")
  | (exprSrc, true) =>
      exprSrcTv ← Wrap fuel (VString exprSrc);
      limitTv ← ensureInput inputs "limit" TypeNumber;
      limit ← wrap_err "failed to format limit to a number" (unwrap_int (Some limitTv));
      count ← count_input inputs;
      delay ← delay_input inputs;
      delayTv ← must_wrap (VString (Duration_String delay));
      action ← ensureInput inputs "do" [];
      if negb expr then Ret (inputs !! "_prev") else
      if decide (limit ≤ count)%Z then Throw ErrLimitExceeded else
      prevTv ← must_wrap (VString "{ $.Tasks.action.Output }");
      let prevTv := with_metadata prevTv MetadataPriority "100" in
      countTv ← must_wrap (VInt64 (to_i64 (count + 1)));
      let countTv := with_metadata countTv MetadataPriority "100" in
      action ← while_action action countTv prevTv count;
      action ← deref action;
      exprSrcTv ← deref exprSrcTv;
      wrap_err "failed to create while workflow"
        (Wrap fuel (VMessage (WorkflowSpecMessage
           (while_workflow action exprSrcTv delayTv limitTv countTv prevTv delay))))
  end.
End builtins.

(** ** HTTP requests *)

(** [strings.HasPrefix] *)
Definition HasPrefix (s prefix : string) : bool := bool_decide (is_Some (strip_prefix prefix s)).

(** Any name that starts with [http] passes for an address with a scheme. *)
(** [pkg/fnenv/native/builtin/http.go:89-104] FunctionHTTP.determineTargetURL *)
Definition determineTargetURL `{Proto} `{MapRange} (fuel : nat) (inputs : Inputs) : res goerror string :=
  match (getFirstDefinedTypedValue inputs "" ["url"; InputMain]).2 with
  | None => Throw (ErrNew "target URL is required for HTTP function")
  | Some tv =>
      s ← UnwrapString fuel (Some tv);
      Ret (if HasPrefix s "http" then s else "http" +:+ "://" +:+ s)
  end.

(** ** Sleep *)

Section sleep.
Context `{MapRange} `{Proto} (fuel : nat) (ParseDuration : string → option Z).
(** [time.Duration(t)] of a float. *)
Context (float32_int64 float64_int64 : Z → Z).

(** [time.Millisecond] *)
Definition Millisecond : Z := 10 ^ 6.

(** [pkg/fnenv/native/builtin/sleep.go:13-13] SleepInputDefault (part) *)
Definition SleepInputDefault : Z := 10 ^ 9.

(** How long the function sleeps; the product wraps around. *)
(** [pkg/fnenv/native/builtin/sleep.go:47-79] FunctionSleep.Invoke *)
Definition sleep_duration (spec : TaskInvocationSpec) : res goerror Z :=
  match TaskInvocationSpec_Inputs spec !! InputMain with
  | None => Ret SleepInputDefault
  | Some input =>
      i ← Unwrap fuel (Some input);
      match i with
      | VString s => match ParseDuration s with
                     | Some d => Ret d
                     | None => Throw (ErrFmt "time: invalid duration")
                     end
      | VInt32 t | VInt64 t => Ret (to_i64 (t * Millisecond))
      | VFloat32 t => Ret (to_i64 (float32_int64 t * Millisecond))
      | VFloat64 t => Ret (to_i64 (float64_int64 t * Millisecond))
      | _ => Throw (ErrFmt ("invalid input '" +:+ ValueType (Some input) +:+ "'"))
      end
  end.

(** After the pause there is no output. *)
Definition FunctionSleep : InternalFunction := λ spec, _ ← sleep_duration spec; Ret None.
End sleep.

(** ** The runtime *)

Section native.
Context `{PTypes} `{MapRange}.

(** [pkg/fnenv/native/native.go:31-33] FunctionEnv *)
Record FunctionEnv := MkFunctionEnv { fns : gmap string InternalFunction }.

(** [pkg/fnenv/native/native.go:35-40] NewFunctionEnv *)
Definition NewFunctionEnv (fns : gmap string InternalFunction) : FunctionEnv := MkFunctionEnv fns.

(** A panic of the function is recovered from, and leaves no result and no error. *)
(** [pkg/fnenv/native/native.go:42-88] FunctionEnv.Invoke *)
Definition FunctionEnv_Invoke (fe : FunctionEnv) (now : Z) (error_text : goerror → string)
    (spec : option TaskInvocationSpec) : res goerror (option TaskInvocationStatus) :=
  let run := match validate_TaskInvocationSpec spec with
    | Some err => Throw err
    | None =>
        spec ← deref spec;
        fnRef ← deref (TaskInvocationSpec_FnRef spec);
        let fnID := FnRef_ID fnRef in
        match fns fe !! fnID with
        | None => Throw (ErrFmt ("could not resolve internal function '" +:+ fnID +:+ "'"))
        | Some fn =>
            match fn spec with
            | Throw err => Ret (Some (MkTaskInvocationStatus TaskInvocationStatus_FAILED
                (Some (pt_TimestampNow now)) None (Some (MkError (error_text err))) None))
            | Panic why => Panic why
            | Ret out => Ret (Some (MkTaskInvocationStatus TaskInvocationStatus_SUCCEEDED
                (Some (pt_TimestampNow now)) out None None))
            end
        end
    end in
  match run with Panic _ => Ret None | r => r end.

(** [pkg/fnenv/native/native.go:90-97] FunctionEnv.Resolve *)
Definition FunctionEnv_Resolve (fe : FunctionEnv) (ref : FnRef) : res goerror string :=
  match fns fe !! FnRef_ID ref with
  | None => Throw (ErrFmt ("could not resolve internal function '" +:+ FnRef_ID ref +:+ "'"))
  | Some _ => Ret (FnRef_ID ref)
  end.

(** [pkg/fnenv/native/native.go:99-101] FunctionEnv.RegisterFn *)
Definition RegisterFn (fe : FunctionEnv) (name : string) (fn : InternalFunction) : FunctionEnv :=
  MkFunctionEnv (<[name := fn]> (fns fe)).

(** The slice is made with as many empty names as there are functions; the names are
    appended behind them. *)
(** [pkg/fnenv/native/native.go:104-110] FunctionEnv.Installed *)
Definition Installed (fe : FunctionEnv) : list string :=
  replicate (size (fns fe)) "" ++ (range 0 (fns fe)).*1.
End native.
