(* ===== verification/BuiltinsSpec.v ===== *)
(** What the built-in functions promise: the workflows they generate are the loops and
    sequences they are named after, they pass the validation of workflows, and the
    runtime contains the failures of its functions. *)

From stdpp Require Import base gmap strings list pretty.
From S2P Require Import Prelude Data Types TypedValues ControlFlow Graph Validate.
From S2P Require Import Builtins.

(** ** Names *)

#[export] Instance taskID_inj : Inj (=) (=) taskID.
Proof. intros n m H. unfold taskID in H. simplify_eq/=. done. Qed.

#[export] Instance round_inj : Inj (=) (=) (λ k : nat, taskID (Z.of_nat k)).
Proof. intros n m H. apply (inj taskID) in H. lia. Qed.

Lemma taskID_empty n : taskID n ≠ "".
Proof. done. Qed.

Lemma taskID_collector n : taskID n ≠ "collector".
Proof. done. Qed.

(** ** Generated workflows are valid *)

Section ranked.
Context `{MapRange}.

(** A workflow whose tasks are numbered so that each requires, with plain requirements,
    tasks of lower numbers only. *)
Record ranked (spec : WorkflowSpec) (rank : string → nat) : Prop := {
  ranked_version : WorkflowSpec_ApiVersion spec = "";
  ranked_output : is_Some (WorkflowSpec_Tasks spec !! WorkflowSpec_OutputTask spec);
  ranked_ids : WorkflowSpec_Tasks spec !! "" = None;
  ranked_tasks : ∀ id x, WorkflowSpec_Tasks spec !! id = Some x →
    ∃ t, x = Some t ∧ TaskSpec_FunctionRef t ≠ "" ∧
      ∀ dep p, TaskSpec_Requires t !! dep = Some p →
        p = None ∧ is_Some (WorkflowSpec_Tasks spec !! dep) ∧ rank dep < rank id }.

(** The names of the tasks have distinct hashes. *)
Definition names_apart (spec : WorkflowSpec) : Prop :=
  hash_inj (λ k, is_Some (WorkflowSpec_Tasks spec !! k)).

Context (spec : WorkflowSpec) (rank : string → nat) (Hranked : ranked spec rank).

Lemma ranked_reqs id dep p : spec_reqs spec id !! dep = Some p →
  p = None ∧ is_Some (WorkflowSpec_Tasks spec !! dep) ∧ rank dep < rank id.
Proof.
  unfold spec_reqs. destruct (WorkflowSpec_Tasks spec !! id) as [x|] eqn:Hx; [|done].
  destruct (ranked_tasks _ _ Hranked id x Hx) as (t & -> & _ & Hd). apply Hd.
Qed.

Lemma ranked_waits a b : spec_waits spec a b → rank a < rank b.
Proof.
  intros (_ & _ & [[p Hp]|(_ & d & Hd & _)]).
  - by apply ranked_reqs in Hp as (_ & _ & ?).
  - apply dynamic_parent_Some in Hd as (q & Hq & _). by apply ranked_reqs in Hq as [? _].
Qed.

Lemma ranked_valid : valid_spec spec.
Proof.
  destruct Hranked as [Hv Ho Hid Ht]. split; [by left|done|done| | |].
  - intros id t Hx. destruct (Ht _ _ Hx) as (t' & [= <-] & Hf & _). exact Hf.
  - intros id dep [p Hp]. by apply ranked_reqs in Hp as (_ & ? & _).
  - intros id Hc. assert (rank id < rank id) as Hlt; [|lia].
    revert Hc. generalize id at 2 4. intros y Hc.
    induction Hc as [a b Hab|a b c Hab _ IH]; apply ranked_waits in Hab; lia.
Qed.

Lemma ranked_checkable : names_apart spec → checkable spec.
Proof.
  intros Hh. split.
  - intros id Hx. by destruct (ranked_tasks _ _ Hranked id _ Hx) as (t & ? & _).
  - intros id. destruct (spec_reqs spec id !! id) as [p|] eqn:Hp; [|done].
    apply ranked_reqs in Hp as (_ & _ & ?). lia.
  - assert (∀ k, is_Some (WorkflowSpec_Tasks spec !! k) ∨ (∃ id, is_Some (spec_reqs spec id !! k)) →
      is_Some (WorkflowSpec_Tasks spec !! k)) as Hin.
    { intros k [?|(id & p & Hp)]; [done|]. by apply ranked_reqs in Hp as (_ & ? & _). }
    intros x y Hx Hy. by apply Hh; apply Hin.
Qed.
End ranked.

Lemma ranked_accepted `{MapRange} `{DirectedGraphLaws} (spec : WorkflowSpec) rank :
  ranked spec rank → names_apart spec → validate_WorkflowSpec (Some spec) = Ret ().
Proof.
  intros Hr Hn. apply (validate_WorkflowSpec_spec spec (ranked_checkable spec rank Hr Hn)).
  by eapply ranked_valid.
Qed.

(** For concrete workflows. *)
Lemma names_apart_list (spec : WorkflowSpec) (l : list string) :
  (∀ k, is_Some (WorkflowSpec_Tasks spec !! k) → k ∈ l) →
  bool_decide (NoDup (createID <$> l)) = true → names_apart spec.
Proof.
  rewrite bool_decide_eq_true. intros Hin Hnd x y Hx Hy Heq.
  apply Hin, list_elem_of_lookup in Hx as [i Hi]. apply Hin, list_elem_of_lookup in Hy as [j Hj].
  assert (i = j) as ->; [|congruence].
  eapply (NoDup_lookup _ i j (createID x) Hnd); rewrite list_lookup_fmap; [by rewrite Hi|].
  rewrite Hj. cbn. by rewrite Heq.
Qed.

(** ** Repeat *)

(** A map filled by a loop over distinct names. *)
Lemma foldl_insert_named {A X} (name : X → string) (val : X → A) (l : list X) (m : gmap string A) :
  NoDup (name <$> l) → (∀ x, x ∈ l → m !! name x = None) →
  ∀ id a, foldl (λ m x, <[name x := val x]> m) m l !! id = Some a ↔
    m !! id = Some a ∨ ∃ x, x ∈ l ∧ id = name x ∧ a = val x.
Proof.
  revert m. induction l as [|x l IH]; intros m Hnd Hfresh id a; simpl; [set_solver|].
  rewrite fmap_cons in Hnd. apply NoDup_cons in Hnd as [Hx Hnd].
  rewrite IH; [|done|].
  - destruct (decide (id = name x)) as [->|Hne].
    + rewrite lookup_insert_eq. split.
      * intros [[= <-]|(y & ? & ? & ->)]; right; [exists x|exists y]; set_solver.
      * intros [Hm|(y & [->|Hy]%elem_of_cons & Hn & ->)]; [|by left|].
        -- rewrite (Hfresh x) in Hm by set_solver. done.
        -- destruct Hx. rewrite Hn. by apply list_elem_of_fmap_2.
    + rewrite lookup_insert_ne by done. set_solver.
  - intros y Hy. rewrite lookup_insert_ne; [apply Hfresh; set_solver|].
    intros Heq. destruct Hx. rewrite Heq. by apply list_elem_of_fmap_2.
Qed.

Section loops.
Context `{MapRange} `{Proto} `{DirectedGraphLaws}.
Context (fuel : nat) (float32_int64 float64_int64 : Z → Z).
Notation unwrap_int := (UnwrapInt64 fuel float32_int64 float64_int64).

(** The copy of the task for round [k]: from the second on it waits for the round before
    it, whose output it is given. *)
Definition repeated (t : TaskSpec) (prev : nat → TypedValue) (k : nat) : TaskSpec :=
  match k with
  | O => t
  | S j => TaskSpec_Input (TaskSpec_Require t (taskID (Z.of_nat j)) []) "_prev"
             (with_metadata (prev j) MetadataPriority "100")
  end.

Lemma repeat_task_repeated t prev k :
  (∀ j, k = S j → must_wrap fuel (VString (output_of (taskID (Z.of_nat j)))) = Ret (prev j)) →
  repeat_task fuel t (Z.of_nat k) = Ret (repeated t prev k).
Proof.
  intros Hp. unfold repeat_task. destruct k as [|j]; [done|].
  rewrite decide_True by lia. replace (Z.of_nat (S j) - 1)%Z with (Z.of_nat j) by lia.
  by rewrite (Hp j eq_refl).
Qed.

Lemma createRepeatTasks_spec t prev n :
  (∀ j, S j < n → must_wrap fuel (VString (output_of (taskID (Z.of_nat j)))) = Ret (prev j)) →
  ∃ tasks, createRepeatTasks fuel t (Z.of_nat n) = Ret tasks ∧
    ∀ id x, tasks !! id = Some x ↔
      ∃ k, k < n ∧ id = taskID (Z.of_nat k) ∧ x = Some (repeated t prev k).
Proof.
  intros Hp. unfold createRepeatTasks. rewrite Nat2Z.id. eexists. split.
  - apply (foldM_Ret _ (λ tasks k, <[taskID (Z.of_nat k) := Some (repeated t prev k)]> tasks)).
    intros tasks k Hk%elem_of_seq. rewrite (repeat_task_repeated t prev); [done|].
    intros j ->. apply Hp. lia.
  - intros id x. rewrite (foldl_insert_named (λ k, taskID (Z.of_nat k))).
    + rewrite lookup_empty. setoid_rewrite elem_of_seq. split; [intros [?|(k & ? & -> & ->)]; [done|exists k; split; [lia|done]]|intros (k & ? & -> & ->); right; exists k; split; [lia|done]].
    + apply (NoDup_fmap_2 _), NoDup_seq.
    + intros. apply lookup_empty.
Qed.

(** The number of the task [do_k], and a number above all of them for other names. *)
Definition round_of (n : nat) (id : string) : nat :=
  match list_find (λ k, taskID (Z.of_nat k) = id) (seq 0 n) with Some (k, _) => k | None => n end.

Lemma round_of_taskID n k : k < n → round_of n (taskID (Z.of_nat k)) = k.
Proof.
  intros Hk. unfold round_of.
  destruct (list_find_elem_of (λ j, taskID (Z.of_nat j) = taskID (Z.of_nat k)) (seq 0 n) k)
    as [[i j] Hf]; [by apply elem_of_seq; lia|done|].
  rewrite Hf. apply list_find_Some in Hf as (Hj & Heq & _).
  apply lookup_seq in Hj as [-> _]. by apply (inj (λ k : nat, taskID (Z.of_nat k))) in Heq.
Qed.

Lemma round_of_other n id : (∀ k, taskID (Z.of_nat k) ≠ id) → round_of n id = n.
Proof.
  intros Hid. unfold round_of. destruct (list_find _ _) as [[i j]|] eqn:Hf; [|done].
  apply list_find_Some in Hf as (_ & Heq & _). by destruct (Hid j).
Qed.

(** [repeat] with a positive number of times returns a workflow of exactly the tasks
    [do_0], ..., each a copy of the given task, that run one after the other: every task
    from the second on requires exactly the one before it and is given its output, and
    the output is that of the last.  The engine accepts this workflow: it passes the
    validation of workflows if the task names a function. *)
Theorem Repeat_chain (spec : TaskInvocationSpec) (timesTv doTv : TypedValue) (n : nat)
    (task : TaskSpec) (prev : nat → TypedValue) :
  TaskInvocationSpec_Inputs spec !! "times" = Some timesTv →
  unwrap_int (Some timesTv) = Ret (Z.of_nat n) → 0 < n →
  TaskInvocationSpec_Inputs spec !! "do" = Some doTv → UnwrapTask fuel (Some doTv) = Ret task →
  (∀ j, S j < n → must_wrap fuel (VString (output_of (taskID (Z.of_nat j)))) = Ret (prev j)) →
  ∃ wf, FunctionRepeat fuel float32_int64 float64_int64 spec =
      MustWrap fuel (VMessage (WorkflowSpecMessage wf)) ∧
    (∀ id x, WorkflowSpec_Tasks wf !! id = Some x ↔ ∃ k, k < n ∧ id = taskID (Z.of_nat k) ∧
       x = Some (repeated (TaskSpec_with_Requires task ∅) prev k)) ∧
    WorkflowSpec_OutputTask wf = taskID (Z.of_nat (n - 1)) ∧
    (TaskSpec_FunctionRef task ≠ "" → names_apart wf → validate_WorkflowSpec (Some wf) = Ret ()).
Proof.
  intros Ht Hn Hpos Hd Htask Hprev.
  destruct (createRepeatTasks_spec (TaskSpec_with_Requires task ∅) prev n Hprev) as (tasks & Hc & Hl).
  exists (MkWorkflowSpec "" tasks (taskID (Z.of_nat n - 1)) "" "" "" false). split_and!.
  - unfold FunctionRepeat. rewrite Ht, Hn, bind_Ret_l, Hd, Htask, bind_Ret_l, decide_True by lia.
    by rewrite Hc.
  - exact Hl.
  - cbn. f_equal. lia.
  - intros Hf Hh. apply (ranked_accepted _ (round_of n)); [|exact Hh].
    split; cbn [WorkflowSpec_ApiVersion WorkflowSpec_OutputTask WorkflowSpec_Tasks]; [done| | |].
    + eexists. apply Hl. exists (n - 1). split_and!; [lia|f_equal; lia|done].
    + destruct (tasks !! "") as [x|] eqn:Hx; [|done].
      apply Hl in Hx as (k & _ & Hk & _). by destruct (taskID_empty (Z.of_nat k)).
    + intros id x (k & Hk & -> & ->)%Hl. eexists. split; [done|]. split; [by destruct k|].
      intros dep p. destruct k as [|j]; cbn.
      { intros Hp. by rewrite lookup_empty in Hp. }
      intros Hp. apply lookup_insert_Some in Hp as [[<- <-]|[_ Hp]]; [|by rewrite lookup_empty in Hp].
      rewrite !round_of_taskID by lia. split; [done|]. split; [|lia].
      eexists. apply Hl. exists j. split; [lia|done].
Qed.

(** ** Foreach *)

(** The copy of the task for element [k]. *)
Definition element_task (t : TaskSpec) (sequential : bool) (k : nat) (item : TypedValue) : TaskSpec :=
  let t := TaskSpec_Input t "_item" (with_metadata item MetadataPriority "1000") in
  match k with
  | S j => if sequential then TaskSpec_Require t (taskID (Z.of_nat j)) [] else t
  | O => t
  end.

Lemma foreach_task_element (flow : Flow) t sequential k v item :
  Flow_Task flow = Some t → must_wrap fuel v = Ret item →
  foreach_task fuel flow sequential k v = Ret (Some (element_task t sequential k item)).
Proof.
  intros Ht Hv. unfold foreach_task. rewrite Hv, bind_Ret_l. cbn [Flow_Clone]. rewrite Ht.
  destruct k as [|j]; [by destruct sequential|].
  destruct sequential; cbn; [|done].
  by replace (Z.of_nat (S j) - 1)%Z with (Z.of_nat j) by lia.
Qed.

Lemma foreach_tasks_spec (flow : Flow) t sequential vs items k wf :
  Flow_Task flow = Some t → Forall2 (λ v item, must_wrap fuel v = Ret item) vs items →
  ∃ wf', foreach_tasks fuel flow sequential k vs wf = Ret wf' ∧
    WorkflowSpec_ApiVersion wf' = WorkflowSpec_ApiVersion wf ∧
    WorkflowSpec_OutputTask wf' = WorkflowSpec_OutputTask wf ∧
    ∀ id x, WorkflowSpec_Tasks wf' !! id = Some x ↔
      (∃ i item, items !! i = Some item ∧ id = taskID (Z.of_nat (k + i)) ∧
         x = Some (element_task t sequential (k + i) item)) ∨
      WorkflowSpec_Tasks wf !! id = Some x ∧ ∀ i, i < length items → id ≠ taskID (Z.of_nat (k + i)).
Proof.
  intros Ht HF. revert k wf. induction HF as [|v item vs items Hv HF IH]; intros k wf.
  { exists wf. split_and!; [done..|]. intros id x. cbn. split; [|intros [(i & ? & ? & _)|[? _]]; done].
    intros Hx. right. split; [done|lia]. }
  cbn [foreach_tasks]. rewrite (foreach_task_element flow t _ _ _ item), bind_Ret_l by done.
  destruct (IH (S k) (WorkflowSpec_AddTask wf (taskID (Z.of_nat k)) (Some (element_task t sequential k item))))
    as (wf' & -> & Hver & Hout & Hl).
  exists wf'. split_and!; [done..|]. intros id x. rewrite Hl. cbn [WorkflowSpec_Tasks WorkflowSpec_AddTask].
  assert (∀ i, S k + i = k + S i) as Hk by lia. split.
  - intros [(i & it & Hi & -> & ->)|[Hx Hne]].
    + left. exists (S i), it. rewrite Hk. done.
    + apply lookup_insert_Some in Hx as [[<- <-]|[Hid Hx]].
      * left. exists 0, item. rewrite Nat.add_0_r. done.
      * right. split; [done|]. intros [|i] Hi; [rewrite Nat.add_0_r; congruence|].
        rewrite <- Hk. apply Hne. cbn in Hi. lia.
  - intros [([|i] & it & Hi & -> & ->)|[Hx Hne]].
    + right. injection Hi as ->. rewrite Nat.add_0_r, lookup_insert_eq. split; [done|].
      intros i Hi Heq. apply (inj (λ k : nat, taskID (Z.of_nat k))) in Heq. lia.
    + left. exists i, it. rewrite Hk. done.
    + right. split.
      * rewrite lookup_insert_ne; [done|]. intros Heq. apply (Hne 0); [cbn; lia|].
        by rewrite Nat.add_0_r.
      * intros i Hi. rewrite Hk. apply Hne. cbn. lia.
Qed.

Lemma Require_lookup (names : list string) dep p :
  Require_ names !! dep = Some p ↔ p = None ∧ dep ∈ names.
Proof.
  unfold Require_, Requires_Add.
  assert (∀ m : gmap string (option TaskDependencyParameters),
    foldl (λ r v, <[v := None]> r) m names !! dep = Some p ↔
    (p = None ∧ dep ∈ names) ∨ (m !! dep = Some p ∧ dep ∉ names)) as Hall.
  { induction names as [|x names IH]; intros m; cbn; [set_solver|]. rewrite IH.
    destruct (decide (x = dep)) as [->|Hne];
      [rewrite lookup_insert_eq|rewrite lookup_insert_ne by done]; [|set_solver].
    destruct (decide (dep ∈ names)); set_solver. }
  rewrite Hall, lookup_empty. naive_solver.
Qed.

(** The workflow of a loop over [n] elements, up to its fields. *)
Lemma foreach_ranked (wf : WorkflowSpec) task sequential (items : list TypedValue) out :
  let ct := MkTaskSpec "compose" {[ InputMain := out ]}
    (Require_ (element_names (length items))) 0 None None None in
  WorkflowSpec_ApiVersion wf = "" → WorkflowSpec_OutputTask wf = "collector" →
  (∀ id x, WorkflowSpec_Tasks wf !! id = Some x ↔
    (∃ k item, items !! k = Some item ∧ id = taskID (Z.of_nat k) ∧
       x = Some (element_task task sequential k item)) ∨ id = "collector" ∧ x = Some ct) →
  TaskSpec_FunctionRef task ≠ "" → TaskSpec_Requires task = ∅ →
  ranked wf (round_of (length items)).
Proof.
  intros ct Hver Ho Hall Hf Hreq.
  assert (∀ k, k < length items → is_Some (WorkflowSpec_Tasks wf !! taskID (Z.of_nat k))) as Hin.
  { intros k Hk. destruct (lookup_lt_is_Some_2 items k Hk) as [item Hi].
    eexists. apply Hall. left. by exists k, item. }
  split; [exact Hver| | |].
  - rewrite Ho. eexists. apply Hall. by right.
  - destruct (_ !! "") as [x|] eqn:Hx; [|done].
    apply Hall in Hx as [(k & _ & _ & Hk & _)|[? _]]; [|done].
    by destruct (taskID_empty (Z.of_nat k)).
  - intros id x [(k & item & Hk & -> & ->)|[-> ->]]%Hall; eexists; (split; [done|]).
    + apply lookup_lt_Some in Hk as Hlt. split; [by destruct k, sequential|].
      intros dep p Hp. destruct k as [|j], sequential; cbn in Hp; rewrite Hreq in Hp;
        try by rewrite lookup_empty in Hp.
      apply lookup_insert_Some in Hp as [[<- <-]|[_ Hp]]; [|by rewrite lookup_empty in Hp].
      rewrite !round_of_taskID by lia. split_and!; [done|apply Hin; lia|lia].
    + split; [done|]. intros dep p [-> Hdep]%Require_lookup. split; [done|].
      apply list_elem_of_fmap in Hdep as (k & -> & Hk%elem_of_seq). split; [apply Hin; lia|].
      rewrite round_of_taskID by lia.
      rewrite round_of_other by (intros j; apply taskID_collector). lia.
Qed.

(** [foreach] over a list returns a workflow with one copy of the task per element, which
    is given the element, and a task [collector] that waits for all of them and puts
    their outputs, if they are to be collected, in the order of the list.  The copies run
    one after the other if the loop is sequential, and otherwise depend only on what the
    given task depends on.  The engine accepts the workflow if the task names a function
    and has no dependencies of its own. *)
Theorem Foreach_elements (spec : TaskInvocationSpec) (listTv doTv out : TypedValue) (vs : list gval)
    (items : list TypedValue) (flow : Flow) (task : TaskSpec) (collect sequential : bool) :
  let inputs := TaskInvocationSpec_Inputs spec in
  inputs !! "foreach" = Some listTv → Unwrap fuel (Some listTv) = Ret (VList vs) →
  inputs !! "do" = Some doTv → ValueType (Some doTv) = TypeTask →
  UnwrapControlFlow fuel (Some doTv) = Ret flow →
  Flow_Workflow flow = None → Flow_Task flow = Some task →
  bool_input fuel inputs "collect" true = Ret collect →
  bool_input fuel inputs "sequential" false = Ret sequential →
  Forall2 (λ v item, must_wrap fuel v = Ret item) vs items →
  must_wrap fuel (VList (if collect then (λ k, VString (output_of k)) <$> element_names (length vs)
                         else [])) = Ret out →
  ∃ wf, FunctionForeach fuel spec = Wrap fuel (VMessage (WorkflowSpecMessage wf)) ∧
    (∀ id x, WorkflowSpec_Tasks wf !! id = Some x ↔
      (∃ k item, items !! k = Some item ∧ id = taskID (Z.of_nat k) ∧
         x = Some (element_task task sequential k item)) ∨
      id = "collector" ∧ x = Some (MkTaskSpec "compose" {[ InputMain := out ]}
        (Require_ (element_names (length vs))) 0 None None None)) ∧
    WorkflowSpec_OutputTask wf = "collector" ∧
    (TaskSpec_FunctionRef task ≠ "" → TaskSpec_Requires task = ∅ → names_apart wf →
     validate_WorkflowSpec (Some wf) = Ret ()).
Proof.
  intros inputs Hl Hvs Hd Hty Hflow Hwf Ht Hc Hs HF Hout.
  destruct (foreach_tasks_spec flow task sequential vs items 0 (empty_workflow "collector") Ht HF)
    as (wf & Hfor & Hver & Ho & Htasks).
  set (ct := MkTaskSpec "compose" {[ InputMain := out ]} _ _ _ _ _).
  exists (WorkflowSpec_AddTask wf "collector" (Some ct)).
  assert (∀ id x, WorkflowSpec_Tasks (WorkflowSpec_AddTask wf "collector" (Some ct)) !! id = Some x ↔
      (∃ k item, items !! k = Some item ∧ id = taskID (Z.of_nat k) ∧
         x = Some (element_task task sequential k item)) ∨
      id = "collector" ∧ x = Some ct) as Hall.
  { intros id x. cbn [WorkflowSpec_Tasks WorkflowSpec_AddTask].
    destruct (decide (id = "collector")) as [->|Hne].
    - rewrite lookup_insert_eq. split; [intros [= <-]; by right|].
      intros [(k & ? & _ & Hid & _)|[_ ->]]; [by destruct (taskID_collector (Z.of_nat k))|done].
    - rewrite lookup_insert_ne, Htasks by done. cbn. rewrite lookup_empty. naive_solver. }
  split_and!; [|exact Hall|by cbn; rewrite Ho|].
  - unfold FunctionForeach, ensureInput. fold inputs. rewrite Hl, decide_True, bind_Ret_l by done.
    rewrite Hvs, bind_Ret_l, Hd. rewrite decide_False by done.
    rewrite decide_True by (rewrite Hty; set_solver). rewrite bind_Ret_l, Hflow, bind_Ret_l.
    rewrite decide_False by (rewrite Hwf; auto). rewrite Hc, bind_Ret_l, Hs, bind_Ret_l, Hfor, bind_Ret_l.
    unfold collector. by rewrite Hout.
  - intros Hf Hreq Hh. pose proof (Forall2_length _ _ _ HF) as Hlen.
    apply (ranked_accepted _ (round_of (length items))); [|exact Hh].
    apply (foreach_ranked _ task sequential items out); [by cbn; rewrite Hver|by cbn; rewrite Ho| |done..].
    rewrite <- Hlen. exact Hall.
Qed.
End loops.

(** ** While *)

Section while.
Context `{MapRange} `{Proto}.
Context (fuel : nat) (ParseDuration : string → option Z) (Duration_String : Z → string).
Context (float32_int64 float64_int64 : Z → Z).
Notation unwrap_int := (UnwrapInt64 (S fuel) float32_int64 float64_int64).
Notation while := (FunctionWhile (S fuel) ParseDuration Duration_String float32_int64 float64_int64).

(** What the codec serializes it can read back. *)
Context (faithful : ∀ m b, marshal m = Some b → wire m).

(** The output is a workflow whose output task is [condition]. *)
Definition continues (out : option TypedValue) (condition : TaskSpec) : Prop :=
  ∃ wf, Unwrap (S fuel) out = Ret (VMessage (WorkflowSpecMessage wf)) ∧
    WorkflowSpec_Tasks wf !! WorkflowSpec_OutputTask wf = Some (Some condition).

(** The value of the condition of the loop. *)
Definition while_condition (spec : TaskInvocationSpec) (b : bool) : Prop :=
  ∃ exprTv, TaskInvocationSpec_Inputs spec !! "expr" = Some exprTv ∧
    UnwrapBool (S fuel) (Some exprTv) = Ret b.

(** [n] rounds of a loop: in each the condition holds, the function returns a workflow, and
    the [condition] task of that workflow is run with its limit and its count. *)
Inductive while_rounds : TaskInvocationSpec → nat → Prop :=
| while_start spec : while_rounds spec 0
| while_round spec spec' out condition n :
    while_condition spec true → while spec = Ret out → continues out condition →
    (∀ key, key = "limit" ∨ key = "_count" →
       TaskInvocationSpec_Inputs spec' !! key = TaskSpec_Inputs condition !! key) →
    while_rounds spec' n → while_rounds spec (S n).

Lemma seal_faithful msg tv : seal msg = Ret tv → UnwrapProto tv = Ret msg.
Proof.
  unfold seal, marshalAny. destruct (marshal msg) as [b|] eqn:Hb; simpl; [|done]. intros [= <-].
  unfold UnwrapProto. simpl.
  change (TypeUrlPrefix +:+ MessageName msg) with ("types.fission.io" +:+ "/" +:+ MessageName msg).
  by rewrite (unmarshal_marshal "types.fission.io" msg b (faithful _ _ Hb) Hb).
Qed.

Lemma wrap_workflow_faithful wf out :
  Wrap (S fuel) (VMessage (WorkflowSpecMessage wf)) = Ret out →
  Unwrap (S fuel) out = Ret (VMessage (WorkflowSpecMessage wf)).
Proof.
  cbn [Wrap leaf_message]. intros Hw. bind_inv Hw as tv Htv. injection Hw as <-.
  cbn [Unwrap]. by rewrite (seal_faithful _ _ Htv).
Qed.

Lemma must_wrap_int64 n tv :
  must_wrap (S fuel) (VInt64 n) = Ret tv → UnwrapProto tv = Ret (Int64Value n).
Proof.
  unfold must_wrap, MustWrap. cbn [Wrap leaf_message]. intros Hw. bind_inv Hw as o Ho.
  destruct o as [tv'|]; [injection Hw as ->|done].
  destruct (seal (Int64Value n)) as [s| |] eqn:Hs; [|done|done].
  injection Ho as ->. by apply seal_faithful.
Qed.

Lemma wrap_err_Ret {A} s (m : res goerror A) a : wrap_err s m = Ret a → m = Ret a.
Proof. by destruct m. Qed.

(** The output task of a round carries the limit and the next count. *)
Lemma while_workflow_condition action exprSrcTv delayTv limitTv countTv prevTv delay :
  let wf := while_workflow action exprSrcTv delayTv limitTv countTv prevTv delay in
  ∃ condition, WorkflowSpec_Tasks wf !! WorkflowSpec_OutputTask wf = Some (Some condition) ∧
    TaskSpec_Inputs condition !! "limit" = Some limitTv ∧
    TaskSpec_Inputs condition !! "_count" = Some countTv.
Proof.
  eexists. cbn. split; [case_decide; reflexivity|]. split; reflexivity.
Qed.

(** The arguments of a round of the loop. *)
Definition while_at (spec : TaskInvocationSpec) (limit count : Z) : Prop :=
  (∃ limitTv, TaskInvocationSpec_Inputs spec !! "limit" = Some limitTv ∧
     unwrap_int (Some limitTv) = Ret limit) ∧
  count_input (S fuel) float32_int64 float64_int64 (TaskInvocationSpec_Inputs spec) = Ret count.

Lemma while_round_next spec spec' out condition limit count :
  while_at spec limit count → while_condition spec true → while spec = Ret out →
  continues out condition →
  (∀ key, key = "limit" ∨ key = "_count" →
     TaskInvocationSpec_Inputs spec' !! key = TaskSpec_Inputs condition !! key) →
  (count < limit)%Z ∧ while_at spec' limit (to_i64 (count + 1)).
Proof.
  intros [(limitTv & Hl & Hlimit) Hcount] (exprTv & He & Hb) Hw (wf & Hwf & Hc) Hspec'.
  unfold FunctionWhile in Hw. bind_inv Hw as exprTv' He'.
  unfold ensureInput in He'. rewrite He in He'.
  assert (exprTv' = exprTv) as -> by (repeat case_decide; by simplify_eq).
  clear He'. rewrite Hb in Hw. cbn [wrap_err] in Hw. rewrite bind_Ret_l in Hw.
  destruct (GetMetadataValue _ _) as [src []]; [|done].
  bind_inv Hw as exprSrcTv Hsrc. bind_inv Hw as limitTv' Hl'.
  unfold ensureInput in Hl'. rewrite Hl in Hl'.
  assert (limitTv' = limitTv) as -> by (repeat case_decide; by simplify_eq).
  clear Hl'. rewrite Hlimit in Hw. cbn [wrap_err] in Hw. rewrite bind_Ret_l, Hcount, bind_Ret_l in Hw.
  bind_inv Hw as delay Hdelay. bind_inv Hw as delayTv HdelayTv. bind_inv Hw as action Haction.
  cbn [negb] in Hw. case_decide as Hlt; [done|].
  bind_inv Hw as prevTv Hprev. bind_inv Hw as countTv HcountTv.
  bind_inv Hw as o Ho. bind_inv Hw as action' Ha. bind_inv Hw as exprSrcTv' Hs.
  apply wrap_err_Ret, wrap_workflow_faithful in Hw. rewrite Hwf in Hw. injection Hw as ->.
  destruct (while_workflow_condition action' exprSrcTv' delayTv limitTv
    (with_metadata countTv MetadataPriority "100") (with_metadata prevTv MetadataPriority "100") delay)
    as (c' & Hc' & Hcl & Hcc).
  rewrite Hc in Hc'. injection Hc' as <-.
  split; [lia|]. split.
  - exists limitTv. rewrite Hspec' by auto. by rewrite Hcl.
  - unfold count_input. rewrite Hspec' by auto. rewrite Hcc.
    unfold UnwrapInt64. cbn [Unwrap]. unfold with_metadata, UnwrapProto.
    apply must_wrap_int64 in HcountTv. unfold UnwrapProto in HcountTv.
    cbn [TypedValue_Value]. destruct (unmarshal_any _); [|done]. injection HcountTv as ->. done.
Qed.

End while.

(** ** Switch *)

Section switch.
Context `{MapRange} `{Proto} (fuel : nat).

(** An element of [cases]: its key and its wrapped action, [nil] if there is none. *)
Definition is_case (c : gval) (case : string * option TypedValue) : Prop :=
  ∃ m, c = VMap m ∧ m !! "case" = Some (VString case.1) ∧
    Wrap fuel (default VNil (m !! "action")) = Ret case.2.

(** The last case with the key, if any. *)
Definition select_case (key : string) (dflt : option TypedValue)
    (cases : list (string * option TypedValue)) : option TypedValue :=
  foldl (λ found case, if decide (case.1 = key) then case.2 else found) dflt cases.

Definition case_table (m : gmap string (option TypedValue)) (cases : list (string * option TypedValue)) :=
  foldl (λ m case, <[case.1 := case.2]> m) m cases.

Lemma case_table_select key dflt cases m :
  match case_table m cases !! key with Some tv => tv | None => dflt end =
  select_case key (match m !! key with Some tv => tv | None => dflt end) cases.
Proof.
  unfold case_table, select_case. revert m. induction cases as [|[k tv] cases IH]; intros m; [done|].
  cbn [foldl fst snd]. rewrite IH. case_decide as Hk; cbn in Hk.
  - by rewrite Hk, lookup_insert_eq.
  - by rewrite lookup_insert_ne.
Qed.

Lemma getCases_table inputs casesTv l cases :
  inputs !! "cases" = Some casesTv → UnwrapArray fuel (Some casesTv) = Ret l →
  Forall2 is_case l cases →
  getCases fuel inputs = Ret (case_table ∅ cases, inputs !! "default").
Proof.
  intros Hc Hl HF. unfold getCases. rewrite Hc, Hl, bind_Ret_l.
  assert (∀ m, foldM (λ (cases : gmap string (option TypedValue)) c,
      match c with
      | VMap m =>
          tva ← Wrap fuel (default VNil (m !! "action"));
          match m !! "case" with
          | None => Throw (ErrNew "case in switch does not have a key")
          | Some (VString key) => Ret (<[key := tva]> cases)
          | Some _ => Throw (ErrNew "case key should be a string")
          end
      | _ => Throw (ErrNew "invalid case provided")
      end) m l = Ret (case_table m cases)) as ->; [|done].
  clear Hl. induction HF as [|c case l cases (mc & -> & Hk & Ha) _ IH]; intros m; [done|].
  cbn [foldM]. rewrite Ha, bind_Ret_l, Hk, bind_Ret_l. apply IH.
Qed.

(** [switch] returns the action of the last case whose key is the value, and the default,
    or nothing, if there is none. *)
Theorem Switch_selects (spec : TaskInvocationSpec) (valueTv casesTv : TypedValue) (key : string)
    (l : list gval) (cases : list (string * option TypedValue)) :
  let inputs := TaskInvocationSpec_Inputs spec in
  inputs !! "switch" = Some valueTv → UnwrapString fuel (Some valueTv) = Ret key →
  inputs !! "cases" = Some casesTv → UnwrapArray fuel (Some casesTv) = Ret l →
  Forall2 is_case l cases →
  FunctionSwitch fuel spec = Ret (select_case key (inputs !! "default") cases).
Proof.
  intros inputs Hv Hk Hc Hl HF. unfold FunctionSwitch, getSwitch, ensureInput. fold inputs.
  rewrite Hv, decide_True, bind_Ret_l, Hk, bind_Ret_l by done.
  rewrite (getCases_table inputs casesTv l cases), bind_Ret_l by done.
  pose proof (case_table_select key (inputs !! "default") cases ∅) as Hs.
  rewrite lookup_empty in Hs. rewrite <- Hs. by destruct (case_table ∅ cases !! key).
Qed.
End switch.

(** ** The runtime *)

Section native.
Context `{PTypes} `{MapRange}.

(** The runtime of the native functions contains their failures.  It never panics.  For
    a valid task run of a registered function it answers a successful status with the
    output, a failed status with the message of the function's error, or neither a
    status nor an error, which is the case exactly when the function panicked. *)
Theorem FunctionEnv_Invoke_contains (fe : FunctionEnv) (now : Z) (error_text : goerror → string)
    (spec : TaskInvocationSpec) (ref : FnRef) (fn : InternalFunction) :
  (∀ spec, no_panic (FunctionEnv_Invoke fe now error_text spec)) ∧
  (validate_TaskInvocationSpec (Some spec) = None → TaskInvocationSpec_FnRef spec = Some ref →
   let answer out := Ret (Some (MkTaskInvocationStatus TaskInvocationStatus_SUCCEEDED
                            (Some (pt_TimestampNow now)) out None None)) in
   let invoke fe := FunctionEnv_Invoke fe now error_text (Some spec) in
   let fe' := RegisterFn fe (FnRef_ID ref) fn in
   (∀ out, invoke fe' = answer out ↔ fn spec = Ret out) ∧
   (∀ msg, invoke fe' = Ret (Some (MkTaskInvocationStatus TaskInvocationStatus_FAILED
        (Some (pt_TimestampNow now)) None (Some (MkError msg)) None)) ↔
      ∃ err, fn spec = Throw err ∧ error_text err = msg) ∧
   (invoke fe' = Ret None ↔ ∃ why, fn spec = Panic why) ∧
   (FunctionEnv_Resolve fe' ref = Ret (FnRef_ID ref)) ∧
   (∀ err, FunctionEnv_Resolve fe ref = Throw err → invoke fe = Throw err)).
Proof.
  split.
  { intros s. unfold FunctionEnv_Invoke. cbv zeta.
    match goal with |- no_panic (match ?run with _ => _ end) => by destruct run end. }
  intros Hv Hr answer invoke fe'.
  assert (invoke fe' = match fn spec with
    | Throw err => Ret (Some (MkTaskInvocationStatus TaskInvocationStatus_FAILED
        (Some (pt_TimestampNow now)) None (Some (MkError (error_text err))) None))
    | Panic _ => Ret None | Ret out => answer out end) as Hi.
  { unfold invoke, FunctionEnv_Invoke, fe', RegisterFn. rewrite Hv. cbn [deref]. rewrite bind_Ret_l, Hr.
    cbn [deref fns]. rewrite bind_Ret_l, lookup_insert_eq. by destruct (fn spec). }
  split_and!.
  - intros out. rewrite Hi. unfold answer. destruct (fn spec); naive_solver.
  - intros msg. rewrite Hi. unfold answer. destruct (fn spec); naive_solver.
  - rewrite Hi. unfold answer. destruct (fn spec); naive_solver.
  - unfold FunctionEnv_Resolve, fe', RegisterFn. cbn [fns]. by rewrite lookup_insert_eq.
  - intros err. unfold FunctionEnv_Resolve, invoke, FunctionEnv_Invoke. rewrite Hv. cbn [deref].
    rewrite bind_Ret_l, Hr. cbn [deref]. rewrite bind_Ret_l.
    destruct (fns fe !! FnRef_ID ref); [discriminate|]. by intros [= <-].
Qed.
End native.
