(* ===== verification/NetFns.v ===== *)
(** Components [pkg/fnenv/native/builtin], the functions that leave the process or run other code:
    requests over HTTP and JavaScript; and [pkg/fnenv], its options and the mocked
    runtime of the tests. *)

From stdpp Require Import base gmap strings list.
From S2P Require Import Prelude Data Types TypedValues FnRefs NetHttp MediaType Httpconv Remote Builtins.

(** ** The function [http] *)

Section http_function.
Context `{MapRange} `{Proto} `{PTypes} `{Rfc2231} `{Codecs} `{Fmt} (fuel : nat).
Context (parse_literal : string → option string).
Context (client_Do : nat → Sent → res goerror ClientResponse) (left : nat → string → string) (granted : Z → nat).

Definition spec_with_ref (spec : TaskInvocationSpec) (fnref : FnRef) : TaskInvocationSpec :=
  MkTaskInvocationSpec (Some fnref) (TaskInvocationSpec_TaskId spec) (TaskInvocationSpec_Inputs spec)
    (TaskInvocationSpec_InvocationId spec) (TaskInvocationSpec_Task spec) (TaskInvocationSpec_Deadline spec).

(** The error of a failed request is the one in its status. *)
(** [pkg/fnenv/native/builtin/http.go:66-87] FunctionHTTP.Invoke *)
Definition FunctionHTTP (spec : TaskInvocationSpec) : st (list Sent) goerror (option TypedValue) :=
  targetUrl ← lift (determineTargetURL fuel (TaskInvocationSpec_Inputs spec));
  fnref ← lift (ParseFnRef parse_literal targetUrl);
  let clonedSpec := spec_with_ref spec fnref in
  result ← http_Invoke fuel parse_literal client_Do left granted (Some clonedSpec);
  if decide (TaskInvocationStatus_Status_ result = TaskInvocationStatus_FAILED)
  then throw (ErrFmt (default "" (Error_Message <$> TaskInvocationStatus_Error result)))
  else mret (TaskInvocationStatus_Output result).
End http_function.

(** ** The function [javascript] *)

Section javascript.
Context `{MapRange} `{Proto} (fuel : nat).

(** The JavaScript engine: setting a variable, and what running a program comes to.  [JsTimeOut]: it
    was interrupted. *)
Context (vm : Type) (js_Copy : vm → vm) (js_Set : string → gval → vm → goerror + vm).
Inductive js_result := JsResult (i : gval) | JsError (err : goerror) | JsTimeOut | JsPanic (why : string).
Context (js_Run : string → vm → js_result).

Definition set_var (scoped : vm) (key : string) (arg : gval) : res goerror vm :=
  match js_Set key arg scoped with inl err => Throw err | inr scoped => Ret scoped end.

(** The panic of a time-out is recovered, and the results are not named: they are the zero values, and
    the time-out is not an error. *)
(** [pkg/fnenv/native/builtin/javascript.go:91-129] FunctionJavascript.exec *)
Definition js_exec (engine : vm) (expr : string) (args : gval) : res goerror gval :=
  let scoped := js_Copy engine in
  scoped ← match args with
           | VMap t => foldM (λ scoped '(key, arg), set_var scoped key arg) scoped (range 0 t)
           | t => set_var scoped "arg" t
           end;
  match js_Run expr scoped with
  | JsResult i => Ret i
  | JsError err => Throw err
  | JsTimeOut => Ret VNil
  | JsPanic why => Panic why
  end.

(** [pkg/fnenv/native/builtin/javascript.go:65-89] FunctionJavascript.Invoke *)
Definition FunctionJavascript (engine : vm) : InternalFunction := λ spec,
  exprVal ← ensureInput (TaskInvocationSpec_Inputs spec) "expr" [TypeString];
  expr ← UnwrapString fuel (Some exprVal);
  args ← Unwrap fuel (TaskInvocationSpec_Inputs spec !! "args");
  result ← js_exec engine expr args;
  tv ← Wrap fuel result;
  Ret tv.
End javascript.

(** ** pkg/fnenv *)

(** [pkg/fnenv/fnenv.go:111-114] InvokeConfig *)
Record InvokeConfig (C : Type) := MkInvokeConfig { Config_Ctx : C; Config_AwaitWorkflow : Z }.
Arguments MkInvokeConfig {C}. Arguments Config_Ctx {C}. Arguments Config_AwaitWorkflow {C}.

(** [pkg/fnenv/fnenv.go:116-116] InvokeOption *)
Definition InvokeOption (C : Type) : Type := InvokeConfig C → InvokeConfig C.

(** [pkg/fnenv/fnenv.go:118-128] ParseInvokeOptions *)
Definition ParseInvokeOptions {C} (background : C) (opts : list (InvokeOption C)) : InvokeConfig C :=
  foldl (λ cfg opt, opt cfg) (MkInvokeConfig background 0) opts.

(** [pkg/fnenv/fnenv.go:130-134] AwaitWorkflow *)
Definition AwaitWorkflow {C} (timeout : Z) : InvokeOption C := λ config, MkInvokeConfig (Config_Ctx config) timeout.

(** [pkg/fnenv/fnenv.go:136-140] WithContext *)
Definition WithContext {C} (ctx : C) : InvokeOption C := λ config, MkInvokeConfig ctx (Config_AwaitWorkflow config).

(** The last option of each kind decides. *)
Lemma ParseInvokeOptions_last {C} (background ctx : C) (timeout : Z) (opts : list (InvokeOption C)) :
  Config_Ctx (ParseInvokeOptions background (opts ++ [WithContext ctx])) = ctx ∧
  Config_AwaitWorkflow (ParseInvokeOptions background (opts ++ [AwaitWorkflow timeout])) = timeout.
Proof. unfold ParseInvokeOptions. by rewrite !foldl_app. Qed.

(** ** pkg/fnenv/mock *)

Section mock.
Notation MockFunc := (TaskInvocationSpec → res goerror (option TypedValue)).

(** The runtime with its functions; the results are shared pointers, updated in place. *)
(** [pkg/fnenv/mock/mock.go:26-30] Runtime *)
Record MockRuntime := MkMockRuntime {
  Functions : gmap string MockFunc;
  AsyncResults : gmap string TaskInvocation;
  ManualExecution : bool }.

(** [pkg/fnenv/mock/mock.go:32-37] NewRuntime *)
Definition MockNewRuntime : MockRuntime := MkMockRuntime ∅ ∅ false.

Context (now : option Timestamp).
Notation M := (st MockRuntime goerror).

Definition mock_status (s : TaskInvocationStatus_Status) (output : option TypedValue) : TaskInvocationStatus :=
  MkTaskInvocationStatus s now output None None.

Definition put_status (id : string) (invocation : TaskInvocation) (status : TaskInvocationStatus) : M () :=
  modifyS (λ mk, MkMockRuntime (Functions mk)
    (<[id := MkTaskInvocation (TaskInvocation_Metadata invocation) (TaskInvocation_Spec invocation) (Some status)]> (AsyncResults mk))
    (ManualExecution mk)).

Definition unknown_invocation {A} : M A := throw (ErrFmt "could not invoke unknown invocation").

(** [pkg/fnenv/mock/mock.go:69-98] Runtime.MockComplete *)
Definition MockComplete (fnInvocationID : string) : M () :=
  mk ← getS;
  match AsyncResults mk !! fnInvocationID with
  | None => unknown_invocation
  | Some invocation =>
      spec ← lift (deref (TaskInvocation_Spec invocation));
      fnRef ← lift (deref (TaskInvocationSpec_FnRef spec));
      match Functions mk !! FnRef_ID fnRef with
      | None => throw (ErrFmt "could not invoke unknown function")
      | Some fn =>
          match fn spec with
          | Panic w => lift (Panic w)
          | Throw _ => put_status fnInvocationID invocation (mock_status TaskInvocationStatus_FAILED None)
          | Ret result => put_status fnInvocationID invocation (mock_status TaskInvocationStatus_SUCCEEDED result)
          end
      end
  end.

(** [pkg/fnenv/mock/mock.go:39-67] Runtime.InvokeAsync *)
Definition MockInvokeAsync (uid : string) (spec : TaskInvocationSpec) : M string :=
  fnRef ← lift (deref (TaskInvocationSpec_FnRef spec));
  mk ← getS;
  match Functions mk !! FnRef_ID fnRef with
  | None => throw (ErrFmt "could not invoke unknown function")
  | Some _ =>
      _ ← modifyS (λ mk, MkMockRuntime (Functions mk)
        (<[uid := MkTaskInvocation (Some (MkObjectMetadata uid "" now 0)) (Some spec)
                    (Some (mock_status TaskInvocationStatus_IN_PROGRESS None))]> (AsyncResults mk)) (ManualExecution mk));
      _ ← (if ManualExecution mk then mret () else catch (MockComplete uid) (λ _, lift (Panic "error")));
      mret uid
  end.

(** [pkg/fnenv/mock/mock.go:130-137] Runtime.Status *)
Definition MockStatus (fnInvocationID : string) : M (option TaskInvocationStatus) :=
  mk ← getS;
  match AsyncResults mk !! fnInvocationID with
  | None => unknown_invocation
  | Some invocation => mret (TaskInvocation_Status invocation)
  end.

(** [pkg/fnenv/mock/mock.go:100-113] Runtime.Invoke *)
Definition MockInvoke (uid : string) (spec : TaskInvocationSpec) : M (option TaskInvocationStatus) :=
  invocationID ← MockInvokeAsync uid spec;
  _ ← MockComplete invocationID;
  MockStatus invocationID.

(** [pkg/fnenv/mock/mock.go:115-128] Runtime.Cancel *)
Definition MockCancel (fnInvocationID : string) : M () :=
  mk ← getS;
  match AsyncResults mk !! fnInvocationID with
  | None => unknown_invocation
  | Some invocation => put_status fnInvocationID invocation (mock_status TaskInvocationStatus_ABORTED None)
  end.

(** [pkg/fnenv/mock/mock.go:150-157] Resolver.Resolve *)
Definition MockResolve (FnNameIDs : gmap string string) (ref : FnRef) : res goerror string :=
  match FnNameIDs !! FnRef_ID ref with
  | None => Throw (ErrFmt "could not resolve function")
  | Some fnID => Ret fnID
  end.

(** An invocation of a mocked function reports what the function does: its output, or that it
    failed; never the error itself. *)
Lemma MockInvoke_reports uid spec fnRef (fn : MockFunc) mk :
  TaskInvocationSpec_FnRef spec = Some fnRef → Functions mk !! FnRef_ID fnRef = Some fn →
  (∀ s, no_panic (fn s)) →
  (MockInvoke uid spec mk).1 = Ret (Some (match fn spec with
    | Ret output => mock_status TaskInvocationStatus_SUCCEEDED output
    | _ => mock_status TaskInvocationStatus_FAILED None end)).
Proof.
  intros Href Hfn Hnp. specialize (Hnp spec).
  assert (∀ mk' inv, Functions mk' = Functions mk → AsyncResults mk' !! uid = Some inv → TaskInvocation_Spec inv = Some spec →
    MockComplete uid mk' = put_status uid inv (match fn spec with
      | Ret output => mock_status TaskInvocationStatus_SUCCEEDED output
      | _ => mock_status TaskInvocationStatus_FAILED None end) mk') as Hcomplete.
  { intros mk' inv Hf Hi Hs. unfold MockComplete, getS, mbind, st_bind. rewrite Hi, Hs. cbn [deref lift]. rewrite Href.
    cbn [deref lift]. rewrite Hf, Hfn. by destruct (fn spec). }
  unfold MockInvoke, MockInvokeAsync. rewrite Href. cbn [deref]. unfold mbind, st_bind, lift, getS. cbn beta iota. rewrite Hfn.
  unfold modifyS. set (mk1 := MkMockRuntime _ _ _). destruct (ManualExecution mk).
  - cbn [mret st_ret]. erewrite (Hcomplete mk1); [|done|by apply lookup_insert_eq|done].
    unfold put_status, modifyS, MockStatus, getS, mbind, st_bind. cbn. by rewrite lookup_insert_eq.
  - unfold catch. erewrite (Hcomplete mk1); [|done|by apply lookup_insert_eq|done].
    unfold put_status, modifyS. cbn [mret st_ret]. set (mk2 := MkMockRuntime _ _ _).
    erewrite (Hcomplete mk2); [|done|by apply lookup_insert_eq|done].
    unfold put_status, modifyS, MockStatus, getS, mbind, st_bind. cbn. by rewrite lookup_insert_eq.
Qed.
End mock.
