(* ===== verification/WorkQueue.v ===== *)
(** Component [pkg/util/workqueue]: the deduplicating work queue the control system
    and the task executor share, and the queue that delays its items.  Methods run
    under the queue's mutex, so each is one atomic step. *)

From stdpp Require Import base gmap list sorting.
From S2P Require Import Prelude.

(** ** Items *)

(** An item of the queue: the [ID()] of an [Identifier] ([None] when the item is not
    one, or when its [ID()] is [nil]), and the identity of the item itself. *)
Class Item (V I : Type) := { item_ID : V → option I; item_addr : V → Z }.

Section workqueue.
Context {V I : Type} `{Countable I} `{Item V I}.
Implicit Types (item : V).

(** A key is an identifier, or the item itself. *)
Definition key : Type := I + Z.

(** [pkg/util/workqueue/workqueue.go:177-183] getKey *)
Definition getKey item : key :=
  match item_ID item with Some id => inl id | None => inr (item_addr item) end.

(** ** The queue *)

(** [pkg/util/workqueue/workqueue.go:56-77] Type *)
Record WorkQueue := MkWorkQueue {
  MaxSize : Z;
  Replace : bool;
  queue : list key;
  dirty : gmap key V;
  processing : gmap key V;
  shuttingDown : bool }.
Implicit Types q : WorkQueue.

(** [pkg/util/workqueue/workqueue.go:40-48] NewWorkQueue *)
Definition NewWorkQueue (maxSize : Z) (replace : bool) : WorkQueue :=
  MkWorkQueue maxSize replace [] ∅ ∅ false.

(** [pkg/util/workqueue/workqueue.go:36-38] NewNamed *)
Definition NewNamed (maxSize : Z) : WorkQueue := NewWorkQueue maxSize false.

Definition set_queue (l : list key) q : WorkQueue :=
  MkWorkQueue (MaxSize q) (Replace q) l (dirty q) (processing q) (shuttingDown q).
Definition set_dirty (d : gmap key V) q : WorkQueue :=
  MkWorkQueue (MaxSize q) (Replace q) (queue q) d (processing q) (shuttingDown q).
Definition set_processing (p : gmap key V) q : WorkQueue :=
  MkWorkQueue (MaxSize q) (Replace q) (queue q) (dirty q) p (shuttingDown q).

(** [pkg/util/workqueue/workqueue.go:80-107] Type.Add *)
Definition Add item q : bool * WorkQueue :=
  if shuttingDown q then (false, q) else
  let key := getKey item in
  match dirty q !! key with
  | Some _ => (true, if Replace q then set_dirty (<[key := item]> (dirty q)) q else q)
  | None =>
      if decide (MaxSize q ≤ Z.of_nat (length (queue q)))%Z then (false, q) else
      let q := set_dirty (<[key := item]> (dirty q)) q in
      match processing q !! key with
      | Some _ => (true, q)
      | None => (true, set_queue (queue q ++ [key]) q)
      end
  end.

(** [pkg/util/workqueue/workqueue.go:112-116] Type.Len *)
Definition Len q : nat := length (queue q).

(** What [Get] does: wait, report the shutdown, or hand out an item ([nil] for a key
    that is not dirty). *)
Inductive got :=
| GetWaits
| GetShutdown
| GetItem (item : option V) (q : WorkQueue).

(** [pkg/util/workqueue/workqueue.go:121-139] Type.Get *)
Definition Get q : got :=
  match queue q with
  | [] => if shuttingDown q then GetShutdown else GetWaits
  | key :: rest =>
      let item := dirty q !! key in
      let q := set_queue rest q in
      let q := match item with
               | Some item => set_processing (<[key := item]> (processing q)) q
               | None => q
               end in
      GetItem item (set_dirty (delete key (dirty q)) q)
  end.

(** [pkg/util/workqueue/workqueue.go:144-154] Type.Done *)
Definition Done item q : WorkQueue :=
  let key := getKey item in
  let q := set_processing (delete key (processing q)) q in
  match dirty q !! key with
  | Some _ => set_queue (queue q ++ [key]) q
  | None => q
  end.

(** [pkg/util/workqueue/workqueue.go:159-164] Type.ShutDown *)
Definition ShutDown q : WorkQueue :=
  MkWorkQueue (MaxSize q) (Replace q) (queue q) (dirty q) (processing q) true.

(** [pkg/util/workqueue/workqueue.go:166-171] Type.ShuttingDown *)
Definition ShuttingDown q : bool := shuttingDown q.

(** ** Use by [n] workers *)

(** Producers add items; a worker that has no item asks for one, and reports the one
    it has as done.  [step n q item q'] hands [item] to a worker. *)
Inductive step (n : nat) : WorkQueue → option V → WorkQueue → Prop :=
| step_Add q item : step n q None (Add item q).2
| step_Get q item q' :
    size (processing q) < n → Get q = GetItem (Some item) q' → step n q (Some item) q'
| step_Done q item : processing q !! getKey item = Some item → step n q None (Done item q)
| step_ShutDown q : step n q None (ShutDown q).

(** The items handed out on the way from one state to another. *)
Inductive steps (n : nat) : WorkQueue → list V → WorkQueue → Prop :=
| steps_refl q : steps n q [] q
| steps_step q o q1 l q2 :
    step n q o q1 → steps n q1 l q2 → steps n q (option_list o ++ l) q2.

(** The states of a new queue used by [n] workers. *)
Definition reachable (n : nat) (maxSize : Z) (replace : bool) q : Prop :=
  ∃ l, steps n (NewWorkQueue maxSize replace) l q.

(** The invariant of the comments at the fields, and the size of the dirty set. *)
Record queue_ok (n : nat) q : Prop := {
  ok_nodup : NoDup (queue q);
  ok_queue : ∀ k, k ∈ queue q ↔ is_Some (dirty q !! k) ∧ processing q !! k = None;
  ok_dirty : ∀ k item, dirty q !! k = Some item → getKey item = k;
  ok_processing : ∀ k item, processing q !! k = Some item → getKey item = k;
  ok_workers : size (processing q) ≤ n;
  ok_size : (Z.of_nat (size (dirty q)) ≤ Z.max 0 (MaxSize q) + Z.of_nat n)%Z }.


(** ** What each operation does *)

Lemma Add_fields item q :
  MaxSize (Add item q).2 = MaxSize q ∧ Replace (Add item q).2 = Replace q ∧
  processing (Add item q).2 = processing q ∧ shuttingDown (Add item q).2 = shuttingDown q ∧
  queue q `prefix_of` queue (Add item q).2.
Proof.
  unfold Add. destruct (shuttingDown q) eqn:Hs; [split_and!; done || reflexivity|].
  destruct (dirty q !! getKey item); [destruct (Replace q) eqn:Hr; split_and!; done || reflexivity|].
  case_decide; [split_and!; done || reflexivity|]. simpl.
  destruct (processing q !! getKey item); simpl; split_and!; try (done || reflexivity).
  by apply prefix_app_r.
Qed.

(** The dirty set after an addition. *)
Lemma Add_dirty item q k :
  dirty (Add item q).2 !! k =
  if decide (k = getKey item ∧ (Add item q).1 = true ∧ (Replace q = true ∨ dirty q !! k = None))
  then Some item else dirty q !! k.
Proof.
  unfold Add. destruct (shuttingDown q); [by rewrite decide_False by naive_solver|].
  destruct (dirty q !! getKey item) as [old|] eqn:Hold.
  - destruct (Replace q); simpl.
    + destruct (decide (k = getKey item)) as [->|Hne].
      * by rewrite lookup_insert_eq, decide_True by naive_solver.
      * by rewrite lookup_insert_ne, decide_False by naive_solver.
    + rewrite decide_False; [done|]. intros (-> & _ & [?|?]); congruence.
  - case_decide; [by rewrite decide_False by naive_solver|].
    assert (∀ l, dirty (set_queue l (set_dirty (<[getKey item:=item]> (dirty q)) q)) =
                 <[getKey item:=item]> (dirty q)) as Hd by done.
    simpl; destruct (processing q !! getKey item); simpl;
      (destruct (decide (k = getKey item)) as [->|Hne];
        [by rewrite lookup_insert_eq, decide_True by naive_solver
        |by rewrite lookup_insert_ne, decide_False by naive_solver]).
Qed.

(** An accepted item is dirty afterwards. *)
Lemma Add_accepted item q :
  (Add item q).1 = true → is_Some (dirty (Add item q).2 !! getKey item).
Proof.
  intros Hacc. rewrite Add_dirty. case_decide as Hd; [by eexists|].
  destruct (dirty q !! getKey item); [by eexists|]. destruct Hd. auto.
Qed.

Lemma NewWorkQueue_ok n maxSize replace : queue_ok n (NewWorkQueue maxSize replace).
Proof.
  split; simpl; try done.
  - apply NoDup_nil_2.
  - intros k. rewrite lookup_empty. split; [by intros ?%not_elem_of_nil|by intros [[] ?]].
  - rewrite map_size_empty. lia.
  - rewrite map_size_empty. lia.
Qed.

(** Every dirty key is in the queue or being processed. *)
Lemma dirty_le n q : queue_ok n q → size (dirty q) ≤ length (queue q) + size (processing q).
Proof.
  intros [Hnd Hq _ _ _ _].
  rewrite <- !size_dom, <- (size_list_to_set (C := gset key) (queue q)) by done.
  etrans; [|apply Nat.eq_le_incl, size_union].
  - apply subseteq_size. intros k Hk. rewrite elem_of_union, elem_of_list_to_set, Hq.
    apply elem_of_dom in Hk. rewrite elem_of_dom.
    destruct (processing q !! k) eqn:?; [right; by eexists|by left].
  - intros k. rewrite elem_of_list_to_set, Hq, elem_of_dom. intros [_ ->] [? ?]. done.
Qed.

Lemma Add_ok n item q : queue_ok n q → queue_ok n (Add item q).2.
Proof.
  intros [Hnd Hq Hd Hp Hw Hs]. unfold Add. destruct (shuttingDown q); [by split|].
  set (k := getKey item). destruct (dirty q !! k) as [old|] eqn:Hk.
  - destruct (Replace q); [|by split]. split; simpl; try done.
    + intros k'. rewrite Hq. destruct (decide (k = k')) as [<-|Hne];
        [rewrite lookup_insert_eq, Hk; naive_solver|by rewrite lookup_insert_ne].
    + intros k' item' Hk'. apply lookup_insert_Some in Hk' as [[<- <-]|[_ ?]]; [done|by apply Hd].
    + rewrite map_size_insert_Some by done. done.
  - case_decide as Hfull; [by split|].
    assert (∀ k' item', <[k:=item]> (dirty q) !! k' = Some item' → getKey item' = k') as Hd'.
    { intros k' item' Hk'. apply lookup_insert_Some in Hk' as [[<- <-]|[_ ?]]; [done|by apply Hd]. }
    assert (size (<[k:=item]> (dirty q)) = S (size (dirty q))) as Hsize by by apply map_size_insert_None.
    pose proof (dirty_le _ _ (Build_queue_ok _ _ Hnd Hq Hd Hp Hw Hs)) as Hle.
    assert (size (<[k:=item]> (dirty q)) ≤ S (length (queue q) + size (processing q))) as Hle'
      by lia.
    simpl; destruct (processing q !! k) as [p|] eqn:Hpk; split; simpl; try done; try lia.
    + intros k'. rewrite Hq. destruct (decide (k = k')) as [<-|Hne];
        [rewrite Hk, Hpk; naive_solver|by rewrite lookup_insert_ne].
    + apply NoDup_app. split_and!; [done| |apply NoDup_singleton].
      intros k' Hin ->%list_elem_of_singleton. apply Hq in Hin as [Hin _]. rewrite Hk in Hin.
      by destruct Hin.
    + intros k'. rewrite elem_of_app, list_elem_of_singleton, Hq.
      destruct (decide (k = k')) as [<-|Hne]; [|rewrite lookup_insert_ne by done; naive_solver].
      rewrite lookup_insert_eq, Hk. naive_solver.
Qed.

Lemma Get_ok n q o q' :
  queue_ok n q → Get q = GetItem o q' →
  ∃ k v, queue q = k :: queue q' ∧ o = Some v ∧ dirty q !! k = Some v ∧ getKey v = k ∧
    processing q !! k = None ∧ MaxSize q' = MaxSize q ∧ Replace q' = Replace q ∧
    shuttingDown q' = shuttingDown q ∧ processing q' = <[k := v]> (processing q) ∧
    dirty q' = delete k (dirty q) ∧ (size (processing q) < n → queue_ok n q').
Proof.
  intros [Hnd Hq Hd Hp Hw Hs] Hg. unfold Get in Hg. destruct (queue q) as [|k rest] eqn:Hqq;
    [by destruct (shuttingDown q)|].
  destruct (Hq k) as [Hk _]. destruct Hk as [[v Hv] Hpk]; [by left|].
  rewrite Hv in Hg. injection Hg as <- <-. exists k, v. apply NoDup_cons in Hnd as [Hkr Hnd].
  split_and!; simpl; try done; [by apply Hd|]. intros Hlt. split; simpl; try done.
  - intros k'. destruct (decide (k = k')) as [<-|Hne].
    + rewrite lookup_delete_eq, lookup_insert_eq. split; [done|by intros [_ ?]].
    + rewrite lookup_delete_ne, lookup_insert_ne by done. rewrite <- Hq, elem_of_cons. naive_solver.
  - intros k' v' Hk'. apply lookup_delete_Some in Hk' as [_ ?]. by apply Hd.
  - intros k' v' Hk'. apply lookup_insert_Some in Hk' as [[<- <-]|[_ ?]]; [by apply Hd|by apply Hp].
  - rewrite map_size_insert_None by done. lia.
  - rewrite map_size_delete_Some by (by eexists). lia.
Qed.

Lemma Done_fields item q :
  Replace (Done item q) = Replace q ∧ dirty (Done item q) = dirty q ∧
  processing (Done item q) = delete (getKey item) (processing q).
Proof. unfold Done. simpl. by destruct (dirty q !! getKey item). Qed.

Lemma Done_ok n item q :
  queue_ok n q → processing q !! getKey item = Some item → queue_ok n (Done item q).
Proof.
  intros [Hnd Hq Hd Hp Hw Hs] Hit. unfold Done.
  assert (size (delete (getKey item) (processing q)) ≤ n) as Hw'
    by (rewrite map_size_delete_Some by (by eexists); lia).
  set (k := getKey item) in *. simpl.
  destruct (dirty q !! k) as [v|] eqn:Hk; split; simpl; try done.
  - apply NoDup_app. split_and!; [done| |apply NoDup_singleton].
    intros k' Hin ->%list_elem_of_singleton. apply Hq in Hin as [_ Hin]. congruence.
  - intros k'. rewrite elem_of_app, list_elem_of_singleton, Hq.
    destruct (decide (k = k')) as [<-|Hne]; [|rewrite lookup_delete_ne by done; naive_solver].
    rewrite lookup_delete_eq, Hk. naive_solver.
  - intros k' v' [_ Hk']%lookup_delete_Some. by apply Hp.
  - intros k'. rewrite Hq. destruct (decide (k = k')) as [<-|Hne];
      [rewrite lookup_delete_eq, Hk, Hit; naive_solver|by rewrite lookup_delete_ne].
  - intros k' v' [_ Hk']%lookup_delete_Some. by apply Hp.
Qed.

Lemma step_ok n q o q' : step n q o q' → queue_ok n q → queue_ok n q'.
Proof.
  intros [] Hok; [by apply Add_ok| |by apply Done_ok|by destruct Hok; split].
  eapply Get_ok in Hok as (?&?&?&?&?&?&?&?&?&?&?&?&Hok'); eauto.
Qed.

Lemma steps_ok n q l q' : steps n q l q' → queue_ok n q → queue_ok n q'.
Proof. induction 1; eauto using step_ok. Qed.

Lemma step_fields n q o q' :
  step n q o q' → MaxSize q' = MaxSize q ∧ Replace q' = Replace q.
Proof.
  intros [q1 item|q1 item q2 Hsz Hg|q1 item Hp|q1]; [| | |done].
  - by destruct (Add_fields item q1) as (-> & -> & _).
  - unfold Get in Hg. destruct (queue q1) as [|k rest]; [by destruct (shuttingDown q1)|].
    destruct (dirty q1 !! k); by simplify_eq.
  - unfold Done. simpl. by destruct (dirty q1 !! getKey item).
Qed.

Lemma steps_fields n q l q' : steps n q l q' → MaxSize q' = MaxSize q ∧ Replace q' = Replace q.
Proof.
  induction 1 as [|q o q1 l q2 Hs _ [-> ->]]; [done|by eapply step_fields].
Qed.

(** A queued key moves forward by one with every item handed out. *)
Lemma step_queue n q o q' i k :
  queue_ok n q → step n q o q' → queue q !! i = Some k →
  match o, i with
  | Some d, O => getKey d = k ∧ dirty q !! k = Some d
  | Some _, S j => queue q' !! j = Some k ∧ dirty q' !! k = dirty q !! k
  | None, _ => queue q' !! i = Some k ∧ (Replace q = false → dirty q' !! k = dirty q !! k)
  end.
Proof.
  intros Hok Hs Hi. destruct Hs as [q item|q item q1 Hsz Hg|q item Hp|q].
  - destruct (Add_fields item q) as (_ & _ & _ & _ & Hpre). split; [by eapply prefix_lookup_Some|].
    intros Hr. rewrite Add_dirty. apply decide_False. intros (-> & _ & [?|Hno]); [congruence|].
    apply list_elem_of_lookup_2, (ok_queue _ _ Hok) in Hi as [Hi _]. rewrite Hno in Hi.
    by destruct Hi.
  - pose proof (ok_nodup _ _ Hok) as Hnd.
    eapply Get_ok in Hok as (k' & v & Hq & Ho & Hv & Hk & _ & _ & _ & _ & _ & Hd & _); [|done].
    injection Ho as <-.
    rewrite Hq in Hi, Hnd. apply NoDup_cons in Hnd as [Hnk _].
    destruct i as [|j]; simpl in Hi; [by simplify_eq|]. split; [done|].
    rewrite Hd. apply lookup_delete_ne. intros ->. apply Hnk. by eapply list_elem_of_lookup_2.
  - unfold Done. simpl. destruct (dirty q !! getKey item); simpl; [|done].
    split; [by apply lookup_app_l_Some|done].
  - done.
Qed.

(** An item that waits keeps waiting until it is handed out. *)
Lemma step_dirty n q o q' k :
  queue_ok n q → step n q o q' → is_Some (dirty q !! k) →
  (∃ d, o = Some d ∧ getKey d = k) ∨ is_Some (dirty q' !! k).
Proof.
  intros Hok Hs Hk. destruct Hs as [q item|q item q1 Hsz Hg|q item Hp|q].
  - right. rewrite Add_dirty. case_decide; [by eexists|done].
  - eapply Get_ok in Hok as (k' & v & _ & Ho & _ & Hkey & _ & _ & _ & _ & _ & Hd & _); [|done].
    injection Ho as <-.
    destruct (decide (k' = k)) as [->|Hne]; [by left; eauto|right].
    by rewrite Hd, lookup_delete_ne.
  - right. unfold Done. simpl. by destruct (dirty q !! getKey item).
  - by right.
Qed.

(** ** Properties *)

(** C34: However [n] workers and any number of producers interleave, the invariant of the
    queue holds: the queue has no duplicates and is the dirty set less the items being
    processed; every item a worker is given was added, and no other worker is
    processing an item with its key; at most [n] items exceed the maximum size. *)
Theorem workqueue_invariant (n : nat) (maxSize : Z) (replace : bool) q :
  reachable n maxSize replace q →
  queue_ok n q ∧ (Z.of_nat (Len q) ≤ Z.max 0 maxSize + Z.of_nat n)%Z ∧
  ∀ o q', Get q = GetItem o q' →
    ∃ item, o = Some item ∧ dirty q !! getKey item = Some item ∧
            processing q !! getKey item = None ∧ processing q' !! getKey item = Some item.
Proof.
  intros [l Hl]. pose proof (steps_ok _ _ _ _ Hl (NewWorkQueue_ok _ _ _)) as Hok.
  destruct (steps_fields _ _ _ _ Hl) as [Hmax _]. simpl in Hmax. split_and!; [done| |].
  - pose proof (ok_size _ _ Hok) as Hs. rewrite Hmax in Hs. unfold Len.
    enough (length (queue q) ≤ size (dirty q)) by lia.
    rewrite <- (size_list_to_set (C := gset key) (queue q)) by apply Hok. rewrite <- size_dom.
    apply subseteq_size. intros k. rewrite elem_of_list_to_set, elem_of_dom, (ok_queue _ _ Hok).
    by intros [? _].
  - intros o q' Hg. eapply Get_ok in Hg as (k & v & _ & -> & Hv & Hk & Hp & _ & _ & _ & Hp' & _ & _);
      [|done]. exists v. rewrite Hk, Hp'. split_and!; try done. by rewrite lookup_insert_eq.
Qed.

(** C35: The queue is first-in, first-out and loses nothing: the key at position [i] is the
    one handed out [i] items later, with the item first added for it when the queue
    does not replace items; and an accepted item is handed out (it, or another one with
    its key) or still waits, whatever else happens in between. *)
Theorem workqueue_delivery (n : nat) q l q' :
  queue_ok n q → steps n q l q' →
  (∀ i k, queue q !! i = Some k → i < length l →
     ∃ d, l !! i = Some d ∧ getKey d = k ∧ (Replace q = false → dirty q !! k = Some d)) ∧
  (∀ q0 item, q = (Add item q0).2 → (Add item q0).1 = true →
     (∃ d, d ∈ l ∧ getKey d = getKey item) ∨ is_Some (dirty q' !! getKey item)).
Proof.
  intros Hok Hs. split.
  - intros i k Hi Hlen. revert i Hi Hlen.
    induction Hs as [q|q o q1 l q2 H1 Hs IH]; intros i Hi Hlen; simpl in Hlen; [lia|].
    pose proof (step_ok _ _ _ _ H1 Hok) as Hok1. destruct (step_fields _ _ _ _ H1) as [_ Hr].
    rewrite Hr in IH. pose proof (step_queue _ _ _ _ _ _ Hok H1 Hi) as Hq.
    destruct o as [d|]; [destruct i as [|i]|]; simpl in *.
    + destruct Hq. eauto.
    + destruct Hq as [Hq Hd]. rewrite <- Hd. apply IH; [done..|lia].
    + destruct Hq as [Hq Hd]. destruct (IH Hok1 i Hq Hlen) as (d & ? & ? & Hdd). exists d.
      split_and!; try done. intros Hf. rewrite <- (Hd Hf). by apply Hdd.
  - intros q0 item -> Hacc. pose proof (Add_accepted _ _ Hacc) as Hd. revert Hd Hok Hs. clear Hacc.
    generalize (Add item q0).2. intros q Hd Hok Hs.
    induction Hs as [q|q o q1 l q2 H1 Hs IH]; [by right|].
    destruct (step_dirty _ _ _ _ _ Hok H1 Hd) as [(d & -> & Hk)|Hd1].
    + left. exists d. simpl. split; [by left|done].
    + destruct (IH Hd1 (step_ok _ _ _ _ H1 Hok)) as [(d & Hin & Hk)|?]; [left|by right].
      exists d. split; [|done]. apply elem_of_app. by right.
Qed.

End workqueue.
Arguments WorkQueue V I {_ _}.
Arguments key I : clear implicits.
Arguments got V I {_ _}.
#[export] Hint Resolve steps_refl : wf.

(** ** A run *)

(** Items that carry an identifier: a name and a version. *)
Definition named : Item (nat * Z) nat := {| item_ID := λ v, Some v.1; item_addr := snd |}.
#[local] Existing Instance named.

Definition run_1 : WorkQueue (nat * Z) nat :=
  (Add (2, 0%Z) (Add (1, 1%Z) (
     MkWorkQueue 1 false [] ∅ {[ inl 1 := (1, 0%Z) ]} false)).2).2.

Definition run_2 : WorkQueue (nat * Z) nat := Done (1, 0%Z) run_1.

(** One worker processes item 1, which is added again with another item before it is
    done: both wait, in a queue of at most one item. *)
Lemma run_1_reachable : reachable 1 1 false (run_2).
Proof.
  exists [(1, 0%Z)].
  apply (steps_step 1 _ None (Add (1, 0%Z) (NewWorkQueue 1 false)).2 [(1, 0%Z)]); [constructor|].
  apply (steps_step 1 _ (Some (1, 0%Z)) (MkWorkQueue 1 false [] ∅ {[ inl 1 := (1, 0%Z) ]} false) []);
    [apply step_Get; [by vm_compute|reflexivity]|].
  eapply (steps_step 1 _ None _ []); [apply (step_Add _ _ (1, 1%Z))|].
  eapply (steps_step 1 _ None _ []); [apply (step_Add _ _ (2, 0%Z))|].
  apply (steps_step 1 _ None (run_2) []); [by apply step_Done|apply steps_refl].
Qed.

Lemma workqueue_invariant_witness :
  reachable 1 1 false (run_2) ∧ Len (run_2) = 2 ∧
  queue_ok 1 (run_2) ∧ (Z.of_nat (Len (run_2)) ≤ 2)%Z.
Proof.
  split; [apply run_1_reachable|]. split; [by vm_compute|].
  destruct (workqueue_invariant 1 1 false _ run_1_reachable) as (Hok & Hlen & _). by split.
Defined.

Lemma workqueue_delivery_witness :
  queue_ok 1 (run_2) ∧
  steps 1 (run_2) [(2, 0%Z)]
    (MkWorkQueue 1 false [inl 1] {[ inl 1 := (1, 1%Z) ]} {[ inl 2 := (2, 0%Z) ]} false) ∧
  ∃ d, [(2, 0%Z)] !! 0 = Some d ∧ getKey (I := nat) d = inl 2.
Proof.
  assert (queue_ok 1 (run_2)) as Hok.
  { destruct run_1_reachable as [l Hl]. eapply steps_ok; [exact Hl|apply NewWorkQueue_ok]. }
  assert (steps 1 (run_2) [(2, 0%Z)]
    (MkWorkQueue 1 false [inl 1] {[ inl 1 := (1, 1%Z) ]} {[ inl 2 := (2, 0%Z) ]} false)) as Hs.
  { eapply (steps_step 1 _ (Some (2, 0%Z)) _ []); [apply step_Get; [by vm_compute|reflexivity]|].
    apply steps_refl. }
  split; [done|]. split; [done|].
  destruct (workqueue_delivery 1 _ _ _ Hok Hs) as [Hd _].
  destruct (Hd 0 (inl 2) eq_refl ltac:(by apply Nat.lt_0_succ)) as (d & ? & ? & _). by exists d.
Defined.
