(* ===== verification/Heap.v ===== *)
(** The binary heap of [container/heap], over the interface the program's priority queue
    implements.  The program keeps one heap, the queue of [DelayingQueue].  The interface is a
    class, its laws say that the three methods look at and exchange the keys of the positions,
    and the lemmas show for every implementation that sifting restores the order and does
    nothing but exchange positions. *)

From stdpp Require Import base numbers list.
From S2P Require Import Prelude.

(** [sort.Interface] and the two methods of [heap.Interface]; [Pop] of no elements panics. *)
Class HeapInterface (E S : Type) := {
  Len : S → nat;
  Less : nat → nat → S → bool;
  Swap : nat → nat → S → S;
  heap_push : E → S → S;
  heap_pop : S → option (E * S) }.

Definition parent (j : nat) : nat := (j - 1) / 2.

Lemma parent_lt j : 0 < j → parent j < j.
Proof. intros Hj. unfold parent. apply Nat.Div0.div_lt_upper_bound. lia. Qed.

Lemma parent_child c i : 0 < c → parent c = i ↔ c = 2 * i + 1 ∨ c = 2 * i + 2.
Proof.
  intros Hc. unfold parent. pose proof (Nat.div_mod_eq (c - 1) 2) as Hd.
  pose proof (Nat.mod_upper_bound (c - 1) 2 ltac:(lia)). lia.
Qed.

Section heap.
Context {E S : Type} `{HeapInterface E S}.
Implicit Types (s : S) (i j n : nat).

(** The fuel of the two loops: the position falls to the root, or rises to the end. *)
Fixpoint up_loop (fuel j : nat) s : S :=
  match fuel with
  | O => s
  | Datatypes.S fuel =>
      let i := parent j in
      if decide (i = j) then s else
      if Less j i s then up_loop fuel i (Swap i j s) else s
  end.
Definition up j s : S := up_loop j j s.

Fixpoint down_loop (fuel i n : nat) s : nat * S :=
  match fuel with
  | O => (i, s)
  | Datatypes.S fuel =>
      let j1 := 2 * i + 1 in
      if decide (n ≤ j1) then (i, s) else
      let j2 := j1 + 1 in
      let j := if decide (j2 < n) then if Less j2 j1 s then j2 else j1 else j1 in
      if Less j i s then down_loop fuel j n (Swap i j s) else (i, s)
  end.
Definition down (i0 n : nat) s : bool * S :=
  let '(i, s) := down_loop n i0 n s in (bool_decide (i0 < i), s).

Definition heap_Init s : S := foldl (λ s i, (down i (Len s) s).2) s (reverse (seq 0 (Len s / 2))).

Definition heap_Push (x : E) s : S :=
  let s := heap_push x s in up (Len s - 1) s.

Definition heap_Pop s : option (E * S) :=
  match Len s with
  | O => None
  | Datatypes.S n => heap_pop (down 0 n (Swap 0 n s)).2
  end.

Definition heap_Fix i s : S :=
  let '(moved, s) := down i (Len s) s in if moved then s else up i s.

(** ** What sifting keeps *)

Section kept.
Context (P : S → Prop) (n : nat) (kept : ∀ s i j, P s → i < n → j < n → P (Swap i j s)).

Lemma up_keeps fuel j s : j < n → P s → P (up_loop fuel j s).
Proof.
  revert j s. induction fuel as [|fuel IH]; intros j s Hj Hs; [done|]. cbn [up_loop].
  case_decide; [done|]. assert (parent j < n) by (destruct (decide (j = 0)) as [->|];
    [done|pose proof (parent_lt j); lia]).
  destruct (Less j (parent j) s); [|done]. by apply IH, kept.
Qed.

Lemma down_keeps fuel i s : i < n → P s → P (down_loop fuel i n s).2.
Proof.
  revert i s. induction fuel as [|fuel IH]; intros i s Hi Hs; [done|]. cbn [down_loop].
  case_decide; [done|]. set (j := if decide _ then _ else _).
  assert (j < n) by (subst j; case_decide; [destruct (Less _ _ s)|]; lia).
  destruct (Less j i s); [|done]. by apply IH, kept.
Qed.
End kept.

(** ** The order *)

(** The laws: on well-formed states, [Less] compares keys and [Swap] exchanges them. *)
Class HeapLaws := {
  heap_wf : S → Prop;
  key : S → nat → Z;
  Less_key s i j : heap_wf s → i < Len s → j < Len s → Less i j s = bool_decide (key s i < key s j)%Z;
  Swap_wf s i j : heap_wf s → i < Len s → j < Len s → heap_wf (Swap i j s) ∧ Len (Swap i j s) = Len s;
  Swap_key s i j c : heap_wf s → i < Len s → j < Len s →
    key (Swap i j s) c = if decide (c = i) then key s j else if decide (c = j) then key s i else key s c }.
Context {laws : HeapLaws}.

(** The heap of the first [n] positions; the order but for the pairs of [i] with its parent and its
    children, with the parent and the children of [i] in order; and [i] with its children. *)
Definition ordered n s : Prop := ∀ c, 0 < c < n → (key s (parent c) ≤ key s c)%Z.
Definition ordered_but i n s : Prop := ∀ c, 0 < c < n →
  (c ≠ i → parent c ≠ i → (key s (parent c) ≤ key s c)%Z) ∧
  (parent c = i → 0 < i → (key s (parent i) ≤ key s c)%Z).
Definition below i n s : Prop := ∀ c, 0 < c < n → parent c = i → (key s i ≤ key s c)%Z.

Lemma ordered_weaken i n s : ordered n s → ordered_but i n s ∧ below i n s.
Proof.
  intros Ho. split; [|by intros c Hc <-; apply Ho]. intros c Hc. split; [by intros _ _; apply Ho|].
  intros <- Hi. pose proof (parent_lt c). etrans; [apply Ho|apply Ho]; lia.
Qed.

Lemma ordered_strengthen i n s :
  ordered_but i n s → below i n s → (0 < i → (key s (parent i) ≤ key s i)%Z) → ordered n s.
Proof.
  intros Hb Hl Ha c Hc. destruct (decide (c = i)) as [->|Hci]; [apply Ha; lia|].
  destruct (decide (parent c = i)) as [Hp|Hp]; [by rewrite Hp; apply Hl|]. by apply Hb.
Qed.

(** The root is a least key. *)
Lemma ordered_root n s c : ordered n s → c < n → (key s 0 ≤ key s c)%Z.
Proof.
  intros Ho. induction (lt_wf c) as [c _ IH]. intros Hc. destruct (decide (c = 0)) as [->|]; [done|].
  pose proof (parent_lt c). etrans; [apply (IH (parent c)); lia|apply Ho; lia].
Qed.

(** A step of [up] moves the hole to the parent. *)
Lemma up_step j n s :
  heap_wf s → j < n → n ≤ Len s → 0 < j → (key s j < key s (parent j))%Z →
  ordered_but j n s → below j n s →
  ordered_but (parent j) n (Swap (parent j) j s) ∧ below (parent j) n (Swap (parent j) j s).
Proof.
  intros Hwf Hj Hn H0 Hlt Hb Hl. pose proof (parent_lt j H0) as Hp. set (i := parent j) in *.
  assert (∀ c, key (Swap i j s) c = if decide (c = i) then key s j else if decide (c = j) then key s i else key s c) as Hk
    by (intros c; apply Swap_key; [done|lia|lia]).
  split.
  - intros c Hc. destruct (Hb c Hc) as [Hc1 Hc2]. pose proof (parent_lt c ltac:(lia)). rewrite !Hk. split.
    + intros Hci Hpc. rewrite !(decide_False (P := c = i)), (decide_False (P := parent c = i)) by done.
      destruct (decide (c = j)) as [->|Hcj]; [done|].
      destruct (decide (parent c = j)) as [Hpj|Hpj]; [by apply Hc2|by apply Hc1].
    + intros Hpc Hi. pose proof (parent_lt i Hi). destruct (Hb i ltac:(lia)) as [Hi1 _].
      rewrite (decide_False (P := parent i = i)), (decide_False (P := parent i = j)), (decide_False (P := c = i)) by lia.
      destruct (decide (c = j)) as [->|Hcj]; [apply Hi1; lia|].
      etrans; [apply Hi1; lia|]. rewrite <- Hpc. apply Hc1; lia.
  - intros c Hc Hpc. pose proof (parent_lt c ltac:(lia)). rewrite !Hk.
    rewrite decide_True, (decide_False (P := c = i)) by lia.
    destruct (decide (c = j)) as [->|Hcj]; [lia|].
    destruct (Hb c Hc) as [Hc1 _]. rewrite Hpc in Hc1. specialize (Hc1 Hcj ltac:(lia)). lia.
Qed.

Lemma up_loop_ordered fuel j n s :
  heap_wf s → j < n → n ≤ Len s → j ≤ fuel → ordered_but j n s → below j n s → ordered n (up_loop fuel j s).
Proof.
  revert j s. induction fuel as [|fuel IH]; intros j s Hwf Hj Hn Hf Hb Hl; cbn [up_loop].
  { apply (ordered_strengthen j); [done|done|lia]. }
  case_decide as Hroot.
  { apply (ordered_strengthen j); [done|done|]. intros H0. pose proof (parent_lt j H0). lia. }
  assert (0 < j) as H0 by (destruct j; [done|lia]). pose proof (parent_lt j H0).
  rewrite Less_key by (done || lia). case_bool_decide as Hlt.
  - destruct (Swap_wf s (parent j) j) as [Hwf' HLen]; [done|lia|lia|].
    destruct (up_step j n s) as [Hb' Hl']; [done..|]. apply IH; (done || lia).
  - apply (ordered_strengthen j); [done|done|lia].
Qed.

(** A step of [down] moves the hole to the lesser child. *)
Lemma down_step i j n s :
  heap_wf s → j < n → n ≤ Len s → 0 < j → parent j = i → (key s j < key s i)%Z →
  (∀ c, 0 < c < n → parent c = i → (key s j ≤ key s c)%Z) → ordered_but i n s →
  ordered_but j n (Swap i j s) ∧ (key (Swap i j s) (parent j) ≤ key (Swap i j s) j)%Z.
Proof.
  intros Hwf Hj Hn H0 Hpj Hlt Hmin Hb. pose proof (parent_lt j H0) as Hp.
  assert (∀ c, key (Swap i j s) c = if decide (c = i) then key s j else if decide (c = j) then key s i else key s c) as Hk
    by (intros c; apply Swap_key; [done|lia|lia]).
  split.
  - intros c Hc. destruct (Hb c Hc) as [Hc1 Hc2]. pose proof (parent_lt c ltac:(lia)). rewrite !Hk. split.
    + intros Hcj Hpcj. rewrite (decide_False (P := c = j)), (decide_False (P := parent c = j)) by done.
      destruct (decide (c = i)) as [->|Hci].
      { rewrite decide_False by lia. destruct (Hb j ltac:(lia)) as [_ Hj2]. apply Hj2; lia. }
      destruct (decide (parent c = i)) as [Hpc|Hpc]; [by apply Hmin|by apply Hc1].
    + intros Hpc _. rewrite Hpj, decide_True, (decide_False (P := c = i)), (decide_False (P := c = j)) by lia.
      rewrite <- Hpc. apply Hc1; lia.
  - rewrite !Hk, Hpj, decide_True, decide_False, decide_True by lia. lia.
Qed.

(** The child [down] looks at is the lesser one. *)
Lemma lesser_child i n s (j2 := 2 * i + 2) :
  heap_wf s → n ≤ Len s → 2 * i + 1 < n →
  let j := if decide (2 * i + 1 + 1 < n) then if Less (2 * i + 1 + 1) (2 * i + 1) s then 2 * i + 1 + 1 else 2 * i + 1
           else 2 * i + 1 in
  0 < j < n ∧ parent j = i ∧ ∀ c, 0 < c < n → parent c = i → (key s j ≤ key s c)%Z.
Proof.
  intros Hwf Hn Hi j. assert ((j = 2 * i + 1 ∨ j = 2 * i + 2) ∧ j < n ∧ (key s j ≤ key s (2 * i + 1))%Z ∧
    (2 * i + 2 < n → (key s j ≤ key s (2 * i + 2))%Z)) as (Hj & Hjn & H1 & H2).
  { subst j j2. replace (2 * i + 1 + 1) with (2 * i + 2) by lia. case_decide; [|split_and!; (lia || by left)].
    rewrite Less_key by (done || lia). case_bool_decide; split_and!; try lia. }
  split_and!; [lia|done|apply parent_child; lia|].
  intros c Hc [-> | ->]%parent_child; [done|apply H2; lia|lia].
Qed.

Lemma down_loop_ordered fuel i n s :
  heap_wf s → n ≤ Len s → n ≤ fuel + i → ordered_but i n s → (0 < i → (key s (parent i) ≤ key s i)%Z) →
  ordered n (down_loop fuel i n s).2.
Proof.
  revert i s. induction fuel as [|fuel IH]; intros i s Hwf Hn Hf Hb Ha.
  { apply (ordered_strengthen i); [done| |done]. intros c Hc Hp. pose proof (parent_lt c). cbn in Hf. lia. }
  cbn [down_loop]. case_decide as Hend.
  { apply (ordered_strengthen i); [done| |done]. intros c Hc [-> | ->]%parent_child; lia. }
  destruct (lesser_child i n s Hwf Hn ltac:(lia)) as (Hj & Hp & Hmin).
  set (j := if decide _ then _ else _) in *. clearbody j. pose proof (parent_lt j ltac:(lia)).
  rewrite Less_key by (done || lia). case_bool_decide as Hlt.
  - destruct (Swap_wf s i j) as [Hwf' HLen]; [done|lia|lia|].
    destruct (down_step i j n s) as [Hb' Ha']; [done|lia..|done|done|]. apply IH; (done || lia).
  - apply (ordered_strengthen i); [done| |done]. intros c Hc Hpc. etrans; [|by apply (Hmin c)]. cbn [snd]. lia.
Qed.

Lemma down_loop_le fuel i n s : i ≤ (down_loop fuel i n s).1.
Proof.
  revert i s. induction fuel as [|fuel IH]; intros i s; [done|]. cbn [down_loop]. case_decide; [done|].
  set (j := if decide _ then _ else _). assert (i < j) by (subst j; case_decide; [destruct (Less _ _ s)|]; lia).
  destruct (Less j i s); [|done]. etrans; [|apply IH]. lia.
Qed.

Lemma down_loop_moved fuel i n s :
  heap_wf s → n ≤ Len s → i < n → n ≤ fuel + i → ordered_but i n s →
  let '(i', s') := down_loop fuel i n s in
  if decide (i < i') then ordered n s' else s' = s ∧ below i n s.
Proof.
  intros Hwf Hn Hi Hf Hb. destruct fuel as [|fuel]; [lia|]. cbn [down_loop]. case_decide as Hend.
  { rewrite decide_False by lia. split; [done|]. intros c Hc [-> | ->]%parent_child; lia. }
  destruct (lesser_child i n s Hwf Hn ltac:(lia)) as (Hj & Hp & Hmin).
  set (j := if decide _ then _ else _) in *. clearbody j. pose proof (parent_lt j ltac:(lia)).
  rewrite Less_key by (done || lia). case_bool_decide as Hlt.
  - destruct (Swap_wf s i j) as [Hwf' HLen]; [done|lia|lia|].
    destruct (down_step i j n s) as [Hb' Ha']; [done|lia..|done|done|].
    pose proof (down_loop_le fuel j n (Swap i j s)) as Hle.
    pose proof (down_loop_ordered fuel j n (Swap i j s) Hwf' ltac:(lia) ltac:(lia) Hb' (λ _, Ha')) as Ho.
    destruct (down_loop fuel j n (Swap i j s)) as [i' s']. cbn in Hle, Ho. by rewrite decide_True by lia.
  - rewrite decide_False by lia. split; [done|]. intros c Hc Hpc. etrans; [|by apply (Hmin c)]. lia.
Qed.

(** [down] says whether it moved anything. *)
Lemma down_ordered i n s :
  heap_wf s → n ≤ Len s → i < n → ordered_but i n s →
  match down i n s with
  | (true, s') => ordered n s'
  | (false, s') => s' = s ∧ below i n s
  end.
Proof.
  intros Hwf Hn Hi Hb. unfold down. pose proof (down_loop_moved n i n s Hwf Hn Hi ltac:(lia) Hb) as Hm.
  destruct (down_loop n i n s) as [i' s']. rewrite bool_decide_decide. by destruct (decide (i < i')).
Qed.

Lemma down_root n s : heap_wf s → n ≤ Len s → ordered_but 0 n s → ordered n (down 0 n s).2.
Proof.
  intros Hwf Hn Hb. unfold down. pose proof (down_loop_ordered n 0 n s Hwf Hn ltac:(lia) Hb ltac:(lia)) as Ho.
  by destruct (down_loop n 0 n s).
Qed.

(** [heap.Fix] restores the order after the key of one position has changed. *)
Lemma heap_Fix_ordered i s :
  heap_wf s → i < Len s → ordered_but i (Len s) s → ordered (Len s) (heap_Fix i s).
Proof.
  intros Hwf Hi Hb. pose proof (down_ordered i (Len s) s Hwf ltac:(lia) Hi Hb) as Hd. unfold heap_Fix.
  destruct (down i (Len s) s) as [[] s']; [done|]. destruct Hd as [-> Hl]. by apply up_loop_ordered.
Qed.

(** [heap.Push] puts the new element in its place. *)
Lemma heap_Push_ordered x s :
  heap_wf (heap_push x s) → Len (heap_push x s) = Datatypes.S (Len s) →
  (∀ c, c < Len s → key (heap_push x s) c = key s c) → ordered (Len s) s →
  ordered (Datatypes.S (Len s)) (heap_Push x s).
Proof.
  intros Hwf HLen Hkey Ho. unfold heap_Push. rewrite HLen. replace (Datatypes.S (Len s) - 1) with (Len s) by lia.
  apply up_loop_ordered; [done|lia|lia|done| |].
  - intros c Hc. pose proof (parent_lt c ltac:(lia)). split; [|lia].
    intros Hne _. rewrite !Hkey by lia. apply Ho. lia.
  - intros c Hc Hp. pose proof (parent_lt c ltac:(lia)). lia.
Qed.

Lemma heap_Push_keeps (P : S → Prop) x s :
  (∀ s' i j, P s' → i < Len (heap_push x s) → j < Len (heap_push x s) → P (Swap i j s')) →
  0 < Len (heap_push x s) → P (heap_push x s) → P (heap_Push x s).
Proof. intros Hkept Hlt Hs. unfold heap_Push. apply (up_keeps P (Len (heap_push x s))); (done || lia). Qed.

(** The state in which [heap.Pop] lets the queue drop its last element: the root has gone there, and the
    others are in order. *)
Lemma heap_Pop_ordered n s :
  heap_wf s → Len s = Datatypes.S n → ordered (Len s) s → ordered n (down 0 n (Swap 0 n s)).2.
Proof.
  intros Hwf HLen Ho. destruct (Swap_wf s 0 n) as [Hwf' HLen']; [done|lia|lia|].
  apply down_root; [done|lia|]. intros c Hc. pose proof (parent_lt c ltac:(lia)). split; [|lia].
  intros Hc0 Hp0. rewrite !Swap_key by (done || lia). rewrite !decide_False by lia. apply Ho. lia.
Qed.

Lemma down_keeps_state (P : S → Prop) n s :
  (∀ s' i j, P s' → i < n → j < n → P (Swap i j s')) → P s → P (down 0 n s).2.
Proof.
  intros Hkept Hs. unfold down. destruct n as [|n]; [done|].
  pose proof (down_keeps P (Datatypes.S n) Hkept (Datatypes.S n) 0 s ltac:(lia) Hs) as Hd.
  by destruct (down_loop (Datatypes.S n) 0 (Datatypes.S n) s).
Qed.

Lemma heap_Fix_keeps (P : S → Prop) i s :
  (∀ s' i j, P s' → i < Len s → j < Len s → P (Swap i j s')) → i < Len s → P s → P (heap_Fix i s).
Proof.
  intros Hkept Hi Hs. unfold heap_Fix, down. pose proof (down_keeps P (Len s) Hkept (Len s) i s Hi Hs) as Hd.
  destruct (down_loop (Len s) i (Len s) s) as [i' s']. cbn in Hd. case_bool_decide; [done|].
  by apply (up_keeps P (Len s)).
Qed.
End heap.
