(* ===== verification/DelayingQueue.v ===== *)
(** Component [pkg/util/workqueue], the delaying queue: a work queue whose items can
    be added after a delay.  Items that wait are entries of a binary heap ([Heap]), which a map
    finds by their items; both point to the same entries, whose times and positions change.
    Instants and durations are integers (nanoseconds); the instant a method reads from its
    clock is its argument [now]. *)

From stdpp Require Import base gmap strings fin_sets list sorting.
From S2P Require Import Prelude WorkQueue Heap.

Section delaying.
Context {V I : Type} `{Countable I} `{Item V I}.
Implicit Types (item : V) (q : WorkQueue V I) (p : nat).

(** [pkg/util/workqueue/delaying_queue.go:80-85] waitFor *)
Record waitFor := MkWaitFor { data : V; readyAt : Z; index : Z }.
Implicit Types (e : waitFor).

(** ** The priority queue *)

(** A slice of pointers, and the entries behind the pointers. *)
(** [pkg/util/workqueue/delaying_queue.go:95-95] waitForPriorityQueue *)
Record waitForPriorityQueue := MkPriorityQueue { pointers : list nat; entries : gmap nat waitFor }.
Implicit Types (pq : waitForPriorityQueue).

Definition pq_at (i : nat) pq : option waitFor := pointers pq !! i ≫= λ p, entries pq !! p.
Definition with_index (i : Z) e : waitFor := MkWaitFor (data e) (readyAt e) i.
Definition with_readyAt (t : Z) e : waitFor := MkWaitFor (data e) t (index e).

(** [pkg/util/workqueue/delaying_queue.go:97-99] waitForPriorityQueue.Len *)
Definition pq_Len pq : nat := length (pointers pq).

(** [pkg/util/workqueue/delaying_queue.go:100-102] waitForPriorityQueue.Less *)
Definition pq_Less (i j : nat) pq : bool :=
  match pq_at i pq, pq_at j pq with
  | Some a, Some b => bool_decide (readyAt a < readyAt b)%Z
  | _, _ => false
  end.

(** [pkg/util/workqueue/delaying_queue.go:103-107] waitForPriorityQueue.Swap *)
Definition pq_Swap (i j : nat) pq : waitForPriorityQueue :=
  match pointers pq !! i, pointers pq !! j with
  | Some p, Some p' =>
      MkPriorityQueue (<[j := p]> (<[i := p']> (pointers pq)))
        (alter (with_index (Z.of_nat j)) p (alter (with_index (Z.of_nat i)) p' (entries pq)))
  | _, _ => pq
  end.

(** [pkg/util/workqueue/delaying_queue.go:111-116] waitForPriorityQueue.Push *)
Definition pq_Push p pq : waitForPriorityQueue :=
  MkPriorityQueue (pointers pq ++ [p]) (alter (with_index (Z.of_nat (length (pointers pq)))) p (entries pq)).

(** [pkg/util/workqueue/delaying_queue.go:120-126] waitForPriorityQueue.Pop *)
Definition pq_Pop pq : option (nat * waitForPriorityQueue) :=
  let n := length (pointers pq) in
  match pointers pq !! (n - 1) with
  | Some p => Some (p, MkPriorityQueue (take (n - 1) (pointers pq)) (alter (with_index (-1)) p (entries pq)))
  | None => None
  end.

(** [pkg/util/workqueue/delaying_queue.go:130-132] waitForPriorityQueue.Peek *)
Definition Peek pq : option waitFor := pq_at 0 pq.

#[export] Instance pq_heap : HeapInterface nat waitForPriorityQueue :=
  {| Len := pq_Len; Less := pq_Less; Swap := pq_Swap; heap_push := pq_Push; heap_pop := pq_Pop |}.

(** ** The queue *)

(** The entries of [waitingForAddCh] are those the loop has not received yet; an entry
    gets its pointer when it is put into the heap, before that nothing shares it. *)
(** [pkg/util/workqueue/delaying_queue.go:60-77] delayingType *)
Record DelayingQueue := MkDelayingQueue {
  inner : WorkQueue V I;
  waitingForQueue : waitForPriorityQueue;
  waitingEntryByData : gmap Z nat;
  waitingForAddCh : list waitFor }.
Implicit Types d : DelayingQueue.

(** The capacity of [waitingForAddCh]. *)
Definition waitingForAdd_size : nat := 1000.

Definition empty_queue : waitForPriorityQueue := heap_Init (MkPriorityQueue [] ∅).

(** [pkg/util/workqueue/delaying_queue.go:45-57] newDelayingQueue *)
Definition newDelayingQueue (maxSize : Z) : DelayingQueue :=
  MkDelayingQueue (NewNamed maxSize) empty_queue ∅ [].

(** [pkg/util/workqueue/delaying_queue.go:37-39] NewDelayingQueue *)
Definition NewDelayingQueue (maxSize : Z) : DelayingQueue := newDelayingQueue maxSize.

Definition with_inner q d : DelayingQueue :=
  MkDelayingQueue q (waitingForQueue d) (waitingEntryByData d) (waitingForAddCh d).
Definition with_waiting pq known d : DelayingQueue := MkDelayingQueue (inner d) pq known (waitingForAddCh d).
Definition with_incoming incoming d : DelayingQueue :=
  MkDelayingQueue (inner d) (waitingForQueue d) (waitingEntryByData d) incoming.

Definition delaying_Add item d : bool * DelayingQueue :=
  let '(accepted, q) := Add item (inner d) in (accepted, with_inner q d).

(** The waiting loop stops with the queue: the channel that stops it is closed, once. *)
(** [pkg/util/workqueue/delaying_queue.go:135-138] delayingType.ShutDown *)
Definition delaying_ShutDown {E} d : res E DelayingQueue :=
  if ShuttingDown (inner d) then Panic "close of closed channel" else Ret (with_inner (ShutDown (inner d)) d).

(** [None]: the send on the full channel waits. *)
(** [pkg/util/workqueue/delaying_queue.go:141-158] delayingType.AddAfter *)
Definition AddAfter (now : Z) item (duration : Z) d : option DelayingQueue :=
  if ShuttingDown (inner d) then Some d else
  if decide (duration ≤ 0)%Z then Some (delaying_Add item d).2 else
  if decide (length (waitingForAddCh d) < waitingForAdd_size)
  then Some (with_incoming (waitingForAddCh d ++ [MkWaitFor item (now + duration) 0]) d)
  else None.

(** [pkg/util/workqueue/delaying_queue.go:161-177] delayingType.TryAddAfter *)
Definition TryAddAfter (now : Z) item (duration : Z) d : bool * DelayingQueue :=
  if ShuttingDown (inner d) then (false, d) else
  if decide (duration ≤ 0)%Z then delaying_Add item d else
  (true,
   if decide (length (waitingForAddCh d) < waitingForAdd_size)
   then with_incoming (waitingForAddCh d ++ [MkWaitFor item (now + duration) 0]) d
   else d).

(** ** The waiting loop *)

(** An entry that is there gets the earlier of the two times; the pointer of another one is new. *)
(** [pkg/util/workqueue/delaying_queue.go:255-269] insert *)
Definition insert pq (knownEntries : gmap Z nat) e : waitForPriorityQueue * gmap Z nat :=
  match knownEntries !! item_addr (data e) with
  | Some p =>
      match entries pq !! p with
      | Some existing =>
          if decide (readyAt e < readyAt existing)%Z
          then (heap_Fix (Z.to_nat (index existing))
                  (MkPriorityQueue (pointers pq) (<[p := with_readyAt (readyAt e) existing]> (entries pq))),
                knownEntries)
          else (pq, knownEntries)
      | None => (pq, knownEntries)
      end
  | None =>
      let p := fresh (dom (entries pq)) in
      (heap_Push p (MkPriorityQueue (pointers pq) (<[p := e]> (entries pq))), <[item_addr (data e) := p]> knownEntries)
  end.

(** The first loop of an iteration: add the entries that are ready.  The fuel is the length of the queue. *)
(** [pkg/util/workqueue/delaying_queue.go:203-212] delayingType.waitingLoop: the ready entries *)
Fixpoint add_ready (fuel : nat) (now : Z) d : DelayingQueue :=
  match fuel with
  | O => d
  | Datatypes.S fuel =>
      match Peek (waitingForQueue d) with
      | None => d
      | Some e =>
          if decide (now < readyAt e)%Z then d else
          match heap_Pop (waitingForQueue d) with
          | None => d
          | Some (p, pq) =>
              match entries pq !! p with
              | None => d
              | Some e =>
                  add_ready fuel now (MkDelayingQueue (Add (data e) (inner d)).2 pq
                    (delete (item_addr (data e)) (waitingEntryByData d)) (waitingForAddCh d))
              end
          end
      end
  end.

(** How long the loop waits for an entry, [None] for ever, unless the heartbeat or a new entry wakes it. *)
(** [pkg/util/workqueue/delaying_queue.go:215-219] delayingType.waitingLoop: the timer *)
Definition nextReadyAt (now : Z) d : option Z := (λ e, readyAt e - now)%Z <$> Peek (waitingForQueue d).

(** A received entry is added, or waits. *)
(** [pkg/util/workqueue/delaying_queue.go:231-235] delayingType.waitingLoop: a received entry *)
Definition receive (now : Z) d e : DelayingQueue :=
  if decide (now < readyAt e)%Z
  then let '(pq, known) := insert (waitingForQueue d) (waitingEntryByData d) e in with_waiting pq known d
  else with_inner (Add (data e) (inner d)).2 d.

(** An iteration: [woken] when the loop is woken by the channel, which it then drains,
    and not by the heartbeat or the timer; the clock is read at [now] before the wait
    and at [now'] after it. *)
(** [pkg/util/workqueue/delaying_queue.go:185-252] delayingType.waitingLoop *)
Definition waitingLoop_iteration (now now' : Z) (woken : bool) d : DelayingQueue :=
  if ShuttingDown (inner d) then d else
  let d := add_ready (Len (waitingForQueue d)) now d in
  if woken then foldl (receive now') (with_incoming [] d) (waitingForAddCh d) else d.

(** ** The laws of the heap *)

(** Every pointer of the slice is there once, and its entry knows its position. *)
Record pq_wf pq : Prop := {
  pq_nodup : NoDup (pointers pq);
  pq_index i p : pointers pq !! i = Some p → ∃ e, entries pq !! p = Some e ∧ index e = Z.of_nat i }.

Definition pq_key pq (i : nat) : Z := match pq_at i pq with Some e => readyAt e | None => 0%Z end.

(** What an entry says, its position aside. *)
Definition entry_value e : V * Z := (data e, readyAt e).
Definition value_at pq p : option (V * Z) := entry_value <$> entries pq !! p.

Lemma pq_at_lookup pq i : pq_wf pq → i < pq_Len pq →
  ∃ p e, pointers pq !! i = Some p ∧ entries pq !! p = Some e ∧ pq_at i pq = Some e ∧ index e = Z.of_nat i.
Proof.
  intros [_ Hi] [p Hp]%lookup_lt_is_Some. destruct (Hi i p Hp) as (e & He & Hx).
  exists p, e. split_and!; [done|done| |done]. unfold pq_at. by rewrite Hp.
Qed.

Lemma pq_key_value pq i : pq_key pq i = default 0%Z (snd <$> (pointers pq !! i ≫= value_at pq)).
Proof. unfold pq_key, pq_at, value_at. destruct (pointers pq !! i) as [p|]; [|done]. cbn. by destruct (entries pq !! p). Qed.

Lemma pq_Less_key pq i j : pq_wf pq → i < pq_Len pq → j < pq_Len pq →
  pq_Less i j pq = bool_decide (pq_key pq i < pq_key pq j)%Z.
Proof.
  intros Hwf Hi Hj. destruct (pq_at_lookup pq i Hwf Hi) as (_ & a & _ & _ & Ha & _).
  destruct (pq_at_lookup pq j Hwf Hj) as (_ & b & _ & _ & Hb & _). unfold pq_Less, pq_key. by rewrite Ha, Hb.
Qed.

Lemma value_alter l m l' k p p' :
  value_at (MkPriorityQueue l (alter (with_index k) p m)) p' = value_at (MkPriorityQueue l' m) p'.
Proof.
  unfold value_at. cbn. destruct (decide (p = p')) as [->|Hne]; [|by rewrite lookup_alter_ne].
  rewrite lookup_alter_eq. by destruct (m !! p').
Qed.

(** [Swap] exchanges the pointers. *)
Lemma pq_Swap_spec pq i j : i < pq_Len pq → j < pq_Len pq →
  (∀ c, pointers (pq_Swap i j pq) !! c =
     if decide (c = i) then pointers pq !! j else if decide (c = j) then pointers pq !! i else pointers pq !! c) ∧
  (∀ p, value_at (pq_Swap i j pq) p = value_at pq p).
Proof.
  intros Hi Hj. unfold pq_Swap, pq_Len in *.
  destruct (lookup_lt_is_Some_2 _ _ Hi) as [p Hp], (lookup_lt_is_Some_2 _ _ Hj) as [p' Hp']. rewrite Hp, Hp'. split.
  - intros c. cbn. destruct (decide (c = j)) as [->|Hcj].
    + rewrite list_lookup_insert_eq by (by rewrite length_insert). case_decide as Hij; [by subst; rewrite Hp in Hp'|done].
    + rewrite list_lookup_insert_ne by done. destruct (decide (c = i)) as [->|Hci];
        [by rewrite list_lookup_insert_eq|by rewrite list_lookup_insert_ne].
  - intros p2. by rewrite !(value_alter _ _ []).
Qed.

Lemma pq_Swap_index pq i j : pq_wf pq → i < pq_Len pq → j < pq_Len pq → ∀ c p,
  pointers (pq_Swap i j pq) !! c = Some p → ∃ e, entries (pq_Swap i j pq) !! p = Some e ∧ index e = Z.of_nat c.
Proof.
  intros Hwf Hi Hj c p. destruct (pq_Swap_spec pq i j Hi Hj) as [-> _].
  destruct (pq_at_lookup pq i Hwf Hi) as (p1 & e1 & Hp1 & He1 & _ & _).
  destruct (pq_at_lookup pq j Hwf Hj) as (p2 & e2 & Hp2 & He2 & _ & _).
  destruct Hwf as [Hnd Hx]. unfold pq_Swap. rewrite Hp1, Hp2. cbn.
  assert (p1 = p2 → i = j) as Hinj by (intros ->; by eapply NoDup_lookup).
  destruct (decide (c = i)) as [->|Hci]; [|destruct (decide (c = j)) as [->|Hcj]].
  - intros [= <-]. destruct (decide (p1 = p2)) as [He|He].
    + specialize (Hinj He) as ->. subst p1. rewrite lookup_alter_eq, lookup_alter_eq, He2. eexists. by split.
    + rewrite lookup_alter_ne, lookup_alter_eq, He2 by done. eexists. by split.
  - intros [= <-]. rewrite lookup_alter_eq. destruct (decide (p2 = p1)) as [->|He].
    + rewrite lookup_alter_eq, He1. eexists. by split.
    + rewrite lookup_alter_ne, He1 by done. eexists. by split.
  - intros Hp. destruct (Hx c p Hp) as (e & He & Hc). exists e.
    rewrite !lookup_alter_ne; [done| |]; intros <-; [apply Hcj|apply Hci]; by eapply NoDup_lookup.
Qed.

Lemma pq_Swap_wf pq i j : pq_wf pq → i < pq_Len pq → j < pq_Len pq →
  pq_wf (pq_Swap i j pq) ∧ pq_Len (pq_Swap i j pq) = pq_Len pq.
Proof.
  intros Hwf Hi Hj. destruct (pq_Swap_spec pq i j Hi Hj) as [Hl _]. split; [split|].
  - apply NoDup_alt. intros a b p. rewrite !Hl. pose proof (pq_nodup pq Hwf) as Hnd. rewrite NoDup_alt in Hnd.
    intros Ha Hb. repeat case_decide; subst; try done; specialize (Hnd _ _ _ Ha Hb); by subst.
  - by apply pq_Swap_index.
  - unfold pq_Len, pq_Swap. destruct (pointers pq !! i), (pointers pq !! j); [|done..]. cbn. by rewrite !length_insert.
Qed.

Lemma pq_Swap_key pq i j c : pq_wf pq → i < pq_Len pq → j < pq_Len pq →
  pq_key (pq_Swap i j pq) c = if decide (c = i) then pq_key pq j else if decide (c = j) then pq_key pq i else pq_key pq c.
Proof.
  intros Hwf Hi Hj. destruct (pq_Swap_spec pq i j Hi Hj) as [Hl Hv]. rewrite !pq_key_value, Hl.
  assert (∀ o : option nat, o ≫= value_at (pq_Swap i j pq) = o ≫= value_at pq) as Ho by (intros [p|]; [apply Hv|done]).
  rewrite !Ho. by repeat case_decide.
Qed.

#[export] Instance pq_laws : HeapLaws (H := pq_heap) :=
  {| heap_wf := pq_wf; key := pq_key; Less_key := pq_Less_key; Swap_wf := pq_Swap_wf; Swap_key := pq_Swap_key |}.

(** ** What the queue holds *)

(** The same entries, in other positions. *)
Definition same_content pq pq' : Prop :=
  (∀ p, p ∈ pointers pq ↔ p ∈ pointers pq') ∧ ∀ p, value_at pq p = value_at pq' p.

(** Sifting keeps well-formedness, length and content. *)
Definition shuffled pq0 pq : Prop := pq_wf pq ∧ pq_Len pq = pq_Len pq0 ∧ same_content pq0 pq.

Lemma shuffled_Swap pq0 pq i j : shuffled pq0 pq → i < pq_Len pq0 → j < pq_Len pq0 → shuffled pq0 (pq_Swap i j pq).
Proof.
  intros (Hwf & HLen & Hin & Hv) Hi Hj. rewrite <- HLen in Hi, Hj.
  destruct (pq_Swap_wf pq i j Hwf Hi Hj) as [Hwf' HLen']. destruct (pq_Swap_spec pq i j Hi Hj) as [Hl Hv'].
  split_and!; [done|congruence|]. split; [|by intros p; rewrite Hv, Hv'].
  intros p. rewrite Hin. rewrite !list_elem_of_lookup. setoid_rewrite Hl. split; intros [c Hc].
  - destruct (decide (c = i)) as [->|Hci].
    { exists j. case_decide; [by subst|]. by rewrite decide_True. }
    destruct (decide (c = j)) as [->|Hcj]; [by exists i; rewrite decide_True|].
    exists c. by rewrite !decide_False.
  - repeat case_decide; eauto.
Qed.

Record waiting_ok d : Prop := {
  waiting_wf : pq_wf (waitingForQueue d);
  waiting_ordered : ordered (pq_Len (waitingForQueue d)) (waitingForQueue d);
  waiting_known k p : waitingEntryByData d !! k = Some p ↔
    p ∈ pointers (waitingForQueue d) ∧ ∃ v t, value_at (waitingForQueue d) p = Some (v, t) ∧ item_addr v = k }.

(** The items that wait and their times: the abstract state of the queue. *)
Definition waits d : gmap Z (V * Z) := omap (value_at (waitingForQueue d)) (waitingEntryByData d).

Lemma waits_lookup d k : waits d !! k = waitingEntryByData d !! k ≫= value_at (waitingForQueue d).
Proof. apply lookup_omap. Qed.

Lemma waits_Some d k v t : waiting_ok d →
  waits d !! k = Some (v, t) ↔ item_addr v = k ∧ ∃ p, p ∈ pointers (waitingForQueue d) ∧ value_at (waitingForQueue d) p = Some (v, t).
Proof.
  intros [_ _ Hk]. rewrite waits_lookup. split.
  - intros (p & Hp & Hv)%bind_Some. apply Hk in Hp as (Hin & v' & t' & Hv' & <-).
    rewrite Hv in Hv'. injection Hv' as -> ->. eauto.
  - intros (Ha & p & Hin & Hv). apply bind_Some. exists p. split; [|done]. apply Hk. eauto.
Qed.

(** [e] is added to the items that wait, unless its item is due earlier already. *)
Definition wait_insert (m : gmap Z (V * Z)) e : gmap Z (V * Z) :=
  let k := item_addr (data e) in
  <[k := match m !! k with
         | Some (v, t) => (v, if decide (readyAt e < t)%Z then readyAt e else t)
         | None => (data e, readyAt e)
         end]> m.

(** A value with the key it is waited for under is not found under another pointer. *)
Lemma known_injective d p p' v t v' t' : waiting_ok d →
  p ∈ pointers (waitingForQueue d) → p' ∈ pointers (waitingForQueue d) →
  value_at (waitingForQueue d) p = Some (v, t) → value_at (waitingForQueue d) p' = Some (v', t') →
  item_addr v = item_addr v' → p = p'.
Proof.
  intros [_ _ Hk] Hp Hp' Hv Hv' Ha.
  assert (waitingEntryByData d !! item_addr v = Some p) as H1 by (apply Hk; eauto).
  assert (waitingEntryByData d !! item_addr v = Some p') as H2 by (apply Hk; eauto 10). congruence.
Qed.

Lemma pointer_value d p : waiting_ok d → p ∈ pointers (waitingForQueue d) →
  ∃ v t, value_at (waitingForQueue d) p = Some (v, t).
Proof.
  intros [[_ Hx] _ _] [i Hi]%list_elem_of_lookup. destruct (Hx i p Hi) as (e & He & _).
  exists (data e), (readyAt e). unfold value_at. by rewrite He.
Qed.

(** The root is the entry that is due first. *)
Lemma root_earliest d e : waiting_ok d → Peek (waitingForQueue d) = Some e →
  waits d !! item_addr (data e) = Some (entry_value e) ∧ ∀ k v t, waits d !! k = Some (v, t) → (readyAt e ≤ t)%Z.
Proof.
  intros Hok Hpk. pose proof Hok as [Hwf Ho _]. unfold Peek, pq_at in Hpk. apply bind_Some in Hpk as (p & Hp & He). split.
  - apply waits_Some; [done|]. split; [done|]. exists p. split; [by eapply list_elem_of_lookup_2|].
    unfold value_at. by rewrite He.
  - intros k v t Hw. apply waits_Some in Hw as (_ & p' & [c Hc]%list_elem_of_lookup & Hv); [|done].
    pose proof (ordered_root (laws := pq_laws) _ _ c Ho (lookup_lt_Some _ _ _ Hc)) as Hle. cbn [key pq_laws] in Hle.
    rewrite !pq_key_value, Hp, Hc in Hle. cbn in Hle. rewrite Hv in Hle. unfold value_at in Hle. by rewrite He in Hle.
Qed.

Lemma Peek_None d : waiting_ok d → Peek (waitingForQueue d) = None → waits d = ∅ ∧ pq_Len (waitingForQueue d) = 0.
Proof.
  intros Hok Hpk. assert (pq_Len (waitingForQueue d) = 0) as Hz.
  { destruct (decide (0 < pq_Len (waitingForQueue d))) as [Hlt|]; [|lia].
    destruct (pq_at_lookup _ 0 (waiting_wf d Hok) Hlt) as (p & e & _ & _ & Hat & _). unfold Peek in Hpk. congruence. }
  split; [|done]. apply map_empty. intros k. destruct (waits d !! k) as [[v t]|] eqn:Hw; [|done].
  apply waits_Some in Hw as (_ & p & Hin & _); [|done]. unfold pq_Len in Hz. apply nil_length_inv in Hz.
  rewrite Hz in Hin. by apply not_elem_of_nil in Hin.
Qed.

(** ** Taking the first entry *)

Lemma heap_Pop_spec pq n : pq_wf pq → ordered (pq_Len pq) pq → pq_Len pq = S n →
  ∃ p pq', heap_Pop pq = Some (p, pq') ∧ pointers pq !! 0 = Some p ∧ pq_wf pq' ∧ pq_Len pq' = n ∧ ordered n pq' ∧
    (∀ p', p' ∈ pointers pq' ↔ p' ∈ pointers pq ∧ p' ≠ p) ∧ ∀ p', value_at pq' p' = value_at pq p'.
Proof.
  intros Hwf Ho HLen. pose proof (heap_Pop_ordered (laws := pq_laws) n pq Hwf HLen Ho) as Ho'.
  destruct (pq_at_lookup pq 0 Hwf ltac:(lia)) as (p & e & Hp & He & _ & _).
  assert (shuffled pq (down 0 n (Swap 0 n pq)).2 ∧ pointers (down 0 n (Swap 0 n pq)).2 !! n = Some p) as [Hs Hn].
  { apply (down_keeps_state (λ s, shuffled pq s ∧ pointers s !! n = Some p)).
    - intros s i j [Hs Hn] Hi Hj. split; [apply shuffled_Swap; (done || lia)|].
      destruct Hs as (_ & HLs & _). destruct (pq_Swap_spec s i j) as [Hl _]; [lia|lia|]. cbn. rewrite Hl.
      by rewrite !decide_False by lia.
    - split; [apply shuffled_Swap; [by split_and!|lia|lia]|].
      destruct (pq_Swap_spec pq 0 n) as [Hl _]; [lia|lia|]. cbn. rewrite Hl. case_decide as Hn; [by subst|]. by rewrite decide_True. }
  set (s := (down 0 n (Swap 0 n pq)).2) in *. destruct Hs as (Hwf' & HLs & Hin & Hv).
  exists p, (MkPriorityQueue (take n (pointers s)) (alter (with_index (-1)) p (entries s))).
  assert (∀ c, c < n → pointers s !! c ≠ Some p) as Hother.
  { intros c Hc Hcp. destruct Hwf' as [Hnd _]. assert (c = n) by (by eapply NoDup_lookup). lia. }
  assert (∀ p', value_at (MkPriorityQueue (take n (pointers s)) (alter (with_index (-1)) p (entries s))) p' = value_at pq p') as Hval
    by (intros p'; rewrite (value_alter _ _ (pointers s)), Hv; by destruct s).
  assert (length (pointers s) = S n) as Hls by (unfold pq_Len in *; congruence).
  split_and!; [|done| | | | |done].
  - unfold heap_Pop. cbn [Len pq_heap]. rewrite HLen. fold s. cbn [heap_pop pq_heap]. unfold pq_Pop. rewrite Hls.
    replace (S n - 1) with n by lia. by rewrite Hn.
  - split; cbn.
    + eapply sublist_NoDup; [apply (pq_nodup s Hwf')|]. apply sublist_take.
    + intros i p' [Hp' Hi]%lookup_take_Some. destruct (pq_index s Hwf' i p' Hp') as (e' & He' & Hx).
      exists e'. split; [|done]. rewrite lookup_alter_ne; [done|]. intros <-. by apply (Hother i).
  - unfold pq_Len. cbn. rewrite length_take. lia.
  - intros c Hc. pose proof (parent_lt c ltac:(lia)). specialize (Ho' c Hc). cbn [key pq_laws] in *.
    rewrite !pq_key_value in *. cbn [pointers]. rewrite !lookup_take_lt by lia.
    assert (∀ o : option nat, o ≫= value_at (MkPriorityQueue (take n (pointers s)) (alter (with_index (-1)) p (entries s))) =
      o ≫= value_at s) as Hb by (intros [p'|]; [|done]; cbn; by rewrite Hval, Hv).
    by rewrite !Hb.
  - intros p'. cbn. rewrite Hin. rewrite <- (take_drop n (pointers s)) at 2. rewrite elem_of_app.
    assert (drop n (pointers s) = [p]) as ->.
    { rewrite (drop_S _ p) by done. by rewrite drop_ge by lia. }
    rewrite list_elem_of_singleton. split; [|by intros [[|] ?]].
    intros [c [Hc Hlt]%lookup_take_Some]%list_elem_of_lookup. split; [left; apply list_elem_of_lookup; exists c; by apply lookup_take_Some|].
    intros ->. by apply (Hother c).
Qed.

(** ** Waiting *)

Lemma pq_key_ext pq pq' c : pointers pq !! c = pointers pq' !! c →
  (∀ p, pointers pq !! c = Some p → value_at pq p = value_at pq' p) → pq_key pq c = pq_key pq' c.
Proof.
  intros Hc Hv. rewrite !pq_key_value, <- Hc. destruct (pointers pq !! c) as [p|]; [|done]. cbn. by rewrite Hv.
Qed.

(** The queue over a heap with the same entries. *)
Lemma waiting_ok_shuffled d pq pq' known :
  (∀ k p, known !! k = Some p ↔ p ∈ pointers pq ∧ ∃ v t, value_at pq p = Some (v, t) ∧ item_addr v = k) →
  shuffled pq pq' → ordered (pq_Len pq) pq' →
  waiting_ok (with_waiting pq' known d) ∧ waits (with_waiting pq' known d) = waits (with_waiting pq known d).
Proof.
  intros Hk (Hwf' & HLen & Hin & Hv) Ho.
  split; [split; cbn|].
  - done.
  - by rewrite HLen.
  - intros k p. by rewrite Hk, <- Hin, (Hv p).
  - apply map_eq. intros k. rewrite !waits_lookup. cbn. destruct (known !! k) as [p|]; [|done]. cbn. by rewrite Hv.
Qed.

(** A known item gets an earlier time. *)
Lemma move_spec d e p existing (k := item_addr (data e)) :
  waiting_ok d → waitingEntryByData d !! k = Some p → entries (waitingForQueue d) !! p = Some existing →
  (readyAt e < readyAt existing)%Z →
  let pq := MkPriorityQueue (pointers (waitingForQueue d)) (<[p := with_readyAt (readyAt e) existing]> (entries (waitingForQueue d))) in
  let d' := with_waiting (heap_Fix (Z.to_nat (index existing)) pq) (waitingEntryByData d) d in
  waiting_ok d' ∧ waits d' = <[k := (data existing, readyAt e)]> (waits d).
Proof.
  intros Hok Hp He Hlt pq d'. pose proof Hok as [Hwf Ho Hk]. pose proof (proj1 (Hk _ _) Hp) as (Hin & v & t & Hv & Ha).
  unfold value_at in Hv. rewrite He in Hv. injection Hv as <- <-.
  pose proof Hin as [i Hi]%list_elem_of_lookup. destruct (pq_index _ Hwf i p Hi) as (e' & He' & Hx).
  rewrite He in He'. injection He' as <-. assert (Z.to_nat (index existing) = i) as Hxi by lia. subst d'. rewrite Hxi.
  assert (∀ p', value_at pq p' = if decide (p' = p) then Some (data existing, readyAt e) else value_at (waitingForQueue d) p') as Hval.
  { intros p'. unfold value_at. cbn. case_decide as Hpp; [subst; by rewrite lookup_insert_eq|by rewrite lookup_insert_ne]. }
  assert (pq_wf pq) as Hwf1.
  { split; [apply Hwf|]. intros c p' Hc. cbn in *. destruct (pq_index _ Hwf c p' Hc) as (e' & He' & Hx').
    destruct (decide (p = p')) as [<-|Hpp]; [|rewrite lookup_insert_ne by done; eauto].
    rewrite lookup_insert_eq. eexists. split; [done|]. cbn. rewrite He in He'. by injection He' as <-. }
  assert (∀ c, c ≠ i → pq_key pq c = pq_key (waitingForQueue d) c) as Hkey.
  { intros c Hc. apply pq_key_ext; [done|]. intros p' Hp'. rewrite Hval. rewrite decide_False; [done|].
    intros ->. apply Hc. eapply NoDup_lookup; [apply (pq_nodup _ Hwf)| |]; eassumption. }
  pose proof (lookup_lt_Some _ _ _ Hi) as Hlen.
  assert (ordered_but i (pq_Len pq) pq) as Hb.
  { intros c Hc. destruct (ordered_weaken (laws := pq_laws) i (pq_Len (waitingForQueue d)) (waitingForQueue d) Ho) as [Hbut _]. destruct (Hbut c Hc) as [Hb1 Hb2].
    pose proof (parent_lt c ltac:(lia)). cbn [key pq_laws] in *. split.
    - intros Hci Hpc. rewrite !Hkey by done. by apply Hb1.
    - intros Hpc Hi0. pose proof (parent_lt i Hi0). rewrite !Hkey by lia. by apply Hb2. }
  assert (shuffled pq (heap_Fix i pq)) as Hsh.
  { apply heap_Fix_keeps; [|done|by split_and!]. intros s' a b Hs Ha' Hb'. by apply shuffled_Swap. }
  pose proof (heap_Fix_ordered (laws := pq_laws) i pq Hwf1 Hlen Hb) as Hord.
  destruct (waiting_ok_shuffled d pq (heap_Fix i pq) (waitingEntryByData d)) as [Hok' Hw].
  { intros k' p'. rewrite Hk. cbn. f_equiv. rewrite Hval. case_decide as Hpp; [subst p'|done].
    unfold value_at. rewrite He. cbn. split; intros (v & t & [= <- <-] & ?); eauto. }
  { done. }
  { done. }
  split; [done|]. rewrite Hw. apply map_eq. intros k'. rewrite waits_lookup. cbn.
  destruct (decide (k' = k)) as [->|Hkk].
  - rewrite lookup_insert_eq, Hp. cbn. rewrite Hval. by rewrite decide_True.
  - rewrite lookup_insert_ne, waits_lookup by done. destruct (waitingEntryByData d !! k') as [p'|] eqn:Hp'; [|done]. cbn.
    rewrite Hval, decide_False; [done|]. intros ->. apply Hk in Hp' as (_ & v & t & Hv & Hak).
    unfold value_at in Hv. rewrite He in Hv. injection Hv as <- <-. by rewrite Ha in Hak.
Qed.

(** A new item gets an entry of its own. *)
Lemma push_spec d e (k := item_addr (data e)) (p := fresh (dom (entries (waitingForQueue d)))) :
  waiting_ok d → waitingEntryByData d !! k = None →
  let pq := heap_Push p (MkPriorityQueue (pointers (waitingForQueue d)) (<[p := e]> (entries (waitingForQueue d)))) in
  let d' := with_waiting pq (<[k := p]> (waitingEntryByData d)) d in
  waiting_ok d' ∧ waits d' = <[k := entry_value e]> (waits d).
Proof.
  intros Hok Hp pq d'. pose proof Hok as [Hwf Ho Hk].
  assert (entries (waitingForQueue d) !! p = None) as Hfresh by (apply not_elem_of_dom; apply is_fresh).
  assert (p ∉ pointers (waitingForQueue d)) as Hnew.
  { intros [i Hi]%list_elem_of_lookup. destruct (pq_index _ Hwf i p Hi) as (e' & He' & _). congruence. }
  clearbody p. set (pq0 := MkPriorityQueue (pointers (waitingForQueue d)) (<[p := e]> (entries (waitingForQueue d)))) in *.
  set (pq1 := heap_push p pq0).
  assert (∀ p', value_at pq1 p' = if decide (p' = p) then Some (entry_value e) else value_at (waitingForQueue d) p') as Hval.
  { intros p'. subst pq1 pq0. cbn [heap_push pq_heap]. unfold pq_Push. rewrite (value_alter _ _ []). unfold value_at. cbn.
    case_decide; [subst; by rewrite lookup_insert_eq|by rewrite lookup_insert_ne]. }
  assert (pq_wf pq1) as Hwf1.
  { split; cbn.
    - rewrite <- Permutation_cons_append. constructor; [done|apply Hwf].
    - intros c p' [[Hc Hc']|[Hc Hx]]%lookup_snoc_Some.
      + assert (p' ≠ p) by (intros ->; by eapply Hnew, list_elem_of_lookup_2).
        rewrite lookup_alter_ne, lookup_insert_ne by done. by apply (pq_index _ Hwf).
      + subst. rewrite lookup_alter_eq, lookup_insert_eq. eexists. by split. }
  assert (pq_Len pq1 = S (pq_Len (waitingForQueue d))) as HLen
    by (subst pq1; unfold pq_Len; cbn; rewrite length_app; cbn; lia).
  assert (∀ c, c < pq_Len (waitingForQueue d) → pq_key pq1 c = pq_key (waitingForQueue d) c ∧
    pq_key pq0 c = pq_key (waitingForQueue d) c) as Hkey.
  { intros c Hc. destruct (lookup_lt_is_Some_2 _ _ Hc) as [p' Hp'].
    assert (p' ≠ p) by (intros ->; by eapply Hnew, list_elem_of_lookup_2).
    assert (pointers pq1 !! c = Some p') as Hq by (by apply lookup_app_l_Some).
    split; apply pq_key_ext; rewrite ?Hq; [done| |done|].
    - intros p'' [= <-]. by rewrite Hval, decide_False.
    - intros p'' Hp''. cbn in Hp''. rewrite Hp' in Hp''. injection Hp'' as <-. unfold value_at. cbn. by rewrite lookup_insert_ne. }
  assert (ordered (pq_Len pq1) pq) as Hord.
  { rewrite HLen. apply (heap_Push_ordered (laws := pq_laws) p pq0); [done|done| |].
    - intros c Hc. cbn. rewrite (proj2 (Hkey c Hc)). by apply Hkey.
    - intros c Hc. pose proof (parent_lt c ltac:(lia)). cbn [key pq_laws Len pq_heap] in *.
      assert (parent c < pq_Len (waitingForQueue d) ∧ c < pq_Len (waitingForQueue d)) as [Hl1 Hl2] by (unfold pq_Len in *; cbn in Hc; lia).
      rewrite (proj2 (Hkey _ Hl1)), (proj2 (Hkey _ Hl2)). apply Ho. lia. }
  assert (shuffled pq1 pq) as Hsh.
  { apply heap_Push_keeps; [|cbn [Len pq_heap]; fold pq1; lia|by split_and!].
    intros s' a b Hs Ha Hb. by apply shuffled_Swap. }
  destruct (waiting_ok_shuffled d pq1 pq (<[k := p]> (waitingEntryByData d))) as [Hok' Hw].
  { intros k' p'. subst pq1. cbn [pointers heap_push pq_heap pq_Push]. rewrite elem_of_app, list_elem_of_singleton, Hval.
    destruct (decide (k' = k)) as [->|Hkk].
    - rewrite lookup_insert_eq. split.
      + intros [= <-]. split; [by right|]. rewrite decide_True by done. by exists (data e), (readyAt e).
      + intros [Hin (v & t & Hv & Ha)]. case_decide as Hpp; [by subst|]. destruct Hin as [Hin|]; [|done].
        assert (waitingEntryByData d !! k = Some p') by (apply Hk; eauto). congruence.
    - rewrite lookup_insert_ne, Hk by done. split.
      + intros [Hin Hv]. split; [by left|]. rewrite decide_False; [done|]. by intros ->.
      + intros [Hin (v & t & Hv & Ha)]. case_decide as Hpp; [injection Hv as <- <-; by subst|].
        destruct Hin as [Hin|]; [eauto|done]. }
  { done. }
  { done. }
  subst d'. split; [done|]. rewrite Hw. apply map_eq. intros k'. rewrite waits_lookup. cbn.
  destruct (decide (k' = k)) as [->|Hkk].
  - rewrite !lookup_insert_eq. cbn. by rewrite Hval, decide_True.
  - rewrite !lookup_insert_ne, waits_lookup by done. destruct (waitingEntryByData d !! k') as [p'|] eqn:Hp'; [|done]. cbn.
    rewrite Hval, decide_False; [done|]. intros ->. apply Hk in Hp' as [? _]. done.
Qed.

(** An item waits until the earliest of the times it was added with. *)
Lemma insert_spec d e : waiting_ok d →
  let '(pq, known) := insert (waitingForQueue d) (waitingEntryByData d) e in
  waiting_ok (with_waiting pq known d) ∧ waits (with_waiting pq known d) = wait_insert (waits d) e.
Proof.
  intros Hok. unfold insert, wait_insert.
  destruct (waitingEntryByData d !! item_addr (data e)) as [p|] eqn:Hp.
  - pose proof (proj1 (waiting_known d Hok _ _) Hp) as (_ & v & t & Hv & _).
    assert (waits d !! item_addr (data e) = Some (v, t)) as Hw by (rewrite waits_lookup, Hp; done). rewrite Hw.
    unfold value_at in Hv. apply fmap_Some in Hv as (existing & He & [= -> ->]). rewrite He.
    case_decide as Hlt; [by apply move_spec|].
    assert (with_waiting (waitingForQueue d) (waitingEntryByData d) d = d) as -> by by destruct d.
    split; [done|]. symmetry. by apply insert_id.
  - rewrite waits_lookup, Hp. by apply push_spec.
Qed.

Lemma pop_spec d e q : waiting_ok d → Peek (waitingForQueue d) = Some e →
  ∃ p pq e', heap_Pop (waitingForQueue d) = Some (p, pq) ∧ entries pq !! p = Some e' ∧ entry_value e' = entry_value e ∧
    let d' := MkDelayingQueue q pq (delete (item_addr (data e)) (waitingEntryByData d)) (waitingForAddCh d) in
    waiting_ok d' ∧ waits d' = delete (item_addr (data e)) (waits d) ∧ S (pq_Len pq) = pq_Len (waitingForQueue d).
Proof.
  intros Hok Hpk. pose proof Hok as [Hwf Ho Hk].
  pose proof Hpk as (p & Hp & He)%bind_Some. pose proof (lookup_lt_Some _ _ _ Hp) as Hlen. fold (pq_Len (waitingForQueue d)) in Hlen.
  destruct (heap_Pop_spec (waitingForQueue d) (pq_Len (waitingForQueue d) - 1) Hwf Ho ltac:(lia))
    as (p' & pq & Hpop & Hp' & Hwf' & HLen & Ho' & Hin & Hv). rewrite Hp in Hp'. injection Hp' as <-.
  assert (value_at (waitingForQueue d) p = Some (entry_value e)) as Hpv by (unfold value_at; by rewrite He).
  pose proof (Hv p) as Hv'. rewrite Hpv in Hv'. unfold value_at in Hv'. apply fmap_Some in Hv' as (e' & He' & Heq).
  assert (p ∈ pointers (waitingForQueue d)) as Hpin by by eapply list_elem_of_lookup_2.
  assert (waitingEntryByData d !! item_addr (data e) = Some p) as Hkp by (apply Hk; split; [done|]; by exists (data e), (readyAt e)).
  exists p, pq, e'. split_and!; [done..|]. cbn zeta. split_and!; [| |lia].
  - split; cbn; [done|by rewrite HLen|]. intros k p2. rewrite lookup_delete_Some, Hk, Hin. setoid_rewrite Hv. split.
    + intros (Hne & Hin2 & v & t & Hv2 & Ha). split; [split; [done|]|by exists v, t].
      intros ->. rewrite Hpv in Hv2. injection Hv2 as <- <-. done.
    + intros ([Hin2 Hne] & v & t & Hv2 & Ha). split; [|by split; [done|exists v, t]].
      intros <-. apply Hne. by eapply (known_injective d p2 p v t).
  - apply map_eq. intros k. rewrite waits_lookup. cbn. destruct (decide (k = item_addr (data e))) as [->|Hne].
    + by rewrite !lookup_delete_eq.
    + rewrite !lookup_delete_ne, waits_lookup by done. destruct (waitingEntryByData d !! k); [|done]. cbn. by rewrite Hv.
Qed.

(** ** Correctness *)

Definition ready (now : Z) e : Prop := (readyAt e ≤ now)%Z.
#[export] Instance ready_dec now e : Decision (ready now e).
Proof. unfold ready. apply _. Defined.

(** Add items, in order. *)
Definition Add_all (l : list V) q : WorkQueue V I := foldl (λ q item, (Add item q).2) q l.

(** [due] are the items of [m] that are due at [now], each once, the earliest first. *)
Record due_at (now : Z) (m : gmap Z (V * Z)) (due : list (V * Z)) : Prop := {
  due_sorted : StronglySorted Z.le due.*2;
  due_once : NoDup (item_addr <$> due.*1);
  due_exact v t : (v, t) ∈ due ↔ m !! item_addr v = Some (v, t) ∧ (t ≤ now)%Z }.

(** What is still to wait for. *)
Definition later (now : Z) (m : gmap Z (V * Z)) : gmap Z (V * Z) := filter (λ kw, (now < kw.2.2)%Z) m.

Lemma due_none now m : (∀ k v t, m !! k = Some (v, t) → (now < t)%Z) → due_at now m [] ∧ later now m = m.
Proof.
  intros Hlate. split; [split|].
  - constructor.
  - constructor.
  - intros v t. split; [by intros ?%not_elem_of_nil|]. intros [Hm%Hlate Ht]. lia.
  - apply map_filter_id. intros k [v t] Hm. by apply Hlate in Hm.
Qed.

Lemma due_cons now m v t due (k := item_addr v) :
  m !! k = Some (v, t) → (t ≤ now)%Z → (∀ k v' t', m !! k = Some (v', t') → (t ≤ t')%Z) →
  due_at now (delete k m) due → due_at now m ((v, t) :: due) ∧ later now (delete k m) = later now m.
Proof.
  intros Hm Hnow Hmin [Hs Hn He]. split; [split|]; cbn.
  - constructor; [done|]. apply Forall_forall. intros t' ([v' t''] & -> & Hin)%list_elem_of_fmap.
    apply He in Hin as [[_ Hin]%lookup_delete_Some _]. by eapply Hmin.
  - constructor; [|done]. intros (v' & Hv' & ([v2 t2] & -> & Hin)%list_elem_of_fmap)%list_elem_of_fmap.
    apply He in Hin as [[Hne _]%lookup_delete_Some _]. done.
  - intros v' t'. rewrite elem_of_cons, He, lookup_delete_Some. split.
    + intros [[= -> ->]|[[_ ?] ?]]; done.
    + intros [Hm' Ht']. destruct (decide (k = item_addr v')) as [Hk|Hk]; [left|right; done].
      rewrite <- Hk, Hm in Hm'. by injection Hm' as -> ->.
  - apply map_eq. intros k'. unfold later. apply option_eq. intros [v' t']. rewrite !map_lookup_filter_Some, lookup_delete_Some. cbn.
    split; [tauto|]. intros [Hm' Ht']. split_and!; [|done|done]. intros <-. rewrite Hm in Hm'. injection Hm' as -> ->. lia.
Qed.

(** The first loop adds the items that are due. *)
Lemma add_ready_spec fuel now d : waiting_ok d → pq_Len (waitingForQueue d) ≤ fuel →
  let d' := add_ready fuel now d in
  ∃ due, due_at now (waits d) due ∧ inner d' = Add_all due.*1 (inner d) ∧ waiting_ok d' ∧
    waits d' = later now (waits d) ∧ waitingForAddCh d' = waitingForAddCh d.
Proof.
  revert d. induction fuel as [|fuel IH]; intros d Hok Hlen; cbn [add_ready].
  { destruct (Peek (waitingForQueue d)) as [e|] eqn:Hpk.
    - apply bind_Some in Hpk as (p & Hp%lookup_lt_Some & _). unfold pq_Len in Hlen. lia.
    - destruct (Peek_None d Hok Hpk) as [Hw _]. rewrite Hw.
      destruct (due_none now ∅) as [Hd Hl]; [by intros k v t ?%lookup_empty_Some|]. exists []. by rewrite Hl. }
  destruct (Peek (waitingForQueue d)) as [e|] eqn:Hpk.
  2:{ destruct (Peek_None d Hok Hpk) as [Hw _]. rewrite Hw.
      destruct (due_none now ∅) as [Hd Hl]; [by intros k v t ?%lookup_empty_Some|]. exists []. by rewrite Hl. }
  destruct (root_earliest d e Hok Hpk) as [He Hmin]. case_decide as Hlt.
  { destruct (due_none now (waits d)) as [Hd Hl]; [intros k v t Hm; apply Hmin in Hm; lia|]. exists []. by rewrite Hl. }
  destruct (pop_spec d e (Add (data e) (inner d)).2 Hok Hpk) as (p & pq & e' & -> & -> & Heq & Hok' & Hw & HLen).
  injection Heq as -> Ht.
  destruct (IH _ Hok') as (due & Hd & Hi & Hok2 & Hw2 & Hch); [cbn; lia|].
  rewrite Hw in Hd, Hw2. destruct (due_cons now (waits d) (data e) (readyAt e) due) as [Hd' Hl]; [done|lia|done|done|].
  exists ((data e, readyAt e) :: due). rewrite Hl in Hw2. by split_and!.
Qed.

Lemma receive_all_spec now l d : waiting_ok d →
  let d' := foldl (receive now) d l in
  inner d' = Add_all (data <$> filter (ready now) l) (inner d) ∧ waitingForAddCh d' = waitingForAddCh d ∧
  waiting_ok d' ∧ waits d' = foldl wait_insert (waits d) (filter (λ e, ¬ ready now e) l).
Proof.
  revert d. induction l as [|e l IH]; intros d Hok; [done|]. simpl. rewrite !filter_cons.
  unfold receive at 2 4 6 8. destruct (decide (ready now e)) as [Hr|Hr].
  - rewrite !(decide_False (P := ¬ _)), !(decide_False (P := (now < readyAt e)%Z)) by (unfold ready in *; (tauto || lia)).
    destruct (IH (with_inner (Add (data e) (inner d)).2 d)) as (-> & -> & ? & ->); [by destruct Hok; split|done].
  - rewrite !(decide_True (P := ¬ _)), !(decide_True (P := (now < readyAt e)%Z)) by (unfold ready in *; (tauto || lia)).
    pose proof (insert_spec d e Hok) as Hi. destruct (insert _ _ e) as [pq known]. destruct Hi as [Hok' Hw].
    destruct (IH (with_waiting pq known d) Hok') as (-> & -> & ? & ->). simpl. by rewrite Hw.
Qed.

(** C36: The delaying queue keeps its promise.  An iteration of the waiting loop adds exactly the items that
    are due, none early and none late: first those that waited, each once and the earliest first, then
    those just received, in the order of their arrival; an item received more than once waits
    for the earliest of its times; the heap, its positions and the map that finds the entries stay in
    order; and the timer the loop then waits for is that of the earliest item, and none if no item waits. *)
Theorem waitingLoop_due (now now' : Z) (woken : bool) d :
  ShuttingDown (inner d) = false → waiting_ok d →
  let d' := waitingLoop_iteration now now' woken d in
  let received := if woken then waitingForAddCh d else [] in
  (∃ due, due_at now (waits d) due ∧
     inner d' = Add_all (due.*1 ++ (data <$> filter (ready now') received)) (inner d)) ∧
  waiting_ok d' ∧ waits d' = foldl wait_insert (later now (waits d)) (filter (λ e, ¬ ready now' e) received) ∧
  waitingForAddCh d' = (if woken then [] else waitingForAddCh d) ∧
  match nextReadyAt now d' with
  | Some dt => (∃ k v, waits d' !! k = Some (v, now + dt)%Z) ∧ ∀ k v t, waits d' !! k = Some (v, t) → (now + dt ≤ t)%Z
  | None => waits d' = ∅
  end.
Proof.
  intros Hsd Hok d' received. subst d'. unfold waitingLoop_iteration. rewrite Hsd.
  destruct (add_ready_spec (pq_Len (waitingForQueue d)) now d Hok ltac:(lia)) as (due & Hd & Hi & Hok1 & Hw & Hch).
  cbn [Len pq_heap]. set (d1 := add_ready _ now d) in *.
  assert (∀ d', waiting_ok d' → match nextReadyAt now d' with
    | Some dt => (∃ k v, waits d' !! k = Some (v, now + dt)%Z) ∧ ∀ k v t, waits d' !! k = Some (v, t) → (now + dt ≤ t)%Z
    | None => waits d' = ∅ end) as Htimer.
  { intros d' Hok'. unfold nextReadyAt. destruct (Peek (waitingForQueue d')) as [e|] eqn:Hpk; cbn.
    - destruct (root_earliest d' e Hok' Hpk) as [He Hmin]. replace (now + (readyAt e - now))%Z with (readyAt e) by lia. eauto.
    - by apply Peek_None. }
  destruct woken; subst received.
  - rewrite Hch. destruct (receive_all_spec now' (waitingForAddCh d) (with_incoming [] d1)) as (Hi2 & Hc2 & Hok2 & Hw2).
    { destruct Hok1; by split. }
    split; [exists due|by split_and!; [|rewrite Hw2; cbn; rewrite <- Hw| |apply Htimer]].
    split; [done|]. rewrite Hi2. cbn. rewrite Hi. unfold Add_all. by rewrite foldl_app.
  - split; [exists due; split; [done|]; rewrite app_nil_r; exact Hi|]. by split_and!; [| | |apply Htimer].
Qed.

(** When the channel of the loop is full, [TryAddAfter] drops the item and still
    reports that it was accepted. *)
Theorem TryAddAfter_drops (now : Z) item (duration : Z) d :
  ShuttingDown (inner d) = false → (0 < duration)%Z → length (waitingForAddCh d) = waitingForAdd_size →
  TryAddAfter now item duration d = (true, d).
Proof.
  intros Hs Hd Hl. unfold TryAddAfter. rewrite Hs, decide_False by lia.
  by rewrite decide_False by lia.
Qed.

Lemma new_waiting_ok maxSize : waiting_ok (NewDelayingQueue maxSize).
Proof.
  split; cbn.
  - split; [constructor|]. intros i p Hp. by destruct i.
  - intros c Hc. cbn in Hc. lia.
  - intros k p. rewrite lookup_empty. split; [done|]. by intros [?%not_elem_of_nil _].
Qed.
End delaying.

(** ** Runs *)

#[local] Existing Instance named.

(** Two items wait, and two are received, one of which waits already; the heap has entries whose items were
    added later at its root. *)
Definition run_waiting : DelayingQueue (V := nat * Z) (I := nat) :=
  foldl (receive 0) (NewDelayingQueue 10)
    [MkWaitFor (2, 2%Z) 20 0; MkWaitFor (4, 4%Z) 8 0; MkWaitFor (1, 1%Z) 5 0].
Definition run_received : list (waitFor (V := nat * Z)) := [MkWaitFor (2, 2%Z) 15 0; MkWaitFor (3, 3%Z) 7 0].

Example run_heap : (λ p, (λ e, (item_addr (data e), readyAt e, index e)) <$> entries (waitingForQueue run_waiting) !! p) <$>
    pointers (waitingForQueue run_waiting) = [Some (1, 5, 0); Some (2, 20, 1); Some (4, 8, 2)]%Z.
Proof. by vm_compute. Qed.

Lemma run_waiting_ok : waiting_ok run_waiting.
Proof.
  unfold run_waiting. destruct (receive_all_spec 0 [MkWaitFor (2, 2%Z) 20 0; MkWaitFor (4, 4%Z) 8 0; MkWaitFor (1, 1%Z) 5 0]
    (NewDelayingQueue 10) (new_waiting_ok 10)) as (_ & _ & Hok & _). exact Hok.
Qed.

Lemma waitingLoop_due_witness :
  let d := with_incoming run_received run_waiting in
  let d' := waitingLoop_iteration 10 12 true d in
  (∃ due, due_at 10 (waits d) due ∧ inner d' = Add_all (due.*1 ++ [(3, 3%Z)]) (NewNamed 10)) ∧
  waits d' = {[ 2%Z := ((2, 2%Z), 15%Z) ]} ∧ nextReadyAt 10 d' = Some 5%Z.
Proof.
  intros d. assert (waiting_ok d) as Hok by (destruct run_waiting_ok; by split).
  destruct (waitingLoop_due 10 12 true d eq_refl Hok) as (Hdue & _ & Hw & _).
  split; [exact Hdue|]. split; [rewrite Hw; by vm_compute|by vm_compute].
Defined.

Lemma TryAddAfter_drops_witness :
  let d := with_incoming (replicate 1000 (MkWaitFor (1, 1%Z) 5 0)) (NewDelayingQueue 10) in
  TryAddAfter 0 (2, 2%Z) 5 d = (true, d).
Proof. intros d. apply (TryAddAfter_drops 0 (2, 2%Z) 5 d); [done|lia|done]. Defined.
