(* ===== verification/Executor.v ===== *)
(** Component [pkg/controller/executor]: the pool of workers that runs the tasks of the
    controllers, with a count of open tasks per group. *)

From stdpp Require Import base gmap strings list.
From S2P Require Import Prelude WorkQueue DelayingQueue.

Section executor.
(** The work of a task and what running it does to the world. *)
Context {A W E : Type} (apply : A → W → res E () * W).

(** Identifiers and groups are strings, or [nil]; [task_ptr] is the address of a task. *)
(** [pkg/controller/executor/executor.go:29-38] Task *)
Record Task := MkTask {
  TaskID : option string;
  GroupID : option string;
  Apply : A;
  task_ptr : Z }.
Implicit Types t : Task.

(** [pkg/controller/executor/executor.go:40-42] Task.ID *)
#[export] Instance Task_Item : Item Task string := {| item_ID := TaskID; item_addr := task_ptr |}.

(** The workers are counted; the tasks they run are those the queue is processing. *)
(** [pkg/controller/executor/executor.go:13-26] LocalExecutor *)
Record LocalExecutor := MkLocalExecutor {
  maxParallelism : Z;
  ex_queue : DelayingQueue (V := Task) (I := string);
  workers : nat;
  groups : gmap string Z }.
Implicit Types ex : LocalExecutor.

(** [pkg/controller/executor/executor.go:44-57] NewLocalExecutor *)
Definition NewLocalExecutor (maxParallelism maxQueueSize : Z) : res E LocalExecutor :=
  if decide (maxParallelism ≤ 0)%Z then Panic "LocalExecutor: parallelism should be larger than 0" else
  if decide (maxQueueSize ≤ 0)%Z then Panic "LocalExecutor: queue size should be larger than 0" else
  Ret (MkLocalExecutor maxParallelism (NewDelayingQueue maxQueueSize) 0 ∅).

(** [pkg/controller/executor/executor.go:59-73] LocalExecutor.Start *)
Definition Start ex : res E LocalExecutor :=
  if decide (maxParallelism ex ≤ 0)%Z then Panic "LocalExecutor: parallelism should be larger than 0"
  else Ret (MkLocalExecutor (maxParallelism ex) (ex_queue ex)
              (workers ex + Z.to_nat (maxParallelism ex)) (groups ex)).

Definition with_queue (q : DelayingQueue) ex : LocalExecutor :=
  MkLocalExecutor (maxParallelism ex) q (workers ex) (groups ex).

(** [pkg/controller/executor/executor.go:75-78] LocalExecutor.Close *)
Definition Close ex : res E LocalExecutor :=
  q ← delaying_ShutDown (ex_queue ex); Ret (with_queue q ex).

(** [pkg/controller/executor/executor.go:80-85] LocalExecutor.GetGroupTasks *)
Definition GetGroupTasks ex (groupID : string) : Z := default 0%Z (groups ex !! groupID).

(** [groups[g] += n], nothing for a task without a group. *)
Definition add_group (g : option string) (n : Z) ex : LocalExecutor :=
  match g with
  | None => ex
  | Some g => MkLocalExecutor (maxParallelism ex) (ex_queue ex) (workers ex)
                (<[g := (default 0 (groups ex !! g) + n)%Z]> (groups ex))
  end.

(** The first part of [SubmitAfter]: offer the task to the queue. *)
Definition enqueue (now : Z) t (after : Z) ex : bool * LocalExecutor :=
  let '(accepted, q) :=
    if decide (after ≤ 0)%Z then TryAddAfter now t after (ex_queue ex)
    else delaying_Add t (ex_queue ex) in
  (accepted, with_queue q ex).

(** [pkg/controller/executor/executor.go:87-108] LocalExecutor.SubmitAfter *)
Definition SubmitAfter (now : Z) t (after : Z) ex : bool * LocalExecutor :=
  let '(accepted, ex) := enqueue now t after ex in
  if accepted then (true, add_group (GroupID t) 1 ex) else (false, ex).

(** [pkg/controller/executor/executor.go:110-112] LocalExecutor.Submit *)
Definition Submit (now : Z) t ex : bool * LocalExecutor := SubmitAfter now t 0 ex.

(** Errors are logged, panics recovered: only the effect on the world remains. *)
(** [pkg/controller/executor/executor.go:139-150] executeTask *)
Definition executeTask t (w : W) : W := (apply (Apply t) w).2.

(** The body of the worker's loop, with its parts: take a task, report it done. *)
Definition take ex : option (Task * LocalExecutor) :=
  match Get (inner (ex_queue ex)) with
  | GetItem (Some t) q => Some (t, with_queue (with_inner q (ex_queue ex)) ex)
  | _ => None
  end.

Definition report t ex : LocalExecutor :=
  with_queue (with_inner (Done t (inner (ex_queue ex))) (ex_queue ex)) ex.

(** [pkg/controller/executor/executor.go:120-137] worker.Run, one round *)
Definition worker_round ex (w : W) : option (LocalExecutor * W) :=
  '(t, ex) ← take ex;
  let w := executeTask t w in
  let ex := report t ex in
  Some (add_group (GroupID t) (-1) ex, w).

(** ** Interleavings *)

(** The executor between the atomic steps of its methods: the groups of the accepted
    tasks whose count is still to be raised, of the finished tasks whose count is
    still to be lowered, and (as a history) of the accepted tasks for which the queue
    kept another task with the same key. *)
Record execution := MkExecution {
  executor : LocalExecutor;
  world : W;
  submitting : list (option string);
  finishing : list (option string);
  merged : list (option string) }.
Implicit Types x : execution.

Definition is_dirty t ex : bool :=
  bool_decide (is_Some (dirty (inner (ex_queue ex)) !! getKey t)).

Inductive xstep : execution → execution → Prop :=
| xstep_enqueue now t after ex ex' w l1 l2 l3 :
    enqueue now t after ex = (true, ex') →
    xstep (MkExecution ex w l1 l2 l3)
      (MkExecution ex' w (GroupID t :: l1) l2 (if is_dirty t ex then GroupID t :: l3 else l3))
| xstep_reject now t after ex ex' w l1 l2 l3 :
    enqueue now t after ex = (false, ex') →
    xstep (MkExecution ex w l1 l2 l3) (MkExecution ex' w l1 l2 l3)
| xstep_raise g ex w la lb l2 l3 :
    xstep (MkExecution ex w (la ++ g :: lb) l2 l3)
      (MkExecution (add_group g 1 ex) w (la ++ lb) l2 l3)
| xstep_take t ex ex' w l1 l2 l3 :
    size (processing (inner (ex_queue ex))) < workers ex → take ex = Some (t, ex') →
    xstep (MkExecution ex w l1 l2 l3) (MkExecution ex' w l1 l2 l3)
| xstep_finish t ex w l1 l2 l3 :
    processing (inner (ex_queue ex)) !! getKey t = Some t →
    xstep (MkExecution ex w l1 l2 l3)
      (MkExecution (report t ex) (executeTask t w) l1 (GroupID t :: l2) l3)
| xstep_lower g ex w l1 la lb l3 :
    xstep (MkExecution ex w l1 (la ++ g :: lb) l3)
      (MkExecution (add_group g (-1) ex) w l1 (la ++ lb) l3)
| xstep_close ex ex' w l1 l2 l3 :
    Close ex = Ret ex' → xstep (MkExecution ex w l1 l2 l3) (MkExecution ex' w l1 l2 l3).

Definition initial ex (w : W) : execution := MkExecution ex w [] [] [].

(** The executions of a started executor with [n] workers. *)
Definition reachable_execution (n m : Z) (w : W) x : Prop :=
  ∃ ex0 ex, NewLocalExecutor n m = Ret ex0 ∧ Start ex0 = Ret ex ∧ rtc xstep (initial ex w) x.

(** ** Counting *)

Definition in_group (g : string) (o : option string) : Prop := o = Some g.
#[export] Instance in_group_dec g o : Decision (in_group g o).
Proof. unfold in_group. apply _. Defined.

(** The tasks of a group in a list, in a map. *)
Definition count (g : string) (l : list (option string)) : Z := Z.of_nat (length (filter (in_group g) l)).
Definition tasks_of (g : string) (m : gmap (key string) Task) : Z :=
  Z.of_nat (size (filter (λ p, in_group g (GroupID p.2)) m)).

Definition weight (g : string) (o : option string) : Z := if decide (in_group g o) then 1 else 0.

Lemma count_cons g o l : count g (o :: l) = (weight g o + count g l)%Z.
Proof. unfold count, weight. rewrite filter_cons. case_decide; simpl; lia. Qed.

Lemma count_app g l1 l2 : count g (l1 ++ l2) = (count g l1 + count g l2)%Z.
Proof. unfold count. rewrite filter_app, length_app. lia. Qed.

Lemma tasks_of_empty g : tasks_of g ∅ = 0%Z.
Proof. unfold tasks_of. by rewrite map_filter_empty, map_size_empty. Qed.

Lemma tasks_of_insert g k t m :
  m !! k = None → tasks_of g (<[k := t]> m) = (weight g (GroupID t) + tasks_of g m)%Z.
Proof.
  intros Hk. unfold tasks_of, weight. rewrite map_filter_insert. simpl.
  assert (delete k m = m) as Hdel by by apply delete_id. case_decide.
  - rewrite map_size_insert_None; [lia|]. apply map_lookup_filter_None. by left.
  - rewrite Hdel. lia.
Qed.

Lemma tasks_of_delete g k t m :
  m !! k = Some t → tasks_of g m = (weight g (GroupID t) + tasks_of g (delete k m))%Z.
Proof.
  intros Hk. rewrite <- (insert_id m k t) at 1 by done. rewrite <- insert_delete_eq.
  apply tasks_of_insert. apply lookup_delete_eq.
Qed.

Lemma GetGroupTasks_add g o n ex :
  GetGroupTasks (add_group o n ex) g = (GetGroupTasks ex g + n * weight g o)%Z.
Proof.
  unfold GetGroupTasks, add_group, weight, in_group. destruct o as [g'|]; simpl.
  - destruct (decide (g' = g)) as [->|Hne].
    + rewrite lookup_insert_eq, decide_True by done. simpl. lia.
    + rewrite lookup_insert_ne, decide_False by congruence. lia.
  - lia.
Qed.

(** ** The count of a group *)

(** The queue of an executor never replaces a task, and the count of a group is its
    open tasks, up to the changes still to be made and the tasks merged into another. *)
Record execution_ok x : Prop := {
  execution_queue : queue_ok (workers (executor x)) (inner (ex_queue (executor x)));
  execution_replace : Replace (inner (ex_queue (executor x))) = false;
  execution_count : ∀ g,
    (GetGroupTasks (executor x) g + count g (submitting x) =
     tasks_of g (dirty (inner (ex_queue (executor x)))) +
     tasks_of g (processing (inner (ex_queue (executor x)))) +
     count g (finishing x) + count g (merged x))%Z }.

Lemma enqueue_Add now t after ex :
  (enqueue now t after ex).1 = (Add t (inner (ex_queue ex))).1 ∧
  inner (ex_queue (enqueue now t after ex).2) = (Add t (inner (ex_queue ex))).2 ∧
  groups (enqueue now t after ex).2 = groups ex ∧ workers (enqueue now t after ex).2 = workers ex.
Proof.
  assert (delaying_Add t (ex_queue ex) =
    ((Add t (inner (ex_queue ex))).1, with_inner (Add t (inner (ex_queue ex))).2 (ex_queue ex))) as Hd.
  { unfold delaying_Add. by destruct (Add t _). }
  unfold enqueue. case_decide as Ha; [|by rewrite Hd].
  unfold TryAddAfter. rewrite (decide_True (P := (after ≤ 0)%Z)) by done.
  unfold ShuttingDown. destruct (shuttingDown _) eqn:Hs; [|by rewrite Hd].
  simpl. unfold Add. by rewrite Hs.
Qed.

Lemma Add_tasks t (q : WorkQueue Task string) g :
  Replace q = false → (Add t q).1 = true →
  (tasks_of g (dirty (Add t q).2) =
   tasks_of g (dirty q) + if bool_decide (is_Some (dirty q !! getKey t)) then 0
                          else weight g (GroupID t))%Z.
Proof.
  intros Hr Hacc.
  assert (dirty (Add t q).2 = if bool_decide (is_Some (dirty q !! getKey t)) then dirty q
          else <[getKey t := t]> (dirty q)) as ->.
  { apply map_eq. intros k. rewrite Add_dirty, Hacc, Hr.
    destruct (decide (k = getKey t)) as [->|Hne].
    - destruct (dirty q !! getKey t) as [t'|] eqn:Hk.
      + rewrite decide_False by naive_solver. rewrite bool_decide_true by by eexists. done.
      + rewrite decide_True by auto. rewrite bool_decide_false by by intros [].
        by rewrite lookup_insert_eq.
    - rewrite decide_False by naive_solver. case_bool_decide; [done|].
      by rewrite lookup_insert_ne. }
  case_bool_decide as Hk; [lia|]. rewrite tasks_of_insert; [lia|]. by apply eq_None_not_Some.
Qed.

Lemma Add_rejected t (q : WorkQueue Task string) : (Add t q).1 = false → (Add t q).2 = q.
Proof.
  unfold Add. destruct (shuttingDown q); [done|]. destruct (dirty q !! getKey t); [done|].
  case_decide; [done|]. simpl. by destruct (processing q !! getKey t).
Qed.

Lemma add_group_fields o n ex :
  ex_queue (add_group o n ex) = ex_queue ex ∧ workers (add_group o n ex) = workers ex.
Proof. by destruct o. Qed.

Lemma xstep_ok x x' : xstep x x' → execution_ok x → execution_ok x'.
Proof.
  intros Hstep [Hq Hr Hc].
  destruct Hstep as [now t after ex ex' w l1 l2 l3 He|now t after ex ex' w l1 l2 l3 He
    |o ex w la lb l2 l3|t ex ex' w l1 l2 l3 Hw Ht|t ex w l1 l2 l3 Hp|o ex w l1 la lb l3|ex ex' w l1 l2 l3 Hcl];
    simpl in *.
  - destruct (enqueue_Add now t after ex) as (Hacc & Hin & Hg & Hwk). rewrite He in *. simpl in *.
    symmetry in Hacc. destruct (Add_fields t (inner (ex_queue ex))) as (_ & Hrep & Hpr & _).
    split; simpl.
    + rewrite Hin, Hwk. by apply Add_ok.
    + by rewrite Hin, Hrep.
    + intros g. rewrite Hin, Hpr, Add_tasks by done. specialize (Hc g).
      rewrite count_cons. unfold GetGroupTasks in *. rewrite Hg. unfold is_dirty.
      case_bool_decide; rewrite ?count_cons; lia.
  - destruct (enqueue_Add now t after ex) as (Hacc & Hin & Hg & Hwk). rewrite He in *. simpl in *.
    symmetry in Hacc. rewrite (Add_rejected _ _ Hacc) in Hin.
    split; simpl; [by rewrite Hin, Hwk|by rewrite Hin|].
    intros g. rewrite Hin. unfold GetGroupTasks in *. rewrite Hg. apply Hc.
  - destruct (add_group_fields o 1 ex) as [Hqq Hww]. split; simpl; rewrite ?Hqq, ?Hww; try done.
    intros g. specialize (Hc g).
    rewrite GetGroupTasks_add. rewrite !count_app, count_cons in *. lia.
  - unfold take in Ht. destruct (Get (inner (ex_queue ex))) as [| |[t'|] q'] eqn:Hg; try done.
    injection Ht as <- <-. simpl.
    destruct (Get_ok _ _ _ _ Hq Hg) as (k & v & _ & Hv & Hd & Hk & Hpk & _ & Hrep & _ & Hp' & Hd' & Hok).
    injection Hv as <-. split; simpl; [by apply Hok|by rewrite Hrep|].
    intros g. specialize (Hc g). rewrite Hp', Hd'.
    rewrite (tasks_of_delete g k t' (dirty _)) in Hc by done.
    rewrite tasks_of_insert by done. unfold GetGroupTasks in *. simpl. lia.
  - pose proof (Done_ok _ _ _ Hq Hp) as Hok. split; simpl; [done|by destruct (Done_fields t (inner (ex_queue ex))) as (-> & _)|].
    intros g. specialize (Hc g). rewrite count_cons.
    destruct (Done_fields t (inner (ex_queue ex))) as (_ & Hdd & Hpp).
    rewrite Hdd, Hpp. rewrite (tasks_of_delete g _ t (processing _)) in Hc by done.
    unfold GetGroupTasks in *. simpl. lia.
  - destruct (add_group_fields o (-1) ex) as [Hqq Hww]. split; simpl; rewrite ?Hqq, ?Hww; try done.
    intros g. specialize (Hc g).
    rewrite GetGroupTasks_add. rewrite !count_app, count_cons in *. lia.
  - unfold Close, delaying_ShutDown in Hcl. destruct (ShuttingDown _) in Hcl; [done|]. injection Hcl as <-.
    by split; [destruct Hq; split|..].
Qed.

Lemma reachable_execution_ok n m w x : reachable_execution n m w x → execution_ok x.
Proof.
  intros (ex0 & ex & H0 & H1 & Hsteps).
  assert (execution_ok (initial ex w)) as Hok.
  { unfold NewLocalExecutor in H0. repeat case_decide; try done. injection H0 as <-.
    unfold Start in H1. simpl in H1. case_decide; [done|]. injection H1 as <-.
    split; simpl; [apply NewWorkQueue_ok|done|]. intros g. by rewrite tasks_of_empty. }
  clear H0 H1. induction Hsteps; eauto using xstep_ok.
Qed.

(** C39: The count of a group is exact: once every submission and every worker has done its
    update, it is the number of tasks of the group that are queued or running, plus
    the submissions that the queue merged into another task.  So a count of zero,
    which the controllers wait for, means that nothing of the group is queued or
    running. *)
Theorem GetGroupTasks_counts (n m : Z) (w : W) x (g : string) :
  reachable_execution n m w x → submitting x = [] → finishing x = [] →
  let q := inner (ex_queue (executor x)) in
  (GetGroupTasks (executor x) g =
     tasks_of g (dirty q) + tasks_of g (processing q) + count g (merged x))%Z ∧
  (GetGroupTasks (executor x) g = 0%Z →
     ∀ k t, dirty q !! k = Some t ∨ processing q !! k = Some t → GroupID t ≠ Some g).
Proof.
  intros Hr Hs Hf q. pose proof (execution_count _ (reachable_execution_ok _ _ _ _ Hr) g) as Hc.
  rewrite Hs, Hf in Hc. fold q in Hc. unfold count at 1 2 in Hc. simpl in Hc. split; [lia|].
  intros Hz k t Hk Hg.
  assert (0 ≤ tasks_of g (dirty q) ∧ 0 ≤ tasks_of g (processing q) ∧ 0 ≤ count g (merged x))%Z
    as (? & ? & ?) by (unfold tasks_of, count; lia).
  assert (weight g (GroupID t) = 1)%Z as Hw by (unfold weight; by rewrite decide_True).
  assert (∀ m, 0 ≤ tasks_of g m)%Z as Hnn by (intros; unfold tasks_of; lia).
  destruct Hk as [Hk|Hk]; rewrite (tasks_of_delete g k t _ Hk) in Hc.
  - pose proof (Hnn (delete k (dirty q))). lia.
  - pose proof (Hnn (delete k (processing q))). lia.
Qed.

(** A submission merged into a queued task with the same identifier is counted but
    never uncounted: the count of its group never returns to zero. *)
Theorem merged_task_leaks (n m : Z) (w : W) x x' (g : string) :
  reachable_execution n m w x → Some g ∈ merged x → rtc xstep x x' → submitting x' = [] →
  (0 < GetGroupTasks (executor x') g)%Z.
Proof.
  intros Hr Hm Hsteps Hs.
  assert (Some g ∈ merged x') as Hm'.
  { clear Hr Hs. induction Hsteps as [|x1 x2 x3 H1 _ IH]; [done|]. apply IH.
    destruct H1; try done. simpl in *. case_match; [by right|done]. }
  assert (execution_ok x') as Hok.
  { destruct Hr as (? & ? & ? & ? & Hr). eapply reachable_execution_ok. repeat eexists; eauto.
    by etrans. }
  pose proof (execution_count _ Hok g) as Hc. rewrite Hs in Hc.
  assert (1 ≤ count g (merged x'))%Z as H1.
  { apply list_elem_of_split in Hm' as (la & lb & ->). rewrite count_app, count_cons.
    unfold weight, count. rewrite decide_True by done. lia. }
  unfold tasks_of, count in *. simpl in Hc. lia.
Qed.
End executor.

(** ** A run *)

(** A task is submitted again while it waits: the queue merges the submissions. *)
Definition noop : unit → unit → res unit () * unit := λ _ w, (Ret (), w).
Definition task_1 : Task := MkTask (Some "wf.run.a") (Some "wf") tt 1.
Definition task_2 : Task := MkTask (Some "wf.run.a") (Some "wf") tt 2.

Definition submitted : LocalExecutor :=
  (SubmitAfter 0 task_2 0 (SubmitAfter 0 task_1 0
     (MkLocalExecutor 1 (NewDelayingQueue 10) 1 ∅)).2).2.
Definition merged_run : execution := MkExecution submitted tt [] [] [Some "wf"].

Definition drained : execution (A := unit) :=
  match worker_round noop submitted () with
  | Some (ex, w) => MkExecution ex w [] [] [Some "wf"]
  | None => merged_run
  end.

Lemma merged_run_reachable : reachable_execution noop 1 10 tt merged_run.
Proof.
  eexists _, _. split; [reflexivity|]. split; [reflexivity|].
  eapply rtc_l; [apply (xstep_enqueue _ 0 task_1 0); reflexivity|].
  eapply rtc_l; [apply (xstep_raise _ _ _ _ [] [])|].
  eapply rtc_l; [apply (xstep_enqueue _ 0 task_2 0); reflexivity|].
  eapply rtc_l; [apply (xstep_raise _ _ _ _ [] [])|]. apply rtc_refl.
Qed.

Lemma merged_run_drains : rtc (xstep noop) merged_run drained.
Proof.
  eapply rtc_l; [apply (xstep_take _ task_1); [by apply Nat.lt_0_1|reflexivity]|].
  eapply rtc_l; [apply (xstep_finish _ task_1); reflexivity|].
  eapply rtc_l; [apply (xstep_lower _ _ _ _ _ [] [])|]. apply rtc_refl.
Qed.

Lemma GetGroupTasks_counts_witness :
  reachable_execution noop 1 10 tt merged_run ∧ GetGroupTasks submitted "wf" = 2%Z.
Proof.
  split; [apply merged_run_reachable|].
  destruct (GetGroupTasks_counts noop 1 10 tt merged_run "wf" merged_run_reachable eq_refl eq_refl)
    as [Hc _]. exact Hc.
Defined.

Lemma merged_task_leaks_witness :
  queue (inner (ex_queue (executor drained))) = [] ∧
  (0 < GetGroupTasks (executor drained) "wf")%Z.
Proof.
  split; [by vm_compute|].
  apply (merged_task_leaks noop 1 10 tt merged_run drained "wf" merged_run_reachable);
    [by left|apply merged_run_drains|done].
Defined.
