(* ===== verification/Ctrl.v ===== *)
(** Component [pkg/controller/ctrl]: the control system, which hands the events of the
    sensors to one controller per entity, one event at a time. *)

From stdpp Require Import base gmap strings list.
From S2P Require Import Prelude Data Types Fes WorkQueue.

(** An [*Event] is a pointer to a notification, or [nil]. *)
(** [pkg/controller/ctrl/ctrl.go:16-16] Event *)
Record Event := MkEvent { ev_addr : positive; ev_notification : Notification }.

(** A notification has no method [ID() interface{}], so the queue identifies an event
    by its address. *)
#[export] Instance Event_Item : Item (option Event) string := {|
  item_ID := λ _, None;
  item_addr := λ e, match e with Some e => Z.pos (ev_addr e) | None => 0%Z end |}.

(** [event.Aggregate.Id]. *)
Definition ev_Id (e : Event) : string := Aggregate_Id (Notification_Aggregate (ev_notification e)).

(** [pkg/controller/ctrl/ctrl.go:35-37] Result: Err, Success and Done *)
Inductive Result :=
| Err (err : goerror)
| Success (Msg : string)
| Done (Msg : string).

(** A controller, which evaluates events against the world [W].  An evaluation gives a
    result or panics, and leaves the controller and the world changed. *)
(** [pkg/controller/ctrl/ctrl.go:18-20] Controller *)
Class Controller (C W : Type) := {
  ctrl_Eval : Z → option Event → C → W → res Empty_set Result * (C * W) }.

Section system.
Context {C W : Type} `{Controller C W}.

(** [pkg/controller/ctrl/ctrl.go:79-82] ControllerStats *)
Record ControllerStats := MkControllerStats { LastEvaluatedAt : Z; EvalCount : Z }.

(** [pkg/controller/ctrl/ctrl.go:84-88] ControllerStats.RecordEval *)
Definition RecordEval (now : Z) (c : ControllerStats) : ControllerStats :=
  MkControllerStats now (to_i64 (EvalCount c + 1)).

(** The zero value: the zero time, before every instant of a run. *)
Definition zero_stats : ControllerStats := MkControllerStats 0 0.

(** The factory makes the controller for an event, or fails. *)
Context (factory : Event → W → res goerror C).

(** [pkg/controller/ctrl/ctrl.go:91-101] System *)
Record System := MkSystem {
  ctrls : gmap string C;
  ctrlStats : gmap string ControllerStats;
  evalQueue : WorkQueue (option Event) string }.
Implicit Types s : System.

(** [pkg/controller/ctrl/ctrl.go:103-114] NewSystem *)
Definition NewSystem : System := MkSystem ∅ ∅ (NewWorkQueue 10000 true).

Definition with_ctrls (m : gmap string C) s : System := MkSystem m (ctrlStats s) (evalQueue s).
Definition with_evalQueue (q : WorkQueue (option Event) string) s : System :=
  MkSystem (ctrls s) (ctrlStats s) q.

(** [pkg/controller/ctrl/ctrl.go:116-120] System.DeleteController *)
Definition DeleteController (key : string) s : System := with_ctrls (delete key (ctrls s)) s.

(** [pkg/controller/ctrl/ctrl.go:122-126] System.AddController *)
Definition AddController (key : string) (ctrl : C) s : System :=
  with_ctrls (<[key := ctrl]> (ctrls s)) s.

(** [pkg/controller/ctrl/ctrl.go:128-133] System.GetController *)
Definition GetController (key : string) s : option C := ctrls s !! key.

(** The consumer stops the loop by returning [false]. *)
(** [pkg/controller/ctrl/ctrl.go:135-143] System.RangeControllerStats *)
Definition RangeControllerStats `{MapRange} {X} (consumer : string → ControllerStats → X → bool * X)
    s (x : X) : X :=
  let fix go l x :=
    match l with
    | [] => x
    | (k, v) :: l => let '(continue, x) := consumer k v x in if continue : bool then go l x else x
    end in
  go (range 0 (ctrlStats s)) x.

(** [pkg/controller/ctrl/ctrl.go:153-155] System.Submit *)
Definition Submit (event : option Event) s : bool * System :=
  let '(accepted, q) := Add event (evalQueue s) in (accepted, with_evalQueue q s).

(** [pkg/controller/ctrl/ctrl.go:220-226] System.Close *)
Definition Close s : System := with_evalQueue (ShutDown (evalQueue s)) s.

(** [Err] and [Success] only log. *)
(** [pkg/controller/ctrl/ctrl.go:50-52] Err.Apply, Success.Apply, Done.Apply *)
Definition Result_Apply (r : Result) (event : Event) s : System :=
  match r with
  | Done _ => DeleteController (ev_Id event) s
  | Err _ | Success _ => s
  end.

(** A panic of the controller is recovered.  The controller is an object: the system
    sees the state the evaluation leaves it in, also after a panic. *)
(** [pkg/controller/ctrl/ctrl.go:200-218] System.eval *)
Definition eval (now : Z) (ctrlKey : string) (ctrl : C) (event : Event) s (w : W) : System * W :=
  let s := MkSystem (ctrls s)
             (<[ctrlKey := RecordEval now (default zero_stats (ctrlStats s !! ctrlKey))]> (ctrlStats s))
             (evalQueue s) in
  let '(result, (ctrl, w)) := ctrl_Eval now (Some event) ctrl w in
  let s := with_ctrls (<[ctrlKey := ctrl]> (ctrls s)) s in
  match result with
  | Ret r => (Result_Apply r event s, w)
  | _ => (s, w)
  end.

(** What the loop does with an item, between [Get] and [Done]. *)
Definition handle (now : Z) (event : Event) s (w : W) : res Empty_set (System * W) :=
  let ctrlKey := ev_Id event in
  match GetController ctrlKey s with
  | Some ctrl => Ret (eval now ctrlKey ctrl event s w)
  | None =>
      match factory event w with
      | Throw _ => Ret (s, w)
      | Panic why => Panic why
      | Ret ctrl => Ret (eval now ctrlKey ctrl event (AddController ctrlKey ctrl s) w)
      end
  end.

(** One round of the loop: [None] when [Get] waits or reports the shutdown. *)
(** [pkg/controller/ctrl/ctrl.go:163-198] System.run *)
Definition run_round (now : Z) s (w : W) : option (res Empty_set (System * W)) :=
  match Get (evalQueue s) with
  | GetItem item q =>
      let s := with_evalQueue q s in
      Some (event ← deref (item ≫= id);
            '(s, w) ← handle now event s w;
            Ret (with_evalQueue (WorkQueue.Done (Some event) (evalQueue s)) s, w))
  | _ => None
  end.

(** Rounds at the given instants. *)
Fixpoint run (nows : list Z) s (w : W) : res Empty_set (System * W) :=
  match nows with
  | [] => Ret (s, w)
  | now :: nows =>
      match run_round now s w with
      | None => Ret (s, w)
      | Some m => '(s, w) ← m; run nows s w
      end
  end.

(** ** What the loop promises *)

(** The reference: evaluate an event with the controller of its entity, which exists
    from the first evaluation to the one that is [Done]. *)
Definition evaluate (now : Z) (event : Event) (m : gmap string C) (w : W) :
    res Empty_set (gmap string C * W) :=
  let key := ev_Id event in
  match (match m !! key with Some c => Ret c | None => factory event w end) with
  | Panic why => Panic why
  | Throw _ => Ret (m, w)
  | Ret c =>
      let '(result, (c', w')) := ctrl_Eval now (Some event) c w in
      Ret (match result with Ret (Done _) => delete key m | _ => <[key := c']> m end, w')
  end.

Fixpoint evaluate_all (l : list (Z * Event)) (m : gmap string C) (w : W) :
    res Empty_set (gmap string C * W) :=
  match l with
  | [] => Ret (m, w)
  | (now, event) :: l => '(m, w) ← evaluate now event m w; evaluate_all l m w
  end.

Lemma handle_evaluate now event s w :
  match handle now event s w, evaluate now event (ctrls s) w with
  | Ret (s', w'), Ret (m', w'') => ctrls s' = m' ∧ w' = w'' ∧ evalQueue s' = evalQueue s
  | Panic a, Panic b => a = b
  | _, _ => False
  end.
Proof.
  unfold handle, evaluate, GetController, eval.
  destruct (ctrls s !! ev_Id event) as [c|] eqn:Hc.
  - destruct (ctrl_Eval now (Some event) c w) as [[[]| |] [c' w']]; simpl; try done.
    by rewrite delete_insert_eq.
  - destruct (factory event w) as [c| |]; [|done|done].
    destruct (ctrl_Eval now (Some event) c w) as [[[]| |] [c' w']]; simpl;
      by rewrite ?insert_insert_eq, ?delete_insert_eq.
Qed.

(** The queue holds these events, in order, and nothing else. *)
Definition holds s (events : list Event) : Prop :=
  queue (evalQueue s) = (λ e, getKey (Some e)) <$> events ∧
  (∀ e, e ∈ events → dirty (evalQueue s) !! getKey (Some e) = Some (Some e)) ∧
  queue_ok 1 (evalQueue s) ∧ processing (evalQueue s) = ∅.

Lemma Submit_evalQueue e s : evalQueue (Submit e s).2 = (Add e (evalQueue s)).2.
Proof. unfold Submit. by destruct (Add e (evalQueue s)). Qed.

Lemma holds_step s e events :
  holds s (e :: events) →
  ∃ q, Get (evalQueue s) = GetItem (Some (Some e)) q ∧
    ∀ s', evalQueue s' = q →
      holds (with_evalQueue (WorkQueue.Done (Some e) (evalQueue s')) s') events.
Proof.
  intros (Hq & Hd & Hok & Hp). pose proof (Hd e ltac:(by left)) as He.
  assert (∃ q, Get (evalQueue s) = GetItem (Some (Some e)) q) as [q Hg].
  { unfold Get. rewrite Hq. simpl. rewrite He. eauto. }
  exists q. split; [done|]. intros s' <-.
  destruct (Get_ok _ _ _ _ Hok Hg) as (k & v & Hq' & Hv & _ & Hk & _ & _ & _ & _ & Hp' & Hd' & Hok').
  injection Hv as <-. rewrite Hp in Hp'. rewrite Hq in Hq'. simpl in Hq'. injection Hq' as Hk' Hq'.
  assert (processing (evalQueue s') !! getKey (Some e) = Some (Some e)) as Hpe
    by (rewrite Hp', Hk; apply lookup_insert_eq).
  assert (dirty (evalQueue s') !! getKey (Some e) = None) as Hde
    by (rewrite Hd', Hk; apply lookup_delete_eq).
  destruct (Done_fields (Some e) (evalQueue s')) as (_ & HdD & HpD).
  unfold holds. cbn [evalQueue with_evalQueue]. split_and!.
  - unfold WorkQueue.Done. cbn [dirty set_processing]. by rewrite Hde.
  - intros e' He'. rewrite HdD, Hd', lookup_delete_ne; [apply Hd; by right|].
    pose proof (ok_nodup _ _ Hok) as Hnd. rewrite Hq, fmap_cons in Hnd. apply NoDup_cons in Hnd as [Hnd _].
    intros Heq. apply Hnd, list_elem_of_fmap. exists e'. split; [congruence|done].
  - apply Done_ok; [|done]. apply Hok'. rewrite Hp, map_size_empty. lia.
  - rewrite HpD, Hp', Hk. by rewrite insert_empty, delete_singleton_eq.
Qed.

(** C37: The loop evaluates the queued events one at a time, in the order of their arrival,
    each exactly once and with the controller of its entity: its effect on the
    controllers and the world is that of the reference [evaluate_all].  A controller
    that panics is kept in the state the panic left it in, and the loop goes on. *)
Theorem run_refines (l : list (Z * Event)) s (w : W) :
  holds s l.*2 →
  match run l.*1 s w, evaluate_all l (ctrls s) w with
  | Ret (s', w'), Ret (m', w'') => ctrls s' = m' ∧ w' = w'' ∧ holds s' []
  | Panic a, Panic b => a = b
  | _, _ => False
  end.
Proof.
  revert s w. induction l as [|[now e] l IH]; intros s w Hh; [done|].
  simpl in Hh. destruct (holds_step _ _ _ Hh) as (q & Hg & Hnext). cbn [fmap list_fmap fst].
  cbn [run evaluate_all]. unfold run_round. rewrite Hg. simpl.
  pose proof (handle_evaluate now e (with_evalQueue q s) w) as He. simpl in He.
  destruct (handle now e (with_evalQueue q s) w) as [[s1 w1]| |],
    (evaluate now e (ctrls s) w) as [[m1 w1']| |]; simpl; try done.
  destruct He as (<- & <- & Heq).
  apply (IH (with_evalQueue _ s1) w1), Hnext. by rewrite Heq.
Qed.

(** The queue does not recognise the events of one entity: an event that is not itself
    pending is queued behind those of the same entity, and evaluated again. *)
Theorem Submit_never_merges s (event : Event) :
  shuttingDown (evalQueue s) = false →
  dirty (evalQueue s) !! getKey (Some event) = None →
  processing (evalQueue s) !! getKey (Some event) = None →
  (Z.of_nat (length (queue (evalQueue s))) < MaxSize (evalQueue s))%Z →
  ∃ s', Submit (Some event) s = (true, s') ∧
        queue (evalQueue s') = queue (evalQueue s) ++ [getKey (Some event)] ∧
        dirty (evalQueue s') = <[getKey (Some event) := Some event]> (dirty (evalQueue s)).
Proof.
  intros Hs Hd Hp Hl. unfold Submit, Add. rewrite Hs, Hd, decide_False by lia. simpl. rewrite Hp.
  by eexists.
Qed.

(** An event that is [nil], which the sensors submit when a message of the store is
    not a notification, crashes the control system: the panic is not recovered. *)
Theorem nil_event_crashes (now : Z) s (w : W) :
  shuttingDown (evalQueue s) = false → queue (evalQueue s) = [] → dirty (evalQueue s) = ∅ →
  processing (evalQueue s) = ∅ → (0 < MaxSize (evalQueue s))%Z →
  run_round now (Submit None s).2 w = Some (Panic "nil pointer dereference").
Proof.
  intros Hs Hq Hd Hp Hm. unfold Submit, Add. rewrite Hs, Hd, lookup_empty, Hq.
  rewrite decide_False by (simpl; lia). simpl. rewrite Hp, lookup_empty.
  unfold run_round, Get. simpl. rewrite Hq. simpl. by rewrite lookup_insert_eq.
Qed.
End system.
Arguments System C : clear implicits.

(** ** A run *)

(** A controller that counts its evaluations and is done after the second. *)
#[local] Instance counting : Controller nat (list string) := {|
  ctrl_Eval now event c w :=
    (Ret (if decide (c = 1) then Done "" else Success ""),
     (S c, match event with Some e => ev_Id e :: w | None => w end)) |}.

Definition no_factory_error (event : Event) (w : list string) : res goerror nat := Ret 0.
Definition event_of (addr : positive) (id : string) : Event :=
  MkEvent addr (MkNotification None None None (MkAggregate id TypeInvocation)).

(** Three events of one invocation and one of another. *)
Definition some_events : list (Z * Event) :=
  [(1%Z, event_of 1 "wi-a"); (2%Z, event_of 2 "wi-b"); (3%Z, event_of 3 "wi-a"); (4%Z, event_of 4 "wi-a")].
Definition loaded : System nat :=
  foldl (λ s e, (Submit (Some e.2) s).2) NewSystem some_events.

Lemma loaded_holds : holds loaded some_events.*2.
Proof.
  split; [by vm_compute|]. split; [|split; [|by vm_compute]].
  - intros e He. repeat (apply elem_of_cons in He as [->|He]; [by vm_compute|]).
    by apply not_elem_of_nil in He.
  - unfold loaded, some_events. cbn [foldl]. rewrite !Submit_evalQueue.
    repeat apply Add_ok. apply NewWorkQueue_ok.
Qed.

Lemma run_refines_witness :
  holds loaded some_events.*2 ∧
  match run no_factory_error some_events.*1 loaded [] with
  | Ret (s, w) => ctrls s = {[ "wi-a" := 1; "wi-b" := 1 ]} ∧ w = ["wi-a"; "wi-a"; "wi-b"; "wi-a"]
  | _ => False
  end.
Proof.
  split; [apply loaded_holds|].
  pose proof (run_refines no_factory_error some_events loaded [] loaded_holds) as Hr.
  destruct (run _ _ _ _) as [[s w]| |]; [|by vm_compute in Hr..].
  destruct (evaluate_all no_factory_error some_events (ctrls loaded) []) as [[m w']| |] eqn:He;
    [|done..].
  destruct Hr as (-> & -> & _). vm_compute in He. by simplify_eq.
Defined.

Lemma Submit_never_merges_witness :
  ∃ s, Submit (Some (event_of 5 "wi-a")) loaded = (true, s) ∧ length (queue (evalQueue s)) = 5.
Proof.
  destruct (Submit_never_merges loaded (event_of 5 "wi-a")) as (s & Hs & Hq & _);
    [by vm_compute..|]. exists s. split; [done|]. by rewrite Hq.
Defined.

Lemma nil_event_crashes_witness :
  run_round no_factory_error 0 (Submit None (NewSystem (C := nat))).2 [] =
  Some (Panic "nil pointer dereference").
Proof. by apply (nil_event_crashes no_factory_error 0 NewSystem []). Defined.
