(* ===== verification/Api.v ===== *)
(** Components [pkg/api] and [pkg/fnenv]: the APIs through which workflows, invocations
    and tasks change.  Every change is an event appended to the event store; the world
    the APIs act on is any type with an event store (class [EventStore]). *)

From stdpp Require Import base gmap strings list.
From S2P Require Import Prelude Data Types TypedValues FnRefs ControlFlow Fes Projectors Graph.
From S2P Require Import Validate Cache.

(** ** The event store *)

(** The writing side of [fes.Backend]. *)
(** [pkg/fes/types.go:30-36] Backend *)
Class EventStore (B : Type) := { es_Append : option Event → st B goerror () }.

(** What the APIs rely on: a valid event is appended to the stream of its entity, or
    the store answers an error and leaves that stream alone; other streams keep their
    events or are dropped as a whole. *)
Class EventStoreLaws (B : Type) `{BackendLaws B, EventStore B} := {
  es_Append_spec : ∀ ev k (b : B), b_ok b → event_valid ev → event_key ev = Some k →
    match es_Append (Some ev) b with
    | (Ret _, b') => b_ok b' ∧ b_stream b' k = b_stream b k ++ [ev] ∧
        ∀ k', k' ≠ k → b_stream b' k' = b_stream b k' ∨ b_stream b' k' = []
    | (Throw _, b') => b_ok b' ∧ b_stream b' k = b_stream b k ∧
        ∀ k', k' ≠ k → b_stream b' k' = b_stream b k' ∨ b_stream b' k' = []
    | (Panic _, _) => False
    end }.

(** ** Function environments *)

(** [pkg/fnenv/fnenv.go:27-27] ErrInvalidRuntime *)
Definition ErrInvalidRuntime : goerror := ErrNew "invalid runtime".

Section resolver.
Context `{MapRange}.

(** The clients of the resolver, which contact the function environments. *)
Context (clients : gmap string (FnRef → res goerror string)).

(** [pkg/fnenv/resolver.go:93-109] MetaResolver.resolveForRuntime *)
Definition resolveForRuntime (runtime : string) (ref : FnRef) : res goerror FnRef :=
  match clients !! runtime with
  | None => Throw ErrInvalidRuntime
  | Some dst => rsv ← dst ref; Ret (MkFnRef runtime (FnRef_Namespace ref) rsv)
  end.

(** All clients are asked at once; the first answer that arrives is the result.  The
    answers arrive in the order of [range]. *)
(** [pkg/fnenv/resolver.go:52-91] MetaResolver.Resolve *)
Definition MetaResolver_Resolve (parse_literal : string → option string) (targetFn : string) :
    res goerror FnRef :=
  ref ← ParseFnRef parse_literal targetFn;
  if decide (FnRef_Runtime ref ≠ "") then resolveForRuntime (FnRef_Runtime ref) ref else
  resolved ← foldM (λ (resolved : list FnRef) '(cName, _),
    match resolveForRuntime cName ref with
    | Panic why => Panic why
    | Throw _ => Ret resolved
    | Ret def => Ret (resolved ++ [def])
    end) [] (range 0 clients);
  match resolved with
  | result :: _ => Ret result
  | [] => Throw (ErrFmt ("failed to resolve function '" +:+ targetFn +:+ "'"))
  end.

Context (Resolve : string → res goerror FnRef).

(** One task per function reference. *)
Definition unique_tasks (tasks : list (option TaskSpec)) : res goerror (gmap string TaskSpec) :=
  foldM (λ (uniqueTasks : gmap string TaskSpec) t,
    t ← deref t;
    Ret (match uniqueTasks !! TaskSpec_FunctionRef t with
         | Some _ => uniqueTasks
         | None => <[TaskSpec_FunctionRef t := t]> uniqueTasks
         end)) ∅ tasks.

(** [pkg/fnenv/resolver.go:173-189] resolveTask *)
Definition resolveTask (acc : gmap string FnRef * option goerror) (entry : string * TaskSpec) :
    res goerror (gmap string FnRef * option goerror) :=
  match Resolve (TaskSpec_FunctionRef entry.2) with
  | Panic why => Panic why
  | Throw err => Ret (acc.1, Some err)
  | Ret t => Ret (<[entry.1 := t]> acc.1, acc.2)
  end.

(** The tasks are resolved in parallel; the error of the last failing one is returned. *)
(** [pkg/fnenv/resolver.go:129-170] ResolveTask *)
Definition ResolveTask (tasks : list (option TaskSpec)) : res goerror (gmap string FnRef) :=
  uniqueTasks ← unique_tasks tasks;
  acc ← foldM resolveTask (∅, None) (range 1 uniqueTasks);
  match acc.2 with Some err => Throw err | None => Ret acc.1 end.

(** [pkg/fnenv/resolver.go:118-124] ResolveTasks *)
Definition ResolveTasks (tasks : gmap string (option TaskSpec)) : res goerror (gmap string FnRef) :=
  ResolveTask (range 2 tasks).*2.
End resolver.

(** ** Call options *)

Section api.
Context {B : Type} `{EventStore B} `{MapRange} `{Proto} `{PTypes} `{DirectedGraph}.

(** A [context.Context], and the metadata the tracer adds to an event for the span it
    carries (none without a span). *)
Context {Ctx : Type} (Background : Ctx) (Inject : Ctx → gmap string string → gmap string string).

(** [pkg/api/api.go:11-15] CallConfig *)
Record CallConfig := MkCallConfig {
  ctx : Ctx;
  postTransformer : option (TaskInvocation → st B goerror TaskInvocation);
  awaitWorkflow : Z }.

(** [pkg/api/api.go:17-17] CallOption *)
Definition CallOption : Type := CallConfig → CallConfig.

(** [pkg/api/api.go:19-23] WithContext *)
Definition WithContext (c : Ctx) : CallOption := λ op,
  MkCallConfig c (postTransformer op) (awaitWorkflow op).

(** The transformer changes the task invocation it is given. *)
(** [pkg/api/api.go:25-35] PostTransformer *)
Definition PostTransformer (fn : TaskInvocation → st B goerror TaskInvocation) : CallOption := λ op,
  MkCallConfig (ctx op) (Some fn) (awaitWorkflow op).

(** [pkg/api/api.go:49-53] AwaitWorklow *)
Definition AwaitWorklow (timeout : Z) : CallOption := λ op,
  MkCallConfig (ctx op) (postTransformer op) timeout.

(** [pkg/api/api.go:37-47] parseCallOptions *)
Definition parseCallOptions (opts : list CallOption) : CallConfig :=
  foldl (λ cfg opt, opt cfg) (MkCallConfig Background None 0) opts.

(** ** Events *)

Definition event_with_metadata (e : Event) (m : gmap string string) : Event :=
  MkEvent (Event_Id e) (Event_Type e) (Event_Aggregate e) (Event_Timestamp e) (Event_Data e)
    (Event_Parent e) (Event_Hints e) m.

Definition completed : option EventHints := Some (MkEventHints true).

(** [validate.NewError(subject, errors.New("id should not be empty"))] *)
Definition empty_id {A} (subject : string) : st B goerror A :=
  throw (NewError subject [ErrNew "id should not be empty"]).

(** [if err != nil { return err }] for a validation. *)
Definition check (err : option goerror) : st B goerror () :=
  match err with None => mret () | Some e => throw e end.

(** ** Workflows *)

(** [util.UID()] is the argument [uid]. *)
(** [pkg/api/workflow.go:35-71] Workflow.Create *)
Definition Workflow_Create (now : Z) (uid : string) (workflow : option WorkflowSpec)
    (opts : list CallOption) : st B goerror string :=
  let cfg := parseCallOptions opts in
  _ ← lift (validate_WorkflowSpec workflow);
  spec ← lift (deref workflow);
  let id := if decide (WorkflowSpec_ForceId spec = "") then "wf-" +:+ uid
            else WorkflowSpec_ForceId spec in
  event ← lift (NewEvent now (NewWorkflowAggregate id) (Some (WorkflowCreated workflow)));
  let event := event_with_metadata event (Inject (ctx cfg) (Event_Metadata event)) in
  _ ← es_Append (Some event);
  mret id.

(** [pkg/api/workflow.go:76-87] Workflow.Delete *)
Definition Workflow_Delete (now : Z) (workflowID : string) : st B goerror () :=
  if decide (workflowID = "") then empty_id "workflowID" else
  event ← lift (NewEvent now (NewWorkflowAggregate workflowID) (Some WorkflowDeleted));
  es_Append (Some (event_with_hints event completed)).

(** The loop of [Parse]: a task whose function is not among the resolved ones keeps a
    [nil] reference; a [nil] task panics. *)
Definition parsed_statuses (now : Z) (resolvedFns : gmap string FnRef)
    (tasks : gmap string (option TaskSpec)) : res goerror (gmap string TaskStatus) :=
  foldM (λ statuses '(id, t),
    t ← deref t;
    Ret (<[id := MkTaskStatus TaskStatus_READY (Some (pt_TimestampNow now))
                   (resolvedFns !! TaskSpec_FunctionRef t) None]> statuses)) ∅ (range 3 tasks).

(** [pkg/api/workflow.go:93-124] Workflow.Parse *)
Definition Workflow_Parse (Resolve : string → res goerror FnRef) (now : Z) (workflow : Workflow) :
    st B goerror (gmap string TaskStatus) :=
  _ ← lift (validate_WorkflowSpec (Workflow_Spec workflow));
  spec ← lift (deref (Workflow_Spec workflow));
  resolvedFns ← lift (match ResolveTasks Resolve (WorkflowSpec_Tasks spec) with
                      | Throw _ => Throw (ErrFmt "failed to resolve tasks in workflow")
                      | r => r end);
  taskStatuses ← lift (parsed_statuses now resolvedFns (WorkflowSpec_Tasks spec));
  event ← lift (NewEvent now (NewWorkflowAggregate (Workflow_ID (Some workflow)))
                  (Some (WorkflowParsed taskStatuses)));
  _ ← es_Append (Some event);
  mret taskStatuses.

(** ** Invocations *)

(** The body input is made the default input too. *)
Definition with_default_input (spec : WorkflowInvocationSpec) : WorkflowInvocationSpec :=
  let inputs := WorkflowInvocationSpec_Inputs spec in
  match inputs !! InputMain, inputs !! InputBody with
  | None, Some body =>
      MkWorkflowInvocationSpec (WorkflowInvocationSpec_WorkflowId spec) (<[InputMain := body]> inputs)
        (WorkflowInvocationSpec_ParentId spec) (WorkflowInvocationSpec_Workflow spec)
        (WorkflowInvocationSpec_Deadline spec)
  | _, _ => spec
  end.

(** [pkg/api/invocation.go:34-75] Invocation.Invoke *)
Definition Invocation_Invoke (now : Z) (uid : string) (spec : option WorkflowInvocationSpec)
    (opts : list CallOption) : st B goerror string :=
  let cfg := parseCallOptions opts in
  _ ← check (validate_WorkflowInvocationSpec spec);
  spec ← lift (deref spec);
  let spec := with_default_input spec in
  let invocationID := "wi-" +:+ uid in
  event ← lift (NewEvent now (NewInvocationAggregate invocationID) (Some (InvocationCreated (Some spec))));
  let event := event_with_metadata event (Inject (ctx cfg) (Event_Metadata event)) in
  _ ← es_Append (Some event);
  mret invocationID.

Definition ErrInvocationCanceled : string := "workflow invocation was canceled".

(** Append an event of an invocation; [hints] for those that complete it. *)
Definition invocation_event (now : Z) (invocationID : string) (payload : message)
    (hints : option EventHints) : st B goerror () :=
  event ← lift (NewEvent now (NewInvocationAggregate invocationID) (Some payload));
  es_Append (Some (event_with_hints event hints)).

(** [pkg/api/invocation.go:80-100] Invocation.Cancel *)
Definition Invocation_Cancel (now : Z) (invocationID : string) : st B goerror () :=
  if decide (invocationID = "") then empty_id "invocationID" else
  invocation_event now invocationID (InvocationCanceled (Some (MkError ErrInvocationCanceled))) completed.

(** [pkg/api/invocation.go:105-120] Invocation.Complete *)
Definition Invocation_Complete (now : Z) (invocationID : string)
    (output outputHeaders : option TypedValue) : st B goerror () :=
  if decide (invocationID = "") then empty_id "invocationID" else
  invocation_event now invocationID (InvocationCompleted output outputHeaders) completed.

(** [msg] is the text of the error, or empty for a [nil] error. *)
(** [pkg/api/invocation.go:125-145] Invocation.Fail *)
Definition Invocation_Fail (now : Z) (invocationID msg : string) : st B goerror () :=
  if decide (invocationID = "") then empty_id "invocationID" else
  invocation_event now invocationID (InvocationFailed (Some (MkError msg))) completed.

(** [pkg/api/invocation.go:150-166] Invocation.AddTask *)
Definition Invocation_AddTask (now : Z) (invocationID : string) (task : option Task) :
    st B goerror () :=
  if decide (invocationID = "") then empty_id "invocationID" else
  _ ← check (validate_Task task);
  task ← lift (deref task);
  invocation_event now invocationID (InvocationTaskAdded task) None.

(** ** Dynamic tasks *)

(** [pkg/api/dynamic.go:101-108] sanitizeWorkflow *)
Definition sanitizeWorkflow (v : WorkflowSpec) : WorkflowSpec :=
  MkWorkflowSpec
    (if decide (WorkflowSpec_ApiVersion v = "") then WorkflowAPIVersion else WorkflowSpec_ApiVersion v)
    (WorkflowSpec_Tasks v) (WorkflowSpec_OutputTask v) (WorkflowSpec_Description v) ""
    (WorkflowSpec_Name v) (WorkflowSpec_Internal v).

(** [pkg/api/dynamic.go:110-115] createFnRef *)
Definition createFnRef (wfID : string) : FnRef := MkFnRef "workflows" "" wfID.

(** The proxy task of a dynamic workflow and its spec. *)
Definition proxy_spec (parentTaskID : string) (wfRef : FnRef) (parent : TypedValue)
    (stubTask : TaskSpec) : TaskSpec :=
  let spec := TaskSpec_Input (TaskSpec_with_FunctionRef stubTask (FnRef_Format wfRef)) InputParent parent in
  TaskSpec_with_Requires spec
    {[ parentTaskID := Some (MkTaskDependencyParameters TaskDependencyParameters_DYNAMIC_OUTPUT "") ]}.

Definition proxy_task (now : Z) (parentTaskID : string) (wfRef : FnRef) (spec : TaskSpec) : Task :=
  let task := NewTask now (child_id parentTaskID) (TaskSpec_FunctionRef spec) in
  MkTask (Task_Metadata task) (Some spec)
    (Some (MkTaskStatus TaskStatus_READY (Some (pt_TimestampNow now)) (Some wfRef) None)).

(** [MustWrap] of a string needs no depth. *)
(** [pkg/api/dynamic.go:57-99] Dynamic.addDynamicWorkflow *)
Definition addDynamicWorkflow (now : Z) (uid invocationID parentTaskID : string)
    (wfSpec : option WorkflowSpec) (stubTask : option TaskSpec) : st B goerror () :=
  wfSpec ← lift (deref wfSpec);
  let wfSpec := sanitizeWorkflow wfSpec in
  _ ← lift (validate_WorkflowSpec (Some wfSpec));
  wfID ← Workflow_Create now uid (Some wfSpec) [];
  let wfRef := createFnRef wfID in
  stubTask ← lift (deref stubTask);
  parent ← lift (MustWrap 1 (VString invocationID));
  parent ← lift (deref parent);
  let proxyTaskSpec := proxy_spec parentTaskID wfRef parent stubTask in
  _ ← check (validate_TaskSpec (Some proxyTaskSpec));
  Invocation_AddTask now invocationID (Some (proxy_task now parentTaskID wfRef proxyTaskSpec)).

(** [pkg/api/dynamic.go:41-55] Dynamic.addDynamicTask *)
Definition addDynamicTask (now : Z) (uid invocationID parentTaskID : string)
    (taskSpec : option TaskSpec) : st B goerror () :=
  let wfSpec := MkWorkflowSpec WorkflowAPIVersion {[ "main" := taskSpec ]} "main" "" "" "" true in
  addDynamicWorkflow now uid invocationID parentTaskID (Some wfSpec) taskSpec.

Definition empty_TaskSpec : TaskSpec := MkTaskSpec "" ∅ ∅ 0 None None None.

(** [pkg/api/dynamic.go:27-39] Dynamic.AddDynamicFlow *)
Definition AddDynamicFlow (now : Z) (uid invocationID parentTaskID : string) (flow : Flow) :
    st B goerror () :=
  _ ← lift (validate_Flow flow);
  let ty := Flow_Type (Some flow) in
  if decide (ty = TypeWorkflow) then
    addDynamicWorkflow now uid invocationID parentTaskID (Flow_Workflow flow) (Some empty_TaskSpec)
  else if decide (ty = TypeTask) then
    addDynamicTask now uid invocationID parentTaskID (Flow_Task flow)
  else lift (Panic "validated flow was still empty").

(** ** Tasks *)

(** A runtime runs a function in the world; some runtimes prepare functions too. *)
(** [pkg/fnenv/fnenv.go:56-63] Runtime *)
Record Runtime := MkRuntime {
  rt_Invoke : Ctx → Z → TaskInvocationSpec → st B goerror (option TaskInvocationStatus);
  rt_Prepare : option (FnRef → Z → st B goerror ()) }.

Context (runtime : gmap string Runtime) (fuel : nat).

(** An event of a task, for its invocation. *)
Definition task_event (now : Z) (invocationID taskID : string) (payload : message) :
    st B goerror () :=
  event ← lift (NewEvent now (NewTaskRunAggregate taskID) (Some payload));
  es_Append (Some (event_with_parent event (Some (NewInvocationAggregate invocationID)))).

(** [pkg/api/task.go:129-146] Task.Fail *)
Definition Task_Fail (now : Z) (invocationID taskID errMsg : string) : st B goerror () :=
  if decide (invocationID = "") then empty_id "invocationID" else
  if decide (taskID = "") then empty_id "taskID" else
  task_event now invocationID taskID (TaskFailed (Some (MkError errMsg))).

(** A result that is a flow becomes a dynamic task. *)
Definition add_flow (now : Z) (uid : string) (spec : TaskInvocationSpec)
    (output : option TypedValue) : st B goerror () :=
  if IsControlFlow output then
    flow ← lift (UnwrapControlFlow fuel output);
    AddDynamicFlow now uid (TaskInvocationSpec_InvocationId spec) (TaskInvocationSpec_TaskId spec) flow
  else mret ().

(** [err.Error()] *)
Definition err_text (e : goerror) : string :=
  match e with ErrNew s | ErrFmt s | ErrEventStore s _ _ _ | ErrInvalid s _ => s end.

(** The runtime's result, [nil] without an error being an error itself. *)
Definition run_function (cfg : CallConfig) (spec : TaskInvocationSpec) :
    st B goerror TaskInvocationStatus :=
  fnRef ← lift (deref (TaskInvocationSpec_FnRef spec));
  rt ← lift (deref (runtime !! FnRef_Runtime fnRef));
  fnResult ← rt_Invoke rt (ctx cfg) (awaitWorkflow cfg) spec;
  match fnResult with
  | None => throw (ErrNew "function crashed")
  | Some r => mret r
  end.

(** The event of the start is made, but not appended; a failure to make it panics on
    the [nil] event before the error is looked at. *)
(** [pkg/api/task.go:38-125] Task.Invoke *)
Definition Task_Invoke (now : Z) (uid : string) (spec : TaskInvocationSpec)
    (opts : list CallOption) : st B goerror TaskInvocation :=
  let cfg := parseCallOptions opts in
  _ ← check (validate_TaskInvocationSpec (Some spec));
  if decide (TaskInvocationSpec_Task spec = None)
  then throw (ErrNew "task-run does not contain the task to be run") else
  let taskID := TaskInvocationSpec_TaskId spec in
  let invocationID := TaskInvocationSpec_InvocationId spec in
  _ ← lift (match NewEvent now (NewTaskRunAggregate taskID) (Some (TaskStarted (Some spec))) with
            | Throw _ => Panic "nil pointer dereference" | r => r end);
  fnResult ← catch (run_function cfg spec)
    (λ err, _ ← Task_Fail now invocationID taskID (err_text err); throw err);
  _ ← add_flow now uid spec (TaskInvocationStatus_Output fnResult);
  let task := MkTaskInvocation (Some (NewObjectMetadata now taskID)) (Some spec) (Some fnResult) in
  task ← (match postTransformer cfg with None => mret task | Some f => f task end);
  fnResult ← lift (deref (TaskInvocation_Status task));
  _ ← (if decide (TaskInvocationStatus_Status_ fnResult = TaskInvocationStatus_SUCCEEDED)
       then task_event now invocationID taskID (TaskSucceeded (Some fnResult))
       else Task_Fail now invocationID taskID (GetMessage (TaskInvocationStatus_Error fnResult)));
  mret task.

(** [pkg/api/task.go:148-161] Task.Prepare *)
Definition Task_Prepare (spec : option TaskInvocationSpec) (expectedAt : Z) : st B goerror () :=
  match runtime !! FnRef_Runtime (default (MkFnRef "" "" "") (spec ≫= TaskInvocationSpec_FnRef)) with
  | None => throw (ErrFmt "could not find runtime")
  | Some rt =>
      match rt_Prepare rt with
      | None => throw (ErrFmt "runtime does not support prewarming")
      | Some prepare =>
          spec ← lift (deref spec);
          fnRef ← lift (deref (TaskInvocationSpec_FnRef spec));
          prepare fnRef expectedAt
      end
  end.
End api.
