(* ===== verification/ApiSpec.v ===== *)
(** What the APIs of [pkg/api] promise: every successful change is one event in the
    stream of its entity, which the projector turns into the state the change is named
    after; a failing one leaves that stream alone. *)

From stdpp Require Import base gmap strings list.
From S2P Require Import Prelude Data Types TypedValues ControlFlow Fes Projectors Graph.
From S2P Require Import Validate Lru MemBackend Cache Api.

(** ** The in-memory backend is an event store *)

Section mem.
Context `{LRULaws (list Event)} `{MapRange}.

#[export] Instance mem_EventStore : EventStore Backend := {| es_Append := Append |}.

#[export] Instance mem_EventStoreLaws : EventStoreLaws Backend.
Proof.
  split. intros ev k b Hok Hv Hk. simpl.
  destruct (event_valid_aggregate _ Hv) as (agg & Hagg & _).
  assert (stream_key ev agg = k) as Hkey
    by (unfold event_key in Hk; unfold stream_key; rewrite Hagg in Hk; destruct (Event_Parent ev); congruence).
  pose proof (Append_spec b ev agg Hok Hv Hagg) as Ha. simpl in Ha. rewrite Hkey in Ha.
  assert (∀ b b', (∀ k', k' ≠ k → store b' !! k' = store b !! k') →
    (∀ k', k' ≠ k → contents (buf b') !! k' = contents (buf b) !! k' ∨ contents (buf b') !! k' = None) →
    ∀ k', k' ≠ k → default [] (stream b' k') = default [] (stream b k') ∨ default [] (stream b' k') = [])
    as Hothers.
  { intros b1 b2 Hs Hc k' Hne. unfold stream. rewrite (Hs k' Hne).
    destruct (store b1 !! k'); [by left|]. destruct (Hc k' Hne) as [->| ->]; [by left|by right]. }
  destruct (Append (Some ev) b) as [[u|err|why] b']; [| |done].
  - destruct Ha as [Ha _]. split_and!; [apply Ha|by rewrite (ap_stream _ _ _ _ Ha)|].
    apply Hothers; apply Ha.
  - destruct Ha as (Hok' & _ & Hs & Hstr & Hsub & _). split_and!; [done|by rewrite Hstr|].
    apply Hothers; [by intros; rewrite Hs|]. intros k' _.
    destruct (contents (buf b') !! k') as [es|] eqn:Hk'; [left|by right].
    symmetry. by eapply lookup_weaken.
Qed.
End mem.

(** ** Events of the APIs *)

Section spec.
Context {B : Type} `{EventStoreLaws B} `{MapRange} `{Proto} `{PTypes}.
Implicit Types (b : B) (k : Aggregate).

(** A valid event of [agg] with a parent or not, which carries [m]. *)
Record made (ev : Event) (agg : Aggregate) (parent : option Aggregate) (m : message) : Prop := {
  made_aggregate : Event_Aggregate ev = Some agg;
  made_parent : Event_Parent ev = parent;
  made_payload : payload_of ev = Some m;
  made_valid : event_valid ev }.

Lemma NewEvent_made now agg m ev :
  is_event_payload m = true → wire m → NewEvent now agg (Some m) = Ret ev → made ev agg None m.
Proof.
  intros Hm Hw He. pose proof He as He'.
  apply NewEvent_inv in He as (Ha & (d & Hd & Hdata) & Hagg & Ht & Hp & _ & Hts).
  split; [done..| |].
  - apply ParseEventData_payload. by eapply ParseEventData_of_payload.
  - split; rewrite ?Hp, ?Hts, ?Ht; eauto; [by destruct m|done].
Qed.

Lemma NewEvent_no_panic now agg m : no_panic (NewEvent now agg (Some m)).
Proof. unfold NewEvent. destruct (ValidateAggregate _); [done|]. by destruct (MarshalAny m). Qed.

Lemma made_with_hints ev agg p m h : made ev agg p m → made (event_with_hints ev h) agg p m.
Proof. intros [Ha Hp Hm [Ht Hag Hpv Hts]]. by split; [..|split]. Qed.

Lemma made_with_metadata ev agg p m md : made ev agg p m → made (event_with_metadata ev md) agg p m.
Proof. intros [Ha Hp Hm [Ht Hag Hpv Hts]]. by split; [..|split]. Qed.

Lemma made_with_parent ev agg m p :
  aggregate_valid p → made ev agg None m → made (event_with_parent ev (Some p)) agg (Some p) m.
Proof.
  intros Hp [Ha _ Hm [Ht Hag _ Hts]]. split; [done..|]. split; [done..| |done]. by intros ? [= <-].
Qed.

(** The outcome of an operation that appends one event for [k]: the event is the last of
    the stream of [k], or the operation fails and that stream is as it was; either way
    the other streams keep their events or were dropped from the store as a whole. *)
Definition others_kept k b b' : Prop :=
  ∀ k', k' ≠ k → b_stream b' k' = b_stream b k' ∨ b_stream b' k' = [].

Definition one_event (k : Aggregate) (E : Event → Prop) b {A} (r : res goerror A * B) : Prop :=
  match r with
  | (Ret _, b') => b_ok b' ∧ others_kept k b b' ∧ ∃ ev, E ev ∧ b_stream b' k = b_stream b k ++ [ev]
  | (Throw _, b') => b_ok b' ∧ others_kept k b b' ∧ b_stream b' k = b_stream b k
  | (Panic _, _) => False
  end.

Lemma append_one_event ev agg p m k b :
  b_ok b → made ev agg p m → k = default agg p →
  one_event k (λ ev, made ev agg p m) b (es_Append (Some ev) b).
Proof.
  intros Hok Hm ->. pose proof (es_Append_spec ev (default agg p) b Hok (made_valid _ _ _ _ Hm)) as Hs.
  specialize (Hs ltac:(unfold event_key; rewrite (made_parent _ _ _ _ Hm), (made_aggregate _ _ _ _ Hm);
    by destruct p)).
  destruct (es_Append (Some ev) b) as [[u|err|why] b']; [|naive_solver|done].
  destruct Hs as (? & ? & ?). split_and!; eauto.
Qed.

Lemma unchanged_one_event {A} k E b (e : goerror) : b_ok b → one_event k E b (Throw e : res goerror A, b).
Proof. intros Hok. split_and!; [done|by left|done]. Qed.

Lemma one_event_bind {A C} k E b (m : st B goerror A) (f : A → C) :
  one_event k E b (m b) → one_event k E b ((x ← m; mret (f x)) b).
Proof. unfold mbind, st_bind. destruct (m b) as [[] ?]; done. Qed.

(** An API that makes an event and appends it. *)
Lemma make_and_append {A} now agg m (f : Event → Event) p k b (r : A) :
  b_ok b → is_event_payload m = true → wire m →
  (∀ ev, made ev agg None m → made (f ev) agg p m) → k = default agg p →
  one_event k (λ ev, made ev agg p m) b
    ((event ← lift (NewEvent now agg (Some m)); _ ← es_Append (Some (f event)); mret r) b).
Proof.
  intros Hok Hm Hw Hf Hk. unfold mbind at 1, st_bind at 1, lift.
  pose proof (NewEvent_no_panic now agg m) as Hnp.
  destruct (NewEvent now agg (Some m)) as [ev|err|why] eqn:He; [|by apply unchanged_one_event|done].
  apply NewEvent_made in He; [|done..]. apply one_event_bind with (f := λ _, r).
  apply append_one_event; auto.
Qed.

Lemma invocation_event_spec now id m h b :
  b_ok b → is_event_payload m = true → wire m →
  let k := NewInvocationAggregate id in
  one_event k (λ ev, made ev k None m) b (invocation_event now id m h b).
Proof.
  intros Hok Hm Hw k. unfold invocation_event.
  pose proof (make_and_append now k m (λ ev, event_with_hints ev h) None k b () Hok Hm Hw
    ltac:(intros; by apply made_with_hints) eq_refl) as Hs.
  unfold mbind, st_bind, lift in *. fold k in Hs |- *. destruct (NewEvent now k (Some m)); [|done..].
  by destruct (es_Append _ b) as [[[]| |] ?].
Qed.

Lemma task_event_spec now inv id m b :
  b_ok b → is_event_payload m = true → wire m → inv ≠ "" →
  let k := NewInvocationAggregate inv in
  one_event k (λ ev, made ev (NewTaskRunAggregate id) (Some k) m) b (task_event now inv id m b).
Proof.
  intros Hok Hm Hw Hinv k. unfold task_event.
  pose proof (make_and_append now (NewTaskRunAggregate id) m (λ ev, event_with_parent ev (Some k))
    (Some k) k b () Hok Hm Hw
    ltac:(intros; by apply made_with_parent) eq_refl) as Hs.
  unfold mbind, st_bind, lift in *. destruct (NewEvent now (NewTaskRunAggregate id) (Some m)); [|done..].
  by destruct (es_Append _ b) as [[[]| |] ?].
Qed.

(** ** Invocations *)

(** The calls that change an invocation. *)
Inductive invocation_call :=
| CallComplete (output outputHeaders : option TypedValue)
| CallFail (msg : string)
| CallCancel
| CallAddTask (task : Task).

Definition call_payload (c : invocation_call) : message :=
  match c with
  | CallComplete o h => InvocationCompleted o h
  | CallFail msg => InvocationFailed (Some (MkError msg))
  | CallCancel => InvocationCanceled (Some (MkError ErrInvocationCanceled))
  | CallAddTask t => InvocationTaskAdded t
  end.

Definition run_call (now : Z) (id : string) (c : invocation_call) : st B goerror () :=
  match c with
  | CallComplete o h => Invocation_Complete now id o h
  | CallFail msg => Invocation_Fail now id msg
  | CallCancel => Invocation_Cancel now id
  | CallAddTask t => Invocation_AddTask now id (Some t)
  end.

Definition call_effect (c : invocation_call) (st : WorkflowInvocationStatus) :
    WorkflowInvocationStatus :=
  match c with
  | CallComplete o h =>
      WIStatus_with_Output (WIStatus_with_Status st WorkflowInvocationStatus_SUCCEEDED) o h
  | CallFail msg =>
      WIStatus_with_Status (WIStatus_with_Error st (Some (MkError msg))) WorkflowInvocationStatus_FAILED
  | CallCancel =>
      WIStatus_with_Error (WIStatus_with_Status st WorkflowInvocationStatus_ABORTED)
        (Some (MkError ErrInvocationCanceled))
  | CallAddTask t =>
      WIStatus_with_DynamicTasks st (<[Task_ID (Some t) := t]> (WorkflowInvocationStatus_DynamicTasks st))
  end.

(** The invocation of a stream. *)
Definition project_invocation (now : Z) (k : Aggregate) (es : list Event) :
    res goerror WorkflowInvocation :=
  base ← WorkflowInvocation_NewProjection now k;
  WorkflowInvocation_Project now (Some (EInvocation base)) es.

Lemma project_invocation_ok now k es wi : project_invocation now k es = Ret wi → invocation_ok wi.
Proof.
  unfold project_invocation. intros Hp. bind_inv Hp as base Hb.
  apply WorkflowInvocation_new_ok in Hb as (Hok & _). by eapply invocation_foldM_ok.
Qed.

Lemma project_invocation_snoc now k es wi ev :
  project_invocation now k es = Ret wi →
  project_invocation now k (es ++ [ev]) = WorkflowInvocation_project now wi ev.
Proof.
  unfold project_invocation, WorkflowInvocation_Project. intros Hp. bind_inv Hp as base Hb.
  rewrite Hb. cbn [mbind res_bind] in *. rewrite foldM_app, Hp. simpl.
  by destruct (WorkflowInvocation_project now wi ev).
Qed.

Lemma project_call now wi id c ev :
  invocation_ok wi → made ev (NewInvocationAggregate id) None (call_payload c) →
  ∃ md st, WorkflowInvocation_Metadata wi = Some md ∧ WorkflowInvocation_Status wi = Some st ∧
    WorkflowInvocation_project now wi ev =
      Ret (MkWorkflowInvocation (Some (incr_Generation md)) (WorkflowInvocation_Spec wi)
             (Some (WIStatus_with_UpdatedAt (call_effect c st) (Event_Timestamp ev)))).
Proof.
  intros [[md Hmd] (st & Hst & _)] [Ha Hp Hm Hv]. exists md, st. split_and!; [done..|].
  unfold WorkflowInvocation_project. rewrite Ha. cbn [deref mbind res_bind].
  rewrite decide_False by done.
  rewrite (proj2 (ensureNextEvent_Ret TypeInvocation ev ())) by eauto. cbn [mbind res_bind].
  rewrite (proj2 (ParseEventData_payload ev (call_payload c))) by done. cbn [mbind res_bind].
  destruct c; cbn [call_payload]; unfold update_status, invocation_touch; rewrite Hst; simpl; by rewrite Hmd.
Qed.

Lemma run_call_spec now id c b :
  b_ok b → wire (call_payload c) →
  one_event (NewInvocationAggregate id)
    (λ ev, made ev (NewInvocationAggregate id) None (call_payload c)) b (run_call now id c b).
Proof.
  intros Hok Hw. destruct c as [o h|msg| |t]; simpl in *;
    unfold Invocation_Complete, Invocation_Fail, Invocation_Cancel, Invocation_AddTask;
    (case_decide; [by apply unchanged_one_event|]);
    try by apply invocation_event_spec.
  unfold mbind at 1, st_bind at 1, check. destruct (validate_Task (Some t));
    [by apply unchanged_one_event|]. simpl. by apply invocation_event_spec.
Qed.

(** C25: Completing, failing, cancelling or extending an invocation either fails, and leaves
    the history of the invocation alone, or appends one event to it, with which the
    invocation is projected to the named state: succeeded with the output, failed with
    the message, aborted, or unchanged but for the added task.  It never panics. *)
Theorem invocation_call_effect (now now' : Z) (id : string) (c : invocation_call) b :
  b_ok b → wire (call_payload c) →
  let k := NewInvocationAggregate id in
  match run_call now id c b with
  | (Panic _, _) => False
  | (Throw _, b') => b_ok b' ∧ b_stream b' k = b_stream b k
  | (Ret _, b') =>
      b_ok b' ∧ (∃ ev, b_stream b' k = b_stream b k ++ [ev]) ∧
      ∀ wi, project_invocation now' k (b_stream b k) = Ret wi →
        ∃ md st t, WorkflowInvocation_Metadata wi = Some md ∧ WorkflowInvocation_Status wi = Some st ∧
          project_invocation now' k (b_stream b' k) =
            Ret (MkWorkflowInvocation (Some (incr_Generation md)) (WorkflowInvocation_Spec wi)
                   (Some (WIStatus_with_UpdatedAt (call_effect c st) t)))
  end.
Proof.
  intros Hok Hw k. pose proof (run_call_spec now id c b Hok Hw) as Hs.
  destruct (run_call now id c b) as [[u|err|why] b']; [|naive_solver|done].
  destruct Hs as (Hok' & _ & ev & Hm & Hstr). fold k in Hstr. split_and!; [done|by exists ev|].
  intros wi Hwi. rewrite Hstr, (project_invocation_snoc _ _ _ _ _ Hwi).
  destruct (project_call now' wi id c ev (project_invocation_ok _ _ _ _ Hwi) Hm)
    as (md & st & Hmd & Hst & Hp). eauto 10.
Qed.
End spec.

(** ** Tasks *)

Section task_spec.
Context {B : Type} `{EventStoreLaws B} `{MapRange} `{Proto} `{PTypes} `{DirectedGraph}.
Context {Ctx : Type} (Background : Ctx) (Inject : Ctx → gmap string string → gmap string string).
Context (runtime : gmap string (Runtime (B := B) (Ctx := Ctx))) (fuel : nat).
Implicit Types b : B.

Lemma st_bind_lift {S E A C} (m : res E A) (f : A → st S E C) s a :
  m = Ret a → (x ← lift m; f x) s = f a s.
Proof. by intros ->. Qed.

Definition invoke := Task_Invoke Background Inject runtime fuel.

(** What [Invoke] does before it calls the function. *)
Lemma invoke_start now uid spec opts b fnRef :
  validate_TaskInvocationSpec (Some spec) = None → is_Some (TaskInvocationSpec_Task spec) →
  wire (TaskStarted (Some spec)) → TaskInvocationSpec_FnRef spec = Some fnRef →
  let cfg := parseCallOptions Background opts in
  let taskID := TaskInvocationSpec_TaskId spec in
  let invocationID := TaskInvocationSpec_InvocationId spec in
  invocationID ≠ "" ∧ taskID ≠ "" ∧
  invoke now uid spec opts b =
    (fnResult ← catch (run_function runtime cfg spec)
       (λ err, _ ← Task_Fail now invocationID taskID (err_text err); throw err);
     _ ← add_flow Background Inject fuel now uid spec (TaskInvocationStatus_Output fnResult);
     let task := MkTaskInvocation (Some (NewObjectMetadata now taskID)) (Some spec) (Some fnResult) in
     task ← (match postTransformer cfg with None => mret task | Some f => f task end);
     fnResult ← lift (deref (TaskInvocation_Status task));
     _ ← (if decide (TaskInvocationStatus_Status_ fnResult = TaskInvocationStatus_SUCCEEDED)
          then task_event now invocationID taskID (TaskSucceeded (Some fnResult))
          else Task_Fail now invocationID taskID (GetMessage (TaskInvocationStatus_Error fnResult)));
     mret task) b.
Proof.
  intros Hv [task Htask] Hw Hfn cfg taskID invocationID.
  assert (invocationID ≠ "" ∧ taskID ≠ "") as [Hi Ht].
  { unfold validate_TaskInvocationSpec in Hv. rewrite getOrNil_None, !append_nil, !if_error in Hv.
    naive_solver. }
  split_and!; [done..|].
  unfold invoke, Task_Invoke. unfold check. rewrite Hv. cbn [mbind st_bind mret st_ret].
  rewrite decide_False by (by rewrite Htask).
  destruct (NewEvent_Ret now (NewTaskRunAggregate taskID) (TaskStarted (Some spec))) as [e He];
    [done|done|]. fold taskID. rewrite He. done.
Qed.

Lemma Task_Fail_spec now inv id msg b :
  b_ok b → inv ≠ "" → id ≠ "" → wire (TaskFailed (Some (MkError msg))) →
  let k := NewInvocationAggregate inv in
  one_event k (λ ev, made ev (NewTaskRunAggregate id) (Some k) (TaskFailed (Some (MkError msg)))) b
    (Task_Fail now inv id msg b).
Proof.
  intros Hok Hi Ht Hw k. unfold Task_Fail. rewrite !decide_False by done. by apply task_event_spec.
Qed.

(** The function of the task, as [Invoke] calls it. *)
Definition call_function (spec : TaskInvocationSpec) (opts : list (CallOption (B := B) (Ctx := Ctx))) :
    st B goerror TaskInvocationStatus :=
  run_function runtime (parseCallOptions Background opts) spec.

(** The outcome recorded for a result. *)
Definition outcome_payload (r : TaskInvocationStatus) : message :=
  if decide (TaskInvocationStatus_Status_ r = TaskInvocationStatus_SUCCEEDED)
  then TaskSucceeded (Some r)
  else TaskFailed (Some (MkError (GetMessage (TaskInvocationStatus_Error r)))).

End task_spec.

(** ** Dynamic tasks *)

Section dynamic_spec.
Context {B : Type} `{EventStoreLaws B} `{MapRange} `{Proto} `{PTypes} `{DirectedGraph}.
Context {Ctx : Type} (Background : Ctx) (Inject : Ctx → gmap string string → gmap string string).
Implicit Types b : B.

Lemma Workflow_Create_spec now uid spec opts b :
  validate_WorkflowSpec (Some spec) = Ret () → wire (WorkflowCreated (Some spec)) → b_ok b →
  let id := if decide (WorkflowSpec_ForceId spec = "") then "wf-" +:+ uid
            else WorkflowSpec_ForceId spec in
  let k := NewWorkflowAggregate id in
  one_event k (λ ev, made ev k None (WorkflowCreated (Some spec))) b
    (Workflow_Create Background Inject now uid (Some spec) opts b) ∧
  ∀ id' b', Workflow_Create Background Inject now uid (Some spec) opts b = (Ret id', b') → id' = id.
Proof.
  intros Hv Hw Hok id k. unfold Workflow_Create. cbv zeta. cbn [deref].
  rewrite (st_bind_lift _ _ _ ()) by done. rewrite (st_bind_lift _ _ _ spec) by done. fold id.
  split.
  - apply (make_and_append now k (WorkflowCreated (Some spec))
      (λ ev, event_with_metadata ev (Inject _ (Event_Metadata ev))) None k b id); try done.
    intros. by apply made_with_metadata.
  - intros id' b'. unfold mbind at 1, st_bind at 1, lift.
    destruct (NewEvent now _ _); [|done..]. unfold mbind, st_bind.
    destruct (es_Append _ b) as [[] ?]; [|done..]. by intros [= <- _].
Qed.

Lemma proxy_task_child now parent wfRef tv stub :
  is_child (child_id parent) (proxy_task now parent wfRef (proxy_spec parent wfRef tv stub)).
Proof. eexists parent, _, _. by split_and!. Qed.

Lemma proxy_task_valid now parent id tv stub :
  let wfRef := createFnRef id in
  validate_TaskSpec (Some (proxy_spec parent wfRef tv stub)) = None ∧
  validate_Task (Some (proxy_task now parent wfRef (proxy_spec parent wfRef tv stub))) = None.
Proof.
  intros wfRef. assert (validate_TaskSpec (Some (proxy_spec parent wfRef tv stub)) = None) as Hs
    by by apply validate_TaskSpec_None.
  split; [done|]. unfold validate_Task, proxy_task. cbv zeta iota beta.
  cbn [Task_Spec Task_Status Task_Metadata]. rewrite getOrNil_None, !append_nil. split_and!; try done.
  simpl. unfold validate_ObjectMetadata. rewrite getOrNil_None, append_nil, if_error. split; [done|].
  simpl. unfold child_id. by destruct parent.
Qed.

(** Adding a dynamic workflow creates the workflow and adds one task to the invocation:
    the child of its parent, which runs the workflow, carries the output of its parent
    and depends on nothing else.  It does not panic, and a failure leaves the history
    of the invocation without the task. *)
Theorem addDynamicWorkflow_adds_child (now : Z) (uid inv parent : string) (wfSpec : WorkflowSpec)
    (stub : TaskSpec) (tv : TypedValue) b :
  let spec := sanitizeWorkflow wfSpec in
  let wfRef := createFnRef ("wf-" +:+ uid) in
  let task := proxy_task now parent wfRef (proxy_spec parent wfRef tv stub) in
  let k := NewInvocationAggregate inv in
  let kw := NewWorkflowAggregate ("wf-" +:+ uid) in
  b_ok b → inv ≠ "" → validate_WorkflowSpec (Some spec) = Ret () →
  Wrap 1 (VString inv) = Ret (Some tv) →
  wire (WorkflowCreated (Some spec)) → wire (InvocationTaskAdded task) →
  is_child (child_id parent) task ∧
  match addDynamicWorkflow Background Inject now uid inv parent (Some wfSpec) (Some stub) b with
  | (Panic _, _) => False
  | (Throw _, b') => b_ok b' ∧ (b_stream b' k = b_stream b k ∨ b_stream b' k = [])
  | (Ret _, b') => b_ok b' ∧
      (∃ ev, made ev k None (InvocationTaskAdded task) ∧
         (b_stream b' k = b_stream b k ++ [ev] ∨ b_stream b' k = [ev])) ∧
      ∃ ev, made ev kw None (WorkflowCreated (Some spec)) ∧
         (b_stream b' kw = b_stream b kw ++ [ev] ∨ b_stream b' kw = [])
  end.
Proof.
  intros spec wfRef task k kw Hok Hinv Hv Htv Hw1 Hw2. split; [apply proxy_task_child|].
  destruct (proxy_task_valid now parent ("wf-" +:+ uid) tv stub) as [Hvs Hvt]. fold wfRef in Hvs, Hvt.
  unfold addDynamicWorkflow. cbn [deref]. rewrite (st_bind_lift _ _ _ wfSpec) by done. cbv zeta.
  fold spec. rewrite (st_bind_lift _ _ _ ()) by done.
  destruct (Workflow_Create_spec now uid spec [] b Hv Hw1 Hok) as [Hc Hid]. simpl in Hc, Hid.
  assert (k ≠ kw) as Hne by done.
  destruct (Workflow_Create Background Inject now uid (Some spec) [] b) as [[id|e|why] b1] eqn:Hcr; [| |done].
  2: { rewrite (st_bind_Throw _ _ b b1 e) by done. destruct Hc as (Hok1 & Hoth & _).
       split; [done|]. by apply Hoth. }
  rewrite (st_bind_Ret _ _ b b1 id) by done. rewrite (Hid _ _ eq_refl). fold wfRef.
  destruct Hc as (Hok1 & Hoth1 & ev1 & Hm1 & Hs1).
  rewrite (st_bind_lift _ _ _ stub) by done.
  rewrite (st_bind_lift _ _ _ (Some tv)) by (unfold MustWrap; by rewrite Htv).
  rewrite (st_bind_lift _ _ _ tv) by done.
  rewrite (st_bind_Ret _ _ b1 b1 ()) by (unfold check; by rewrite Hvs).
  fold task. pose proof (run_call_spec now inv (CallAddTask task) b1 Hok1 Hw2) as Ha.
  simpl in Ha. fold k in Ha. unfold one_event in Ha.
  destruct (Invocation_AddTask now inv (Some task) b1) as [[u|e|why] b2]; [| |done].
  - destruct Ha as (Hok2 & Hoth2 & ev2 & Hm2 & Hs2). split_and!; [done| |].
    + exists ev2. split; [done|]. rewrite Hs2. destruct (Hoth1 k Hne) as [-> | ->]; auto.
    + exists ev1. split; [done|]. destruct (Hoth2 kw (not_eq_sym Hne)) as [-> | ->]; [by left|by right].
  - destruct Ha as (Hok2 & Hoth2 & Hs2). split; [done|]. rewrite Hs2. by apply Hoth1.
Qed.
End dynamic_spec.
