(* ===== verification/InvocationController.v ===== *)
(** Component [pkg/controller/invocation.go]: the controller that drives one workflow
    invocation.  An evaluation looks at a snapshot of the invocation and either waits,
    submits tasks to the executor, or asks for the controller to be removed. *)

From stdpp Require Import base gmap strings list.
From S2P Require Import Prelude Data Types TypedValues ControlFlow Fes Projectors Graph.
From S2P Require Import Scheduler WorkQueue DelayingQueue Executor Ctrl.

(** ** The work submitted to the executor *)

(** The closures [Apply] of the tasks the two controllers submit, with what they
    capture.  A prewarming closure captures the variable of the loop that makes it: all
    iterations share it, so what the closure finds there depends on when it runs. *)
Inductive action :=
| ActFail (invocationID : string) (err : goerror)
| ActComplete (invocationID : string) (output outputHeaders : option TypedValue)
| ActPrepareTask (invocation : WorkflowInvocation) (loop : list PrepareTaskAction)
| ActExecTask (invocation : WorkflowInvocation) (taskID : string)
| ActParse (workflow : Workflow).

Definition XTask : Type := Executor.Task (A := action).
Definition Pool : Type := LocalExecutor (A := action).

(** The variable of a loop over [l], seen while iteration [i] runs or later. *)
Definition loop_variable {A} (l : list A) (i : nat) : option A := l !! min i (pred (length l)).

(** A task with an identifier and a group; its address does not matter. *)
Definition new_task (id group : string) (a : action) : XTask :=
  Executor.MkTask (Some id) (Some group) a 0.

(** ** The controller *)

(** [pkg/controller/invocation.go:32-44] InvocationController *)
Record InvocationController := MkInvocationController {
  invocationID : string;
  startedTasks : gmap string ();
  errorCount : Z }.

(** [pkg/controller/invocation.go:46-61] NewInvocationController *)
Definition NewInvocationController (invocationID : string) : InvocationController :=
  MkInvocationController invocationID ∅ 0.

Definition with_startedTasks (s : gmap string ()) (c : InvocationController) : InvocationController :=
  MkInvocationController (invocationID c) s (errorCount c).

(** [pkg/controller/invocation.go:25-28] DefaultMaxRuntime (part) *)
Definition DefaultMaxRuntime : Z := 600 * 10 ^ 9.

Section controller.
Context `{MapRange} `{Proto} `{PTypes} `{DirectedGraph} (policy : Policy) (fuel : nat).
Implicit Types (invocation : WorkflowInvocation) (c : InvocationController).

(** The controller and its executor are the state of an evaluation, which has a result
    or panics. *)
Notation ctl := (st (InvocationController * Pool) Empty_set).

(** [pkg/controller/invocation.go:509-519] allTasksFinished *)
Definition allTasksFinished invocation : res Empty_set bool :=
  tasks ← WorkflowInvocation_Tasks (Some invocation);
  foldM (λ (finished : bool) '(id, _),
    if finished then
      status ← deref (WorkflowInvocation_Status invocation);
      match WorkflowInvocationStatus_Tasks status !! id with
      | None => Ret false
      | Some task => ts ← deref (TaskInvocation_Status task); Ret (TaskInvocationStatus_Finished ts)
      end
    else Ret false) true (range 4 tasks).

(** [pkg/controller/invocation.go:482-507] determineTaskOutput *)
Definition determineTaskOutput invocation :
    res Empty_set (option (option TypedValue * option TypedValue)) :=
  tasks ← WorkflowInvocation_Tasks (Some invocation);
  success ← foldM (λ (success : bool) '(id, _),
    if success then
      status ← deref (WorkflowInvocation_Status invocation);
      ts ← deref (WorkflowInvocationStatus_Tasks status !! id ≫= TaskInvocation_Status);
      Ret (TaskInvocationStatus_Successful ts)
    else Ret false) true (range 5 tasks);
  let outputTask := match (WorkflowInvocation_Spec invocation ≫= WorkflowInvocationSpec_Workflow)
                          ≫= Workflow_Spec with
                    | Some spec => WorkflowSpec_OutputTask spec | None => "" end in
  outputs ← (if decide (outputTask = "") then Ret (None, None) else
             finalOutput ← ResolveTaskOutput fuel outputTask invocation;
             finalOutputHeaders ← ResolveTaskOutputHeaders outputTask invocation;
             Ret (finalOutput, finalOutputHeaders));
  Ret (if success : bool then Some outputs else None).

(** [c.executor.Submit(t)] *)
Definition submit (now : Z) (t : XTask) : ctl bool := λ s,
  let '(accepted, ex) := Executor.Submit now t s.2 in (Ret accepted, (s.1, ex)).

(** The invocation is failed, and the error returned. *)
(** [pkg/controller/invocation.go:78-87] InvocationController.Eval (part) *)
Definition fail_with (now : Z) invocation (err : goerror) : ctl Result :=
  let id := WorkflowInvocation_ID invocation in
  _ ← submit now (new_task (id +:+ ".fail") id (ActFail id err));
  mret (Err err).

(** Some task that was started has not finished in this snapshot. *)
(** [pkg/controller/invocation.go:94-100] InvocationController.Eval (part) *)
Definition unfinished invocation c : res Empty_set bool :=
  foldM (λ (found : bool) '(taskID, _),
    if found then Ret true else
    run ← WorkflowInvocation_TaskInvocation invocation taskID;
    match run with
    | None => Ret true
    | Some taskRun => ts ← deref (TaskInvocation_Status taskRun);
                      Ret (negb (TaskInvocationStatus_Finished ts))
    end) false (range 6 (startedTasks c)).

(** The deadline of the invocation: its own, or some time after its creation. *)
(** [pkg/controller/invocation.go:108-124] InvocationController.Eval (part) *)
Definition invocation_deadline invocation : option Z :=
  match pt_Timestamp (WorkflowInvocation_Spec invocation ≫= WorkflowInvocationSpec_Deadline) with
  | (deadline, true) => Some deadline
  | (_, false) =>
      match pt_Timestamp (WorkflowInvocation_Metadata invocation ≫= ObjectMetadata_CreatedAt) with
      | (createdAt, true) => Some (createdAt + DefaultMaxRuntime)%Z
      | (_, false) => None
      end
  end.

(** Submit what the schedule lists. *)
(** [pkg/controller/invocation.go:180-227] InvocationController.Eval (part) *)
Definition follow (now : Z) invocation (schedule : Schedule) : ctl Result :=
  let id := WorkflowInvocation_ID invocation in
  match Schedule_Abort schedule with
  | Some abortAction => fail_with now invocation (ErrNew (AbortAction_Reason abortAction))
  | None => λ s,
      let ex := foldl (λ ex a,
        (Executor.Submit now (new_task (id +:+ ".prewarm." +:+ PrepareTaskAction_TaskID a) id
           (ActPrepareTask invocation (Schedule_PrepareTasks schedule))) ex).2)
        s.2 (Schedule_PrepareTasks schedule) in
      let '(c, ex) := foldl (λ '(c, ex) a,
        let taskID := RunTaskAction_TaskID a in
        let '(accepted, ex) := Executor.Submit now
          (new_task (id +:+ ".run." +:+ taskID) id (ActExecTask invocation taskID)) ex in
        (if accepted : bool then with_startedTasks (<[taskID := ()]> (startedTasks c)) c else c, ex))
        (s.1, ex) (Schedule_RunTasks schedule) in
      (Ret (Success "scheduled execution"), (c, ex))
  end.

(** What is done once the deadline and the errors are checked. *)
(** [pkg/controller/invocation.go:150-178] InvocationController.Eval (part) *)
Definition proceed (now : Z) invocation : ctl Result :=
  let id := WorkflowInvocation_ID invocation in
  finished ← lift (allTasksFinished invocation);
  if finished : bool then
    outputs ← lift (determineTaskOutput invocation);
    match outputs with
    | None => fail_with now invocation (ErrNew "one or more tasks in the workflow have failed")
    | Some (output, outputHeaders) =>
        _ ← submit now (new_task (id +:+ ".success") id (ActComplete id output outputHeaders));
        mret (Success "all tasks of the invocation have completed")
    end
  else
    match InvocationScheduler_Evaluate policy now invocation with
    | Panic why => lift (Panic why)
    | Throw err => mret (Err err)
    | Ret schedule => follow now invocation schedule
    end.

(** [pkg/controller/invocation.go:63-148] InvocationController.Eval (part) *)
Definition InvocationController_Eval (now : Z) (processValue : option Ctrl.Event) : ctl Result :=
  event ← lift (deref processValue);
  match Notification_Updated (ev_notification event) with
  | Some (EInvocation invocation) =>
      let id := WorkflowInvocation_ID invocation in
      '(c, ex) ← getS;
      if decide (id ≠ invocationID c) then mret (Err (ErrFmt "invocation ID expected")) else
      match WorkflowInvocation_Workflow invocation with
      | None => fail_with now invocation (ErrNew "workflow is not present in the invocation")
      | Some _ =>
          if decide (0 < GetGroupTasks ex id)%Z
          then mret (Err (ErrFmt "invocation still has open task(s) to be executed")) else
          waiting ← lift (unfinished invocation c);
          if waiting : bool then mret (Success "") else
          status ← lift (deref (WorkflowInvocation_Status invocation));
          if WorkflowInvocationStatus_Finished status
          then mret (Done "invocation is in a terminal state") else
          match invocation_deadline invocation with
          | None => fail_with now invocation (ErrNew "failed to read deadline and createdAt")
          | Some deadline =>
              if decide (deadline < now)%Z
              then fail_with now invocation (ErrNew "deadline exceeded") else
              if decide (0 < errorCount c)%Z
              then fail_with now invocation (ErrNew "error count exceeded")
              else proceed now invocation
          end
      end
  | _ => mret (Err (ErrFmt "entity expected"))
  end.

(** The system evaluates the controllers through their interface. *)
#[export] Instance InvocationController_Controller : Controller InvocationController Pool := {|
  ctrl_Eval now event c ex := InvocationController_Eval now event (c, ex) |}.
End controller.

(** ** Submissions *)

(** Submit the tasks in order, and what the executor answers to each. *)
Fixpoint submit_all (now : Z) (ts : list XTask) (ex : Pool) : list (XTask * bool) * Pool :=
  match ts with
  | [] => ([], ex)
  | t :: ts =>
      let '(accepted, ex) := Executor.Submit now t ex in
      let '(log, ex) := submit_all now ts ex in ((t, accepted) :: log, ex)
  end.

(** The tasks of the workflow for which a run was accepted. *)
Definition accepted_run (p : XTask * bool) : option string :=
  match Executor.Apply p.1, p.2 with ActExecTask _ taskID, true => Some taskID | _, _ => None end.
Definition accepted_runs (log : list (XTask * bool)) : list string := omap accepted_run log.

Lemma submit_all_app now ts1 ts2 ex :
  submit_all now (ts1 ++ ts2) ex =
  let '(log1, ex1) := submit_all now ts1 ex in
  let '(log2, ex2) := submit_all now ts2 ex1 in (log1 ++ log2, ex2).
Proof.
  revert ex. induction ts1 as [|t ts1 IH]; intros ex; simpl; [by destruct (submit_all now ts2 ex)|].
  destruct (Executor.Submit now t ex) as [b ex1]. rewrite IH.
  destruct (submit_all now ts1 ex1) as [log1 ex2]. by destruct (submit_all now ts2 ex2).
Qed.

Lemma submit_all_tasks now ts ex : (submit_all now ts ex).1.*1 = ts.
Proof.
  revert ex. induction ts as [|t ts IH]; intros ex; simpl; [done|].
  destruct (Executor.Submit now t ex) as [b ex1]. specialize (IH ex1).
  destruct (submit_all now ts ex1). simpl in *. by f_equal.
Qed.

(** The tasks that a schedule asks for. *)
Definition prewarm_tasks (inv : WorkflowInvocation) (schedule : Schedule) : list XTask :=
  (λ a, new_task (WorkflowInvocation_ID inv +:+ ".prewarm." +:+ PrepareTaskAction_TaskID a)
          (WorkflowInvocation_ID inv) (ActPrepareTask inv (Schedule_PrepareTasks schedule)))
    <$> Schedule_PrepareTasks schedule.
Definition run_task (inv : WorkflowInvocation) (taskID : string) : XTask :=
  new_task (WorkflowInvocation_ID inv +:+ ".run." +:+ taskID) (WorkflowInvocation_ID inv)
    (ActExecTask inv taskID).
Definition fail_task (inv : WorkflowInvocation) (err : goerror) : XTask :=
  new_task (WorkflowInvocation_ID inv +:+ ".fail") (WorkflowInvocation_ID inv)
    (ActFail (WorkflowInvocation_ID inv) err).
Definition success_task (inv : WorkflowInvocation) (output headers : option TypedValue) : XTask :=
  new_task (WorkflowInvocation_ID inv +:+ ".success") (WorkflowInvocation_ID inv)
    (ActComplete (WorkflowInvocation_ID inv) output headers).

Definition marked (m : gmap string ()) (log : list (XTask * bool)) : gmap string () :=
  foldl (λ m id, <[id := ()]> m) m (accepted_runs log).

Lemma foldl_prewarm now inv l all ex :
  foldl (λ ex a, (Executor.Submit now (new_task (WorkflowInvocation_ID inv +:+ ".prewarm." +:+
      PrepareTaskAction_TaskID a) (WorkflowInvocation_ID inv) (ActPrepareTask inv all)) ex).2) ex l =
  (submit_all now ((λ a, new_task (WorkflowInvocation_ID inv +:+ ".prewarm." +:+
      PrepareTaskAction_TaskID a) (WorkflowInvocation_ID inv) (ActPrepareTask inv all)) <$> l) ex).2.
Proof.
  revert ex. induction l as [|a l IH]; intros ex; [done|]. rewrite fmap_cons. cbn [foldl submit_all].
  rewrite IH. destruct (Executor.Submit now _ ex) as [b ex1]. cbn [snd].
  by destruct (submit_all now _ ex1).
Qed.

Lemma accepted_runs_prewarm now inv schedule ex :
  accepted_runs (submit_all now (prewarm_tasks inv schedule) ex).1 = [].
Proof.
  unfold prewarm_tasks. generalize (Schedule_PrepareTasks schedule) at 2 as l.
  intros l. revert ex. induction l as [|a l IH]; intros ex; [done|].
  rewrite fmap_cons. cbn [submit_all]. destruct (Executor.Submit now _ ex) as [b ex1].
  specialize (IH ex1). destruct (submit_all now _ ex1) as [log ex2].
  by destruct b.
Qed.

Lemma foldl_runs now inv l c ex :
  foldl (λ '(c, ex) a,
    let taskID := RunTaskAction_TaskID a in
    let '(accepted, ex) := Executor.Submit now
      (new_task (WorkflowInvocation_ID inv +:+ ".run." +:+ taskID) (WorkflowInvocation_ID inv)
        (ActExecTask inv taskID)) ex in
    (if accepted : bool then with_startedTasks (<[taskID := ()]> (startedTasks c)) c else c, ex))
    (c, ex) l =
  let '(log, ex') := submit_all now (run_task inv <$> (RunTaskAction_TaskID <$> l)) ex in
  (with_startedTasks (marked (startedTasks c) log) c, ex').
Proof.
  revert c ex. induction l as [|a l IH]; intros c ex; [by destruct c|].
  rewrite !fmap_cons. cbn [foldl submit_all].
  change (new_task (WorkflowInvocation_ID inv +:+ ".run." +:+ RunTaskAction_TaskID a)
    (WorkflowInvocation_ID inv) (ActExecTask inv (RunTaskAction_TaskID a)))
    with (run_task inv (RunTaskAction_TaskID a)).
  destruct (Executor.Submit now (run_task inv (RunTaskAction_TaskID a)) ex) as [b ex1].
  rewrite IH. destruct (submit_all now _ ex1) as [log ex2].
  unfold marked, accepted_runs. by destruct b.
Qed.

Lemma marked_lookup m log id :
  is_Some (marked m log !! id) ↔ id ∈ accepted_runs log ∨ is_Some (m !! id).
Proof.
  unfold marked. generalize (accepted_runs log) as l. intros l. revert m.
  induction l as [|id' l IH]; intros m; simpl; [set_solver|]. rewrite IH, elem_of_cons.
  destruct (decide (id = id')) as [->|Hne].
  - rewrite lookup_insert_eq. split; [by auto|]. intros _. right. by eexists.
  - rewrite lookup_insert_ne by done. tauto.
Qed.

(** ** What an evaluation does *)

(** The run of a task has ended; has succeeded. *)
Definition run_finished (inv : WorkflowInvocation) (id : string) : Prop :=
  ∃ r, run_of inv id = Some r ∧ TI_status r ∈ taskFinalStates.
Definition run_succeeded (inv : WorkflowInvocation) (id : string) : Prop :=
  ∃ r, run_of inv id = Some r ∧ TI_status r = TaskInvocationStatus_SUCCEEDED.
#[export] Instance run_finished_dec inv id : Decision (run_finished inv id).
Proof.
  unfold run_finished. destruct (run_of inv id) as [r|]; [|right; naive_solver].
  destruct (decide (TI_status r ∈ taskFinalStates)); [left|right]; naive_solver.
Defined.
#[export] Instance run_succeeded_dec inv id : Decision (run_succeeded inv id).
Proof.
  unfold run_succeeded. destruct (run_of inv id) as [r|]; [|right; naive_solver].
  destruct (decide (TI_status r = TaskInvocationStatus_SUCCEEDED)); [left|right]; naive_solver.
Defined.
Definition all_finished (inv : WorkflowInvocation) : Prop :=
  ∀ id, is_Some (inv_task_view inv id) → run_finished inv id.
Definition all_succeeded (inv : WorkflowInvocation) : Prop :=
  ∀ id, is_Some (inv_task_view inv id) → run_succeeded inv id.

(** The snapshots a controller is made for: of schedulable invocations with their
    workflow, whose dynamic tasks were made by the task API. *)
Record evaluable (fuel : nat) (inv : WorkflowInvocation) : Prop := {
  eval_schedulable : schedulable inv;
  eval_workflow : is_Some (WorkflowInvocation_Workflow inv);
  eval_dynamic : ∀ st, WorkflowInvocation_Status inv = Some st →
    children (WorkflowInvocationStatus_DynamicTasks st) ∧
    size (WorkflowInvocationStatus_DynamicTasks st) < fuel }.

Section evaluation.
Context `{MapRange} `{Proto} `{PTypes} `{DirectedGraphLaws} (policy : Policy) (fuel : nat).
Implicit Types (inv : WorkflowInvocation) (c : InvocationController) (ex : Pool) (id : string).

Lemma run_status inv id r :
  schedulable inv → run_of inv id = Some r →
  ∃ ts, TaskInvocation_Status r = Some ts ∧ TI_status r = TaskInvocationStatus_Status_ ts.
Proof.
  intros Hs Hr. pose proof (sched_started _ Hs id r Hr) as Hne. unfold TI_status in *.
  destruct (TaskInvocation_Status r) as [ts|]; [by exists ts|done].
Qed.

(** A loop that keeps its first hit [b], over a test that never fails. *)
Lemma foldM_const {E S X} (f : S → X → res E S) s (l : list X) :
  (∀ x, x ∈ l → f s x = Ret s) → foldM f s l = Ret s.
Proof.
  induction l as [|x l IH]; intros Hl; [done|]. cbn [foldM]. rewrite Hl by by left.
  rewrite bind_Ret_l. apply IH. intros y Hy. apply Hl. by right.
Qed.

Lemma foldM_stop {E A} (f : bool → A → res E bool) (P : A → Prop) (b : bool) (l : list A) :
  (∀ x, x ∈ l → f b x = Ret b) →
  (∀ x, x ∈ l → ∃ b', f (negb b) x = Ret b' ∧ (b' = b ↔ P x)) →
  ∃ b', foldM f (negb b) l = Ret b' ∧ (b' = b ↔ ∃ x, x ∈ l ∧ P x).
Proof.
  intros Hb. induction l as [|x l IH]; intros Hn; cbn [foldM].
  - exists (negb b). split; [done|]. split; [by destruct b|by intros (x & ?%not_elem_of_nil & _)].
  - destruct (Hn x ltac:(by left)) as (b1 & -> & Hx). rewrite bind_Ret_l.
    destruct (decide (b1 = b)) as [->|Hne].
    + rewrite foldM_const by (intros y Hy; apply Hb; by right). exists b. split; [done|].
      split; [intros _; exists x; split; [by left|by apply Hx]|done].
    + assert (b1 = negb b) as -> by (by destruct b, b1).
      destruct IH as (b' & Hf & Hb'); [intros; apply Hb; by right|intros; apply Hn; by right|].
      exists b'. split; [done|]. rewrite Hb'. split.
      * intros (y & Hy & HP). exists y. split; [by right|done].
      * intros (y & [->|Hy]%elem_of_cons & HP); [by apply Hx in HP|eauto].
Qed.

Lemma unfinished_spec inv c :
  schedulable inv →
  ∃ b, unfinished inv c = Ret b ∧
    (b = true ↔ ∃ id, is_Some (startedTasks c !! id) ∧ ¬ run_finished inv id).
Proof.
  intros Hs. destruct (invocation_wf_status _ (sched_wf _ Hs)) as [st Hst].
  destruct (foldM_stop (E := Empty_set) (A := string * ()) (λ (found : bool) '(taskID, _),
    if found then Ret true else
    run ← WorkflowInvocation_TaskInvocation inv taskID;
    match run with
    | None => Ret true
    | Some taskRun => ts ← deref (TaskInvocation_Status taskRun);
                      Ret (negb (TaskInvocationStatus_Finished ts))
    end) (λ '(id, _), ¬ run_finished inv id) true (range 6 (startedTasks c)))
    as (b & Hf & Hb).
  - by intros [id []].
  - intros [id []] _. cbn [negb]. unfold WorkflowInvocation_TaskInvocation. rewrite Hst.
    cbn [deref]. rewrite !bind_Ret_l.
    destruct (WorkflowInvocationStatus_Tasks st !! id) as [r|] eqn:Hr.
    + assert (run_of inv id = Some r) as Hrun by by rewrite (run_of_status inv st).
      destruct (run_status inv id r Hs Hrun) as (ts & -> & Hts). cbn [deref]. rewrite bind_Ret_l.
      eexists; split; [done|]. unfold run_finished. rewrite Hrun, negb_true_iff, <- not_true_iff_false.
      rewrite TaskInvocationStatus_Finished_iff, <- Hts. naive_solver.
    + exists true. split; [done|]. split; [|done]. intros _ (r & Hrun & _).
      rewrite (run_of_status inv st) in Hrun by done. congruence.
  - exists b. split; [exact Hf|]. rewrite Hb. split.
    + intros ([id []] & Hin%elem_of_range & Hn). exists id. split; [by eexists|done].
    + intros (id & [[] Hid] & Hn). exists (id, ()). split; [by apply elem_of_range|done].
Qed.

Lemma inv_tasks inv :
  schedulable inv →
  ∃ M, WorkflowInvocation_Tasks (E := Empty_set) (Some inv) = Ret M ∧
    ∀ id, is_Some (M !! id) ↔ is_Some (inv_task_view inv id).
Proof.
  intros Hs. destruct (WorkflowInvocation_Tasks_spec (E := Empty_set) inv (sched_wf _ Hs))
    as (M & HM & Hid). exists M. split; [done|]. intros id. rewrite Hid. by rewrite fmap_is_Some.
Qed.

Lemma allTasksFinished_spec inv :
  schedulable inv → ∃ b, allTasksFinished inv = Ret b ∧ (b = true ↔ all_finished inv).
Proof.
  intros Hs. destruct (invocation_wf_status _ (sched_wf _ Hs)) as [st Hst].
  destruct (inv_tasks inv Hs) as (M & HM & Hdom). unfold allTasksFinished.
  rewrite HM, bind_Ret_l, Hst.
  destruct (foldM_stop (E := Empty_set) (A := string * option Data.Task) (λ (finished : bool) '(id, _),
    if finished then
      status ← deref (Some st);
      match WorkflowInvocationStatus_Tasks status !! id with
      | None => Ret false
      | Some task => ts ← deref (TaskInvocation_Status task); Ret (TaskInvocationStatus_Finished ts)
      end
    else Ret false) (λ '(id, _), ¬ run_finished inv id) false (range 4 M)) as (b & Hf & Hb).
  - by intros [id t].
  - intros [id t] _. cbn [negb deref]. rewrite bind_Ret_l.
    destruct (WorkflowInvocationStatus_Tasks st !! id) as [r|] eqn:Hr.
    + assert (run_of inv id = Some r) as Hrun by by rewrite (run_of_status inv st).
      destruct (run_status inv id r Hs Hrun) as (ts & -> & Hts). cbn [deref]. rewrite bind_Ret_l.
      eexists; split; [done|]. unfold run_finished. rewrite Hrun, <- not_true_iff_false.
      rewrite TaskInvocationStatus_Finished_iff, <- Hts. naive_solver.
    + exists false. split; [done|]. split; [|done]. intros _ (r & Hrun & _).
      rewrite (run_of_status inv st) in Hrun by done. congruence.
  - exists b. split; [exact Hf|]. rewrite <- not_false_iff_true, Hb. split.
    + intros Hn id Hid. apply Hdom in Hid as [t Ht]. apply dec_stable. intros Hnf.
      apply Hn. exists (id, t). split; [by apply elem_of_range|done].
    + intros Hall ([id t] & Hin%elem_of_range & Hnf). apply Hnf, Hall, Hdom. by eexists.
Qed.

(** The output of the invocation: that of its output task, if it names one. *)
Definition output_name inv : string :=
  match (WorkflowInvocation_Spec inv ≫= WorkflowInvocationSpec_Workflow) ≫= Workflow_Spec with
  | Some spec => WorkflowSpec_OutputTask spec | None => "" end.
Definition invocation_output inv (out : option TypedValue) : Prop :=
  if decide (output_name inv = "") then out = None
  else ∃ st, WorkflowInvocation_Status inv = Some st ∧ resolves st (output_name inv) out.

Lemma task_output_headers inv id :
  schedulable inv → ∃ h, ResolveTaskOutputHeaders (E := Empty_set) id inv = Ret h.
Proof.
  intros Hs. destruct (invocation_wf_status _ (sched_wf _ Hs)) as [st Hst].
  unfold ResolveTaskOutputHeaders. rewrite Hst. cbn [deref]. rewrite bind_Ret_l.
  destruct (WorkflowInvocationStatus_Tasks st !! id) as [r|] eqn:Hr; [|by eexists].
  destruct (run_status inv id r Hs) as (ts & -> & _); [by rewrite (run_of_status inv st)|]. by eexists.
Qed.

Lemma determineTaskOutput_spec inv :
  evaluable fuel inv → all_finished inv →
  ∃ o, determineTaskOutput fuel inv = Ret o ∧
    match o with
    | Some (out, _) => all_succeeded inv ∧ invocation_output inv out
    | None => ¬ all_succeeded inv
    end.
Proof.
  intros [Hs _ Hdyn] Hall. destruct (invocation_wf_status _ (sched_wf _ Hs)) as [st Hst].
  destruct (Hdyn st Hst) as [Hch Hfuel].
  destruct (inv_tasks inv Hs) as (M & HM & Hdom). unfold determineTaskOutput. rewrite HM, bind_Ret_l.
  destruct (foldM_stop (E := Empty_set) (A := string * option Data.Task) (λ (success : bool) '(id, _),
    if success then
      status ← deref (WorkflowInvocation_Status inv);
      ts ← deref (WorkflowInvocationStatus_Tasks status !! id ≫= TaskInvocation_Status);
      Ret (TaskInvocationStatus_Successful ts)
    else Ret false) (λ '(id, _), ¬ run_succeeded inv id) false (range 5 M)) as (b & Hf & Hb).
  - by intros [id t].
  - intros [id t] Hin%elem_of_range. cbn [negb]. rewrite Hst. cbn [deref]. rewrite bind_Ret_l.
    destruct (Hall id) as (r & Hrun & _); [by apply Hdom; eexists|].
    destruct (run_status inv id r Hs Hrun) as (ts & Hts & Hst').
    assert (WorkflowInvocationStatus_Tasks st !! id = Some r) as ->
      by by rewrite <- (run_of_status inv st).
    cbn [mbind option_bind]. rewrite Hts. cbn [deref]. rewrite bind_Ret_l. eexists; split; [done|].
    unfold run_succeeded. rewrite Hrun, <- not_true_iff_false. unfold TaskInvocationStatus_Successful.
    rewrite bool_decide_eq_true, <- Hst'. naive_solver.
  - change (negb false) with true in Hf. rewrite Hf, bind_Ret_l. fold (output_name inv).
    assert (b = true ↔ all_succeeded inv) as Hsucc.
    { rewrite <- not_false_iff_true, Hb. split.
      - intros Hn id Hid. apply Hdom in Hid as [t Ht]. apply dec_stable. intros Hnf.
        apply Hn. exists (id, t). split; [by apply elem_of_range|done].
      - intros Has ([id t] & Hin%elem_of_range & Hnf). apply Hnf, Has, Hdom. by eexists. }
    assert (∃ out h, (if decide (output_name inv = "") then Ret (None, None) else
             finalOutput ← ResolveTaskOutput fuel (output_name inv) inv;
             finalOutputHeaders ← ResolveTaskOutputHeaders (E := Empty_set) (output_name inv) inv;
             Ret (finalOutput, finalOutputHeaders)) = Ret (out, h) ∧ invocation_output inv out)
      as (out & h & -> & Hout).
    { unfold invocation_output. case_decide; [by eexists _, _|].
      destruct (ResolveTaskOutput_chain (E := Empty_set) inv st (output_name inv) fuel Hst Hch)
        as (out & -> & Hres); [|done|].
      { intros id run Hrun. destruct (run_status inv id run Hs) as (ts & -> & _); [|by eexists].
        by rewrite (run_of_status inv st). }
      destruct (task_output_headers inv (output_name inv) Hs) as [h ->]. rewrite !bind_Ret_l.
      eexists _, _. split; [done|]. by exists st. }
    rewrite bind_Ret_l. eexists; split; [done|]. destruct b.
    + split; [by apply Hsucc|done].
    + intros Has%Hsucc. done.
Qed.

(** ** The decision *)

Definition idle inv c ex : Prop :=
  (GetGroupTasks ex (WorkflowInvocation_ID inv) ≤ 0)%Z ∧
  ∀ id, is_Some (startedTasks c !! id) → run_finished inv id.
Definition terminal inv : Prop := WI_status inv ∈ invocationFinalStates.
Definition in_time (now : Z) inv c : Prop :=
  (∃ d, invocation_deadline inv = Some d ∧ now ≤ d)%Z ∧ (errorCount c ≤ 0)%Z.

(** Why an invocation is failed. *)
Inductive failure (now : Z) inv c : goerror → Prop :=
| failure_undated : invocation_deadline inv = None →
    failure now inv c (ErrNew "failed to read deadline and createdAt")
| failure_late d : invocation_deadline inv = Some d → (d < now)%Z →
    failure now inv c (ErrNew "deadline exceeded")
| failure_errors : (0 < errorCount c)%Z → failure now inv c (ErrNew "error count exceeded")
| failure_unsuccessful : all_finished inv → ¬ all_succeeded inv →
    failure now inv c (ErrNew "one or more tasks in the workflow have failed")
| failure_aborted id t : ¬ all_finished inv → run_of inv id = Some t →
    TI_status t = TaskInvocationStatus_FAILED →
    failure now inv c (ErrNew match TaskInvocation_Status t ≫= TaskInvocationStatus_Error with
                              | Some err => Error_Message err
                              | None => "Task '" +:+ TaskInvocation_ID t +:+ "' failed" end).

(** The result of an evaluation and the tasks it submits. *)
Inductive judged (now : Z) inv c ex : Result → list XTask → Prop :=
| judged_busy err : (0 < GetGroupTasks ex (WorkflowInvocation_ID inv))%Z →
    judged now inv c ex (Err err) []
| judged_waiting id : is_Some (startedTasks c !! id) → ¬ run_finished inv id →
    judged now inv c ex (Success "") []
| judged_done msg : idle inv c ex → terminal inv → judged now inv c ex (Ctrl.Done msg) []
| judged_fail err : idle inv c ex → ¬ terminal inv → failure now inv c err →
    judged now inv c ex (Err err) [fail_task inv err]
| judged_complete msg out h : idle inv c ex → ¬ terminal inv → in_time now inv c →
    all_finished inv → all_succeeded inv → invocation_output inv out →
    judged now inv c ex (Success msg) [success_task inv out h]
| judged_run msg s : idle inv c ex → ¬ terminal inv → in_time now inv c →
    ¬ all_finished inv → ¬ has_failed inv → Policy_Evaluate policy now inv = Ret s →
    judged now inv c ex (Success msg) (prewarm_tasks inv s ++ (run_task inv <$> run_ids s)).

(** The state an evaluation leaves behind. *)
Definition after_submits (now : Z) (ts : list XTask) c ex : InvocationController * Pool :=
  let '(log, ex') := submit_all now ts ex in
  (with_startedTasks (marked (startedTasks c) log) c, ex').

Lemma fail_with_spec now inv err c ex :
  fail_with now inv err (c, ex) = (Ret (Err err), after_submits now [fail_task inv err] c ex).
Proof.
  unfold fail_with, submit, after_submits, mbind, st_bind. cbn. fold (fail_task inv err).
  destruct (Executor.Submit now (fail_task inv err) ex) as [b ex']. by destruct c, b.
Qed.

Lemma follow_spec now inv s c ex :
  Schedule_Abort s = None →
  follow now inv s (c, ex) =
    (Ret (Success "scheduled execution"),
     after_submits now (prewarm_tasks inv s ++ (run_task inv <$> run_ids s)) c ex).
Proof.
  intros Ha. unfold follow, after_submits. rewrite Ha. cbn [fst snd].
  rewrite foldl_prewarm, foldl_runs, submit_all_app. fold (prewarm_tasks inv s). fold (run_ids s).
  pose proof (accepted_runs_prewarm now inv s ex) as Hp.
  destruct (submit_all now (prewarm_tasks inv s) ex) as [log1 ex1]. cbn [fst snd] in *.
  destruct (submit_all now (run_task inv <$> run_ids s) ex1) as [log2 ex2].
  unfold marked, accepted_runs in *. by rewrite omap_app, Hp.
Qed.

Lemma proceed_spec now inv c ex :
  evaluable fuel inv → idle inv c ex → ¬ terminal inv → in_time now inv c →
  ∃ r ts, judged now inv c ex r ts ∧ proceed policy fuel now inv (c, ex) = (Ret r, after_submits now ts c ex).
Proof.
  intros He Hi Ht Hin. pose proof (eval_schedulable _ _ He) as Hs. unfold proceed.
  destruct (allTasksFinished_spec inv Hs) as (fin & -> & Hfin). rewrite st_lift_Ret. destruct fin.
  - assert (all_finished inv) as Hall by by apply Hfin.
    destruct (determineTaskOutput_spec inv He Hall) as (o & -> & Ho). cbv beta iota. rewrite st_lift_Ret.
    destruct o as [[out h]|].
    + destruct Ho as [Hsucc Hout]. eexists (Success _), _.
      split; [by eapply (judged_complete now inv c ex _ out h)|].
      unfold submit, after_submits, mbind, st_bind. cbn. fold (success_task inv out h).
      destruct (Executor.Submit now (success_task inv out h) ex) as [b ex']. by destruct c, b.
    + eexists _, _. split; [|apply fail_with_spec]. apply judged_fail; [done|done|].
      by apply failure_unsuccessful.
  - assert (¬ all_finished inv) as Hall by (by intros ?%Hfin).
    unfold InvocationScheduler_Evaluate.
    destruct (has_failed_cases inv (invocation_wf_status _ (sched_wf _ Hs))) as [Hf|Hf].
    + destruct (Policy_abort_spec policy now inv (invocation_wf_status _ (sched_wf _ Hs)) Hf)
        as (s & reason & -> & Ha & _ & _ & id & t & Hrun & Htf & ->).
      rewrite bind_Ret_l. eexists _, _. split; [|].
      2:{ unfold follow. rewrite Ha. apply fail_with_spec. }
      apply judged_fail; [done|done|]. by eapply failure_aborted.
    + destruct (Policy_spec policy now inv Hs Hf) as (s & Hev & Ha & _).
      rewrite Hev, bind_Ret_l. eexists _, _. split; [|by apply follow_spec].
      by apply judged_run.
Qed.

Lemma judged_evaluation now ev inv c ex :
  evaluable fuel inv → Notification_Updated (ev_notification ev) = Some (EInvocation inv) →
  WorkflowInvocation_ID inv = invocationID c →
  ∃ r ts, judged now inv c ex r ts ∧
    InvocationController_Eval policy fuel now (Some ev) (c, ex) = (Ret r, after_submits now ts c ex).
Proof.
  intros He Hup Hid. pose proof (eval_schedulable _ _ He) as Hs.
  destruct (eval_workflow _ _ He) as [wf Hwf].
  destruct (invocation_wf_status _ (sched_wf _ Hs)) as [st Hst].
  assert (after_submits now [] c ex = (c, ex)) as Hnone by by destruct c.
  unfold InvocationController_Eval. cbn [deref]. rewrite st_lift_Ret, Hup.
  rewrite (st_bind_Ret _ _ (c, ex) (c, ex) (c, ex)) by done. cbv beta iota.
  rewrite decide_False by (by intros []). rewrite Hwf.
  case_decide as Hbusy; [eexists _, []; rewrite Hnone; split; [by apply judged_busy|done]|].
  destruct (unfinished_spec inv c Hs) as (w & -> & Hw). rewrite st_lift_Ret. destruct w.
  { destruct (proj1 Hw eq_refl) as (id & Hstart & Hrun). eexists _, []. rewrite Hnone.
    split; [by eapply judged_waiting|done]. }
  assert (idle inv c ex) as Hi.
  { split; [by apply Z.nlt_ge|]. intros id Hstart. apply dec_stable. intros Hn.
    destruct Hw as [_ Hw]. discriminate Hw. by exists id. }
  rewrite Hst. cbn [deref]. rewrite st_lift_Ret.
  assert (WorkflowInvocationStatus_Finished st = true ↔ terminal inv) as Hterm.
  { rewrite WorkflowInvocationStatus_Finished_iff. unfold terminal, WI_status. by rewrite Hst. }
  destruct (WorkflowInvocationStatus_Finished st).
  { eexists _, []. rewrite Hnone. split; [by apply judged_done; [|apply Hterm]|done]. }
  assert (¬ terminal inv) as Ht by (by intros ?%Hterm).
  assert (∀ err, failure now inv c err → ∃ r ts, judged now inv c ex r ts ∧
    fail_with now inv err (c, ex) = (Ret r, after_submits now ts c ex)) as Hfail.
  { intros err Hf. eexists _, _. split; [by apply judged_fail|apply fail_with_spec]. }
  destruct (invocation_deadline inv) as [d|] eqn:Hd; [|by apply Hfail, failure_undated].
  case_decide; [by eapply Hfail, failure_late|].
  case_decide; [by apply Hfail, failure_errors|].
  apply proceed_spec; [done|done|done|]. split; [|by apply Z.nlt_ge].
  exists d. split; [done|by apply Z.nlt_ge].
Qed.

(** ** Theorems *)

(** C2: An evaluation never panics: it gives one of the results that the state of the
    invocation calls for, and submits exactly the tasks that go with it.  In particular
    the controller only retires once the invocation is in a terminal state, completes
    it only when every task has succeeded, with the output of the output task, and
    fails it only for one of the given reasons. *)
Theorem Eval_judged (now : Z) ev inv c ex :
  evaluable fuel inv → Notification_Updated (ev_notification ev) = Some (EInvocation inv) →
  WorkflowInvocation_ID inv = invocationID c →
  ∃ r ts, judged now inv c ex r ts ∧
    InvocationController_Eval policy fuel now (Some ev) (c, ex) = (Ret r, after_submits now ts c ex).
Proof. apply judged_evaluation. Qed.

(** An evaluation of a snapshot, with the executor it finds. *)
Record evaluation := MkEvaluation {
  eval_at : Z; eval_event : Ctrl.Event; eval_inv : WorkflowInvocation; eval_pool : Pool }.

(** The evaluations of a controller, one after the other, and what is submitted in each. *)
Fixpoint evaluates (l : list evaluation) c (log : list (XTask * bool)) c' : Prop :=
  match l with
  | [] => log = [] ∧ c' = c
  | e :: l => ∃ r ts log1 log2 c1 ex1,
      submit_all (eval_at e) ts (eval_pool e) = (log1, ex1) ∧
      InvocationController_Eval policy fuel (eval_at e) (Some (eval_event e)) (c, eval_pool e) =
        (Ret r, (c1, ex1)) ∧
      evaluates l c1 log2 c' ∧ log = log1 ++ log2
  end.

Definition evaluation_of (invID : string) (e : evaluation) : Prop :=
  evaluable fuel (eval_inv e) ∧ WorkflowInvocation_ID (eval_inv e) = invID ∧
  Notification_Updated (ev_notification (eval_event e)) = Some (EInvocation (eval_inv e)).

(** The runs an evaluation starts: all different, and none started before. *)
Lemma judged_runs now inv c ex r ts :
  schedulable inv → judged now inv c ex r ts →
  NoDup (accepted_runs (submit_all now ts ex).1) ∧
  ∀ id, id ∈ accepted_runs (submit_all now ts ex).1 → startedTasks c !! id = None.
Proof.
  intros Hs Hj. destruct Hj as [| | |err Hi Ht Hf|msg out h Hi|msg s Hi Ht Hin Hall Hno Hev].
  1-5: cbn; repeat match goal with |- context [Executor.Submit ?now ?t ?ex] =>
      destruct (Executor.Submit now t ex) end; cbn;
    (split; [by apply NoDup_nil_2|by intros ? ?%not_elem_of_nil]).
  destruct (Policy_spec policy now inv Hs Hno) as (s' & Hev' & _ & Hnd & Hids & _).
  rewrite Hev in Hev'. injection Hev' as <-.
  assert (accepted_runs (submit_all now (prewarm_tasks inv s ++ (run_task inv <$> run_ids s)) ex).1
    `sublist_of` run_ids s) as Hsub.
  { rewrite submit_all_app. pose proof (accepted_runs_prewarm now inv s ex) as Hp.
    destruct (submit_all now (prewarm_tasks inv s) ex) as [log1 ex1]. cbn [fst] in Hp.
    clear -Hp. revert ex1. induction (run_ids s) as [|id l IH]; intros ex1; cbn.
    - unfold accepted_runs in *. rewrite app_nil_r, Hp. constructor.
    - destruct (Executor.Submit now (run_task inv id) ex1) as [b ex2]. specialize (IH ex2).
      destruct (submit_all now (run_task inv <$> l) ex2) as [log2 ex3]. cbn in *.
      unfold accepted_runs in *. rewrite omap_app, Hp in *. cbn.
      by destruct b; [apply sublist_skip|apply sublist_cons]. }
  split; [by eapply sublist_NoDup|]. intros id Hid.
  assert (open inv id) as [_ Hopen] by (apply Hids; by eapply elem_of_sublist).
  destruct Hi as [_ Hstarted]. apply eq_None_not_Some. intros Hst.
  destruct (Hstarted id Hst) as (r & Hrun & _). congruence.
Qed.

(** C3: A controller has at most one run of each task started, whatever snapshots it is
    given and whenever it is evaluated, stale snapshots included. *)
Theorem tasks_start_once (invID : string) (l : list evaluation) :
  (∀ e, e ∈ l → evaluation_of invID e) →
  ∃ log c', evaluates l (NewInvocationController invID) log c' ∧ NoDup (accepted_runs log) ∧
    ∀ id, id ∈ accepted_runs log ↔ is_Some (startedTasks c' !! id).
Proof.
  intros Hl.
  assert (∀ c, invocationID c = invID →
    ∃ log c', evaluates l c log c' ∧ NoDup (accepted_runs log) ∧
      (∀ id, id ∈ accepted_runs log → startedTasks c !! id = None) ∧
      ∀ id, is_Some (startedTasks c' !! id) ↔ id ∈ accepted_runs log ∨ is_Some (startedTasks c !! id))
    as Hall.
  { induction l as [|e l IH]; intros c Hc.
    { exists [], c. split_and!; [done|by constructor|by intros id ?%not_elem_of_nil|].
      intros id. split; [by right|]. by intros [?%not_elem_of_nil|]. }
    destruct (Hl e ltac:(by left)) as (He & Hid & Hup).
    destruct (judged_evaluation (eval_at e) (eval_event e) (eval_inv e) c (eval_pool e) He Hup)
      as (r & ts & Hj & Hev); [congruence|].
    destruct (judged_runs _ _ _ _ _ _ (eval_schedulable _ _ He) Hj) as [Hnd1 Hfresh1].
    unfold after_submits in Hev. destruct (submit_all (eval_at e) ts (eval_pool e)) as [log1 ex1] eqn:Hsub.
    cbn [fst] in *. pose proof (marked_lookup (startedTasks c) log1) as Hm.
    destruct (IH ltac:(intros; apply Hl; by right)
      (with_startedTasks (marked (startedTasks c) log1) c) Hc) as (log2 & c' & Hevs & Hnd2 & Hfresh2 & Hst2).
    cbn [startedTasks with_startedTasks] in *.
    exists (log1 ++ log2), c'. unfold accepted_runs in *. rewrite omap_app. split_and!.
    - by exists r, ts, log1, log2, (with_startedTasks (marked (startedTasks c) log1) c), ex1.
    - apply NoDup_app. split_and!; [done| |done]. intros id Hid1 Hid2.
      apply Hfresh2, eq_None_not_Some in Hid2. apply Hid2, Hm. by left.
    - intros id [Hid1|Hid2]%elem_of_app; [by apply Hfresh1|].
      apply Hfresh2, eq_None_not_Some in Hid2. apply eq_None_not_Some. intros Hs.
      apply Hid2, Hm. by right.
    - intros id. rewrite Hst2, Hm, elem_of_app. tauto. }
  destruct (Hall (NewInvocationController invID) eq_refl) as (log & c' & Hev & Hnd & _ & Hst).
  exists log, c'. split_and!; [done|done|]. intros id. rewrite Hst. split; [by left|].
  intros [|[? Hn]]; [done|]. cbn [NewInvocationController startedTasks] in Hn. by rewrite lookup_empty in Hn.
Qed.

(** C4: An evaluation always moves an idle invocation on: as long as it is not in a
    terminal state, none of its tasks is running and the tasks that were not started do
    not wait for each other in a circle, the controller submits the run of a task, or
    the end of the invocation. *)
Theorem Eval_progress (now : Z) ev inv c ex :
  evaluable fuel inv → Notification_Updated (ev_notification ev) = Some (EInvocation inv) →
  WorkflowInvocation_ID inv = invocationID c → idle inv c ex → ¬ terminal inv →
  (∀ id, is_Some (run_of inv id) → run_finished inv id) → (∀ id, ¬ tc (open_waits inv) id id) →
  ∃ r ts, InvocationController_Eval policy fuel now (Some ev) (c, ex) =
      (Ret r, after_submits now ts c ex) ∧
    ((∃ err, ts = [fail_task inv err]) ∨ (∃ out h, ts = [success_task inv out h]) ∨
     ∃ id, run_task inv id ∈ ts ∧ on_horizon inv id).
Proof.
  intros He Hup Hid Hi Ht Hruns Hac. pose proof (eval_schedulable _ _ He) as Hs.
  destruct (judged_evaluation now ev inv c ex He Hup Hid) as (r & ts & Hj & Hev).
  exists r, ts. split; [done|].
  destruct Hj as [err Hb|id Hst Hnf|msg _ Hterm|err _ _ Hf|msg out h _ _ _ _ _|msg s _ _ _ Hall Hno Hpol].
  - destruct Hi as [Hle _]. lia.
  - destruct Hi as [_ Hfin]. by apply Hfin in Hst.
  - done.
  - by left; exists err.
  - right; left; eauto.
  - right; right. destruct (Policy_runs policy now inv Hs Hno Hac) as (s' & id & Hev' & Hrun).
    + destruct (inv_tasks inv Hs) as (M & _ & Hdom).
      destruct (decide (Exists (λ p, ¬ run_finished inv p.1) (map_to_list M))) as [Hex|Hn].
      * apply Exists_exists in Hex as ([id t] & Hin%elem_of_map_to_list & Hnf). exists id.
        split; [by apply Hdom; eexists|]. apply eq_None_not_Some. intros Hrun. by apply Hnf, Hruns.
      * destruct Hall. intros id Hv. apply Hdom in Hv as [t Ht']. apply dec_stable. intros Hnf.
        apply Hn, Exists_exists. exists (id, t). split; [by apply elem_of_map_to_list|done].
    + rewrite Hpol in Hev'. injection Hev' as <-. exists id.
      destruct (Policy_spec policy now inv Hs Hno) as (s' & Hev' & _ & _ & Hids & _).
      rewrite Hpol in Hev'. injection Hev' as <-. split; [|by apply Hids].
      apply elem_of_app. right. by apply list_elem_of_fmap_2.
Qed.

(** As long as a task the controller started has not finished in the snapshot, the
    controller does nothing: it neither looks at the deadline of the invocation nor
    notices that the invocation has ended. *)
Theorem unfinished_task_blocks (now : Z) ev inv c ex id :
  schedulable inv → Notification_Updated (ev_notification ev) = Some (EInvocation inv) →
  is_Some (WorkflowInvocation_Workflow inv) → WorkflowInvocation_ID inv = invocationID c →
  is_Some (startedTasks c !! id) → ¬ run_finished inv id →
  (GetGroupTasks ex (WorkflowInvocation_ID inv) ≤ 0)%Z →
  InvocationController_Eval policy fuel now (Some ev) (c, ex) = (Ret (Success ""), (c, ex)).
Proof.
  intros Hs Hup [wf Hwf] Hid Hst Hnf Hg. unfold InvocationController_Eval. cbn [deref].
  rewrite st_lift_Ret, Hup. rewrite (st_bind_Ret _ _ (c, ex) (c, ex) (c, ex)) by done. cbv beta iota.
  rewrite decide_False by (by intros []). rewrite Hwf, decide_False by by apply Z.nlt_ge.
  destruct (unfinished_spec inv c Hs) as (b & -> & Hb). rewrite st_lift_Ret.
  assert (b = true) as -> by (apply Hb; eauto). done.
Qed.
End evaluation.
