(* ===== verification/Expr.v ===== *)
(** Component [pkg/controller/expr]: the scope of a workflow invocation, which the
    expressions of its inputs and outputs can query, the store of the scopes, and the
    resolver that evaluates the expressions in a value.  The JavaScript engine (otto)
    and the library that merges scopes (mergo) are classes. *)

From stdpp Require Import base gmap strings list pretty.
From S2P Require Import Prelude Data Types TypedValues ControlFlow.
From Stdlib Require Import Ascii.

(** ** Scopes *)

(** [expr.ObjectMetadata]; the other [ObjectMetadata] is the message of [Data]. *)
(** [pkg/controller/expr/scope.go:60-63] ObjectMetadata *)
Record ScopeMetadata := MkScopeMetadata {
  ScopeMetadata_Id : string;
  ScopeMetadata_CreatedAt : Z }.

(** [pkg/controller/expr/scope.go:45-51] WorkflowScope *)
Record WorkflowScope := MkWorkflowScope {
  WorkflowScope_Metadata : option ScopeMetadata;
  WorkflowScope_UpdatedAt : Z;
  WorkflowScope_Status : string;
  WorkflowScope_Name : string;
  WorkflowScope_Internal : bool }.

(** [pkg/controller/expr/scope.go:54-57] InvocationScope *)
Record InvocationScope := MkInvocationScope {
  InvocationScope_Metadata : option ScopeMetadata;
  InvocationScope_Inputs : gmap string gval }.

(** [pkg/controller/expr/scope.go:66-75] TaskScope *)
Record TaskScope := MkTaskScope {
  TaskScope_Metadata : option ScopeMetadata;
  TaskScope_Status : string;
  TaskScope_UpdatedAt : Z;
  TaskScope_Inputs : gmap string gval;
  TaskScope_Requires : gmap string (option TaskDependencyParameters);
  TaskScope_Output : gval;
  TaskScope_OutputHeaders : gval;
  TaskScope_Function : string }.

(** [expr.Tasks]; the type is written out. *)
Notation ScopeTasks := (gmap string TaskScope).

(** [pkg/controller/expr/scope.go:25-29] Scope *)
Record Scope := MkScope {
  Scope_Workflow : option WorkflowScope;
  Scope_Invocation : option InvocationScope;
  Scope_Tasks : ScopeTasks }.

Definition with_Tasks (ts : ScopeTasks) (s : Scope) : Scope :=
  MkScope (Scope_Workflow s) (Scope_Invocation s) ts.
Definition with_Inputs (i : gmap string gval) (t : TaskScope) : TaskScope :=
  MkTaskScope (TaskScope_Metadata t) (TaskScope_Status t) (TaskScope_UpdatedAt t) i
    (TaskScope_Requires t) (TaskScope_Output t) (TaskScope_OutputHeaders t) (TaskScope_Function t).
Definition with_Output (v : gval) (t : TaskScope) : TaskScope :=
  MkTaskScope (TaskScope_Metadata t) (TaskScope_Status t) (TaskScope_UpdatedAt t) (TaskScope_Inputs t)
    (TaskScope_Requires t) v (TaskScope_OutputHeaders t) (TaskScope_Function t).
Definition with_OutputHeaders (v : gval) (t : TaskScope) : TaskScope :=
  MkTaskScope (TaskScope_Metadata t) (TaskScope_Status t) (TaskScope_UpdatedAt t) (TaskScope_Inputs t)
    (TaskScope_Requires t) (TaskScope_Output t) v (TaskScope_Function t).

(** The names the generated [String] methods print; an unknown value prints as its number. *)
(** [pkg/types/types.pb.go:113-135] TaskStatus_Status, its names *)
Definition TaskStatus_Status_String (s : TaskStatus_Status) : string :=
  match s with
  | TaskStatus_STARTED => "STARTED" | TaskStatus_READY => "READY" | TaskStatus_FAILED => "FAILED"
  | TaskStatus_unrecognized n => pretty n
  end.

(** [pkg/types/types.pb.go:51-76] WorkflowStatus_Status, its names *)
Definition WorkflowStatus_Status_String (s : WorkflowStatus_Status) : string :=
  match s with
  | WorkflowStatus_QUEUED => "QUEUED" | WorkflowStatus_READY => "READY"
  | WorkflowStatus_FAILED => "FAILED" | WorkflowStatus_DELETED => "DELETED"
  | WorkflowStatus_unrecognized n => pretty n
  end.

(** ** Building a scope *)

(** [github.com/imdario/mergo]: [Merge dst src] fills what is empty in [dst] with what
    [src] has; it removes no entry of a map. *)
Class Mergo := {
  mergo_Merge : Scope → Scope → res goerror Scope;
  mergo_tasks : ∀ dst src merged, mergo_Merge dst src = Ret merged →
    dom (Scope_Tasks dst) ⊆ dom (Scope_Tasks merged);
  mergo_no_panic : ∀ dst src, no_panic (mergo_Merge dst src);
}.

(** The entries of the tasks, for concrete runs: the union, [dst] first. *)
#[refine] Definition plain_mergo : Mergo := {|
  mergo_Merge dst src := Ret (MkScope
    (match Scope_Workflow dst with Some w => Some w | None => Scope_Workflow src end)
    (match Scope_Invocation dst with Some i => Some i | None => Scope_Invocation src end)
    (Scope_Tasks dst ∪ Scope_Tasks src)) |}.
Proof.
  - intros dst src merged [= <-]. cbn [Scope_Tasks]. intros k Hk. apply elem_of_dom. apply elem_of_dom in Hk.
    apply lookup_union_is_Some. by left.
  - done.
Defined.

Section scope.
Context `{MapRange} `{Proto} `{PTypes} `{Mergo} (fuel : nat).

(** The error is dropped; nanoseconds since the epoch, as an int64. *)
(** [pkg/controller/expr/scope.go:228-231] formatTimestamp *)
Definition formatTimestamp (pts : option Timestamp) : Z := to_i64 (pt_Timestamp pts).1.

(** [pkg/controller/expr/scope.go:218-226] formatMetadata *)
Definition formatMetadata (meta : option ObjectMetadata) : option ScopeMetadata :=
  meta ← meta;
  Some (MkScopeMetadata (ObjectMetadata_Id meta) (formatTimestamp (ObjectMetadata_CreatedAt meta))).

(** [pkg/controller/expr/scope.go:208-216] formatWorkflow *)
Definition formatWorkflow (wf : Workflow) : res goerror WorkflowScope :=
  status ← deref (Workflow_Status wf);
  Ret (MkWorkflowScope (formatMetadata (Workflow_Metadata wf))
         (formatTimestamp (WorkflowStatus_UpdatedAt status))
         (WorkflowStatus_Status_String (WorkflowStatus_Status_ status))
         (match Workflow_Metadata wf with Some m => ObjectMetadata_Name m | None => "" end)
         (match Workflow_Spec wf with Some s => WorkflowSpec_Internal s | None => false end)).

(** One round of the loop over the tasks. *)
(** [pkg/controller/expr/scope.go:157-189] NewScope (part) *)
Definition task_scope (wfi : WorkflowInvocation) (taskId : string) (task : option Task) :
    res goerror TaskScope :=
  t ← ResolveTaskOutput fuel taskId wfi;
  output ← MustUnwrap fuel t;
  h ← ResolveTaskOutputHeaders taskId wfi;
  outputHeaders ← MustUnwrap fuel h;
  inputs ← wrap_err "failed to format inputs of task"
             (UnwrapMapTypedValue fuel (match task ≫= Task_Spec with
                                        | Some s => TaskSpec_Inputs s | None => ∅ end));
  task ← deref task;
  status ← deref (Task_Status task);
  Ret (MkTaskScope (formatMetadata (Task_Metadata task))
         (TaskStatus_Status_String (TaskStatus_Status_ status))
         (formatTimestamp (TaskStatus_UpdatedAt status))
         inputs
         (match Task_Spec task with Some s => TaskSpec_Requires s | None => ∅ end)
         output outputHeaders
         (match Task_Spec task with Some s => TaskSpec_FunctionRef s | None => "" end)).

(** The scope without the one it inherits from. *)
(** [pkg/controller/expr/scope.go:140-189] NewScope (part) *)
Definition own_scope (wfi : option WorkflowInvocation) : res goerror Scope :=
  workflow ← (match wfi ≫= WorkflowInvocation_Workflow with
              | Some wf => ws ← formatWorkflow wf; Ret (Some ws)
              | None => Ret None end);
  match wfi with
  | None => Ret (MkScope workflow None ∅)
  | Some wfi =>
      spec ← deref (WorkflowInvocation_Spec wfi);
      invocationParams ← wrap_err "failed to format invocation inputs"
                           (UnwrapMapTypedValue fuel (WorkflowInvocationSpec_Inputs spec));
      let invocation := MkInvocationScope (formatMetadata (WorkflowInvocation_Metadata wfi))
                          invocationParams in
      tasks ← WorkflowInvocation_Tasks (Some wfi);
      tasks ← foldM (λ scopes '(taskId, task),
                ts ← task_scope wfi taskId task; Ret (<[taskId := ts]> scopes)) ∅ (range 0 tasks);
      Ret (MkScope workflow (Some invocation) tasks)
  end.

(** [pkg/controller/expr/scope.go:146-206] NewScope *)
Definition NewScope (base : option Scope) (wfi : option WorkflowInvocation) : res goerror Scope :=
  updated ← own_scope wfi;
  match base with
  | None => Ret updated
  | Some base => mergo_Merge updated base
  end.
End scope.

(** ** Deep copies

    A copy equals its original; what matters is which values can be copied at all.  A
    method called on a [nil] pointer answers the [nil] interface, on which the type
    assertion of the caller panics. *)

Section deepcopy.
Context `{MapRange} {E : Type}.

(** Byte slices, slices and maps of typed values, and other types are refused. *)
(** [pkg/controller/expr/scope.go:233-261] DeepCopy *)
Fixpoint DeepCopy (fuel : nat) (i : gval) : res E gval :=
  match fuel with
  | O => Panic "fuel"
  | S fuel =>
      match i with
      | VNil | VBool _ | VInt _ | VInt32 _ | VInt64 _ | VUInt32 _ | VUInt64 _ | VFloat32 _ | VFloat64 _
      | VString _ | VTyped _ | VMessage _ => Ret i
      | VMap t =>
          copied ← foldM (λ copied '(k, v), v ← DeepCopy fuel v; Ret (<[k := v]> copied)) ∅ (range 0 t);
          Ret (VMap copied)
      | VList t =>
          copied ← foldM (λ copied v, v ← DeepCopy fuel v; Ret (copied ++ [v])) [] t;
          Ret (VList copied)
      | VBytes _ | VTypedList _ | VTypedMap _ | VOther _ => Panic "cannot deepcopy unknown type"
      end
  end.

Context (fuel : nat).

(** [DeepCopy(m).(map[string]interface{})] *)
Definition copy_map (m : gmap string gval) : res E (gmap string gval) :=
  i ← DeepCopy (S fuel) (VMap m);
  match i with VMap m => Ret m | _ => Panic "interface conversion" end.

(** [pkg/controller/expr/scope.go:111-119] ObjectMetadata.DeepCopy *)
Definition ObjectMetadata_DeepCopy (s : option ScopeMetadata) : option ScopeMetadata :=
  s ← s; Some (MkScopeMetadata (ScopeMetadata_Id s) (ScopeMetadata_CreatedAt s)).

(** [x.DeepCopy().( *T)] *)
Definition copied {A} (x : option A) : res E A :=
  match x with Some a => Ret a | None => Panic "interface conversion: interface is nil" end.

(** [pkg/controller/expr/scope.go:88-99] WorkflowScope.DeepCopy *)
Definition WorkflowScope_DeepCopy (s : option WorkflowScope) : res E (option WorkflowScope) :=
  match s with
  | None => Ret None
  | Some s =>
      meta ← copied (ObjectMetadata_DeepCopy (WorkflowScope_Metadata s));
      Ret (Some (MkWorkflowScope (Some meta) (WorkflowScope_UpdatedAt s) (WorkflowScope_Status s)
                   (WorkflowScope_Name s) (WorkflowScope_Internal s)))
  end.

(** [pkg/controller/expr/scope.go:101-109] InvocationScope.DeepCopy *)
Definition InvocationScope_DeepCopy (s : option InvocationScope) : res E (option InvocationScope) :=
  match s with
  | None => Ret None
  | Some s =>
      meta ← copied (ObjectMetadata_DeepCopy (InvocationScope_Metadata s));
      inputs ← copy_map (InvocationScope_Inputs s);
      Ret (Some (MkInvocationScope (Some meta) inputs))
  end.

(** The parameters of a dependency are a message: [proto.Clone] copies them, [nil] too. *)
(** [pkg/controller/expr/scope.go:121-143] TaskScope.DeepCopy *)
Definition TaskScope_DeepCopy (s : TaskScope) : res E TaskScope :=
  requires ← foldM (λ requires '(k, v), Ret (<[k := v]> requires)) ∅ (range 1 (TaskScope_Requires s));
  meta ← copied (ObjectMetadata_DeepCopy (TaskScope_Metadata s));
  inputs ← copy_map (TaskScope_Inputs s);
  output ← DeepCopy fuel (TaskScope_Output s);
  headers ← DeepCopy fuel (TaskScope_OutputHeaders s);
  Ret (MkTaskScope (Some meta) (TaskScope_Status s) (TaskScope_UpdatedAt s) inputs requires
         output headers (TaskScope_Function s)).

(** Of a map that is not [nil]. *)
(** [pkg/controller/expr/scope.go:77-86] Tasks.DeepCopy *)
Definition Tasks_DeepCopy (s : ScopeTasks) : res E ScopeTasks :=
  foldM (λ copied '(k, v), v ← TaskScope_DeepCopy v; Ret (<[k := v]> copied)) ∅ (range 2 s).

End deepcopy.

(** ** The JavaScript engine

    [github.com/robertkrimen/otto].  A program evaluated in a copy of the engine gives
    a value, which the engine exports to a Go value; it can be a Go struct (a part of the
    scope), which the resolver turns into the map that its JSON describes.  The program
    reaches the root scope, and can change it, through the variable [$].  [JSTimeOut]: it
    was interrupted; the interruption is a panic with [ErrTimeOut]. *)

Inductive js_outcome :=
| JSValue (i : gval)
| JSStruct (json : res goerror (gmap string gval))
| JSError (err : goerror)
| JSTimeOut
| JSPanic (why : string).

Class Otto (R : Type) := {
  (** [vm.Set] of the root scope and of the current task. *)
  otto_Set : R → string → option goerror;
  (** [vm.Run src] with the variables [$] and [taskId]. *)
  otto_Run : string → string → R → js_outcome * R;
}.

(** [pkg/controller/expr/expr.go:18-22] varScope, varCurrentTask, ResolvingTimeout *)
Definition varScope : string := "$".
Definition varCurrentTask : string := "taskId".
Definition ResolvingTimeout : Z := 100 * 10 ^ 6.

Section resolver.
Context `{MapRange} `{Proto} {R : Type} `{Otto R} (fuel : nat).
Implicit Types expr : option TypedValue.

Definition annotate {A} (text : string) (m : res goerror A) : st R goerror A :=
  lift (wrap_err text m).

(** The deferred function recovers from the panic of the timeout, and only from it: the
    results are then the zero values, no value and no error. *)
(** [pkg/controller/expr/expr.go:71-134] JavascriptExpressionParser.resolveExpr *)
Definition resolveExpr (currentTask : string) expr : st R goerror (option TypedValue) :=
  if decide (ValueType expr ≠ TypeExpression) then throw (ErrNew "expected expression to resolve") else
  rootScope ← getS;
  match otto_Set rootScope currentTask with
  | Some err => throw err
  | None =>
      e ← annotate "failed to format expression for resolving" (UnwrapExpression fuel expr);
      let cleanExpr := RemoveExpressionDelimiters e in
      jsResult ← (λ r, let '(out, r') := otto_Run cleanExpr currentTask r in (Ret out, r'));
      match jsResult with
      | JSError err => throw err
      | JSTimeOut => mret None
      | JSPanic why => lift (Panic why)
      | JSValue i =>
          result ← lift (Wrap fuel i);
          mret (SetMetadata result "src" e)
      | JSStruct json =>
          mp ← lift json;
          result ← lift (Wrap fuel (VMap mp));
          mret (SetMetadata result "src" e)
      end
  end.

(** Resolve a value found in a list or a map, given how to resolve a typed value. *)
Definition resolve_field (Resolve : option TypedValue → st R goerror (option TypedValue)) (v : gval) :
    st R goerror gval :=
  field ← lift (Wrap fuel v);
  resolved ← Resolve field;
  lift (Unwrap fuel resolved).

(** The recursive calls of [resolveList] and [resolveMap] go through [Resolve]. *)
Context (Resolve_field : option TypedValue → st R goerror (option TypedValue)).

(** [pkg/controller/expr/expr.go:136-169] JavascriptExpressionParser.resolveMap *)
Definition resolveMap expr : st R goerror (option TypedValue) :=
  if decide (ValueType expr ≠ TypeMap) then throw (ErrNew "expected map to resolve") else
  i ← lift (Unwrap fuel expr);
  match i with
  | VMap obj =>
      result ← loopM (λ result '(k, v),
        actualVal ← resolve_field Resolve_field v; mret (<[k := actualVal]> result)) ∅ (range 3 obj);
      lift (Wrap fuel (VMap result))
  | _ => lift (Panic "interface conversion")
  end.

(** [pkg/controller/expr/expr.go:171-204] JavascriptExpressionParser.resolveList *)
Definition resolveList expr : st R goerror (option TypedValue) :=
  if decide (ValueType expr ≠ TypeList) then throw (ErrNew "expected list to resolve") else
  i ← lift (Unwrap fuel expr);
  match i with
  | VList obj =>
      result ← loopM (λ result v,
        actualVal ← resolve_field Resolve_field v; mret (result ++ [actualVal])) [] obj;
      lift (Wrap fuel (VList result))
  | _ => lift (Panic "interface conversion")
  end.
End resolver.

Section resolve.
Context `{MapRange} `{Proto} {R : Type} `{Otto R} (fuel : nat).

(** [depth] bounds the nesting of lists and maps. *)
(** [pkg/controller/expr/expr.go:56-69] JavascriptExpressionParser.Resolve *)
Fixpoint Resolve (depth : nat) (currentTask : string) (expr : option TypedValue) :
    st R goerror (option TypedValue) :=
  match depth with
  | O => lift (Panic "fuel")
  | S depth =>
      if decide (ValueType expr = TypeList) then resolveList fuel (Resolve depth currentTask) expr
      else if decide (ValueType expr = TypeMap) then resolveMap fuel (Resolve depth currentTask) expr
      else if decide (ValueType expr = TypeExpression) then resolveExpr fuel currentTask expr
      else mret expr
  end.
End resolve.

(** ** The functions expressions can call

    A built-in function evaluates a look-up in the scope; one that fails is undefined. *)

(** [call.Argument(0).String()], quoted. *)
Definition quoted (s : string) : string :=
  let quote := String (Ascii.ascii_of_nat 34) EmptyString in quote +:+ s +:+ quote.

Section functions.
(** [vm.Eval]; [None] is the undefined value. *)
Context {V : Type} (vm_Eval : string → option V).

(** The task a call names first, or the current one. *)
Definition call_task (args : list string) : string :=
  match args with [] => varCurrentTask | t :: _ => quoted t end.

(** [pkg/controller/expr/functions.go:37-65] InputFn.Apply *)
Definition InputFn_Apply (args : list string) : option V :=
  let inputKey := match args with _ :: k :: _ => k | _ => InputMain end in
  vm_Eval ("$.Tasks[" +:+ call_task args +:+ "].Inputs[" +:+ quoted inputKey +:+ "]").

(** [pkg/controller/expr/functions.go:71-90] OutputFn.Apply *)
Definition OutputFn_Apply (args : list string) : option V :=
  vm_Eval ("$.Tasks[" +:+ call_task args +:+ "].Output").

(** [pkg/controller/expr/functions.go:96-129] OutputHeadersFn.Apply *)
Definition OutputHeadersFn_Apply (args : list string) : option V :=
  let headerKey := match args with _ :: k :: _ => k | _ => "" end in
  if decide (headerKey = "") then vm_Eval ("$.Tasks[" +:+ call_task args +:+ "].OutputHeaders")
  else vm_Eval ("$.Tasks[" +:+ call_task args +:+ "].OutputHeaders[" +:+ quoted headerKey +:+ "]").

(** [pkg/controller/expr/functions.go:136-155] ParamFn.Apply *)
Definition ParamFn_Apply (args : list string) : option V :=
  let key := match args with k :: _ => k | [] => InputMain end in
  vm_Eval ("$.Invocation.Inputs[" +:+ quoted key +:+ "]").

(** [pkg/controller/expr/functions.go:162-181] TaskFn.Apply *)
Definition TaskFn_Apply (args : list string) : option V :=
  vm_Eval ("$.Tasks[" +:+ call_task args +:+ "]").
End functions.

(** ** The store of the scopes

    The store maps an invocation to a pointer to its scope; the heap of the scopes is
    part of the state, so that a change through one pointer is seen through the others. *)

(** [pkg/controller/expr/store.go:9-11] Store *)
Record Store := MkStore {
  scopes : list Scope;
  entries : gmap string nat }.

(** [pkg/controller/expr/store.go:13-17] NewStore *)
Definition NewStore : Store := MkStore [] ∅.

(** Allocate a scope: [&Scope{...}]. *)
Definition new_scope (s : Scope) (rs : Store) : nat * Store :=
  (length (scopes rs), MkStore (scopes rs ++ [s]) (entries rs)).

Definition update_scope (f : Scope → Scope) (p : nat) (rs : Store) : Store :=
  MkStore (alter f p (scopes rs)) (entries rs).

(** [pkg/controller/expr/store.go:19-21] Store.Set *)
Definition Store_Set (id : string) (data : nat) (rs : Store) : Store :=
  MkStore (scopes rs) (<[id := data]> (entries rs)).

(** [pkg/controller/expr/store.go:23-25] Store.Delete *)
Definition Store_Delete (id : string) (rs : Store) : Store :=
  MkStore (scopes rs) (delete id (entries rs)).

(** [pkg/controller/expr/store.go:27-34] Store.Get *)
Definition Store_Get (id : string) (rs : Store) : option nat := entries rs !! id.

(** [pkg/controller/expr/store.go:36-41] Store.Update *)
Definition Store_Update (id : string) (updater : nat → nat) (rs : Store) : Store :=
  match Store_Get id rs with
  | Some entry => Store_Set id (updater entry) rs
  | None => rs
  end.

(** [pkg/controller/expr/store.go:45-49] Store.Range *)
Definition Store_Range `{MapRange} {A} (fn : A → string → nat → A * bool) (a : A) (rs : Store) : A :=
  (fix go a l := match l with
                 | [] => a
                 | (k, v) :: l => let '(a, continue) := fn a k v in
                                  if continue : bool then go a l else a
                 end) a (range 0 (entries rs)).

(** ** Which values can be copied *)

(** A byte slice occurs in the value. *)
Inductive has_bytes : gval → Prop :=
| has_bytes_here s : has_bytes (VBytes s)
| has_bytes_map m k v : m !! k = Some v → has_bytes v → has_bytes (VMap m)
| has_bytes_list l v : v ∈ l → has_bytes v → has_bytes (VList l).

(** A call gives its argument back, or panics when [B] holds of it. *)
Definition copies {E A} (B : A → Prop) (a : A) (m : res E A) : Prop :=
  (m = Ret a ∧ ¬ B a) ∨ (∃ why, m = Panic why ∧ B a).

Lemma copies_list {E A} (B : A → Prop) (f : A → res E A) (l acc : list A) :
  (∀ v, v ∈ l → copies B v (f v)) →
  (foldM (λ out v, v ← f v; Ret (out ++ [v])) acc l = Ret (acc ++ l) ∧ ∀ v, v ∈ l → ¬ B v) ∨
  (∃ why, foldM (λ out v, v ← f v; Ret (out ++ [v])) acc l = Panic why ∧ ∃ v, v ∈ l ∧ B v).
Proof.
  revert acc. induction l as [|v l IH]; intros acc Hf.
  - left. rewrite app_nil_r. split; [done|]. intros v Hv. by apply elem_of_nil in Hv.
  - cbn [foldM]. destruct (Hf v ltac:(by left)) as [[Hv Hb]|(why & Hv & Hb)]; rewrite Hv; cbn [mbind res_bind].
    + destruct (IH (acc ++ [v])) as [[-> Hn]|(why & -> & v' & Hv' & Hb')].
      * intros v' Hv'. apply Hf. by right.
      * left. rewrite <- app_assoc. split; [done|]. intros v' [->|Hv']%elem_of_cons; [done|by apply Hn].
      * right. exists why. split; [done|]. exists v'. split; [by right|done].
    + right. exists why. split; [done|]. exists v. split; [by left|done].
Qed.

(** Copying the entries of a map one by one. *)
Lemma copies_map `{MapRange} {E A} (B : A → Prop) (f : A → res E A) n (m : gmap string A) :
  (∀ k v, m !! k = Some v → copies B v (f v)) →
  (foldM (λ (out : gmap string A) '(k, v), v ← f v; Ret (<[k := v]> out)) ∅ (range n m) = Ret m ∧
     ∀ k v, m !! k = Some v → ¬ B v) ∨
  (∃ why, foldM (λ (out : gmap string A) '(k, v), v ← f v; Ret (<[k := v]> out)) ∅ (range n m) = Panic why ∧
     ∃ k v, m !! k = Some v ∧ B v).
Proof.
  intros Hf.
  assert (∀ l acc, (∀ k v, (k, v) ∈ l → m !! k = Some v) →
    (foldM (λ (out : gmap string A) '(k, v), v ← f v; Ret (<[k := v]> out)) acc l =
       Ret (foldl (λ (out : gmap string A) '(k, v), <[k := v]> out) acc l) ∧ ∀ k v, (k, v) ∈ l → ¬ B v) ∨
    (∃ why, foldM (λ (out : gmap string A) '(k, v), v ← f v; Ret (<[k := v]> out)) acc l = Panic why ∧
       ∃ k v, m !! k = Some v ∧ B v)) as Hl.
  { induction l as [|[k v] l IH]; intros acc Hin.
    - left. split; [done|]. intros k v Hv. by apply elem_of_nil in Hv.
    - cbn [foldM foldl]. pose proof (Hin k v ltac:(by left)) as Hk.
      destruct (Hf k v Hk) as [[Hv Hb]|(why & Hv & Hb)]; rewrite Hv; cbn [mbind res_bind];
        [|right; exists why; split; [done|by exists k, v]].
      destruct (IH (<[k := v]> acc)) as [[-> Hn]|?]; [intros; apply Hin; by right| |by right].
      left. split; [done|]. intros k' v' [Heq|Hv']%elem_of_cons; [by injection Heq as -> ->|by eapply Hn]. }
  destruct (Hl (range n m) ∅) as [[-> Hn]|?]; [by intros ? ? ?%elem_of_range| |by right].
  left. split; [|intros k v Hk; by eapply (Hn k), elem_of_range]. f_equal. apply map_eq. intros k.
  pose proof (foldl_omap_range n (λ _ v, Some v) m ∅ k) as Hk. cbn in Hk.
  rewrite Hk, lookup_empty. by destruct (m !! k).
Qed.

(** Plain data is copied unchanged unless a byte slice occurs in it, on which the copy
    panics. *)
Theorem DeepCopy_plain `{MapRange} {E} (n : nat) (v : gval) (fuel : nat) :
  plain n v → n < fuel →
  (DeepCopy (E := E) fuel v = Ret v ∧ ¬ has_bytes v) ∨
  (∃ why, DeepCopy (E := E) fuel v = Panic why ∧ has_bytes v).
Proof.
  intros Hp. revert fuel. induction Hp as [n v Hv|n m Hm IH|n l Hl IH]; intros fuel Hf;
    (destruct fuel as [|fuel]; [lia|]).
  - destruct v; try done; try (left; split; [done|]; intros Hb; by inversion Hb).
    right. eexists. split; [done|constructor].
  - cbn [DeepCopy].
    destruct (copies_map has_bytes (DeepCopy (E := E) fuel) 0 m) as [[-> Hn]|(why & -> & k & v & Hk & Hb)].
    + intros k v Hk. apply (IH k v Hk). lia.
    + left. split; [done|]. intros Hb. inversion Hb as [|? k v Hk Hv|]; subst. by apply (Hn k v).
    + right. exists why. split; [done|]. by apply has_bytes_map with k v.
  - cbn [DeepCopy].
    destruct (copies_list has_bytes (DeepCopy (E := E) fuel) l []) as [[-> Hn]|(why & -> & v & Hin & Hb)].
    + intros v Hin. apply (IH v Hin). lia.
    + left. split; [done|]. intros Hb. inversion Hb as [| |? v Hin Hv]; subst. by apply (Hn v).
    + right. exists why. split; [done|]. by apply has_bytes_list with v.
Qed.

(** ** What resolving a value gives *)

(** The value with every expression replaced by its result, as unwrapping shows it. *)
Fixpoint substitute (ev : string → gval) (v : gval) : gval :=
  match v with
  | VString s => if IsExpression s then norm (ev (RemoveExpressionDelimiters s)) else v
  | VMap m => VMap (substitute ev <$> m)
  | VList l => VList (substitute ev <$> l)
  | _ => norm v
  end.

(** The expressions that occur in a value. *)
Inductive expression_in (s : string) : gval → Prop :=
| expression_here : IsExpression s = true → expression_in s (VString s)
| expression_map m k v : m !! k = Some v → expression_in s v → expression_in s (VMap m)
| expression_list l v : v ∈ l → expression_in s v → expression_in s (VList l).

Lemma plain_mono n m v : plain n v → n ≤ m → plain m v.
Proof.
  intros Hp. revert m. induction Hp as [n v Hv|n mv Hm IH|n l Hl IH]; intros m Hle.
  - by constructor.
  - destruct m as [|m]; [lia|]. apply plain_map. intros k v Hk. apply (IH k v Hk). lia.
  - destruct m as [|m]; [lia|]. apply plain_list. intros v Hv. apply (IH v Hv). lia.
Qed.

Lemma plain_norm n v : plain n v → plain n (norm v).
Proof.
  induction 1 as [n v Hv|n m Hm IH|n l Hl IH].
  - destruct v; by constructor.
  - apply plain_map. intros k v Hk.
    apply lookup_fmap_Some in Hk as (v' & <- & Hk). by apply (IH k).
  - apply plain_list. intros v Hv. apply list_elem_of_fmap in Hv as (v' & -> & Hv). by apply IH.
Qed.

Lemma fmap_map_eq {A B C} (f : B → C) (g : A → B) (h : A → C) (m : gmap string A) :
  (∀ k v, m !! k = Some v → f (g v) = h v) → f <$> (g <$> m) = h <$> m.
Proof.
  intros Hf. apply map_eq. intros k. rewrite !lookup_fmap. destruct (m !! k) as [v|] eqn:Hk; [|done].
  simpl. f_equal. by apply (Hf k).
Qed.

Lemma fmap_list_eq {A B C} (f : B → C) (g : A → B) (h : A → C) (l : list A) :
  (∀ v, v ∈ l → f (g v) = h v) → f <$> (g <$> l) = h <$> l.
Proof.
  intros Hf. rewrite <- list_fmap_compose. apply list_fmap_ext. intros i v Hv.
  by eapply Hf, list_elem_of_lookup_2.
Qed.

Lemma norm_idem n v : plain n v → norm (norm v) = norm v.
Proof.
  induction 1 as [n v Hv|n m Hm IH|n l Hl IH].
  - by destruct v.
  - cbn [norm]. f_equal. by apply fmap_map_eq.
  - cbn [norm]. f_equal. by apply fmap_list_eq.
Qed.

Lemma substitute_norm ev n v : plain n v → substitute ev (norm v) = substitute ev v.
Proof.
  induction 1 as [n v Hv|n m Hm IH|n l Hl IH].
  - destruct v; try done.
  - cbn [norm substitute]. f_equal. by apply fmap_map_eq.
  - cbn [norm substitute]. f_equal. by apply fmap_list_eq.
Qed.

Lemma expression_in_norm s n v : plain n v → expression_in s (norm v) → expression_in s v.
Proof.
  induction 1 as [n v Hv|n m Hm IH|n l Hl IH]; intros He.
  - destruct v; try done. inversion He.
  - inversion He as [|? k v Hk Hv|]; subst. apply lookup_fmap_Some in Hk as (v' & <- & Hk).
    apply expression_map with k v'; [done|by apply (IH k)].
  - inversion He as [| |? v Hk Hv]; subst. apply list_elem_of_fmap in Hk as (v' & -> & Hk).
    apply expression_list with v'; [done|by apply IH].
Qed.

(** The results of the expressions of a value nest at most [d] deep. *)
Definition bounded_results (ev : string → gval) (d : nat) (v : gval) : Prop :=
  ∀ s, expression_in s v → plain d (ev (RemoveExpressionDelimiters s)).

Lemma plain_substitute ev d n v :
  plain n v → bounded_results ev d v → plain (n + d) (substitute ev v).
Proof.
  induction 1 as [n v Hv|n m Hm IH|n l Hl IH]; intros Hd.
  - destruct v; try (by constructor). cbn [substitute].
    destruct (IsExpression s) eqn:Hs; [|by constructor].
    apply plain_mono with d; [|lia]. apply plain_norm, Hd. by constructor.
  - apply plain_map. intros k v Hk. apply lookup_fmap_Some in Hk as (v' & <- & Hk).
    apply (IH k v' Hk). intros s Hs. apply Hd. by apply expression_map with k v'.
  - apply plain_list. intros v Hv. apply list_elem_of_fmap in Hv as (v' & -> & Hv).
    apply (IH v' Hv). intros s Hs. apply Hd. by apply expression_list with v'.
Qed.

Lemma norm_substitute ev d n v :
  plain n v → bounded_results ev d v → norm (substitute ev v) = substitute ev v.
Proof.
  induction 1 as [n v Hv|n m Hm IH|n l Hl IH]; intros Hd.
  - destruct v; try done; cbn [substitute].
    destruct (IsExpression s) eqn:Hs; [|done]. eapply norm_idem, Hd. by constructor.
  - cbn [norm substitute]. f_equal. apply fmap_map_eq. intros k v Hk. apply (IH k v Hk).
    intros s Hs. apply Hd. by apply expression_map with k v.
  - cbn [norm substitute]. f_equal. apply fmap_list_eq. intros v Hv. apply (IH v Hv).
    intros s Hs. apply Hd. by apply expression_list with v.
Qed.

Section resolve_spec.
Context `{MapRange} `{Proto} {R : Type} `{Otto R}.
Context (marshal_faithful : ∀ m b, value_message m → marshal m = Some b → wire m).
Context (ev : string → gval) (d fuel : nat) (root : R) (task : string).

(** The types of the typed values that plain data is wrapped in. *)
Definition wrapped_type (v : gval) (tv : option TypedValue) : Prop :=
  match v with
  | VMap _ => ValueType tv = TypeMap
  | VList _ => ValueType tv = TypeList
  | VString s => if IsExpression s then ValueType tv = TypeExpression else ValueType tv = TypeString
  | _ => ValueType tv ≠ TypeMap ∧ ValueType tv ≠ TypeList ∧ ValueType tv ≠ TypeExpression
  end.

Lemma Wrap_type n v f tv : plain n v → Wrap f v = Ret tv → wrapped_type v tv.
Proof.
  intros Hp Hw. destruct f as [|f]; [done|].
  assert (∀ msg tv, (t ← seal msg; Ret (Some t)) = Ret tv → ValueType tv = MessageName msg) as Hs.
  { intros msg tv' Ht. bind_inv Ht as t Hs. injection Ht as <-. by apply seal_type. }
  destruct Hp as [n v Hv|n m _|n l _].
  - destruct v; try done; cbn in Hw; apply Hs in Hw; cbn; rewrite ?Hw; try (by split_and!).
    by destruct (IsExpression s).
  - cbn [Wrap] in Hw. bind_inv Hw as values Hv1. bind_inv Hw as values' Hv2. by apply Hs in Hw.
  - cbn [Wrap] in Hw. bind_inv Hw as values Hv1. bind_inv Hw as values' Hv2. by apply Hs in Hw.
Qed.

Lemma Unwrap_SetMetadata f tv k v : Unwrap f (SetMetadata tv k v) = Unwrap f tv.
Proof. destruct f; [done|]. by destruct tv. Qed.

(** What resolving [v] is to end in: the scope as it was, the expressions replaced. *)
Definition resolves_to (v : gval) (r : res goerror (option TypedValue) * R) : Prop :=
  ends (λ tv root', root' = root ∧ is_Some tv ∧ Unwrap fuel tv = Ret (substitute ev v))
    (λ root', root' = root) r.

(** The expressions of [v] evaluate, without changing the scope. *)
Definition evaluates (v : gval) : Prop :=
  ∀ s, expression_in s v → otto_Set root task = None ∧
    otto_Run (RemoveExpressionDelimiters s) task root =
      (JSValue (ev (RemoveExpressionDelimiters s)), root) ∧
    plain d (ev (RemoveExpressionDelimiters s)).

Lemma evaluates_bounded v : evaluates v → bounded_results ev d v.
Proof. intros He s Hs. by apply He. Qed.

Lemma evaluates_norm n v : plain n v → evaluates v → evaluates (norm v).
Proof. intros Hp He s Hs. eapply He, expression_in_norm; eauto. Qed.

Lemma resolveExpr_spec s tv :
  IsExpression s = true → evaluates (VString s) → d < fuel → ValueType tv = TypeExpression →
  Unwrap fuel tv = Ret (VString s) → resolves_to (VString s) (resolveExpr fuel task tv root).
Proof.
  intros Hs He Hd Hty Hu. destruct (He s) as (Hset & Hrun & Hp); [by constructor|].
  unfold resolveExpr. rewrite decide_False by auto. rewrite (st_bind_Ret getS _ root root root eq_refl), Hset.
  unfold annotate, UnwrapExpression, UnwrapString. rewrite Hu. cbn [mbind res_bind]. rewrite Hs.
  cbn [wrap_err]. rewrite st_lift_Ret. erewrite st_bind_Ret by (by rewrite Hrun).
  pose proof (Wrap_spec marshal_faithful d (ev (RemoveExpressionDelimiters s)) fuel Hp Hd) as Hw.
  unfold mbind, st_bind, lift. destruct (Wrap fuel _) as [r| |]; [|done|done].
  split; [done|]. rewrite Unwrap_SetMetadata. cbn [substitute]. rewrite Hs. destruct Hw as [[tv' ->] Hw].
  split; [by eexists|by apply Hw].
Qed.

Lemma ends_lift {A} (Q : A → Prop) (m : res goerror A) :
  (match m with Ret a => Q a | Throw _ => True | Panic _ => False end) →
  ends (λ a root', root' = root ∧ Q a) (λ root', root' = root) (lift m root).
Proof. by destruct m. Qed.

Lemma resolve_field_spec (f : option TypedValue → st R goerror (option TypedValue)) n v :
  plain n v → n < fuel →
  (∀ tv, wrapped_type v tv → roundtrips n v tv → resolves_to v (f tv root)) →
  ends (λ a root', root' = root ∧ a = substitute ev v) (λ root', root' = root)
    (resolve_field fuel f v root).
Proof.
  intros Hp Hn Hf. unfold resolve_field.
  pose proof (Wrap_spec marshal_faithful n v fuel Hp Hn) as Hw.
  eapply ends_bind; [apply (ends_lift (λ tv, wrapped_type v tv ∧ roundtrips n v tv))|].
  { destruct (Wrap fuel v) as [tv| |] eqn:Htv; [|done|done]. split; [by eapply Wrap_type|done]. }
  intros tv ? (-> & Hty & Hrt). cbn beta. eapply ends_bind; [by apply Hf|]. intros tv' ? (-> & _ & Hu).
  cbn beta. rewrite Hu. done.
Qed.

(** The loops of [resolveMap] and [resolveList]. *)
Lemma resolve_entries (f : option TypedValue → st R goerror (option TypedValue)) n m :
  (∀ k v, m !! k = Some v → ends (λ a root', root' = root ∧ a = substitute ev v)
     (λ root', root' = root) (resolve_field fuel f v root)) →
  ends (λ out root', root' = root ∧ out = substitute ev <$> m) (λ root', root' = root)
    (loopM (λ (out : gmap string gval) '(k, v), a ← resolve_field fuel f v; mret (<[k := a]> out))
       ∅ (range n m) root).
Proof.
  intros Hf.
  pose proof (loopM_ends (λ seen out root', root' = root ∧
      out = foldl (λ (out : gmap string gval) '(k, v), <[k := substitute ev v]> out) ∅ seen)
    (λ root', root' = root)
    (λ (out : gmap string gval) '(k, v), a ← resolve_field fuel f v; mret (<[k := a]> out))
    (range n m) ∅ root ltac:(done)) as Hl.
  eapply ends_weaken; [apply Hl| |done].
  - intros seen [k v] rest out ? Heq [-> ->]. cbn beta.
    eapply ends_bind; [apply (Hf k), (elem_of_range n); rewrite Heq; set_solver|].
    intros a ? [-> ->]. cbn. rewrite foldl_app. by split.
  - intros out ? [-> ->]. split; [done|]. apply map_eq. intros k.
    pose proof (foldl_omap_range n (λ _ v, Some (substitute ev v)) m ∅ k) as Hk. cbn in Hk.
    rewrite Hk, lookup_fmap, lookup_empty. by destruct (m !! k).
Qed.

Lemma resolve_elements (f : option TypedValue → st R goerror (option TypedValue)) l :
  (∀ v, v ∈ l → ends (λ a root', root' = root ∧ a = substitute ev v)
     (λ root', root' = root) (resolve_field fuel f v root)) →
  ends (λ out root', root' = root ∧ out = substitute ev <$> l) (λ root', root' = root)
    (loopM (λ out v, a ← resolve_field fuel f v; mret (out ++ [a])) [] l root).
Proof.
  intros Hf.
  apply (loopM_ends (λ seen out root', root' = root ∧ out = substitute ev <$> seen)); [done|].
  intros seen v rest out ? Heq [-> ->]. cbn beta.
  eapply ends_bind; [apply (Hf v); rewrite Heq; set_solver|].
  intros a ? [-> ->]. cbn. by rewrite fmap_app.
Qed.

(** Wrapping the collected results. *)
Lemma wrap_results n v :
  plain n v → n + d < fuel → evaluates v →
  resolves_to v (lift (Wrap fuel (substitute ev v)) root).
Proof.
  intros Hp Hn He. pose proof (plain_substitute ev d n v Hp (evaluates_bounded v He)) as Hps.
  pose proof (Wrap_spec marshal_faithful (n + d) _ fuel Hps Hn) as Hw.
  unfold resolves_to. eapply ends_weaken; [apply (ends_lift (λ tv, is_Some tv ∧ Unwrap fuel tv = Ret (substitute ev v)))|auto..].
  destruct (Wrap fuel _) as [tv| |]; [|done|done]. destruct Hw as [Htv Hw]. split; [done|].
  rewrite Hw by lia. f_equal. by eapply norm_substitute, evaluates_bounded.
Qed.

Lemma Resolve_plain n v depth tv :
  plain n v → n + d < fuel → n < depth → evaluates v → wrapped_type v tv → roundtrips n v tv →
  resolves_to v (Resolve fuel depth task tv root).
Proof.
  revert v depth tv. induction n as [n IH] using lt_wf_ind. intros v depth tv Hp Hn Hdep He Hty [Htv Hu].
  destruct depth as [|depth]; [lia|]. specialize (Hu fuel ltac:(lia)). cbn [Resolve].
  assert (∀ n' v', n' < n → plain n' v' → evaluates v' →
    ends (λ a root', root' = root ∧ a = substitute ev v') (λ root', root' = root)
      (resolve_field fuel (Resolve fuel depth task) v' root)) as Hfield.
  { intros n' v' Hn' Hp' He'. apply resolve_field_spec with n'; [done|lia|].
    intros tv' Hty' Hrt'. apply (IH n'); auto; lia. }
  destruct Hp as [n v Hv|n m Hm|n l Hl].
  - destruct v as [| | | | | | | | |s| | | | | | | |]; try done.
    all: cbn [wrapped_type] in Hty; try (destruct Hty as (? & ? & ?);
      rewrite !decide_False by done; by split_and!).
    destruct (IsExpression s) eqn:Hs; rewrite Hty.
    + rewrite decide_False, decide_False, decide_True by done. apply resolveExpr_spec; auto. lia.
    + rewrite !decide_False by done. split_and!; [done..|]. cbn [substitute]. by rewrite Hs.
  - cbn [wrapped_type] in Hty. rewrite decide_False, decide_True by (by rewrite Hty).
    unfold resolveMap. rewrite decide_False by auto. rewrite Hu, st_lift_Ret. cbn [norm].
    assert (plain (S n) (VMap m)) as Hpm by by apply plain_map.
    eapply ends_bind.
    { apply resolve_entries. intros k v Hk. apply lookup_fmap_Some in Hk as (v' & <- & Hk).
      apply (Hfield n); [lia|apply plain_norm, (Hm k v' Hk)|]. eapply evaluates_norm; [by apply (Hm k)|].
      intros s Hs. apply He. by apply expression_map with k v'. }
    intros out ? [-> ->]. cbn beta.
    rewrite (fmap_map_eq _ _ (substitute ev)) by (intros k v Hk; by eapply substitute_norm, (Hm k)).
    by apply (wrap_results (S n) (VMap m)).
  - cbn [wrapped_type] in Hty. rewrite decide_True by done.
    unfold resolveList. rewrite decide_False by auto. rewrite Hu, st_lift_Ret. cbn [norm].
    assert (plain (S n) (VList l)) as Hpl by by apply plain_list.
    eapply ends_bind.
    { apply resolve_elements. intros v Hin. apply list_elem_of_fmap in Hin as (v' & -> & Hin).
      apply (Hfield n); [lia|apply plain_norm, (Hl v' Hin)|]. eapply evaluates_norm; [by apply (Hl v')|].
      intros s Hs. apply He. by apply expression_list with v'. }
    intros out ? [-> ->]. cbn beta.
    rewrite (fmap_list_eq _ _ (substitute ev)) by (intros v Hin; by eapply substitute_norm, Hl).
    by apply (wrap_results (S n) (VList l)).
Qed.
End resolve_spec.

(** Collecting what [f] makes of the entries of a map. *)
Lemma foldM_collect `{MapRange} {E A B} (P : string → A → B → Prop) (f : string → A → res E B) n
    (m : gmap string A) :
  (∀ k a, m !! k = Some a → match f k a with Ret b => P k a b | Throw _ => True | Panic _ => False end) →
  match foldM (λ (out : gmap string B) '(k, a), b ← f k a; Ret (<[k := b]> out)) ∅ (range n m) with
  | Ret out => ∀ k, match m !! k, out !! k with
                    | Some a, Some b => P k a b | None, None => True | _, _ => False end
  | Throw _ => True
  | Panic _ => False
  end.
Proof.
  intros Hf.
  assert (∀ l acc, NoDup l.*1 → (∀ k a, (k, a) ∈ l → m !! k = Some a) →
    match foldM (λ (out : gmap string B) '(k, a), b ← f k a; Ret (<[k := b]> out)) acc l with
    | Ret out => ∀ k, if decide (k ∈ l.*1) then ∃ a b, m !! k = Some a ∧ out !! k = Some b ∧ P k a b
                      else out !! k = acc !! k
    | Throw _ => True
    | Panic _ => False
    end) as Hl.
  { induction l as [|[k a] l IH]; intros acc Hnd Hin; [intros k; by rewrite decide_False by set_solver|].
    cbn [foldM]. pose proof (Hin k a ltac:(by left)) as Hk. specialize (Hf k a Hk).
    destruct (f k a) as [b| |]; [|done|done]. cbn [mbind res_bind].
    rewrite fmap_cons in Hnd. apply NoDup_cons in Hnd as [Hnk Hnd].
    specialize (IH (<[k := b]> acc) Hnd ltac:(intros; apply Hin; by right)).
    destruct (foldM _ _ l) as [out| |]; [|done|done]. intros k'. specialize (IH k'). rewrite fmap_cons.
    destruct (decide (k' ∈ l.*1)); [by rewrite decide_True by set_solver|].
    destruct (decide (k' = k)) as [->|Hne].
    - rewrite decide_True by (by left). rewrite lookup_insert_eq in IH. eauto.
    - rewrite decide_False by set_solver. by rewrite lookup_insert_ne in IH. }
  specialize (Hl (range n m) ∅ (NoDup_range n m) ltac:(by intros ? ? ?%elem_of_range)).
  destruct (foldM _ _ _) as [out| |]; [|done|done]. intros k. specialize (Hl k).
  case_decide as Hk; rewrite elem_of_range_fst in Hk.
  - destruct Hl as (a & b & -> & -> & HP). done.
  - rewrite lookup_empty in Hl. rewrite Hl. destruct (m !! k); [|done]. by destruct Hk.
Qed.

Section new_scope.
Context `{MapRange} `{Proto} `{PTypes} `{Mergo} (fuel : nat).

(** The invocations whose scope can be made: every task has been parsed, what the runs
    put out can be unwrapped, and there is fuel for the values and the dynamic tasks. *)
Record scopable (inv : WorkflowInvocation) (st : WorkflowInvocationStatus) : Prop := {
  scopable_wf : invocation_wf inv;
  scopable_status : WorkflowInvocation_Status inv = Some st;
  scopable_spec : is_Some (WorkflowInvocation_Spec inv);
  scopable_workflow : ∀ wf, WorkflowInvocation_Workflow inv = Some wf → is_Some (Workflow_Status wf);
  scopable_tasks : ∀ id t, inv_task_view inv id = Some t → is_Some (Task_Status t);
  scopable_dynamic : children (WorkflowInvocationStatus_DynamicTasks st);
  scopable_size : size (WorkflowInvocationStatus_DynamicTasks st) < fuel;
  scopable_outputs : ∀ id run, WorkflowInvocationStatus_Tasks st !! id = Some run →
    ∃ vs, TaskInvocation_Status run = Some vs ∧
      is_ret (Unwrap fuel (TaskInvocationStatus_Output vs)) ∧
      is_ret (Unwrap fuel (TaskInvocationStatus_OutputHeaders vs));
  scopable_params : ∀ spec, WorkflowInvocation_Spec inv = Some spec →
    no_panic (UnwrapMapTypedValue fuel (WorkflowInvocationSpec_Inputs spec));
  scopable_inputs : ∀ id t, inv_task_view inv id = Some t →
    no_panic (UnwrapMapTypedValue fuel (match Task_Spec t with Some s => TaskSpec_Inputs s | None => ∅ end)) }.

Definition headers_of (st : WorkflowInvocationStatus) (id : string) : option TypedValue :=
  (WorkflowInvocationStatus_Tasks st !! id ≫= TaskInvocation_Status) ≫= TaskInvocationStatus_OutputHeaders.

(** What the scope says of a task. *)
Record describes (inv : WorkflowInvocation) (st : WorkflowInvocationStatus) (id : string) (t : Task)
    (ts : TaskScope) : Prop := {
  describes_output : ∃ out, resolves st id out ∧ Unwrap fuel out = Ret (TaskScope_Output ts);
  describes_headers : Unwrap fuel (headers_of st id) = Ret (TaskScope_OutputHeaders ts);
  describes_inputs : UnwrapMapTypedValue fuel
      (match Task_Spec t with Some s => TaskSpec_Inputs s | None => ∅ end) = Ret (TaskScope_Inputs ts);
  describes_requires : TaskScope_Requires ts =
    match Task_Spec t with Some s => TaskSpec_Requires s | None => ∅ end;
  describes_status : ∃ s, Task_Status t = Some s ∧
    TaskScope_Status ts = TaskStatus_Status_String (TaskStatus_Status_ s) }.

Lemma resolves_unwraps inv st id out :
  scopable inv st → resolves st id out → is_ret (Unwrap fuel out).
Proof.
  intros Hs. pose proof (scopable_size _ _ Hs) as Hf.
  induction 1 as [id Hid|id run vs Hrun Hvs _|id run vs out Hrun Hvs _ _ _ IH]; [|by destruct (scopable_outputs _ _ Hs id run Hrun) as (vs' & ? & ? & ?); simplify_eq|done].
  by destruct fuel; [lia|].
Qed.

Lemma headers_unwrap inv st id :
  scopable inv st → ∃ v, ResolveTaskOutputHeaders (E := goerror) id inv = Ret (headers_of st id) ∧
    Unwrap fuel (headers_of st id) = Ret v.
Proof.
  intros Hs. unfold ResolveTaskOutputHeaders, headers_of. rewrite (scopable_status _ _ Hs). cbn [deref].
  rewrite bind_Ret_l. destruct (WorkflowInvocationStatus_Tasks st !! id) as [run|] eqn:Hrun; cbn [mbind option_bind].
  - destruct (scopable_outputs _ _ Hs id run Hrun) as (vs & Hvs & _ & Hh). rewrite Hvs. cbn [deref].
    rewrite bind_Ret_l. apply is_ret_ex in Hh as [v Hv]. by exists v.
  - exists VNil. pose proof (scopable_size _ _ Hs). by destruct fuel; [lia|].
Qed.

Lemma task_scope_spec inv st id t :
  scopable inv st → inv_task_view inv id = Some t →
  match task_scope fuel inv id (Some t) with
  | Ret ts => describes inv st id t ts | Throw _ => True | Panic _ => False end.
Proof.
  intros Hs Ht. unfold task_scope.
  destruct (ResolveTaskOutput_chain (E := goerror) inv st id fuel) as (out & -> & Hres).
  { apply Hs. } { apply Hs. }
  { intros k run Hrun. destruct (scopable_outputs _ _ Hs k run Hrun) as (vs & -> & _). by eexists. }
  { apply (scopable_size _ _ Hs). }
  rewrite bind_Ret_l. unfold MustUnwrap.
  destruct (is_ret_ex _ (resolves_unwraps inv st id out Hs Hres)) as [o Ho]. rewrite Ho. cbn [must].
  rewrite bind_Ret_l. destruct (headers_unwrap inv st id Hs) as (hv & -> & Hh).
  rewrite bind_Ret_l, Hh. cbn [must]. rewrite bind_Ret_l. cbn [mbind option_bind].
  pose proof (scopable_inputs _ _ Hs id t Ht) as Hin.
  destruct (UnwrapMapTypedValue fuel _) as [inputs| |] eqn:Hi; [|done|done].
  destruct (scopable_tasks _ _ Hs id t Ht) as [s Hst]. cbn. rewrite Hst. cbn.
  split; cbn; eauto.
Qed.

Lemma own_scope_spec inv st :
  scopable inv st →
  match own_scope fuel (Some inv) with
  | Ret scope => ∀ id, match inv_task_view inv id, Scope_Tasks scope !! id with
                       | Some t, Some ts => describes inv st id t ts
                       | None, None => True
                       | _, _ => False end
  | Throw _ => True
  | Panic _ => False
  end.
Proof.
  intros Hs. unfold own_scope. cbn [mbind option_bind].
  assert (∃ ws, (match WorkflowInvocation_Workflow inv with
      | Some wf => ws ← formatWorkflow wf; Ret (Some ws) | None => Ret None end : res goerror _) = Ret ws)
    as [ws Hws].
  { destruct (WorkflowInvocation_Workflow inv) as [wf|] eqn:Hwf; [|by eexists].
    destruct (scopable_workflow _ _ Hs wf Hwf) as [s Hst]. unfold formatWorkflow. rewrite Hst. by eexists. }
  rewrite Hws, bind_Ret_l. destruct (scopable_spec _ _ Hs) as [spec Hspec]. rewrite Hspec. cbn [deref].
  rewrite bind_Ret_l. pose proof (scopable_params _ _ Hs spec Hspec) as Hin.
  destruct (UnwrapMapTypedValue fuel _) as [params| |]; [|done|done]. cbn [wrap_err]. rewrite bind_Ret_l.
  destruct (WorkflowInvocation_Tasks_spec (E := goerror) inv (scopable_wf _ _ Hs)) as (M & -> & HM).
  rewrite bind_Ret_l.
  pose proof (foldM_collect (λ id task ts, ∃ t, task = Some t ∧ describes inv st id t ts)
    (task_scope fuel inv) 0 M) as Hc.
  assert (∀ k a, M !! k = Some a → match task_scope fuel inv k a with
    | Ret ts => ∃ t, a = Some t ∧ describes inv st k t ts | Throw _ => True | Panic _ => False end) as Hp.
  { intros k a Hk. rewrite HM in Hk. destruct (inv_task_view inv k) as [t|] eqn:Ht; [|done].
    injection Hk as <-. pose proof (task_scope_spec inv st k t Hs Ht) as Hts.
    destruct (task_scope fuel inv k (Some t)); eauto. }
  specialize (Hc Hp). destruct (foldM _ ∅ (range 0 M)) as [tasks| |]; [|done|done].
  intros id. specialize (Hc id). rewrite HM in Hc. cbn [Scope_Tasks].
  destruct (inv_task_view inv id) as [t|], (tasks !! id) as [ts|]; cbn in Hc; try done.
  by destruct Hc as (t' & [= <-] & Hd).
Qed.

(** The scope of an invocation lists exactly its tasks, those added dynamically
    included: each with what it puts out now, the output of a dynamic task standing for
    that of the task it was made for.  Making the scope never panics; it fails only if
    the values of some inputs cannot be converted, or in the merge. *)
Theorem NewScope_describes (inv : WorkflowInvocation) (st : WorkflowInvocationStatus) :
  scopable inv st →
  (∀ base, no_panic (NewScope fuel base (Some inv))) ∧
  (∀ base scope id, NewScope fuel base (Some inv) = Ret scope →
     is_Some (inv_task_view inv id) → is_Some (Scope_Tasks scope !! id)) ∧
  (∀ scope id, NewScope fuel None (Some inv) = Ret scope →
     match inv_task_view inv id, Scope_Tasks scope !! id with
     | Some t, Some ts => describes inv st id t ts
     | None, None => True
     | _, _ => False
     end).
Proof.
  intros Hs. pose proof (own_scope_spec inv st Hs) as Ho. unfold NewScope.
  destruct (own_scope fuel (Some inv)) as [own| |]; [|by split_and!|done]. split_and!.
  - intros [base|]; [apply mergo_no_panic|done].
  - intros base scope id Hn [t Ht]. specialize (Ho id). rewrite Ht in Ho.
    destruct (Scope_Tasks own !! id) as [ts|] eqn:Hts; [|done].
    destruct base as [base|]; [|injection Hn as <-; by eexists].
    apply mergo_tasks in Hn. apply elem_of_dom, Hn, elem_of_dom. by eexists.
  - intros scope id [= <-]. apply Ho.
Qed.
End new_scope.


(** An expression that is interrupted resolves to [nil] without an error: the deferred
    function swallows the panic of the timeout, and nothing sets the results. *)
Theorem Resolve_timeout_is_nil `{MapRange} `{Proto} {R : Type} `{Otto R}
    (fuel depth : nat) (root root' : R) (task s : string) (tv : option TypedValue) :
  ValueType tv = TypeExpression → UnwrapExpression fuel tv = Ret s → otto_Set root task = None →
  otto_Run (RemoveExpressionDelimiters s) task root = (JSTimeOut, root') →
  Resolve fuel (S depth) task tv root = (Ret None, root').
Proof.
  intros Hty Hs Hset Hrun. cbn [Resolve]. rewrite !decide_False by (by rewrite Hty).
  rewrite decide_True by done. unfold resolveExpr. rewrite decide_False by auto.
  rewrite (st_bind_Ret getS _ root root root eq_refl), Hset. unfold annotate. rewrite Hs.
  cbn [wrap_err]. rewrite st_lift_Ret. by erewrite st_bind_Ret by (by rewrite Hrun).
Qed.
