(* ===== verification/Execution.v ===== *)
(** Component [pkg/controller], the work the controllers submit to the executor: the
    closures that run and prepare tasks, and complete and fail invocations.  A closure acts on
    a world with an event store and with the scopes of the invocations that run. *)

From stdpp Require Import base gmap strings list.
From S2P Require Import Prelude Data Types TypedValues ControlFlow Fes Projectors Graph.
From S2P Require Import Scheduler Validate Lru MemBackend Cache WorkQueue DelayingQueue Executor.
From S2P Require Import Ctrl Api ApiSpec InvocationController Expr.

(** ** The world *)

(** Access to the [StateStore] of the invocation controllers. *)
Class ScopeStore (B : Type) := {
  get_scopes : B → Expr.Store;
  put_scopes : Expr.Store → B → B }.

(** The scopes are apart from the events. *)
Class ScopeStoreLaws (B : Type) `{BackendLaws B, ScopeStore B} := {
  get_put_scopes : ∀ rs b, get_scopes (put_scopes rs b) = rs;
  put_scopes_ok : ∀ rs b, b_ok b → b_ok (put_scopes rs b);
  put_scopes_stream : ∀ rs b k, b_stream (put_scopes rs b) k = b_stream b k }.

(** An event store next to the scopes. *)
Record World (B : Type) := MkWorld { w_events : B; w_scopes : Expr.Store }.
Arguments MkWorld {B} _ _.
Arguments w_events {B} _.
Arguments w_scopes {B} _.

Section world.
Context {B : Type}.

(** A call on the event store of the world. *)
Definition on_events {E A} (m : st B E A) : st (World B) E A := λ w,
  let '(r, b) := m (w_events w) in (r, MkWorld b (w_scopes w)).

#[export] Instance World_ScopeStore : ScopeStore (World B) := {|
  get_scopes := w_scopes; put_scopes rs w := MkWorld (w_events w) rs |}.

#[export] Instance World_FesBackend `{FesBackend B} : FesBackend (World B) :=
  {| b_Get k := on_events (b_Get k) |}.

#[export] Instance World_EventStore `{EventStore B} : EventStore (World B) :=
  {| es_Append ev := on_events (es_Append ev) |}.

#[export] Instance World_BackendLaws `{BackendLaws B} : BackendLaws (World B).
Proof.
  refine {| b_ok w := b_ok (w_events w); b_stream w k := b_stream (w_events w) k |}.
  - intros k w Hok Hk. pose proof (b_Get_spec k (w_events w) Hok Hk) as Hg. unfold b_Get at 1.
    cbn [World_FesBackend]. unfold on_events. by destruct (b_Get k (w_events w)) as [r b].
  - intros w k ev Hok Hin. by apply (b_stream_key (w_events w)).
Defined.

#[export] Instance World_EventStoreLaws `{EventStoreLaws B} : EventStoreLaws (World B).
Proof.
  split. intros ev k w Hok Hv Hk. pose proof (es_Append_spec ev k (w_events w) Hok Hv Hk) as Ha.
  unfold es_Append at 1. cbn [World_EventStore]. unfold on_events.
  by destruct (es_Append (Some ev) (w_events w)) as [[] b].
Qed.

#[export] Instance World_ScopeStoreLaws `{BackendLaws B} : ScopeStoreLaws (World B).
Proof. by split. Qed.
End world.

(** [pkg/controller/invocation.go:25-28] DefaultMaxRuntime, awaitWorkflowMaxRuntime (part) *)
Definition awaitWorkflowMaxRuntime : Z := 10 * 10 ^ 9.

Section execution.
Context {B : Type} `{EventStore B} `{ScopeStore B} `{MapRange} `{Proto} `{PTypes} `{DirectedGraph}.
Context `{Mergo} `{Otto Scope}.
Context {Ctx : Type} (Background : Ctx) (Inject : Ctx → gmap string string → gmap string string).
(** [context.WithDeadline], [opentracing.ContextWithSpan]. *)
Context (WithDeadline : Ctx → Z → Ctx) (ContextWithSpan : Ctx → Ctx).
Context (runtime : gmap string (Runtime (B := B) (Ctx := Ctx))) (fuel : nat).
Implicit Types invocation : WorkflowInvocation.

(** ** Scopes of the closures *)

Definition read_scopes : st B goerror Expr.Store := λ b, (Ret (get_scopes b), b).
Definition write_scopes (rs : Expr.Store) : st B goerror () := λ b, (Ret (), put_scopes rs b).

(** A computation on the scope behind a pointer. *)
Definition with_scope {A} (p : nat) (m : st Scope goerror A) : st B goerror A := λ b,
  match scopes (get_scopes b) !! p with
  | None => (Panic "nil pointer dereference", b)
  | Some s => let '(r, s) := m s in (r, put_scopes (update_scope (λ _, s) p (get_scopes b)) b)
  end.

(** Assign to a field of [scope.Tasks[taskID]], which is [nil] if it is missing. *)
Definition set_task (taskID : string) (f : TaskScope → TaskScope) : st Scope goerror () := λ s,
  match Scope_Tasks s !! taskID with
  | None => (Panic "nil pointer dereference", s)
  | Some ts => (Ret (), with_Tasks (<[taskID := f ts]> (Scope_Tasks s)) s)
  end.

(** The first part of [resolveInputs], [resolveOutput] and [resolveOutputHeaders]: the
    new scope of the invocation, which inherits that of the parent if there is one. *)
(** [pkg/controller/invocation.go:332-350] InvocationController.resolveInputs (part) *)
Definition setup_scope invocation : st B goerror nat :=
  spec ← lift (deref (WorkflowInvocation_Spec invocation));
  rs ← read_scopes;
  let parentScope := if decide (WorkflowInvocationSpec_ParentId spec = "") then None
                     else Store_Get (WorkflowInvocationSpec_ParentId spec) rs in
  scope ← lift (wrap_err "failed to create scope for task"
                  (NewScope fuel (parentScope ≫= λ p, scopes rs !! p) (Some invocation)));
  let '(p, rs) := new_scope scope rs in
  _ ← write_scopes (Store_Set (WorkflowInvocation_ID invocation) p rs);
  mret p.

(** One round of the loop over the inputs; the values that are logged are unwrapped first. *)
(** [pkg/controller/invocation.go:354-372] InvocationController.resolveInputs (part) *)
Definition resolve_input (scope : nat) (taskID : string)
    (resolvedInputs : gmap string (option TypedValue)) (input : NamedInput) :
    st B goerror (gmap string (option TypedValue)) :=
  let '(key, val) := input in
  resolvedInput ← with_scope scope (λ s,
    let '(r, s) := Resolve fuel fuel taskID (Some val) s in
    (wrap_err "failed to resolve input field" r, s));
  _ ← lift (if decide (ValueType (Some val) = TypeExpression)
            then _ ← MustUnwrap fuel (Some val); Ret () else Ret ());
  v ← lift (MustUnwrap fuel resolvedInput);
  _ ← with_scope scope (set_task taskID (λ ts, with_Inputs (<[key := v]> (TaskScope_Inputs ts)) ts));
  mret (<[key := resolvedInput]> resolvedInputs).

(** [pkg/controller/invocation.go:332-373] InvocationController.resolveInputs *)
Definition resolveInputs invocation (taskID : string) (inputs : gmap string TypedValue) :
    st B goerror (gmap string (option TypedValue)) :=
  scope ← setup_scope invocation;
  loopM (resolve_input scope taskID) ∅ (Prioritize inputs).

(** The identifier of the task of a run. *)
Definition run_task_id (ti : TaskInvocation) : string := Task_ID (TaskInvocation_Task ti).

(** [pkg/controller/invocation.go:375-406] InvocationController.resolveOutput *)
Definition resolveOutput invocation (ti : TaskInvocation) (outputExpr : option TypedValue) :
    st B goerror (option TypedValue) :=
  let taskID := run_task_id ti in
  scope ← setup_scope invocation;
  output ← lift (MustUnwrap fuel (TaskInvocation_Status ti ≫= TaskInvocationStatus_Output));
  _ ← with_scope scope (set_task taskID (with_Output output));
  with_scope scope (Resolve fuel fuel taskID outputExpr).

(** [pkg/controller/invocation.go:450-480] InvocationController.resolveOutputHeaders *)
Definition resolveOutputHeaders invocation (ti : TaskInvocation)
    (outputHeadersExpr : option TypedValue) : st B goerror (option TypedValue) :=
  let taskID := run_task_id ti in
  scope ← setup_scope invocation;
  headers ← lift (MustUnwrap fuel (TaskInvocation_Status ti ≫= TaskInvocationStatus_OutputHeaders));
  _ ← with_scope scope (set_task taskID (with_OutputHeaders headers));
  with_scope scope (Resolve fuel fuel taskID outputHeadersExpr).

Definition TaskInvocation_with_Status (ti : TaskInvocation) (s : TaskInvocationStatus) : TaskInvocation :=
  MkTaskInvocation (TaskInvocation_Metadata ti) (TaskInvocation_Spec ti) (Some s).
Definition TIStatus_with_Output (s : TaskInvocationStatus) (o : option TypedValue) : TaskInvocationStatus :=
  MkTaskInvocationStatus (TaskInvocationStatus_Status_ s) (TaskInvocationStatus_UpdatedAt s) o
    (TaskInvocationStatus_Error s) (TaskInvocationStatus_OutputHeaders s).
Definition TIStatus_with_OutputHeaders (s : TaskInvocationStatus) (h : option TypedValue) :
    TaskInvocationStatus :=
  MkTaskInvocationStatus (TaskInvocationStatus_Status_ s) (TaskInvocationStatus_UpdatedAt s)
    (TaskInvocationStatus_Output s) (TaskInvocationStatus_Error s) h.

(** The outputs of the spec, resolved if they are expressions, replace those of the run;
    the headers are resolved once the output is replaced. *)
(** [pkg/controller/invocation.go:408-448] InvocationController.transformTaskRunOutputs *)
Definition transformTaskRunOutputs invocation (ti : TaskInvocation) : st B goerror TaskInvocation :=
  match TaskInvocation_Status ti with
  | None => mret ti
  | Some status =>
      if TaskInvocationStatus_Successful status then
        let spec := TaskInvocation_Task ti ≫= Task_Spec in
        status ← (match spec ≫= TaskSpec_Output with
                  | None => mret status
                  | Some output =>
                      output ← (if decide (ValueType (Some output) = TypeExpression)
                                then resolveOutput invocation ti (Some output)
                                else mret (Some output));
                      mret (TIStatus_with_Output status output)
                  end);
        let ti := TaskInvocation_with_Status ti status in
        status ← (match spec ≫= TaskSpec_OutputHeaders with
                  | None => mret status
                  | Some headers =>
                      headers ← (if decide (ValueType (Some headers) = TypeExpression)
                                 then resolveOutputHeaders invocation ti (Some headers)
                                 else mret (Some headers));
                      mret (TIStatus_with_OutputHeaders status headers)
                  end);
        mret (TaskInvocation_with_Status ti status)
      else mret ti
  end.

(** ** Running a task *)

Definition TISpec_with_Inputs (s : TaskInvocationSpec) (i : gmap string TypedValue) :
    TaskInvocationSpec :=
  MkTaskInvocationSpec (TaskInvocationSpec_FnRef s) (TaskInvocationSpec_TaskId s) i
    (TaskInvocationSpec_InvocationId s) (TaskInvocationSpec_Task s) (TaskInvocationSpec_Deadline s).

(** The context of the run, with the deadline of its spec if that can be read. *)
Definition run_context (spec : TaskInvocationSpec) : Ctx :=
  ContextWithSpan (match pt_Timestamp (TaskInvocationSpec_Deadline spec) with
                   | (deadline, true) => WithDeadline Background deadline
                   | (_, false) => Background end).

(** [Invoke] for a spec with these inputs.  The library refuses to marshal a map with a
    [nil] value: then [Invoke] panics for want of an event once the spec is validated. *)
Definition invoke_with_inputs (now : Z) (uid : string) (spec : TaskInvocationSpec)
    (inputs : gmap string (option TypedValue)) (opts : list (CallOption (B := B) (Ctx := Ctx))) :
    st B goerror TaskInvocation :=
  let spec := TISpec_with_Inputs spec (omap (λ i, i) inputs) in
  if decide (size (omap (λ i, i) inputs : gmap string TypedValue) = size inputs)
  then Task_Invoke Background Inject runtime fuel now uid spec opts
  else _ ← check (validate_TaskInvocationSpec (Some spec));
       lift (Panic "nil pointer dereference").

(** The inputs of a task, those of its spec if it has any. *)
Definition spec_inputs (task : Data.Task) : gmap string TypedValue :=
  match Task_Spec task with Some s => TaskSpec_Inputs s | None => ∅ end.

(** What is done for debugging only is left out; a task that is found is looked up once. *)
(** [pkg/controller/invocation.go:229-330] InvocationController.execTask *)
Definition execTask (now : Z) (uid : string) invocation (taskID : string) : st B goerror () :=
  task ← lift (WorkflowInvocation_Task invocation taskID);
  match task with
  | None => throw (ErrFmt "task could not be found")
  | Some task =>
      if decide ((Task_Status task ≫= TaskStatus_FnRef) = None)
      then _ ← lift (deref (Task_Spec task));
           throw (ErrFmt "no resolved task could be found for FunctionRef") else
      inputs ← (if decide (spec_inputs task = ∅) then mret ∅
                else resolveInputs invocation (Task_ID (Some task)) (spec_inputs task));
      let taskRunSpec := NewTaskInvocationSpec invocation (Some task) now in
      _ ← invoke_with_inputs now uid taskRunSpec inputs
            [WithContext (run_context taskRunSpec);
             AwaitWorklow awaitWorkflowMaxRuntime;
             PostTransformer (transformTaskRunOutputs invocation)];
      mret ()
  end.

(** ** The closures *)

(** [pkg/scheduler/scheduler.go:112-118] PrepareTaskAction.GetExpectedAtTime *)
Definition GetExpectedAtTime (m : PrepareTaskAction) : res goerror Z :=
  match pt_Timestamp (PrepareTaskAction_ExpectedAt m) with
  | (ts, true) => Ret ts
  | (_, false) => Panic "timestamp"
  end.

(** The closure of a prewarming task, when the loop that made it is at its [i]-th element
    (past the last one when it has ended). *)
(** [pkg/controller/invocation.go:191-206] InvocationController.Eval (part) *)
Definition prepare_action (now : Z) (i : nat) invocation (loop : list PrepareTaskAction) :
    st B goerror () :=
  action ← lift (deref (loop_variable loop i));
  task ← lift (WorkflowInvocation_Task invocation (PrepareTaskAction_TaskID action));
  match task with
  | None => throw (ErrFmt "no task in workflow with ID")
  | Some task =>
      let taskRunSpec := NewTaskInvocationSpec invocation (Some task) now in
      expectedAt ← lift (GetExpectedAtTime action);
      Task_Prepare runtime (Some taskRunSpec) expectedAt
  end.

(** The closures that the controllers submit.  [resolveFn] resolves a function reference,
    for the parsing of a workflow. *)
(** [pkg/controller/invocation.go:164-217] InvocationController.Eval (part) *)
Definition run_action (resolveFn : string → res goerror FnRef) (now : Z) (uid : string) (i : nat)
    (a : action) : st B goerror () :=
  match a with
  | ActFail id err => Invocation_Fail now id (err_text err)
  | ActComplete id output outputHeaders => Invocation_Complete now id output outputHeaders
  | ActPrepareTask invocation loop => prepare_action now i invocation loop
  | ActExecTask invocation taskID => execTask now uid invocation taskID
  | ActParse workflow => _ ← Workflow_Parse resolveFn now workflow; mret ()
  end.

End execution.
