(* ===== verification/ExecutionSpec.v ===== *)
(** What the closures of [Execution] promise: inputs are resolved in the order of their
    priorities, each seeing those before it; a task that ran has its outcome recorded as
    one event that finishes its run; a task whose inputs cannot be resolved is lost. *)

From stdpp Require Import base gmap strings list.
From S2P Require Import Prelude Data Types TypedValues ControlFlow Fes Projectors Graph.
From S2P Require Import Scheduler Validate Lru MemBackend Cache WorkQueue DelayingQueue Executor.
From S2P Require Import Ctrl Api ApiSpec InvocationController Expr Execution.

(** ** Inputs in order *)

(** Give the input [key] of a task a value in the scope. *)
Definition set_input (taskID key : string) (v : gval) (s : Scope) : Scope :=
  with_Tasks (alter (λ ts, with_Inputs (<[key := v]> (TaskScope_Inputs ts)) ts) taskID (Scope_Tasks s)) s.

(** The reference: substitute the expressions of each input, in the scope the inputs
    before it have left. *)
Definition resolve_one (ev : Scope → string → gval) (vals : string → gval) (taskID : string)
    (acc : Scope * gmap string gval) (key : string) : Scope * gmap string gval :=
  let v := substitute (ev acc.1) (vals key) in (set_input taskID key v acc.1, <[key := v]> acc.2).
Definition resolve_in_order ev vals taskID (s : Scope) (keys : list string) :
    Scope * gmap string gval := foldl (resolve_one ev vals taskID) (s, ∅) keys.

Lemma set_input_tasks taskID key v s k :
  is_Some (Scope_Tasks (set_input taskID key v s) !! k) ↔ is_Some (Scope_Tasks s !! k).
Proof. unfold set_input. cbn [Scope_Tasks with_Tasks]. apply lookup_alter_is_Some. Qed.

Section inputs.
Context {B : Type} `{BackendLaws B} `{!ScopeStore B} `{!ScopeStoreLaws B} `{MapRange} `{Proto} `{PTypes}.
Context `{Mergo} `{Otto Scope}.
Context (marshal_faithful : ∀ m b, value_message m → marshal m = Some b → wire m).
Context (fuel n d : nat).
Implicit Types b : B.

(** The events are as they were. *)
Definition same_events b b' : Prop := (b_ok b → b_ok b') ∧ ∀ k, b_stream b' k = b_stream b k.

#[export] Instance same_events_preorder : PreOrder same_events.
Proof.
  split; [by intros b; split|]. intros b1 b2 b3 [Ho1 Hs1] [Ho2 Hs2]. split; [by auto|].
  intros k. by rewrite Hs2.
Qed.

Lemma same_events_put rs b : same_events b (put_scopes rs b).
Proof. split; [apply put_scopes_ok|apply put_scopes_stream]. Qed.

(** The scope behind a pointer is [s], and only that scope and the entry of the
    invocation have changed since [b]. *)
Record scope_at (b : B) (id : string) (p : nat) (s : Scope) (b' : B) : Prop := {
  scope_at_events : same_events b b';
  scope_at_heap : scopes (get_scopes b') !! p = Some s;
  scope_at_entry : Store_Get id (get_scopes b') = Some p;
  scope_at_entries : ∀ id', id' ≠ id → Store_Get id' (get_scopes b') = Store_Get id' (get_scopes b);
  scope_at_others : ∀ q, q ≠ p → ∀ s', scopes (get_scopes b) !! q = Some s' →
    scopes (get_scopes b') !! q = Some s' }.

(** The scope the invocation inherits. *)
Definition parent_scope (inv : WorkflowInvocation) (b : B) : option Scope :=
  match WorkflowInvocation_Spec inv with
  | Some spec =>
      if decide (WorkflowInvocationSpec_ParentId spec = "") then None else
      p ← Store_Get (WorkflowInvocationSpec_ParentId spec) (get_scopes b); scopes (get_scopes b) !! p
  | None => None
  end.

Lemma setup_scope_spec inv st b :
  scopable fuel inv st →
  ends (λ p b', ∃ s, NewScope fuel (parent_scope inv b) (Some inv) = Ret s ∧
          scope_at b (WorkflowInvocation_ID inv) p s b')
    (same_events b) (setup_scope fuel inv b).
Proof.
  intros Hs. destruct (scopable_spec _ _ _ Hs) as [spec Hspec]. unfold setup_scope, parent_scope.
  rewrite Hspec. cbn [deref]. rewrite st_lift_Ret.
  rewrite (st_bind_Ret read_scopes _ b b (get_scopes b) eq_refl). cbv zeta.
  set (base := (if decide _ then None else Store_Get _ _) ≫= _).
  assert (base = if decide (WorkflowInvocationSpec_ParentId spec = "") then None else
    p ← Store_Get (WorkflowInvocationSpec_ParentId spec) (get_scopes b); scopes (get_scopes b) !! p) as <-
    by (unfold base; by case_decide).
  destruct (NewScope_describes fuel inv st Hs) as (Hnp & _ & _). specialize (Hnp base).
  destruct (NewScope fuel base (Some inv)) as [s|e|] eqn:Hn; [| |done].
  - cbn [wrap_err]. rewrite st_lift_Ret. unfold new_scope. exists s. split; [done|].
    split; cbn; rewrite ?get_put_scopes; unfold Store_Get, Store_Set; cbn.
    + apply same_events_put.
    + by apply list_lookup_middle.
    + by rewrite lookup_insert_eq.
    + intros id' Hne. by rewrite lookup_insert_ne.
    + intros q _ s' Hq. by apply lookup_app_l_Some.
  - change (same_events b b). reflexivity.
Qed.

(** A computation on the scope behind the pointer. *)
Lemma with_scope_spec {A} (m : st Scope goerror A) (Q : A → Scope → Prop) (QE : Scope → Prop) b id p s b' :
  scope_at b id p s b' → ends Q QE (m s) →
  ends (λ a b'', ∃ s', Q a s' ∧ scope_at b id p s' b'')
    (same_events b) (with_scope p m b').
Proof.
  intros Hat Hm. unfold with_scope. rewrite (scope_at_heap _ _ _ _ _ Hat).
  assert (∀ s', scope_at b id p s' (put_scopes (update_scope (λ _, s') p (get_scopes b')) b')) as Hnew.
  { intros s'. destruct Hat as [He Hh Hent Hents Hoth].
    split; rewrite ?get_put_scopes; unfold update_scope, Store_Get in *; cbn [scopes entries].
    - etrans; [exact He|apply same_events_put].
    - by rewrite list_lookup_alter_eq, Hh.
    - done.
    - done.
    - intros q Hq s2 Hs2. rewrite list_lookup_alter_ne by done. by apply Hoth. }
  destruct (m s) as [[a|e|w] s']; cbn in *; [by exists s'|apply (Hnew s')|done].
Qed.

Lemma set_task_spec taskID f s :
  is_Some (Scope_Tasks s !! taskID) →
  set_task taskID f s = (Ret (), with_Tasks (alter f taskID (Scope_Tasks s)) s).
Proof.
  intros [ts Hts]. unfold set_task. rewrite Hts. f_equal. f_equal.
  apply map_eq. intros k. destruct (decide (k = taskID)) as [->|Hne].
  - by rewrite lookup_insert_eq, lookup_alter_eq, Hts.
  - by rewrite lookup_insert_ne, lookup_alter_ne.
Qed.

(** A typed value that stands for a value of plain Go data, whatever its metadata. *)
Definition carries (tv : TypedValue) (v : gval) : Prop :=
  plain n v ∧ wrapped_type v (Some tv) ∧ roundtrips n v (Some tv).

(** The values the typed values of a map unwrap to; none is [nil]. *)
Definition agrees (out : gmap string gval) (resolved : gmap string (option TypedValue)) : Prop :=
  ∀ k, match out !! k, resolved !! k with
       | Some v, Some tv => is_Some tv ∧ Unwrap fuel tv = Ret v
       | None, None => True
       | _, _ => False
       end.

Context (ev : Scope → string → gval) (vals : string → gval) (taskID : string).

(** The expressions of an input evaluate in every scope, without changing it. *)
Definition pure_input (key : string) : Prop :=
  ∀ s, evaluates (ev s) d s taskID (vals key).

Lemma resolve_input_spec b id p s resolved out key val b' :
  carries val (vals key) → pure_input key → n + d < fuel →
  scope_at b id p s b' → is_Some (Scope_Tasks s !! taskID) → agrees out resolved →
  let '(s', out') := resolve_one ev vals taskID (s, out) key in
  ends (λ resolved' b'', agrees out' resolved' ∧ scope_at b id p s' b'') (same_events b)
    (resolve_input fuel p taskID resolved (key, val) b').
Proof.
  intros (Hp & Hty & Hrt) Hpure Hf Hat Htask Hag. unfold resolve_one. cbn [fst snd].
  set (v := substitute (ev s) (vals key)). unfold resolve_input.
  pose proof (Resolve_plain marshal_faithful (ev s) d fuel s taskID n (vals key) fuel (Some val)
    Hp Hf ltac:(lia) (Hpure s) Hty Hrt) as Hr. fold v in Hr.
  eapply ends_bind.
  { eapply (with_scope_spec _ (λ tv s', s' = s ∧ is_Some tv ∧ Unwrap fuel tv = Ret v) (λ s', s' = s));
      [exact Hat|]. unfold resolves_to in Hr. by destruct (Resolve fuel fuel taskID (Some val) s) as [[] ?]. }
  intros tv b1 (s' & (-> & Htv & Hu) & Hat1). cbn beta.
  assert (∀ (k : () → st B goerror (gmap string (option TypedValue))),
    (x ← lift (if decide (ValueType (Some val) = TypeExpression)
               then _ ← MustUnwrap fuel (Some val); Ret () else Ret ()); k x) b1 = k () b1) as ->.
  { intros k. case_decide; [|done]. unfold MustUnwrap. destruct Hrt as [_ ->]; [done|lia]. }
  unfold MustUnwrap. rewrite Hu. cbn [must]. rewrite st_lift_Ret.
  eapply ends_bind.
  { eapply (with_scope_spec _ (λ _ s', s' = set_input taskID key v s) (λ _, True)); [exact Hat1|].
    by rewrite set_task_spec. }
  intros [] b2 (s' & -> & Hat2). cbn. split; [|done].
  intros k. specialize (Hag k). destruct (decide (k = key)) as [->|Hne].
  - by rewrite !lookup_insert_eq.
  - by rewrite !lookup_insert_ne.
Qed.

Lemma resolve_in_order_task s keys k :
  is_Some (Scope_Tasks (resolve_in_order ev vals taskID s keys).1 !! k) ↔ is_Some (Scope_Tasks s !! k).
Proof.
  unfold resolve_in_order.
  assert (∀ acc, is_Some (Scope_Tasks (foldl (resolve_one ev vals taskID) acc keys).1 !! k) ↔
    is_Some (Scope_Tasks acc.1 !! k)) as Hl; [|by rewrite Hl].
  induction keys as [|key keys IH]; intros acc; [done|]. cbn [foldl]. rewrite IH. apply set_input_tasks.
Qed.

(** The loop of [resolveInputs]. *)
Lemma resolve_inputs_loop b id p s b' (inputs : list NamedInput) :
  (∀ key val, (key, val) ∈ inputs → carries val (vals key) ∧ pure_input key) → n + d < fuel →
  scope_at b id p s b' → is_Some (Scope_Tasks s !! taskID) →
  let '(s1, out) := resolve_in_order ev vals taskID s (inputs.*1) in
  ends (λ resolved b'', agrees out resolved ∧ scope_at b id p s1 b'') (same_events b)
    (loopM (resolve_input fuel p taskID) ∅ inputs b').
Proof.
  intros Hin Hf Hat Htask.
  pose proof (loopM_ends (λ seen resolved b'',
      agrees (resolve_in_order ev vals taskID s (seen.*1)).2 resolved ∧
      scope_at b id p (resolve_in_order ev vals taskID s (seen.*1)).1 b'')
    (same_events b) (resolve_input fuel p taskID) inputs ∅ b') as Hl.
  destruct (resolve_in_order ev vals taskID s (inputs.*1)) as [s1 out] eqn:Ho.
  eapply ends_weaken; [apply Hl|by rewrite Ho|done].
  - split; [|done]. intros k. cbn. by rewrite !lookup_empty.
  - intros seen [key val] rest resolved b2 Heq [Hag Hat2].
    destruct (Hin key val) as [Hc Hpure]; [rewrite Heq; set_solver|].
    rewrite fmap_app. unfold resolve_in_order at 1 2. rewrite foldl_app.
    fold (resolve_in_order ev vals taskID s seen.*1).
    pose proof (proj2 (resolve_in_order_task s seen.*1 taskID) Htask) as Ht.
    destruct (resolve_in_order ev vals taskID s seen.*1) as [s2 out2].
    by apply (resolve_input_spec b id p s2 resolved out2 key val b2).
Qed.

Lemma resolveInputs_spec inv st b (inputs : gmap string TypedValue) :
  scopable fuel inv st → is_Some (inv_task_view inv taskID) → n + d < fuel →
  (∀ key val, inputs !! key = Some val → carries val (vals key) ∧ pure_input key) →
  ends (λ resolved b', ∃ p s0 s1 out,
      NewScope fuel (parent_scope inv b) (Some inv) = Ret s0 ∧
      resolve_in_order ev vals taskID s0 ((Prioritize inputs).*1) = (s1, out) ∧
      agrees out resolved ∧ scope_at b (WorkflowInvocation_ID inv) p s1 b')
    (same_events b) (resolveInputs fuel inv taskID inputs b).
Proof.
  intros Hs Ht Hf Hin. unfold resolveInputs. eapply ends_bind; [by eapply setup_scope_spec|].
  intros p b1 (s0 & Hn & Hat).
  destruct (NewScope_describes fuel inv st Hs) as (_ & Htasks & _).
  pose proof (resolve_inputs_loop b (WorkflowInvocation_ID inv) p s0 b1 (Prioritize inputs)) as Hl.
  destruct (resolve_in_order ev vals taskID s0 (Prioritize inputs).*1) as [s1 out] eqn:Ho.
  eapply ends_weaken; [apply Hl|by intros resolved b2 [Hag Hat2]; exists p, s0, s1, out|done]; [|done..|].
  - intros key val Hkv. apply Hin. apply (elem_of_map_to_list inputs).
    by rewrite <- (proj1 (Prioritize_sorted inputs)).
  - by apply (Htasks (parent_scope inv b)).
Qed.

End inputs.

(** ** The invariant of the event store *)

(** Valid events stay valid under the decorations of the API. *)
Lemma NewEvent_valid `{Proto} `{PTypes} now agg m ev :
  is_event_payload m = true → NewEvent now agg (Some m) = Ret ev → event_valid ev.
Proof.
  intros Hm He. apply NewEvent_inv in He as (Ha & _ & Hagg & Ht & Hp & _ & Hts).
  split; rewrite ?Hp, ?Hts, ?Ht; eauto; [by destruct m|done].
Qed.

Lemma valid_with_hints ev h : event_valid ev → event_valid (event_with_hints ev h).
Proof. by intros [? ? ? ?]; split. Qed.
Lemma valid_with_metadata ev m : event_valid ev → event_valid (event_with_metadata ev m).
Proof. by intros [? ? ? ?]; split. Qed.
Lemma valid_with_parent ev p : aggregate_valid p → event_valid ev → event_valid (event_with_parent ev (Some p)).
Proof. intros Hp [? ? ? ?]; split; [done..| |done]. by intros ? [= <-]. Qed.

Section keeps.
Context {B : Type} `{EventStoreLaws B} `{MapRange} `{Proto} `{PTypes}.

(** A call that keeps the invariant of the store, however it ends. *)
Definition keeps {A} (m : st B goerror A) : Prop := ∀ b, b_ok b → b_ok (m b).2.

Lemma keeps_lift {A} (m : res goerror A) : keeps (lift m).
Proof. by intros b Hb. Qed.
Lemma keeps_ret {A} (a : A) : keeps (mret a).
Proof. by intros b Hb. Qed.
Lemma keeps_throw {A} e : keeps (throw (A := A) e).
Proof. by intros b Hb. Qed.
Lemma keeps_check err : keeps (check err).
Proof. by destruct err; intros b Hb. Qed.
Lemma keeps_bind {A C} (m : st B goerror A) (k : A → st B goerror C) :
  keeps m → (∀ a, keeps (k a)) → keeps (x ← m; k x).
Proof.
  intros Hm Hk b Hb. specialize (Hm b Hb). unfold mbind, st_bind.
  destruct (m b) as [[a|e|w] b']; [by apply Hk|done..].
Qed.
Lemma keeps_lift_bind {A C} (m : res goerror A) (k : A → st B goerror C) :
  (∀ a, m = Ret a → keeps (k a)) → keeps (x ← lift m; k x).
Proof. intros Hk b Hb. unfold mbind, st_bind, lift. destruct m as [a| |]; [by apply (Hk a)|done..]. Qed.
Lemma keeps_catch {A} (m : st B goerror A) h : keeps m → (∀ e, keeps (h e)) → keeps (catch m h).
Proof.
  intros Hm Hh b Hb. specialize (Hm b Hb). unfold catch.
  destruct (m b) as [[a|e|w] b']; [done|by apply Hh|done].
Qed.
Lemma keeps_loopM {A X} (f : A → X → st B goerror A) a l :
  (∀ a x, keeps (f a x)) → keeps (loopM f a l).
Proof.
  intros Hf. revert a. induction l as [|x l IH]; intros a; [apply keeps_ret|].
  cbn [loopM]. apply keeps_bind; auto.
Qed.
Lemma keeps_append ev : event_valid ev → keeps (es_Append (Some ev)).
Proof.
  intros Hv b Hb. destruct (event_valid_aggregate _ Hv) as (agg & Ha & _).
  pose proof (es_Append_spec ev (default agg (Event_Parent ev)) b Hb Hv) as Hs.
  specialize (Hs ltac:(unfold event_key; rewrite Ha; by destruct (Event_Parent ev))).
  destruct (es_Append (Some ev) b) as [[] ?]; [apply Hs|apply Hs|done].
Qed.

(** An event that is made and appended. *)
Lemma keeps_event {A} now agg m (f : Data.Event → Data.Event) (k : () → st B goerror A) :
  is_event_payload m = true → (∀ ev, event_valid ev → event_valid (f ev)) → (∀ u, keeps (k u)) →
  keeps (event ← lift (NewEvent now agg (Some m)); u ← es_Append (Some (f event)); k u).
Proof.
  intros Hm Hf Hk. apply keeps_lift_bind. intros ev He. apply keeps_bind; [|done].
  by apply keeps_append, Hf, (NewEvent_valid now agg m).
Qed.

Lemma keeps_event' now agg m (f : Data.Event → Data.Event) :
  is_event_payload m = true → (∀ ev, event_valid ev → event_valid (f ev)) →
  keeps (event ← lift (NewEvent now agg (Some m)); es_Append (Some (f event))).
Proof.
  intros Hm Hf. apply keeps_lift_bind. intros ev He.
  by apply keeps_append, Hf, (NewEvent_valid now agg m).
Qed.
End keeps.

Create HintDb keeps.
#[export] Hint Resolve keeps_lift keeps_ret keeps_throw keeps_check keeps_catch keeps_loopM
  valid_with_hints valid_with_metadata valid_with_parent : keeps.

(** Walk through a call, one step at a time. *)
Ltac keeps_step :=
  match goal with
  | |- ∀ _, _ => intros ?
  | |- keeps (if _ then _ else _) => case_match
  | |- keeps (match _ with _ => _ end) => case_match
  | |- keeps (mbind _ _) => apply keeps_bind; [|intros ?]
  | |- keeps (empty_id _) => apply keeps_throw
  | |- keeps (let _ := _ in _) => cbv zeta
  | |- keeps _ => solve [eauto with keeps]
  end.
Ltac keeps := repeat keeps_step.

Section api_keeps.
Context {B : Type} `{EventStoreLaws B} `{MapRange} `{Proto} `{PTypes} `{DirectedGraph}.
Context {Ctx : Type} (Background : Ctx) (Inject : Ctx → gmap string string → gmap string string).
Context (runtime : gmap string (Runtime (B := B) (Ctx := Ctx))) (fuel : nat).

Lemma keeps_invocation_event now id m h :
  is_event_payload m = true → keeps (invocation_event (B := B) now id m h).
Proof. intros Hm. apply keeps_event'; eauto with keeps. Qed.

Lemma keeps_task_event now inv id m :
  is_event_payload m = true → inv ≠ "" → keeps (task_event (B := B) now inv id m).
Proof. intros Hm Hi. apply keeps_event'; [done|]. intros. by apply valid_with_parent. Qed.

Lemma keeps_Task_Fail now inv id msg : keeps (Task_Fail (B := B) now inv id msg).
Proof. unfold Task_Fail. keeps. by apply keeps_task_event. Qed.

Lemma keeps_call now id c : keeps (run_call (B := B) now id c).
Proof.
  destruct c; cbn [run_call]; unfold Invocation_Complete, Invocation_Fail, Invocation_Cancel, Invocation_AddTask;
    keeps; by apply keeps_invocation_event.
Qed.

Lemma keeps_Workflow_Create now uid spec opts :
  keeps (Workflow_Create (B := B) Background Inject now uid spec opts).
Proof.
  unfold Workflow_Create. cbv zeta. apply keeps_bind; [keeps|intros _]. apply keeps_bind; [keeps|intros sp].
  apply (keeps_event now _ (WorkflowCreated spec)
    (λ e, event_with_metadata e (Inject (ctx (parseCallOptions Background opts)) (Event_Metadata e))));
    eauto with keeps.
Qed.

Lemma keeps_Workflow_Parse resolveFn now wf : keeps (Workflow_Parse (B := B) resolveFn now wf).
Proof.
  unfold Workflow_Parse. do 4 (apply keeps_bind; [keeps|intros ?]).
  apply (keeps_event now _ _ (λ e, e)); eauto with keeps.
Qed.

Lemma keeps_add_flow now uid spec out :
  keeps (add_flow (B := B) Background Inject fuel now uid spec out).
Proof.
  assert (∀ p w t, keeps (addDynamicWorkflow (B := B) Background Inject now uid
    (TaskInvocationSpec_InvocationId spec) p w t)) as Hadd.
  { intros p w t. unfold addDynamicWorkflow. keeps; [apply keeps_Workflow_Create|].
    apply (keeps_call now _ (CallAddTask _)). }
  unfold add_flow, AddDynamicFlow, addDynamicTask. keeps; apply Hadd.
Qed.

(** What a runtime does to the store keeps its invariant. *)
Definition runtimes_keep : Prop := ∀ name rt, runtime !! name = Some rt →
  (∀ c t s, keeps (rt_Invoke rt c t s)) ∧ ∀ f, rt_Prepare rt = Some f → ∀ r t, keeps (f r t).
Context (Hrt : runtimes_keep).

Lemma keeps_run_function cfg spec : keeps (run_function runtime cfg spec).
Proof.
  unfold run_function. apply keeps_bind; [keeps|intros fnRef].
  destruct (runtime !! FnRef_Runtime fnRef) as [rt|] eqn:Hr; [|by intros b Hb].
  apply keeps_lift_bind. intros rt' [= <-]. apply keeps_bind; [by eapply Hrt|]. intros ?. keeps.
Qed.

Lemma keeps_Task_Invoke now uid spec opts :
  (∀ f, postTransformer (parseCallOptions Background opts) = Some f → ∀ t, keeps (f t)) →
  keeps (Task_Invoke Background Inject runtime fuel now uid spec opts).
Proof.
  intros Hf. unfold Task_Invoke. cbv zeta. unfold check.
  destruct (validate_TaskInvocationSpec (Some spec)) eqn:Hv; [by intros b Hb|].
  assert (TaskInvocationSpec_InvocationId spec ≠ "") as Hi.
  { unfold validate_TaskInvocationSpec in Hv. rewrite getOrNil_None, !append_nil, !if_error in Hv.
    naive_solver. }
  apply keeps_bind; [keeps|intros _]. case_match; [keeps|].
  apply keeps_bind; [keeps|intros _]. apply keeps_bind.
  { apply keeps_catch; [apply keeps_run_function|]. intros e.
    apply keeps_bind; [apply keeps_Task_Fail|]. intros _. keeps. }
  intros r. apply keeps_bind; [apply keeps_add_flow|intros _].
  apply keeps_bind; [destruct (postTransformer _); [by apply Hf|keeps]|intros ti].
  apply keeps_bind; [keeps|intros r']. apply keeps_bind; [|intros _; keeps].
  case_match; [by apply keeps_task_event|apply keeps_Task_Fail].
Qed.
End api_keeps.

Section outcome.
Context `{Proto} `{PTypes}.

(** Projecting the outcome finishes the run. *)
Lemma project_outcome now wi ev k id r :
  invocation_ok wi → GetAggregate (EInvocation wi) = k →
  made ev (NewTaskRunAggregate id) (Some k) (outcome_payload r) →
  ∃ wi', WorkflowInvocation_project now wi ev = Ret wi' ∧ run_finished wi' id ∧
    (run_succeeded wi' id ↔ TaskInvocationStatus_Status_ r = TaskInvocationStatus_SUCCEEDED).
Proof.
  intros Hok Hk [Ha Hp Hm Hv]. pose proof Hok as [_ (st & Hst & Htasks)].
  unfold WorkflowInvocation_project. rewrite Ha. cbn [deref]. rewrite bind_Ret_l, decide_True by done.
  unfold applyTaskEvent. rewrite Hp, Ha, Hst, Hk. cbn [deref]. rewrite !bind_Ret_l, decide_False by (by intros []).
  rewrite ?bind_Ret_l. cbn [NewTaskRunAggregate Aggregate_Id].
  assert (∃ t, (match WorkflowInvocationStatus_Tasks st !! id with
    | Some t => Ret t | None => TaskRun_NewProjection now (NewTaskRunAggregate id) end : res goerror _) = Ret t ∧
    task_run_ok t) as (t & -> & [[md Hmd] [ts Hts]]).
  { destruct (WorkflowInvocationStatus_Tasks st !! id) as [t|] eqn:Ht; [eauto|].
    destruct (TaskRun_NewProjection now (NewTaskRunAggregate id)) as [t| |] eqn:Hn; [|done..].
    exists t. split; [done|]. by apply task_run_new_ok in Hn as []. }
  rewrite bind_Ret_l. unfold TaskRun_project.
  rewrite (proj2 (ensureNextEvent_Ret TypeTaskRun ev ())) by eauto. rewrite bind_Ret_l.
  rewrite (proj2 (ParseEventData_payload ev (outcome_payload r))), bind_Ret_l by done.
  unfold outcome_payload. case_decide as Hr; rewrite Hts; cbn; rewrite Hmd; cbn;
    (eexists; split; [reflexivity|]);
    unfold run_finished, run_succeeded, run_of, WI_task; cbn; rewrite lookup_insert_eq; split.
  - eexists; split; [done|]. cbn. set_solver.
  - split; [done|eauto].
  - eexists; split; [done|]. cbn. set_solver.
  - split; [|done]. intros (r' & [= <-] & [=]).
Qed.
End outcome.

Section closures.
Context {B : Type} `{EventStoreLaws B} `{!ScopeStore B} `{!ScopeStoreLaws B} `{MapRange} `{Proto} `{PTypes}.
Context `{DirectedGraph} `{Mergo} `{Otto Scope}.
Context {Ctx : Type} (Background : Ctx) (Inject : Ctx → gmap string string → gmap string string).
Context (WithDeadline : Ctx → Z → Ctx) (ContextWithSpan : Ctx → Ctx).
Context (runtime : gmap string (Runtime (B := B) (Ctx := Ctx))) (fuel : nat).
Implicit Types inv : WorkflowInvocation.

(** A call that does not touch the events. *)
Definition quiet {A} (m : st B goerror A) : Prop := ∀ b, same_events b (m b).2.

Lemma quiet_keeps {A} (m : st B goerror A) : quiet m → keeps m.
Proof. intros Hq b. apply Hq. Qed.
Lemma quiet_lift {A} (m : res goerror A) : quiet (lift m).
Proof. by intros b. Qed.
Lemma quiet_ret {A} (a : A) : quiet (mret a).
Proof. by intros b. Qed.
Lemma quiet_bind {A C} (m : st B goerror A) (k : A → st B goerror C) :
  quiet m → (∀ a, quiet (k a)) → quiet (x ← m; k x).
Proof.
  intros Hm Hk b. specialize (Hm b). unfold mbind, st_bind.
  destruct (m b) as [[a|e|w] b']; [|done..]. etrans; [exact Hm|apply Hk].
Qed.
Lemma quiet_loopM {A X} (f : A → X → st B goerror A) a l :
  (∀ a x, quiet (f a x)) → quiet (loopM f a l).
Proof.
  intros Hf. revert a. induction l as [|x l IH]; intros a; [apply quiet_ret|].
  cbn [loopM]. apply quiet_bind; auto.
Qed.

Lemma quiet_with_scope {A} p (m : st Scope goerror A) : quiet (with_scope p m).
Proof.
  intros b. unfold with_scope. destruct (scopes (get_scopes b) !! p); [|done].
  destruct (m s). apply same_events_put.
Qed.

Lemma quiet_setup_scope inv : quiet (setup_scope fuel inv).
Proof.
  unfold setup_scope. apply quiet_bind; [apply quiet_lift|intros spec].
  apply quiet_bind; [by intros b|intros rs].
  cbv zeta. apply quiet_bind; [apply quiet_lift|intros scope]. destruct (new_scope scope rs) as [p rs'].
  apply quiet_bind; [intros b; apply same_events_put|intros; apply quiet_ret].
Qed.

#[local] Hint Resolve quiet_lift quiet_ret quiet_with_scope quiet_setup_scope : keeps.
Ltac quiet := repeat (apply quiet_bind; [solve [eauto with keeps]|intros ?]); eauto with keeps.

Lemma quiet_resolveInputs inv taskID inputs : quiet (resolveInputs fuel inv taskID inputs).
Proof.
  unfold resolveInputs. apply quiet_bind; [apply quiet_setup_scope|intros p]. apply quiet_loopM.
  intros acc [key val]. unfold resolve_input. quiet.
Qed.

Lemma quiet_resolveOutput inv ti e : quiet (resolveOutput fuel inv ti e).
Proof. unfold resolveOutput. cbv zeta. quiet. Qed.

Lemma quiet_resolveOutputHeaders inv ti e : quiet (resolveOutputHeaders fuel inv ti e).
Proof. unfold resolveOutputHeaders. cbv zeta. quiet. Qed.

Lemma quiet_transform inv ti : quiet (transformTaskRunOutputs fuel inv ti).
Proof.
  unfold transformTaskRunOutputs. destruct (TaskInvocation_Status ti) as [s|]; [|apply quiet_ret].
  case_match; [|apply quiet_ret]. cbv zeta. apply quiet_bind.
  { case_match; [|apply quiet_ret]. apply quiet_bind; [|intros; apply quiet_ret].
    case_decide; [apply quiet_resolveOutput|apply quiet_ret]. }
  intros s'. apply quiet_bind; [|intros; apply quiet_ret]. case_match; [|apply quiet_ret].
  apply quiet_bind; [|intros; apply quiet_ret]. case_decide; [apply quiet_resolveOutputHeaders|apply quiet_ret].
Qed.

(** The call of the API in [execTask]. *)
Definition run_spec inv (task : Data.Task) now (inputs : gmap string TypedValue) : TaskInvocationSpec :=
  TISpec_with_Inputs (NewTaskInvocationSpec inv (Some task) now) inputs.
Definition run_options inv (task : Data.Task) now : list (CallOption (B := B) (Ctx := Ctx)) :=
  [WithContext (run_context Background WithDeadline ContextWithSpan (NewTaskInvocationSpec inv (Some task) now));
   AwaitWorklow awaitWorkflowMaxRuntime; PostTransformer (transformTaskRunOutputs fuel inv)].

Notation execTask := (execTask Background Inject WithDeadline ContextWithSpan runtime fuel).

Lemma keeps_execTask now uid inv taskID :
  runtimes_keep runtime → keeps (execTask now uid inv taskID).
Proof.
  intros Hrt. unfold execTask. apply keeps_bind; [keeps|intros [task|]]; [|keeps].
  case_decide; [apply keeps_bind; keeps|]. apply keeps_bind.
  { case_decide; [keeps|apply quiet_keeps, quiet_resolveInputs]. }
  intros inputs. cbv zeta. apply keeps_bind; [|keeps]. unfold invoke_with_inputs. cbv zeta.
  case_decide; [|apply keeps_bind; keeps]. apply keeps_Task_Invoke; [done|].
  intros f [= <-] ?. apply quiet_keeps, quiet_transform.
Qed.

(** ** The outcome of a task *)

(** Decoding the outcome events gives back what was encoded. *)
Definition outcomes_faithful : Prop :=
  ∀ r s, marshal (outcome_payload r) = Some s → wire (outcome_payload r).

(** The last step of [Invoke], for the result [r]. *)
Definition record_outcome now (invID id : string) (r : TaskInvocationStatus) : st B goerror () :=
  if decide (TaskInvocationStatus_Status_ r = TaskInvocationStatus_SUCCEEDED)
  then task_event now invID id (TaskSucceeded (Some r))
  else Task_Fail now invID id (GetMessage (TaskInvocationStatus_Error r)).

Lemma keeps_at {A} (m : st B goerror A) b r b' : keeps m → b_ok b → m b = (r, b') → b_ok b'.
Proof. intros Hm Hb Hr. specialize (Hm b Hb). by rewrite Hr in Hm. Qed.

Lemma Task_Invoke_Ret now uid spec opts b ti b' :
  runtimes_keep runtime →
  (∀ f, postTransformer (parseCallOptions Background opts) = Some f → ∀ t, keeps (f t)) → b_ok b →
  Task_Invoke Background Inject runtime fuel now uid spec opts b = (Ret ti, b') →
  ∃ b2 r, b_ok b2 ∧ TaskInvocationSpec_InvocationId spec ≠ "" ∧ TaskInvocationSpec_TaskId spec ≠ "" ∧
    record_outcome now (TaskInvocationSpec_InvocationId spec) (TaskInvocationSpec_TaskId spec) r b2 =
      (Ret (), b').
Proof.
  intros Hrt Hf Hb Hi. unfold Task_Invoke in Hi. cbv zeta in Hi. unfold check in Hi.
  destruct (validate_TaskInvocationSpec (Some spec)) eqn:Hv; [done|].
  apply st_bind_inv in Hi as (u0 & b0 & [= _ <-] & Hi). case_match; [done|].
  apply st_bind_inv in Hi as (ev & b0 & [= _ <-] & Hi).
  apply st_bind_inv in Hi as (r0 & b1 & Hc1 & Hi).
  apply (keeps_at _ b) in Hc1; [|apply keeps_catch; [by apply keeps_run_function|]|done].
  2:{ intros e. apply keeps_bind; [apply keeps_Task_Fail|keeps]. }
  apply st_bind_inv in Hi as (u1 & b2 & Hc2 & Hi). apply keeps_at in Hc2; [|apply keeps_add_flow|done].
  apply st_bind_inv in Hi as (ti' & b3 & Hc3 & Hi).
  apply keeps_at in Hc3; [|destruct (postTransformer _); [by apply Hf|keeps]|done].
  apply st_bind_inv in Hi as (r & b4 & [= Hr <-] & Hi). apply st_bind_inv in Hi as ([] & b5 & Hrec & [= -> ->]).
  unfold validate_TaskInvocationSpec in Hv. rewrite getOrNil_None, !append_nil, !if_error in Hv.
  exists b3, r. split_and!; [done|naive_solver..|done].
Qed.

Lemma record_outcome_spec now (invID id : string) r b b' :
  outcomes_faithful → b_ok b → invID ≠ "" → id ≠ "" →
  record_outcome now invID id r b = (Ret (), b') →
  let k := NewInvocationAggregate invID in
  ∃ ev, b_stream b' k = b_stream b k ++ [ev] ∧
    made ev (NewTaskRunAggregate id) (Some k) (outcome_payload r).
Proof.
  intros Hof Hb Hi Hid Hrec k.
  assert (task_event now invID id (outcome_payload r) b = (Ret (), b')) as Hev.
  { unfold record_outcome, outcome_payload in *. case_decide; [done|].
    unfold Task_Fail in Hrec. by rewrite !decide_False in Hrec by done. }
  assert (wire (outcome_payload r)) as Hw.
  { unfold task_event in Hev. apply st_bind_inv in Hev as (e & b1 & Hne & _).
    injection Hne as Hne _. apply NewEvent_inv in Hne as (_ & (s & Hs & _) & _). by eapply Hof. }
  assert (is_event_payload (outcome_payload r) = true) as Hp by (unfold outcome_payload; by case_decide).
  pose proof (task_event_spec now invID id (outcome_payload r) b Hb Hp Hw Hi) as Hs. rewrite Hev in Hs.
  destruct Hs as (_ & _ & ev & Hm & Hs). by exists ev.
Qed.


(** Whatever a closure of the controllers does, and however it ends, the event store is in
    a state its invariant allows, if the function runtimes see to that. *)
Theorem run_action_keeps (resolveFn : string → res goerror FnRef) (now : Z) (uid : string) (i : nat)
    (a : action) (b : B) :
  runtimes_keep runtime → b_ok b →
  b_ok (run_action Background Inject WithDeadline ContextWithSpan runtime fuel resolveFn now uid i a b).2.
Proof.
  intros Hrt. destruct a as [id err|id o h|inv loop|inv taskID|wf]; cbn [run_action].
  - apply (keeps_call now id (CallFail _)).
  - apply (keeps_call now id (CallComplete _ _)).
  - unfold prepare_action. apply keeps_bind; [keeps|intros a]. apply keeps_bind; [keeps|intros [task|]]; [|keeps].
    cbv zeta. apply keeps_bind; [keeps|intros t]. unfold Task_Prepare.
    destruct (runtime !! _) as [rt|] eqn:Hr; [|keeps].
    destruct (rt_Prepare rt) as [f|] eqn:Hp; [|keeps].
    apply keeps_bind; [keeps|intros spec]. apply keeps_bind; [keeps|intros fn]. by eapply Hrt.
  - by apply keeps_execTask.
  - apply (keeps_bind (Workflow_Parse resolveFn now wf)); [apply keeps_Workflow_Parse|keeps].
Qed.

(** A task is lost when its inputs cannot be resolved: running it ends in an error or a
    panic without an event, so that in no later snapshot its run has finished; and the
    controller, which has marked the task as started, waits for it for ever: it never
    fails the invocation, and does not look at its deadline. *)
Theorem lost_task_blocks (policy : Policy) (now : Z) (uid : string) inv (taskID : string)
    (task : Data.Task) (b : B) :
  invocation_wf inv → is_Some (WorkflowInvocation_Workflow inv) →
  inv_task_view inv taskID = Some task → (Task_Status task ≫= TaskStatus_FnRef) ≠ None →
  spec_inputs task ≠ ∅ → ¬ is_ret (resolveInputs fuel inv taskID (spec_inputs task) b).1 →
  let k := NewInvocationAggregate (WorkflowInvocation_ID inv) in
  let '(r, b') := execTask now uid inv taskID b in
  ¬ is_ret r ∧ b_stream b' k = b_stream b k ∧
  ∀ now' now'' ev wi c ex,
    project_invocation now' k (b_stream b' k) = Ret wi →
    ¬ (∃ wi0, project_invocation now' k (b_stream b k) = Ret wi0 ∧ run_finished wi0 taskID) →
    schedulable wi → Notification_Updated (ev_notification ev) = Some (EInvocation wi) →
    is_Some (WorkflowInvocation_Workflow wi) → WorkflowInvocation_ID wi = invocationID c →
    is_Some (startedTasks c !! taskID) → (GetGroupTasks ex (WorkflowInvocation_ID wi) ≤ 0)%Z →
    InvocationController_Eval policy fuel now'' (Some ev) (c, ex) = (Ret (Success ""), (c, ex)).
Proof.
  intros Hwf Hw Ht Hfn Hin Hr k.
  assert (∃ r, execTask now uid inv taskID b =
    (r, (resolveInputs fuel inv taskID (spec_inputs task) b).2) ∧ ¬ is_ret r) as (r & -> & Hnr).
  { unfold Execution.execTask. rewrite WorkflowInvocation_Task_view, st_lift_Ret, Ht by done.
    rewrite decide_False by done. rewrite (inv_task_view_id inv taskID task) by done.
    rewrite (decide_False (P := spec_inputs task = ∅)) by done.
    unfold mbind, st_bind. destruct (resolveInputs fuel inv taskID (spec_inputs task) b) as [[a|e|w] b1].
    - by destruct Hr.
    - by exists (Throw e).
    - by exists (Panic w). }
  destruct (quiet_resolveInputs inv taskID (spec_inputs task) b) as [_ Hs]. specialize (Hs k).
  split_and!; [done|done|]. intros now' now'' ev wi c ex Hp Hnf Hsch Hup Hww Hid Hst Hg.
  apply (unfinished_task_blocks policy fuel now'' ev wi c ex taskID); try done.
  intros Hfin. apply Hnf. exists wi. rewrite <- Hs. by split.
Qed.

(** The closures that prewarm tasks share the variable of the loop that makes them.  Run
    once the evaluation has ended, every one of them does what is asked for the last
    task of the schedule, and the other tasks are not prepared. *)
Theorem prewarm_prepares_last (resolveFn : string → res goerror FnRef) (now : Z) (uid : string) inv
    (schedule : Schedule) (last : PrepareTaskAction) (i : nat) (b : B) :
  list.last (Schedule_PrepareTasks schedule) = Some last →
  length (Schedule_PrepareTasks schedule) ≤ i →
  ∀ t, t ∈ prewarm_tasks inv schedule →
    run_action Background Inject WithDeadline ContextWithSpan runtime fuel resolveFn now uid i
      (Executor.Apply t) b =
    prepare_action runtime now 0 inv [last] b.
Proof.
  intros Hl Hi t Ht. unfold prewarm_tasks in Ht. apply list_elem_of_fmap in Ht as (a & -> & _).
  cbn [run_action new_task Executor.Apply]. unfold prepare_action, loop_variable.
  rewrite last_lookup in Hl. rewrite Nat.min_r by lia. by rewrite Hl.
Qed.
End closures.
