(* ===== verification/Engine.v ===== *)
(** The engine put together: an invocation is taken from its history in the event store, the
    controller evaluates it, the executor runs what the controller submitted, and what the
    closures append to the history is what the next evaluation looks at.  This file defines such a
    round, and shows what the executor and the closures contribute to it; [EngineSpec] shows
    what the rounds achieve. *)

From stdpp Require Import base gmap strings list.
From S2P Require Import Prelude Data Types TypedValues ControlFlow Fes Projectors Graph.
From S2P Require Import Scheduler Validate Lru MemBackend Cache WorkQueue DelayingQueue Executor.
From S2P Require Import Ctrl Api ApiSpec InvocationController Expr Execution ExecutionSpec.

(** ** The executor until it has nothing to do *)

Section drain.
Context {A W E : Type} (apply : A → W → res E () * W).
Notation XT := (Executor.Task (A := A)).
Notation Ex := (LocalExecutor (A := A)).
Implicit Types (t : XT) (ex : Ex) (w : W).

(** The worlds the tasks led to are listed. *)
Fixpoint drain (fuel : nat) ex w : Ex * W * list (XT * W * W) :=
  match fuel with
  | O => (ex, w, [])
  | S fuel =>
      match take ex, worker_round apply ex w with
      | Some (t, _), Some (ex, w') =>
          let '(ex, w2, ran) := drain fuel ex w' in (ex, w2, (t, w, w') :: ran)
      | _, _ => (ex, w, [])
      end
  end.

Fixpoint run_tasks (ts : list XT) w : W * list (XT * W * W) :=
  match ts with
  | [] => (w, [])
  | t :: ts =>
      let w' := executeTask apply t w in
      let '(w2, ran) := run_tasks ts w' in (w2, (t, w, w') :: ran)
  end.

(** The executor with the tasks [l], all of the group [g], waiting and nothing running. *)
Record loaded (g : string) (capacity : Z) (l : list XT) ex : Prop := {
  loaded_queue : queue (inner (ex_queue ex)) = getKey <$> l;
  loaded_dirty t : t ∈ l → dirty (inner (ex_queue ex)) !! getKey t = Some t;
  loaded_clean k : k ∉ getKey <$> l → dirty (inner (ex_queue ex)) !! k = None;
  loaded_processing : processing (inner (ex_queue ex)) = ∅;
  loaded_live : shuttingDown (inner (ex_queue ex)) = false;
  loaded_replace : Replace (inner (ex_queue ex)) = false;
  loaded_capacity : MaxSize (inner (ex_queue ex)) = capacity;
  loaded_nodup : NoDup (getKey <$> l);
  loaded_count : GetGroupTasks ex g = Z.of_nat (length l);
  loaded_group t : t ∈ l → GroupID t = Some g }.

Lemma submit_loaded g capacity l now t ex :
  loaded g capacity l ex → GroupID t = Some g → getKey t ∉ getKey <$> l → (Z.of_nat (length l) < capacity)%Z →
  ∃ ex', Executor.Submit now t ex = (true, ex') ∧ loaded g capacity (l ++ [t]) ex'.
Proof.
  intros [Hq Hd Hc Hp Hl Hr Hcap Hnd Hn Hg] Ht Hk Hlt.
  assert (Add t (inner (ex_queue ex)) = (true, set_queue (queue (inner (ex_queue ex)) ++ [getKey t])
    (set_dirty (<[getKey t := t]> (dirty (inner (ex_queue ex)))) (inner (ex_queue ex))))) as Hadd.
  { unfold Add. rewrite Hl, Hc by done. rewrite decide_False by (rewrite Hq, length_fmap; lia).
    cbn. by rewrite Hp, lookup_empty. }
  unfold Executor.Submit, SubmitAfter, enqueue, TryAddAfter, ShuttingDown. cbn [Z.leb]. rewrite decide_True by done.
  rewrite Hl, decide_True by done. unfold delaying_Add. rewrite Hadd. eexists. split; [done|]. rewrite Ht.
  split; cbn; try done.
  - by rewrite fmap_app, Hq.
  - intros t' [Hin| ->%list_elem_of_singleton]%elem_of_app; [|by rewrite lookup_insert_eq].
    rewrite lookup_insert_ne; [by apply Hd|]. intros Heq. apply Hk. rewrite Heq. by apply list_elem_of_fmap_2.
  - intros k. rewrite fmap_app, not_elem_of_app. intros [Hk' Hne]. rewrite lookup_insert_ne; [by apply Hc|].
    intros <-. apply Hne. cbn. by left.
  - rewrite fmap_app. apply NoDup_app. split_and!; [done| |apply NoDup_singleton].
    by intros k Hin ->%list_elem_of_singleton.
  - unfold GetGroupTasks in *. cbn. rewrite lookup_insert_eq, length_app. cbn. lia.
  - intros t' [Hin| ->%list_elem_of_singleton]%elem_of_app; [by apply Hg|done].
Qed.

Lemma round_loaded g capacity t l ex w :
  loaded g capacity (t :: l) ex →
  ∃ ex1 ex', take ex = Some (t, ex1) ∧ worker_round apply ex w = Some (ex', executeTask apply t w) ∧
    loaded g capacity l ex'.
Proof.
  intros [Hq Hd Hc Hp Hl Hr Hcap Hnd Hn Hg]. rewrite fmap_cons in Hnd. apply NoDup_cons in Hnd as [Hk Hnd].
  assert (take ex = Some (t, with_queue (with_inner (set_dirty (delete (getKey t) (dirty (inner (ex_queue ex))))
    (set_processing (<[getKey t := t]> (processing (inner (ex_queue ex))))
      (set_queue (getKey <$> l) (inner (ex_queue ex))))) (ex_queue ex)) ex)) as Ht.
  { unfold take, Get. rewrite Hq. cbn. by rewrite Hd by (by left). }
  unfold worker_round. rewrite Ht. cbn [mbind option_bind]. rewrite (Hg t) by (by left). eexists _, _. split_and!; [done..|].
  unfold report, WorkQueue.Done. cbn. rewrite lookup_delete_eq. split; cbn; try done.
  - intros t' Hin. rewrite lookup_delete_ne; [apply Hd; by right|]. intros Heq. apply Hk. rewrite Heq. by apply list_elem_of_fmap_2.
  - intros k Hk'. destruct (decide (k = getKey t)) as [->|Hne]; [by rewrite lookup_delete_eq|].
    rewrite lookup_delete_ne by done. apply Hc. rewrite fmap_cons. by intros [?|?]%elem_of_cons.
  - rewrite Hp, insert_empty. apply map_eq. intros k. destruct (decide (k = getKey t)) as [->|Hne];
      [by rewrite lookup_delete_eq|by rewrite lookup_delete_ne, lookup_singleton_ne].
  - unfold GetGroupTasks in *. cbn. rewrite lookup_insert_eq, Hn. cbn. lia.
  - intros t' Hin. apply Hg. by right.
Qed.

(** The tasks run in the order they were submitted. *)
Lemma drain_loaded g capacity l ex w : loaded g capacity l ex →
  ∃ ex', drain (length l) ex w = (ex', (run_tasks l w).1, (run_tasks l w).2) ∧ loaded g capacity [] ex'.
Proof.
  revert ex w. induction l as [|t l IH]; intros ex w Hl; [by exists ex|].
  destruct (round_loaded g capacity t l ex w Hl) as (ex0 & ex1 & Ht & Hr & Hl1).
  destruct (IH ex1 (executeTask apply t w) Hl1) as (ex2 & Hd & Hl2).
  exists ex2. split; [|done]. cbn [length drain run_tasks]. rewrite Ht, Hr, Hd.
  by destruct (run_tasks l (executeTask apply t w)).
Qed.
End drain.

Lemma submit_all_loaded g capacity now (ts l : list (Executor.Task (A := action))) ex :
  loaded g capacity l ex → NoDup (getKey <$> (l ++ ts)) → (∀ t, t ∈ ts → GroupID t = Some g) →
  (Z.of_nat (length l + length ts) ≤ capacity)%Z →
  ∃ ex', submit_all now ts ex = ((λ t, (t, true)) <$> ts, ex') ∧ loaded g capacity (l ++ ts) ex'.
Proof.
  revert l ex. induction ts as [|t ts IH]; intros l ex Hl Hnd Hg Hcap; [exists ex; by rewrite app_nil_r|].
  assert (l ++ t :: ts = (l ++ [t]) ++ ts) as Happ by by rewrite <- app_assoc. rewrite Happ in Hnd |- *.
  destruct (submit_loaded g capacity l now t ex Hl) as (ex1 & Hs & Hl1); [apply Hg; by left| |cbn [length] in Hcap; lia|].
  { rewrite !fmap_app in Hnd. apply NoDup_app in Hnd as (Hnd & _ & _). apply NoDup_app in Hnd as (_ & Hnd & _).
    intros Hin. apply (Hnd _ Hin). cbn. by left. }
  destruct (IH (l ++ [t]) ex1 Hl1 Hnd) as (ex2 & Hs2 & Hl2).
  { intros t' Ht'. apply Hg. by right. }
  { rewrite length_app. cbn [length] in Hcap |- *. lia. }
  exists ex2. split; [|done]. cbn [submit_all]. by rewrite Hs, Hs2.
Qed.

(** ** What a closure appends to the history of its invocation *)

Section events.
Context {B : Type} `{EventStoreLaws B} `{Proto} `{PTypes} (id : string) (id_given : id ≠ "").
Notation k := (NewInvocationAggregate id).

(** Decoding an event gives back what was encoded. *)
Definition codec_faithful : Prop := ∀ m s, is_event_payload m = true → marshal m = Some s → wire m.

(** [m] leaves the history alone; [m] appends at most one event to it, which is as [P] says. *)
Definition silent {A} (m : st B goerror A) : Prop := ∀ b, b_ok b →
  b_ok (m b).2 ∧ b_stream (m b).2 k = b_stream b k.
Definition records {A} (P : Data.Event → Prop) (m : st B goerror A) : Prop := ∀ b, b_ok b →
  b_ok (m b).2 ∧ (b_stream (m b).2 k = b_stream b k ∨ ∃ ev, P ev ∧ b_stream (m b).2 k = b_stream b k ++ [ev]).

Lemma quiet_silent {A} (m : st B goerror A) : quiet m → silent m.
Proof. intros Hq b Hb. destruct (Hq b) as [Hok Hs]. by auto. Qed.
Lemma silent_lift {A} (m : res goerror A) : silent (lift m).
Proof. by intros b. Qed.
Lemma silent_ret {A} (a : A) : silent (mret a).
Proof. by intros b. Qed.
Lemma silent_throw {A} e : silent (throw (A := A) e).
Proof. by intros b. Qed.
Lemma silent_check err : silent (check err).
Proof. by destruct err; intros b. Qed.
Lemma silent_records {A} P (m : st B goerror A) : silent m → records P m.
Proof. intros Hm b Hb. destruct (Hm b Hb). auto. Qed.

Lemma silent_bind {A C} (m : st B goerror A) (f : A → st B goerror C) :
  silent m → (∀ a, silent (f a)) → silent (x ← m; f x).
Proof.
  intros Hm Hf b Hb. destruct (Hm b Hb) as [Hb' Hs]. unfold mbind, st_bind.
  destruct (m b) as [[a|e|w] b']; [|done..]. cbn in Hb', Hs. rewrite <- Hs. by apply Hf.
Qed.

Lemma records_bind {A C} P (m : st B goerror A) (f : A → st B goerror C) :
  silent m → (∀ a, records P (f a)) → records P (x ← m; f x).
Proof.
  intros Hm Hf b Hb. destruct (Hm b Hb) as [Hb' Hs]. unfold mbind, st_bind.
  destruct (m b) as [[a|e|w] b']; [|by auto..]. cbn in Hb', Hs. rewrite <- Hs. by apply Hf.
Qed.

Lemma records_then {A C} P (m : st B goerror A) (f : A → st B goerror C) :
  records P m → (∀ a, silent (f a)) → records P (x ← m; f x).
Proof.
  intros Hm Hf b Hb. destruct (Hm b Hb) as [Hb' Hs]. unfold mbind, st_bind.
  destruct (m b) as [[a|e|w] b']; [|done..]. cbn in Hb', Hs. destruct (Hf a b' Hb') as [Hb2 Hs2].
  split; [done|]. by rewrite Hs2.
Qed.

(** A failure that is reported and passed on, or what comes after. *)
Lemma records_report {A C} P (m : st B goerror A) (report : goerror → st B goerror ()) (f : A → st B goerror C) :
  silent m → (∀ e, records P (report e)) → (∀ a b b', m b = (Ret a, b') → records P (f a)) →
  records P (x ← catch m (λ e, _ ← report e; throw e); f x).
Proof.
  intros Hm Hr Hf b Hb. destruct (Hm b Hb) as [Hb' Hs]. unfold mbind, st_bind, catch, throw.
  destruct (m b) as [[a|e|w] b'] eqn:Hmb; cbn in Hb', Hs; [rewrite <- Hs; by eapply Hf| |by auto].
  destruct (Hr e b' Hb') as [Hb2 Hs2]. rewrite Hs in Hs2.
  by destruct (report e b') as [[u|e'|w] b2].
Qed.

(** The outcome of a task. *)
Definition outcome (taskID : string) (ev : Data.Event) : Prop :=
  ∃ r, made ev (NewTaskRunAggregate taskID) (Some k) (outcome_payload r).

Lemma records_task_event (P : Data.Event → Prop) now taskID m :
  codec_faithful → is_event_payload m = true → (∀ ev, made ev (NewTaskRunAggregate taskID) (Some k) m → P ev) →
  records P (task_event now id taskID m).
Proof.
  intros Hc Hp HP b Hb. destruct (marshal m) as [s|] eqn:Hm.
  - pose proof (task_event_spec now id taskID m b Hb Hp (Hc m s Hp Hm) id_given) as Hs.
    destruct (task_event now id taskID m b) as [[u|e|w] b']; [|naive_solver|done].
    destruct Hs as (Hok & _ & ev & Hev & Hst). split; [done|]. right. exists ev. auto.
  - unfold task_event. destruct (NewEvent now (NewTaskRunAggregate taskID) (Some m)) as [ev|e|w] eqn:He; [|by auto..].
    apply NewEvent_inv in He as (_ & (s & Hs & _) & _). congruence.
Qed.

Definition failed_result (msg : string) : TaskInvocationStatus :=
  MkTaskInvocationStatus TaskInvocationStatus_FAILED None None (Some (MkError msg)) None.

Lemma records_Task_Fail now taskID msg : codec_faithful → records (outcome taskID) (Task_Fail now id taskID msg).
Proof.
  intros Hc. unfold Task_Fail. rewrite decide_False by done. case_decide; [apply silent_records, silent_throw|].
  apply records_task_event; [done|done|]. intros ev Hev. by exists (failed_result msg).
Qed.

Lemma records_call now (c : invocation_call) : codec_faithful → is_event_payload (call_payload c) = true →
  records (λ ev, made ev k None (call_payload c)) (run_call now id c).
Proof.
  intros Hc Hp b Hb. destruct (marshal (call_payload c)) as [s|] eqn:Hm.
  - pose proof (run_call_spec now id c b Hb (Hc _ s Hp Hm)) as Hs.
    destruct (run_call now id c b) as [[u|e|w] b']; [|naive_solver|done].
    destruct Hs as (Hok & _ & ev & Hev & Hst). eauto 10.
  - assert (∀ h, silent (invocation_event (B := B) now id (call_payload c) h)) as Hs.
    { intros h b' Hb'. unfold invocation_event, mbind, st_bind, lift.
      destruct (NewEvent now k (Some (call_payload c))) as [ev|e|w] eqn:He; [|done..].
      apply NewEvent_inv in He as (_ & (s & Hs & _) & _). congruence. }
    apply silent_records; [|done].
    destruct c; cbn [run_call call_payload] in *; unfold Invocation_Complete, Invocation_Fail, Invocation_Cancel, Invocation_AddTask;
      (case_decide; [apply silent_throw|]); try apply Hs. apply silent_bind; [apply silent_check|intros _; apply Hs].
Qed.

End events.

Section history.
Context {B : Type} `{EventStoreLaws B} `{!ScopeStore B} `{!ScopeStoreLaws B} `{MapRange} `{Proto} `{PTypes}.
Context `{DirectedGraph} `{Mergo} `{Otto Scope}.
Context {Ctx : Type} (Background : Ctx) (Inject : Ctx → gmap string string → gmap string string).
Context (WithDeadline : Ctx → Z → Ctx) (ContextWithSpan : Ctx → Ctx).
Context (runtime : gmap string (Runtime (B := B) (Ctx := Ctx))) (fuel : nat) (id : string) (id_given : id ≠ "").
Notation k := (NewInvocationAggregate id).
Implicit Types inv : WorkflowInvocation.

(** Runtimes that neither touch the history of the invocation nor return flows. *)
Definition plain_runtimes : Prop := ∀ name rt, runtime !! name = Some rt →
  (∀ c t s, silent id (rt_Invoke rt c t s) ∧
     ∀ b r b', rt_Invoke rt c t s b = (Ret (Some r), b') → IsControlFlow (TaskInvocationStatus_Output r) = false) ∧
  ∀ f, rt_Prepare rt = Some f → ∀ r t, silent id (f r t).
Context (plain : plain_runtimes) (faithful : codec_faithful).

Lemma silent_run_function cfg spec : silent id (run_function runtime cfg spec).
Proof.
  unfold run_function. apply silent_bind; [apply silent_lift|intros fnRef].
  destruct (runtime !! FnRef_Runtime fnRef) as [rt|] eqn:Hr; [|apply silent_lift].
  intros b. cbn [deref]. rewrite st_lift_Ret. revert b. apply silent_bind; [by apply (plain _ _ Hr)|].
  intros [r|]; [apply silent_ret|apply silent_throw].
Qed.

Lemma run_function_plain cfg spec b r b' :
  run_function runtime cfg spec b = (Ret r, b') → IsControlFlow (TaskInvocationStatus_Output r) = false.
Proof.
  unfold run_function. intros (fnRef & b1 & _ & Hr)%st_bind_inv.
  destruct (runtime !! FnRef_Runtime fnRef) as [rt|] eqn:Hrt; [|done].
  cbn [deref] in Hr. rewrite st_lift_Ret in Hr. apply st_bind_inv in Hr as ([r'|] & b2 & Hi & Hr); [|done].
  injection Hr as -> _. by eapply (plain _ _ Hrt).
Qed.

Lemma records_Task_Invoke now uid spec opts :
  TaskInvocationSpec_InvocationId spec = id →
  (∀ f, postTransformer (parseCallOptions Background opts) = Some f → ∀ t, silent id (f t)) →
  records id (outcome id (TaskInvocationSpec_TaskId spec)) (Task_Invoke Background Inject runtime fuel now uid spec opts).
Proof.
  intros Hid Hf. unfold Task_Invoke. cbv zeta. rewrite Hid. apply records_bind; [apply silent_check|intros _].
  case_decide; [apply silent_records, silent_throw|]. apply records_bind; [apply silent_lift|intros _].
  apply records_report; [apply silent_run_function|intros e; by apply records_Task_Fail|].
  intros r b b' Hr%run_function_plain. unfold add_flow. rewrite Hr.
  apply records_bind; [apply silent_ret|intros _].
  apply records_bind; [destruct (postTransformer _); [by apply Hf|apply silent_ret]|intros ti].
  apply records_bind; [apply silent_lift|intros r']. apply records_then; [|intros _; apply silent_ret].
  case_decide as Hs; [|by apply records_Task_Fail]. apply records_task_event; [done|done|done|].
  intros ev Hev. exists r'. unfold outcome_payload. by rewrite decide_True.
Qed.

Notation execTask := (execTask Background Inject WithDeadline ContextWithSpan runtime fuel).

Lemma records_execTask now uid inv taskID :
  invocation_wf inv → WorkflowInvocation_ID inv = id → is_Some (WorkflowInvocation_Workflow inv) →
  records id (outcome id taskID) (execTask now uid inv taskID).
Proof.
  intros Hwf Hid Hw. unfold Execution.execTask. rewrite WorkflowInvocation_Task_view by done.
  intros b. rewrite st_lift_Ret. revert b.
  destruct (inv_task_view inv taskID) as [task|] eqn:Ht; [|apply silent_records, silent_throw].
  pose proof (inv_task_view_id inv taskID task Hwf Ht) as Htid.
  case_decide; [apply silent_records, silent_bind; [apply silent_lift|intros; apply silent_throw]|].
  apply records_bind; [case_decide; [apply silent_ret|apply quiet_silent, quiet_resolveInputs]|intros inputs]. cbv zeta.
  apply records_then; [|intros; apply silent_ret]. unfold invoke_with_inputs. cbv zeta.
  case_decide; [|apply silent_records, silent_bind; [apply silent_check|intros; apply silent_lift]].
  rewrite <- Htid. apply records_Task_Invoke; [done|]. intros f [= <-] t. apply quiet_silent, quiet_transform.
Qed.

Lemma silent_prepare_action now i inv loop :
  invocation_wf inv → is_Some (WorkflowInvocation_Workflow inv) →
  silent id (prepare_action (Ctx := Ctx) runtime now i inv loop).
Proof.
  intros Hwf Hw. unfold prepare_action. apply silent_bind; [apply silent_lift|intros a].
  apply silent_bind; [apply silent_lift|intros [task|]]; [|apply silent_throw]. cbv zeta.
  apply silent_bind; [apply silent_lift|intros expectedAt]. unfold Task_Prepare.
  destruct (runtime !! _) as [rt|] eqn:Hr; [|apply silent_throw].
  destruct (rt_Prepare rt) as [f|] eqn:Hf; [|apply silent_throw].
  apply silent_bind; [apply silent_lift|intros sp]. apply silent_bind; [apply silent_lift|intros fnRef].
  by apply (plain _ _ Hr).
Qed.
End history.

(** ** A round of the engine *)

Section engine.
Context {B : Type} `{FesBackend B} `{EventStore B} `{!ScopeStore B} `{MapRange} `{Proto} `{PTypes} `{DirectedGraph}.
Context `{Mergo} `{Otto Scope}.
Context {Ctx : Type} (Background : Ctx) (Inject : Ctx → gmap string string → gmap string string).
Context (WithDeadline : Ctx → Z → Ctx) (ContextWithSpan : Ctx → Ctx).
Context (runtime : gmap string (Runtime (B := B) (Ctx := Ctx))) (policy : Policy) (fuel : nat).
Context (resolveFn : string → res goerror FnRef).

(** The event store with the scopes, the controller of the invocation, and the executor. *)
Record Engine := MkEngine {
  engine_world : B;
  engine_controller : InvocationController;
  engine_pool : Pool }.

(** What the notification of the updated invocation brings to the controller. *)
Definition snapshot_event (k : Aggregate) (inv : WorkflowInvocation) : Ctrl.Event :=
  Ctrl.MkEvent 1 (MkNotification None (Some (EInvocation inv)) None k).

(** A closure, which runs at [now] with the identifier [uid] at hand when the loop over the
    prewarming tasks is at [i]. *)
Definition closure (now : Z) (uid : string) (i : nat) (a : action) : st B goerror () :=
  run_action Background Inject WithDeadline ContextWithSpan runtime fuel resolveFn now uid i a.

(** The history is read and projected as the loading cache does it ([Cache.getFromEventStore]), the
    controller evaluates the invocation, and the executor runs until its queue is empty.  [None]: the
    history does not show an invocation, or the evaluation panics. *)
Definition engine_round (id : string) (now : Z) (uid : string) (i : nat) (e : Engine) :
    option (Engine * list (XTask * B * B)) :=
  let k := NewInvocationAggregate id in
  let '(r, b) := b_Get k (engine_world e) in
  match (es ← r; project_invocation now k es) with
  | Ret inv =>
      match InvocationController_Eval policy fuel now (Some (snapshot_event k inv)) (engine_controller e, engine_pool e) with
      | (Ret _, (c, ex)) =>
          let '(ex, b, ran) := drain (closure now uid i) (length (queue (inner (ex_queue ex)))) ex b in
          Some (MkEngine b c ex, ran)
      | _ => None
      end
  | _ => None
  end.

(** Rounds at the given times. *)
Fixpoint engine_rounds (id : string) (rounds : list (Z * string * nat)) (e : Engine) :
    option (Engine * list (XTask * B * B)) :=
  match rounds with
  | [] => Some (e, [])
  | (now, uid, i) :: rounds =>
      '(e, ran) ← engine_round id now uid i e;
      '(e, ran') ← engine_rounds id rounds e;
      Some (e, ran ++ ran')
  end.

(** The tasks of the workflow among the tasks that ran. *)
Definition executed_task (r : XTask * B * B) : option string :=
  match Executor.Apply r.1.1 with ActExecTask _ taskID => Some taskID | _ => None end.
Definition executed (ran : list (XTask * B * B)) : list string := omap executed_task ran.
End engine.
