(* ===== verification/EngineSpec.v ===== *)
(** What the rounds of [Engine] achieve: every task runs at most once and after the tasks it waits for,
    and if every closure records its outcome the invocation ends. *)

From stdpp Require Import base gmap strings list.
From S2P Require Import Prelude Data Types TypedValues ControlFlow Fes Projectors Graph.
From S2P Require Import Scheduler Validate Lru MemBackend Cache WorkQueue DelayingQueue Executor.
From S2P Require Import Ctrl Api ApiSpec InvocationController Expr Execution ExecutionSpec Engine.

(** ** What the history shows *)

Section snapshots.
Context `{MapRange} `{Proto} `{PTypes} (fuel : nat) (id : string).
Notation k := (NewInvocationAggregate id).
Implicit Types (inv : WorkflowInvocation) (R : gmap string bool).

(** The tasks of the workflow, which do not change: no task was added. *)
Context (V : string → option Data.Task) (deadline : Z).

Definition requires (t : string) : requires_map :=
  match V t ≫= Task_Spec with Some s => TaskSpec_Requires s | None => ∅ end.

(** [b] waits for [a], as in [Scheduler.waits]. *)
Definition depends (a b : string) : Prop :=
  is_Some (requires b !! a) ∨
  a ≠ b ∧ ∃ p, dynamic_parent (requires a) = Some p ∧ is_Some (requires b !! p).

(** The invocation has the tasks [V]; [R] are those that have a run, with whether it succeeded, all
    ended; [σ] is the state. *)
Record snapshot_ok R (σ : WorkflowInvocationStatus_Status) inv : Prop := {
  snapshot_evaluable : evaluable fuel inv;
  snapshot_id : WorkflowInvocation_ID inv = id;
  snapshot_status : WI_status inv = σ;
  snapshot_view t : inv_task_view inv t = V t;
  snapshot_runs t : is_Some (run_of inv t) ↔ is_Some (R !! t);
  snapshot_finished t : is_Some (R !! t) → run_finished inv t;
  snapshot_succeeded t : run_succeeded inv t ↔ R !! t = Some true;
  snapshot_deadline : invocation_deadline inv = Some deadline }.

Definition history_ok R (σ : WorkflowInvocationStatus_Status) (es : list Data.Event) : Prop :=
  ∀ now, ∃ inv, project_invocation now k es = Ret inv ∧ snapshot_ok R σ inv.

(** The same invocation with other runs or another state. *)
Record same_tasks inv inv' : Prop := {
  same_spec : WorkflowInvocation_Spec inv' = WorkflowInvocation_Spec inv;
  same_id : WorkflowInvocation_ID inv' = WorkflowInvocation_ID inv;
  same_dynamic : (WorkflowInvocationStatus_DynamicTasks <$> WorkflowInvocation_Status inv') =
                 (WorkflowInvocationStatus_DynamicTasks <$> WorkflowInvocation_Status inv);
  same_created : (WorkflowInvocation_Metadata inv' ≫= ObjectMetadata_CreatedAt) =
                 (WorkflowInvocation_Metadata inv ≫= ObjectMetadata_CreatedAt) }.

Lemma same_workflow inv inv' : same_tasks inv inv' →
  WorkflowInvocation_Workflow inv' = WorkflowInvocation_Workflow inv.
Proof. intros [Hs _ _ _]. unfold WorkflowInvocation_Workflow. by rewrite Hs. Qed.

Lemma same_view inv inv' t : same_tasks inv inv' → inv_task_view inv' t = inv_task_view inv t.
Proof.
  intros Hs. unfold inv_task_view. rewrite (same_workflow _ _ Hs). pose proof (same_dynamic _ _ Hs) as Hd.
  destruct (WorkflowInvocation_Status inv') as [st'|], (WorkflowInvocation_Status inv) as [st|]; try done.
  injection Hd as Hd. cbn. by rewrite Hd.
Qed.

Lemma snapshot_depends R σ inv a b : snapshot_ok R σ inv → Scheduler.waits inv a b ↔ depends a b.
Proof.
  intros Hok. assert (∀ t, reqs inv t = requires t) as Hr
    by (intros t; unfold reqs, requires; by rewrite (snapshot_view _ _ _ Hok)).
  unfold Scheduler.waits, depends. by rewrite !Hr.
Qed.

Lemma same_snapshot R R' σ σ' inv inv' : snapshot_ok R σ inv → same_tasks inv inv' → invocation_wf inv' →
  WI_status inv' = σ' → (∀ t, is_Some (run_of inv' t) ↔ is_Some (R' !! t)) →
  (∀ t, is_Some (R' !! t) → run_finished inv' t) → (∀ t, run_succeeded inv' t ↔ R' !! t = Some true) →
  snapshot_ok R' σ' inv'.
Proof.
  intros [[Hsch Hw Hd] Hid _ Hv _ _ _ Hdl] Hs Hwf Hst Hr Hf Hsu.
  assert (∀ t, reqs inv' t = reqs inv t) as Hrq by (intros t; unfold reqs; by rewrite (same_view _ _ _ Hs)).
  destruct Hsch as [_ _ Hsp Hse Hha].
  split; [split; [split|..]|..]; try done.
  - intros t r Hrun. destruct (Hf t) as (r' & Hrun' & Hfin); [apply Hr; by eexists|].
    rewrite Hrun in Hrun'. injection Hrun' as <-. intros Hu. rewrite Hu in Hfin.
    repeat (apply elem_of_cons in Hfin as [?|Hfin]; [done|]). by apply not_elem_of_nil in Hfin.
  - intros t task. rewrite (same_view _ _ _ Hs). apply Hsp.
  - intros t. rewrite Hrq. apply Hse.
  - intros x y Hx Hy. apply Hha; [destruct Hx as [Hx|[t Hx]]|destruct Hy as [Hy|[t Hy]]];
      rewrite ?(same_view _ _ _ Hs), ?Hrq in *; eauto.
  - by rewrite (same_workflow _ _ Hs).
  - intros st Hst'. pose proof (same_dynamic _ _ Hs) as Hdyn. rewrite Hst' in Hdyn.
    destruct (WorkflowInvocation_Status inv) as [st0|]; [|done]. injection Hdyn as Hdyn. rewrite Hdyn. by apply Hd.
  - by rewrite (same_id _ _ Hs).
  - intros t. rewrite (same_view _ _ _ Hs). apply Hv.
  - rewrite <- Hdl. unfold invocation_deadline. by rewrite (same_spec _ _ Hs), (same_created _ _ Hs).
Qed.

Lemma sound_event ev agg p m : made ev agg p m →
  match m with TaskStarted _ | InvocationCreated _ => False | _ => True end → event_sound ev.
Proof.
  intros [_ _ Hp _] Hm. split.
  - intros sp a Hp'. rewrite Hp in Hp'. by injection Hp' as ->.
  - intros spec wf Hp'. rewrite Hp in Hp'. by injection Hp' as ->.
Qed.

(** The outcome of a task gives it its run. *)
Lemma history_outcome R σ es t ev : history_ok R σ es → outcome id t ev →
  ∃ ok, history_ok (<[t := ok]> R) σ (es ++ [ev]).
Proof.
  intros Hes [r Hm]. exists (bool_decide (TaskInvocationStatus_Status_ r = TaskInvocationStatus_SUCCEEDED)).
  intros now. destruct (Hes now) as (inv & Hp & Hok). rewrite (project_invocation_snoc _ _ _ _ _ Hp).
  assert (GetAggregate (EInvocation inv) = k) as Hagg.
  { unfold GetAggregate, NewInvocationAggregate. cbn. by rewrite (snapshot_id _ _ _ Hok). }
  destruct (project_outcome now inv ev k t r (project_invocation_ok _ _ _ _ Hp) Hagg Hm) as (inv' & Hp' & Hfin & Hsucc).
  exists inv'. split; [done|]. pose proof (snapshot_evaluable _ _ _ Hok) as Hev.
  assert (invocation_wf inv') as Hwf.
  { eapply WorkflowInvocation_project_wf; [|apply (sched_wf _ (eval_schedulable _ _ Hev))|exact Hp'].
    eapply sound_event; [exact Hm|]. unfold outcome_payload. by case_decide. }
  assert (∃ st t', WorkflowInvocation_Status inv = Some st ∧ inv' = WorkflowInvocation_with_Status inv
    (Some (WIStatus_with_Tasks st (<[t := t']> (WorkflowInvocationStatus_Tasks st))))) as (st & t' & Hst & ->).
  { unfold WorkflowInvocation_project in Hp'. rewrite (made_aggregate _ _ _ _ Hm) in Hp'. cbn [deref] in Hp'.
    rewrite bind_Ret_l, decide_True in Hp' by done.
    apply applyTaskEvent_inv in Hp' as (a & st & t0 & t' & Ha & _ & Hst & _ & _ & ->).
    rewrite (made_aggregate _ _ _ _ Hm) in Ha. injection Ha as <-. eauto. }
  assert (∀ t2, run_of (WorkflowInvocation_with_Status inv (Some (WIStatus_with_Tasks st
    (<[t := t']> (WorkflowInvocationStatus_Tasks st))))) t2 = if decide (t2 = t) then Some t' else run_of inv t2) as Hrun.
  { intros t2. unfold run_of, WI_task. rewrite Hst. cbn.
    case_decide as Ht; [subst; by rewrite lookup_insert_eq|by rewrite lookup_insert_ne]. }
  apply (same_snapshot R _ σ σ inv); [done| |done| | | |].
  - split; [done|done| |done]. cbn. by rewrite Hst.
  - rewrite <- (snapshot_status _ _ _ Hok). unfold WI_status. by rewrite Hst.
  - intros t2. rewrite Hrun. case_decide as Ht; [subst; rewrite lookup_insert_eq; split; by eexists|].
    rewrite lookup_insert_ne by done. by apply snapshot_runs with (R := R) (σ := σ).
  - intros t2. destruct (decide (t2 = t)) as [->|Ht]; [done|]. rewrite lookup_insert_ne by done.
    intros Hin. destruct (snapshot_finished _ _ _ Hok t2 Hin) as (r2 & Hr2 & Hf). exists r2. by rewrite Hrun, decide_False.
  - intros t2. destruct (decide (t2 = t)) as [->|Ht].
    + rewrite lookup_insert_eq, Hsucc. case_bool_decide; naive_solver.
    + rewrite lookup_insert_ne, <- (snapshot_succeeded _ _ _ Hok) by done. unfold run_succeeded. by rewrite Hrun, decide_False.
Qed.

(** The end of the invocation. *)
Definition end_status (c : invocation_call) : option WorkflowInvocationStatus_Status :=
  match c with
  | CallComplete _ _ => Some WorkflowInvocationStatus_SUCCEEDED
  | CallFail _ => Some WorkflowInvocationStatus_FAILED
  | _ => None
  end.

Lemma history_call R σ σ' es c ev : history_ok R σ es → end_status c = Some σ' →
  made ev k None (call_payload c) → history_ok R σ' (es ++ [ev]).
Proof.
  intros Hes Hc Hm now. destruct (Hes now) as (inv & Hp & Hok). rewrite (project_invocation_snoc _ _ _ _ _ Hp).
  destruct (project_call now inv id c ev (project_invocation_ok _ _ _ _ Hp) Hm) as (md & st & Hmd & Hst & Hp').
  rewrite Hp'. eexists. split; [done|]. pose proof (snapshot_evaluable _ _ _ Hok) as Hev.
  set (inv' := MkWorkflowInvocation _ _ _) in *.
  assert (invocation_wf inv') as Hwf.
  { eapply WorkflowInvocation_project_wf; [|apply (sched_wf _ (eval_schedulable _ _ Hev))|exact Hp'].
    eapply sound_event; [exact Hm|]. by destruct c. }
  assert (WorkflowInvocation_ID inv' = WorkflowInvocation_ID inv) as Hid.
  { unfold WorkflowInvocation_ID. cbn. by rewrite Hmd. }
  assert (∀ t, run_of inv' t = run_of inv t) as Hrun.
  { intros t. unfold run_of, WI_task, inv'. rewrite Hst. cbn. by destruct c. }
  apply (same_snapshot R _ σ σ' inv); [done| |done| | | |].
  - split; [done|done| |cbn; by rewrite Hmd]. unfold inv'. rewrite Hst. cbn. by destruct c.
  - unfold WI_status, inv'. by destruct c; simplify_eq/=.
  - intros t. rewrite Hrun. by apply snapshot_runs with (R := R) (σ := σ).
  - intros t Hin. destruct (snapshot_finished _ _ _ Hok t Hin) as (r & Hr & Hf). exists r. by rewrite Hrun.
  - intros t. rewrite <- (snapshot_succeeded _ _ _ Hok). unfold run_succeeded. by rewrite Hrun.
Qed.
End snapshots.

(** ** The closures of a round *)

Section rounds.
Context {B : Type} `{EventStoreLaws B} `{!ScopeStore B} `{!ScopeStoreLaws B} `{MapRange} `{Proto} `{PTypes}.
Context `{DirectedGraphLaws} `{Mergo} `{Otto Scope}.
Context {Ctx : Type} (Background : Ctx) (Inject : Ctx → gmap string string → gmap string string).
Context (WithDeadline : Ctx → Z → Ctx) (ContextWithSpan : Ctx → Ctx).
Context (runtime : gmap string (Runtime (B := B) (Ctx := Ctx))) (policy : Policy) (fuel : nat).
Context (resolveFn : string → res goerror FnRef) (id : string) (id_given : id ≠ "").
Context (V : string → option Data.Task) (deadline : Z).
Context (plain : plain_runtimes runtime id) (faithful : codec_faithful).
Notation k := (NewInvocationAggregate id).
Notation closure := (closure Background Inject WithDeadline ContextWithSpan runtime fuel resolveFn).
Notation history_ok := (history_ok fuel id V deadline).
Notation snapshot_ok := (snapshot_ok fuel id V deadline).
Notation engine_round := (engine_round Background Inject WithDeadline ContextWithSpan runtime policy fuel resolveFn id).
Notation engine_rounds := (engine_rounds Background Inject WithDeadline ContextWithSpan runtime policy fuel resolveFn id).
Implicit Types (inv : WorkflowInvocation) (R : gmap string bool) (ts : list (Executor.Task (A := action))).

(** A closure that runs a task, or ends the invocation, recorded that it did. *)
Definition recorded (r : XTask * B * B) : Prop :=
  match Executor.Apply r.1.1 with
  | ActExecTask _ _ | ActFail _ _ | ActComplete _ _ _ => b_stream r.1.2 k ≠ b_stream r.2 k
  | _ => True
  end.

#[export] Instance recorded_dec r : Decision (recorded r).
Proof. unfold recorded. destruct (Executor.Apply r.1.1); apply _. Defined.

Definition task_runs ts : list string :=
  omap (λ t, match Executor.Apply t with ActExecTask _ taskID => Some taskID | _ => None end) ts.

Lemma executed_run_tasks now uid i ts b : executed (run_tasks (closure now uid i) ts b).2 = task_runs ts.
Proof.
  unfold executed, task_runs. revert b. induction ts as [|t ts IH]; intros b; [done|]. cbn [run_tasks].
  specialize (IH (executeTask (closure now uid i) t b)). destruct (run_tasks _ ts _) as [b' ran]. cbn in *.
  unfold executed_task at 1. cbn. by rewrite IH.
Qed.

Lemma accepted_all ts : accepted_runs ((λ t, (t, true)) <$> ts) = task_runs ts.
Proof.
  unfold accepted_runs, task_runs. induction ts as [|t ts IH]; [done|]. cbn. rewrite IH. unfold accepted_run. cbn.
  by destruct (Executor.Apply t).
Qed.

Lemma task_runs_app ts ts' : task_runs (ts ++ ts') = task_runs ts ++ task_runs ts'.
Proof. apply omap_app. Qed.
Lemma task_runs_prewarm inv s : task_runs (prewarm_tasks inv s) = [].
Proof. unfold prewarm_tasks, task_runs. generalize (Schedule_PrepareTasks s) at 2. intros l. by induction l. Qed.
Lemma task_runs_run inv ids : task_runs (run_task inv <$> ids) = ids.
Proof. unfold task_runs. induction ids as [|t ids IH]; [done|]. cbn. by rewrite IH. Qed.

Lemma run_tasks_app now uid i ts ts' b :
  run_tasks (closure now uid i) (ts ++ ts') b =
  let '(b1, ran) := run_tasks (closure now uid i) ts b in
  let '(b2, ran') := run_tasks (closure now uid i) ts' b1 in (b2, ran ++ ran').
Proof.
  revert b. induction ts as [|t ts IH]; intros b; cbn [run_tasks app]; [by destruct (run_tasks _ ts' b)|].
  rewrite IH. destruct (run_tasks _ ts _) as [b1 ran]. by destruct (run_tasks _ ts' b1).
Qed.

(** Tasks that leave the history alone. *)
Lemma run_silent now uid i ts b : (∀ t, t ∈ ts → silent id (closure now uid i (Executor.Apply t))) → b_ok b →
  b_ok (run_tasks (closure now uid i) ts b).1 ∧ b_stream (run_tasks (closure now uid i) ts b).1 k = b_stream b k.
Proof.
  revert b. induction ts as [|t ts IH]; intros b Hts Hb; [done|]. cbn [run_tasks].
  destruct (Hts t ltac:(by left) b Hb) as [Hb' Hs]. unfold executeTask.
  destruct (IH _ (λ t' Ht', Hts t' (list_elem_of_further _ _ _ Ht')) Hb') as [Hb2 Hs2].
  destruct (run_tasks _ ts _) as [b2 ran]. cbn in *. by rewrite Hs2.
Qed.

(** Tasks of the workflow: the history gains their outcomes. *)
Lemma run_runs now uid i inv R0 σ ids b : snapshot_ok R0 σ inv → b_ok b →
  ∀ R, history_ok R σ (b_stream b k) →
  let '(b', ran) := run_tasks (closure now uid i) (run_task inv <$> ids) b in
  b_ok b' ∧ ∃ R', history_ok R' σ (b_stream b' k) ∧ (∀ t, is_Some (R !! t) → is_Some (R' !! t)) ∧
    (∀ t, t ∉ ids → R' !! t = R !! t) ∧
    (Forall recorded ran → ∀ t, t ∈ ids → is_Some (R' !! t)).
Proof.
  intros Hok. revert b. induction ids as [|t ids IH]; intros b Hb R HR; cbn [fmap list_fmap run_tasks].
  { split; [done|]. exists R. split_and!; try done. by intros _ t ?%not_elem_of_nil. }
  pose proof (snapshot_evaluable _ _ _ _ _ _ _ Hok) as Hev. unfold executeTask. cbn [Executor.Apply run_task new_task].
  destruct (records_execTask Background Inject WithDeadline ContextWithSpan runtime fuel id id_given plain faithful now uid inv t
    (sched_wf _ (eval_schedulable _ _ Hev)) (snapshot_id _ _ _ _ _ _ _ Hok) (eval_workflow _ _ Hev) b Hb) as [Hb1 Hst].
  set (b1 := (closure now uid i (ActExecTask inv t) b).2).
  assert (∃ R1, history_ok R1 σ (b_stream b1 k) ∧ (∀ t', is_Some (R !! t') → is_Some (R1 !! t')) ∧
    (∀ t', t' ≠ t → R1 !! t' = R !! t') ∧ (b_stream b k ≠ b_stream b1 k → is_Some (R1 !! t))) as (R1 & HR1 & Hle1 & Hoth1 & Hrec1).
  { destruct Hst as [Hst|(ev & Hev' & Hst)].
    - exists R. split_and!; [|done|done|].
      + unfold b1, Engine.closure. cbn [run_action]. by rewrite Hst.
      + intros Hne. destruct Hne. unfold b1, Engine.closure. cbn [run_action]. by rewrite Hst.
    - destruct (history_outcome _ _ _ _ R σ _ t ev HR Hev') as [ok Hok']. exists (<[t := ok]> R). split_and!.
      + unfold b1, Engine.closure. cbn [run_action]. by rewrite Hst.
      + intros t' Ht'. apply lookup_insert_is_Some'. by right.
      + intros t' Ht'. by rewrite lookup_insert_ne.
      + intros _. rewrite lookup_insert_eq. by eexists. }
  specialize (IH b1 Hb1 R1 HR1). destruct (run_tasks _ (run_task inv <$> ids) b1) as [b' ran].
  destruct IH as (Hb' & R' & HR' & Hle & Hoth & Hrec). split; [done|]. exists R'. split_and!; [done|by auto| |].
  - intros t' Hnot. apply not_elem_of_cons in Hnot as [Hne Hnot]. by rewrite Hoth, Hoth1.
  - intros [Hr Hran]%Forall_cons t' [->|Hin]%elem_of_cons; [|by apply Hrec]. by apply Hle, Hrec1.
Qed.

(** The end of the invocation. *)
Lemma run_end now uid i R σ σ' c a t b : history_ok R σ (b_stream b k) → b_ok b → end_status c = Some σ' →
  closure now uid i a = run_call now id c → Executor.Apply t = a →
  match a with ActFail _ _ | ActComplete _ _ _ => True | _ => False end →
  let '(b', ran) := run_tasks (closure now uid i) [t] b in
  b_ok b' ∧ ((b_stream b' k = b_stream b k ∧ ¬ Forall recorded ran) ∨ history_ok R σ' (b_stream b' k)).
Proof.
  intros HR Hb Hc Ha Ht Hend. cbn [run_tasks]. unfold executeTask. rewrite Ht.
  destruct (records_call id now c faithful ltac:(by destruct c) b Hb) as [Hb' Hst]. rewrite Ha. split; [done|].
  destruct Hst as [Hst|(ev & Hev & Hst)]; [left|right].
  - split; [done|]. intros [Hr _]%Forall_cons. unfold recorded in Hr. cbn in Hr. rewrite Ht in Hr. destruct a; try done; by rewrite Ha in Hr.
  - rewrite Hst. by eapply history_call.
Qed.

(** ** The decision of a round *)

(** The identifiers of the tasks; no task waits for itself, not even through others; the executor
    takes them all. *)
Context (T : list string) (T_spec : ∀ t, t ∈ T ↔ is_Some (V t)) (capacity : Z).
Context (room : (Z.of_nat (max 1 (length T)) ≤ capacity)%Z).
Definition waits_in (a b : string) : Prop := is_Some (V a) ∧ is_Some (V b) ∧ depends V a b.
Context (acyclic : ∀ t, ¬ tc waits_in t t).

Lemma snapshot_open R σ inv t : snapshot_ok R σ inv → open inv t ↔ is_Some (V t) ∧ R !! t = None.
Proof.
  intros Hok. unfold open. rewrite (snapshot_view _ _ _ _ _ _ _ Hok), !eq_None_not_Some.
  by rewrite (snapshot_runs _ _ _ _ _ _ _ Hok).
Qed.

Lemma snapshot_waits R σ inv t : snapshot_ok R σ inv → ¬ tc (open_waits inv) t t.
Proof.
  intros Hok Ht. apply (acyclic t). revert Ht. generalize t at 1 3. intros x. induction 1 as [x y Hw|x y z Hw _ IH].
  all: assert (waits_in x y) by (destruct Hw as ((Hx & _) & (Hy & _) & Hw);
    rewrite (snapshot_view _ _ _ _ _ _ _ Hok) in Hx, Hy; split_and!; [done|done|];
    by eapply snapshot_depends).
  - by apply tc_once.
  - by eapply tc_l.
Qed.

Lemma Policy_length now R σ inv s : snapshot_ok R σ inv → ¬ has_failed inv → Policy_Evaluate policy now inv = Ret s →
  NoDup (run_ids s) ∧ NoDup (prepare_ids s) ∧ length (prepare_ids s) + length (run_ids s) ≤ length T.
Proof.
  intros Hok Hno Hev. pose proof (snapshot_evaluable _ _ _ _ _ _ _ Hok) as He.
  destruct (Policy_spec policy now inv (eval_schedulable _ _ He) Hno) as (s' & Hev' & _ & Hnd & Hr & Hnd' & Hp).
  rewrite Hev in Hev'. injection Hev' as <-. split_and!; [done|done|]. rewrite <- length_app.
  assert (∀ t, t ∈ prepare_ids s → open inv t ∧ ¬ on_horizon inv t) as Hp' by (intros t Ht%Hp; by destruct policy; naive_solver).
  apply submseteq_length, NoDup_submseteq.
  - apply NoDup_app. split_and!; [done| |done]. intros t [_ Hn]%Hp' Ht. by apply Hn, Hr.
  - intros t [[Ht _]%Hp'|[Ht _]%Hr]%elem_of_app; apply T_spec; by apply (snapshot_open _ _ _ _ Hok) in Ht as [? _].
Qed.

Lemma judged_loadable now R σ inv c ex r ts : snapshot_ok R σ inv → judged policy now inv c ex r ts →
  NoDup (getKey <$> ts) ∧ (∀ t, t ∈ ts → GroupID t = Some id) ∧ (Z.of_nat (length ts) ≤ capacity)%Z.
Proof.
  intros Hok Hj. pose proof (snapshot_id _ _ _ _ _ _ _ Hok) as Hid.
  destruct Hj as [| | |err|msg out h|msg s _ _ _ _ Hno Hev].
  1-3: split_and!; [apply NoDup_nil_2|by intros t ?%not_elem_of_nil|cbn; lia].
  1-2: split_and!; [apply NoDup_singleton| |cbn; lia]; intros t ->%list_elem_of_singleton; cbn; by rewrite Hid.
  destruct (Policy_length now R σ inv s Hok Hno Hev) as (Hr & Hp & Hlen).
  assert (∀ a b x y, a +:+ b +:+ x = a +:+ b +:+ y → x = y) as Happ by (intros a b x y Heq; by simplify_eq).
  match goal with |- NoDup ?l ∧ _ => assert (l = ((λ t, inl (id +:+ ".prewarm." +:+ t)) <$> prepare_ids s) ++
    ((λ t, inl (id +:+ ".run." +:+ t)) <$> run_ids s)) as -> end.
  { rewrite fmap_app. unfold prewarm_tasks, prepare_ids. rewrite <- !list_fmap_compose.
    f_equal; apply list_fmap_ext; intros _ a _; cbn; by rewrite Hid. }
  split_and!.
  - apply NoDup_app. split_and!.
    + apply NoDup_fmap_2; [|done]. intros x y [= Heq]. by apply Happ in Heq.
    + intros k' (x & -> & _)%list_elem_of_fmap (y & Heq & _)%list_elem_of_fmap. injection Heq as Heq. by simplify_eq.
    + apply NoDup_fmap_2; [|done]. intros x y [= Heq]. by apply Happ in Heq.
  - intros t [Ht|Ht]%elem_of_app; apply list_elem_of_fmap in Ht as (x & -> & _); cbn; by rewrite Hid.
  - rewrite length_app, length_fmap. unfold prewarm_tasks. rewrite length_fmap.
    unfold prepare_ids in Hlen. rewrite length_fmap in Hlen. lia.
Qed.

(** ** The engine between its rounds *)

(** The tasks [started] were started, the history shows the runs [R] and the state [σ], and nothing is
    left to execute. *)
Record engine_ok (started : list string) R σ (e : Engine) : Prop := {
  engine_ok_world : b_ok (engine_world e);
  engine_ok_history : history_ok R σ (b_stream (engine_world e) k);
  engine_ok_id : invocationID (engine_controller e) = id;
  engine_ok_errors : errorCount (engine_controller e) = 0%Z;
  engine_ok_started t : is_Some (startedTasks (engine_controller e) !! t) ↔ t ∈ started;
  engine_ok_pool : loaded id capacity [] (engine_pool e);
  engine_ok_runs t : is_Some (R !! t) → t ∈ started }.

Lemma loaded_idle (ex : Pool) : loaded id capacity [] ex → GetGroupTasks ex id = 0%Z.
Proof. apply (loaded_count id capacity []). Qed.

Lemma round_judged now uid i started R σ e : engine_ok started R σ e →
  ∃ inv r ts b c ex, snapshot_ok R σ inv ∧
    judged policy now inv (engine_controller e) (engine_pool e) r ts ∧
    b_ok b ∧ history_ok R σ (b_stream b k) ∧
    (let '(b', ran) := run_tasks (closure now uid i) ts b in
     engine_round now uid i e = Some (MkEngine b' c ex, ran)) ∧
    invocationID c = id ∧ errorCount c = 0%Z ∧ loaded id capacity [] ex ∧
    ∀ t, is_Some (startedTasks c !! t) ↔ t ∈ task_runs ts ∨ t ∈ started.
Proof.
  intros [Hw Hh Hid Herr Hst Hpool Hruns]. unfold Engine.engine_round.
  pose proof (b_Get_spec k (engine_world e) Hw) as Hg. destruct (b_Get k (engine_world e)) as [r0 b].
  destruct Hg as (-> & Hb & Hs); [by split|]. destruct (Hh now) as (inv & Hp & Hok).
  rewrite bind_Ret_l, Hp.
  destruct (judged_evaluation policy fuel now (snapshot_event k inv) inv (engine_controller e) (engine_pool e)
    (snapshot_evaluable _ _ _ _ _ _ _ Hok) eq_refl) as (r & ts & Hj & Hev);
    [by rewrite (snapshot_id _ _ _ _ _ _ _ Hok)|].
  destruct (judged_loadable now R σ inv _ _ r ts Hok Hj) as (Hnd & Hgr & Hcap).
  destruct (submit_all_loaded id capacity now ts [] (engine_pool e) Hpool Hnd Hgr Hcap) as (ex1 & Hsub & Hl1).
  destruct (drain_loaded (closure now uid i) id capacity ts ex1 b Hl1) as (ex2 & Hd & Hl2).
  exists inv, r, ts, b, (with_startedTasks (marked (startedTasks (engine_controller e)) ((λ t, (t, true)) <$> ts))
    (engine_controller e)), ex2.
  split_and!; [done|done|done|by rewrite Hs| |done|done|done|].
  - destruct (run_tasks (closure now uid i) ts b) as [b' ran] eqn:Hrt. rewrite Hev. unfold after_submits.
    rewrite Hsub, (loaded_queue _ _ _ _ Hl1), length_fmap. cbn [app]. by rewrite Hd.
  - intros t. cbn [startedTasks with_startedTasks]. rewrite marked_lookup, accepted_all. by rewrite Hst.
Qed.

(** ** What a round achieves *)

Definition going (σ : WorkflowInvocationStatus_Status) : Prop := σ ∉ invocationFinalStates.

(** The invocation ended for a reason: every task succeeded; or it failed, and one of its tasks did not
    succeed or it was too [late]. *)
Definition ended (late : Prop) R (σ : WorkflowInvocationStatus_Status) : Prop :=
  (σ = WorkflowInvocationStatus_SUCCEEDED ∧ ∀ t, is_Some (V t) → R !! t = Some true) ∨
  (σ = WorkflowInvocationStatus_FAILED ∧ ((∃ t, R !! t = Some false) ∨ late)).

Lemma ended_final late R σ : ended late R σ → ¬ going σ.
Proof. by intros [[-> _]|[-> _]] Hn; apply Hn; repeat constructor. Qed.

Lemma snapshot_run_finished R σ inv t : snapshot_ok R σ inv → run_finished inv t ↔ is_Some (R !! t).
Proof.
  intros Hok. split; [|apply (snapshot_finished _ _ _ _ _ _ _ Hok)].
  intros (r & Hr & _). apply (snapshot_runs _ _ _ _ _ _ _ Hok). by eexists.
Qed.

Lemma snapshot_unsuccessful R σ inv t : snapshot_ok R σ inv → is_Some (R !! t) → ¬ run_succeeded inv t → R !! t = Some false.
Proof.
  intros Hok [[] Hr] Hn; [|done]. destruct Hn. by apply (snapshot_succeeded _ _ _ _ _ _ _ Hok).
Qed.

(** Why the controller fails an invocation, in terms of the history. *)
Lemma failure_ended now R σ inv c err : snapshot_ok R σ inv → errorCount c = 0%Z → failure now inv c err →
  ended (deadline < now)%Z R WorkflowInvocationStatus_FAILED.
Proof.
  intros Hok Herr Hf. right. split; [done|]. pose proof (snapshot_deadline _ _ _ _ _ _ _ Hok) as Hd.
  destruct Hf as [Hn|d Hd' Hlt|Hgt|Hall Hns|t r Hall Hrun Hst].
  - congruence.
  - right. congruence.
  - lia.
  - left. destruct (decide (Exists (λ t, ¬ run_succeeded inv t) T)) as [(t & Ht & Hn)%Exists_exists|Hnone].
    + exists t. apply (snapshot_unsuccessful _ _ _ _ Hok); [|done].
      apply (snapshot_run_finished _ _ _ _ Hok), Hall. rewrite (snapshot_view _ _ _ _ _ _ _ Hok). by apply T_spec.
    + destruct Hns. intros t Ht. apply dec_stable. intros Hn. apply Hnone, Exists_exists. exists t. split; [|done].
      apply T_spec. by rewrite <- (snapshot_view _ _ _ _ _ _ _ Hok).
  - left. exists t. apply (snapshot_unsuccessful _ _ _ _ Hok).
    + apply (snapshot_runs _ _ _ _ _ _ _ Hok). by eexists.
    + intros (r' & Hr' & Hs). congruence.
Qed.

(** A schedule runs tasks that were not started, of which there are some unless all have finished, and which
    wait only for tasks that have finished. *)
Lemma schedule_runs now (started : list string) R σ inv s : snapshot_ok R σ inv → ¬ has_failed inv → Policy_Evaluate policy now inv = Ret s →
  (∀ t, t ∈ started → is_Some (R !! t)) →
  NoDup (run_ids s) ∧
  (∀ t, t ∈ run_ids s → is_Some (V t) ∧ t ∉ started ∧ ∀ a, is_Some (V a) → depends V a t → is_Some (R !! a)) ∧
  (¬ all_finished inv → run_ids s ≠ []).
Proof.
  intros Hok Hno Hev Hst. pose proof (eval_schedulable _ _ (snapshot_evaluable _ _ _ _ _ _ _ Hok)) as Hs.
  destruct (Policy_spec policy now inv Hs Hno) as (s' & Hev' & _ & Hnd & Hr & _). rewrite Hev in Hev'. injection Hev' as <-.
  split_and!; [done| |].
  - intros t [Ho Hw]%Hr. apply (snapshot_open _ _ _ _ Hok) in Ho as [Hv Hn]. split_and!; [done| |].
    + intros Hin%Hst. rewrite Hn in Hin. by destruct Hin.
    + intros a Ha Hd. destruct (R !! a) eqn:HRa; [by eexists|]. destruct (Hw a); [by apply (snapshot_open _ _ _ _ Hok)|].
      by apply (snapshot_depends _ _ _ _ _ _ _ _ _ Hok).
  - intros Hall Hnil. destruct (decide (Exists (λ t, ¬ is_Some (R !! t)) T)) as [(t & Ht & Hn)%Exists_exists|Hnone].
    + destruct (Policy_runs policy now inv Hs Hno) as (s' & t' & Hev' & Hrun).
      { intros x. by eapply snapshot_waits. }
      { exists t. apply (snapshot_open _ _ _ _ Hok). split; [by apply T_spec|by apply eq_None_not_Some]. }
      rewrite Hev in Hev'. injection Hev' as <-. rewrite Hnil in Hrun. by apply not_elem_of_nil in Hrun.
    + apply Hall. intros t Ht. rewrite (snapshot_view _ _ _ _ _ _ _ Hok) in Ht. apply (snapshot_run_finished _ _ _ _ Hok).
      apply dec_stable. intros Hn. apply Hnone, Exists_exists. exists t. split; [by apply T_spec|done].
Qed.

(** The history after a round in which the tasks [ids] of the workflow ran; [settled]: every closure recorded
    its outcome, and the runs of the tasks that were started before are known. *)
Record round_effect (now : Z) (started ids : list string) R σ (settled : Prop) b' R' σ' : Prop := {
  effect_history : history_ok R' σ' (b_stream b' k);
  effect_runs t : is_Some (R' !! t) → t ∈ started ++ ids;
  effect_settled : settled →
    (∀ t, is_Some (R !! t) → is_Some (R' !! t)) ∧ (∀ t, t ∈ ids → is_Some (R' !! t)) ∧
    (going σ → (going σ' ∧ ids ≠ []) ∨ ended (deadline < now)%Z R' σ') ∧
    (¬ going σ → R' = R ∧ σ' = σ) }.

(** Nothing was submitted: the invocation has ended, or a run is missing. *)
Lemma effect_nothing now started R σ (settled : Prop) b : history_ok R σ (b_stream b k) →
  (∀ t, is_Some (R !! t) → t ∈ started) → (settled → ¬ going σ) →
  round_effect now started [] R σ settled b R σ.
Proof.
  intros Hh Hr Hs. split; [done|intros t Ht; rewrite app_nil_r; by apply Hr|]. intros Hset.
  split_and!; [done|by intros t ?%not_elem_of_nil|by intros ?%(Hs Hset)|done].
Qed.

(** The end of the invocation was submitted. *)
Lemma effect_end now uid i started R σ σ' c a t b : history_ok R σ (b_stream b k) → b_ok b → end_status c = Some σ' →
  closure now uid i a = run_call now id c → Executor.Apply t = a →
  match a with ActFail _ _ | ActComplete _ _ _ => True | _ => False end →
  (∀ t, is_Some (R !! t) → t ∈ started) → going σ → ended (deadline < now)%Z R σ' →
  let '(b', ran) := run_tasks (closure now uid i) [t] b in
  b_ok b' ∧ ∃ R' σ', round_effect now started [] R σ (Forall recorded ran ∧ ∀ t, t ∈ started → is_Some (R !! t)) b' R' σ'.
Proof.
  intros Hh Hb Hc Ha Ht Hend Hr Hg He. pose proof (run_end now uid i R σ σ' c a t b Hh Hb Hc Ha Ht Hend) as Hrun.
  destruct (run_tasks (closure now uid i) [t] b) as [b' ran]. destruct Hrun as [Hb' Hrun]. split; [done|].
  destruct Hrun as [[Hs Hn]|Hh'].
  - exists R, σ. apply effect_nothing; [by rewrite Hs|done|by intros [? _]].
  - exists R, σ'. split; [done|intros t' Ht'; rewrite app_nil_r; by apply Hr|]. intros _.
    split_and!; [done|by intros t' ?%not_elem_of_nil|by right|by intros ?].
Qed.

(** What the schedule lists was submitted. *)
Lemma effect_run now uid i started R σ inv s b : snapshot_ok R σ inv → b_ok b → history_ok R σ (b_stream b k) →
  (∀ t, is_Some (R !! t) → t ∈ started) → going σ → (∀ t, t ∈ run_ids s → t ∉ started) → run_ids s ≠ [] →
  let '(b', ran) := run_tasks (closure now uid i) (prewarm_tasks inv s ++ (run_task inv <$> run_ids s)) b in
  b_ok b' ∧ ∃ R' σ', round_effect now started (run_ids s) R σ (Forall recorded ran ∧ ∀ t, t ∈ started → is_Some (R !! t)) b' R' σ'.
Proof.
  intros Hok Hb Hh Hr Hg Hnew Hne. pose proof (snapshot_evaluable _ _ _ _ _ _ _ Hok) as He.
  destruct (run_silent now uid i (prewarm_tasks inv s) b) as [Hb1 Hs1]; [|done|].
  { intros t (a & -> & _)%list_elem_of_fmap.
    exact (silent_prepare_action runtime id plain now i inv _ (sched_wf _ (eval_schedulable _ _ He)) (eval_workflow _ _ He)). }
  rewrite run_tasks_app. destruct (run_tasks (closure now uid i) (prewarm_tasks inv s) b) as [b1 ran1]. cbn [fst] in *.
  rewrite <- Hs1 in Hh. pose proof (run_runs now uid i inv R σ (run_ids s) b1 Hok Hb1 R Hh) as Hrun.
  destruct (run_tasks _ (run_task inv <$> run_ids s) b1) as [b2 ran2]. destruct Hrun as (Hb2 & R' & Hh' & Hle & Hoth & Hrec).
  split; [done|]. exists R', σ. split; [done| |].
  - intros t Ht. apply elem_of_app. destruct (decide (t ∈ run_ids s)) as [|Hn]; [by right|left]. apply Hr. by rewrite <- Hoth.
  - intros [[_ Hran]%Forall_app _]. split_and!; [done|by apply Hrec|by left|by intros ?].
Qed.

(** What an evaluation calls for, and what comes of it. *)
Lemma judged_effect now uid i started R σ inv c ex r ts b : snapshot_ok R σ inv → judged policy now inv c ex r ts →
  b_ok b → history_ok R σ (b_stream b k) → GetGroupTasks ex id = 0%Z → errorCount c = 0%Z →
  (∀ t, is_Some (startedTasks c !! t) ↔ t ∈ started) → (∀ t, is_Some (R !! t) → t ∈ started) →
  let '(b', ran) := run_tasks (closure now uid i) ts b in
  b_ok b' ∧ NoDup (task_runs ts) ∧
  (∀ t, t ∈ task_runs ts → is_Some (V t) ∧ t ∉ started ∧ ∀ a, is_Some (V a) → depends V a t → is_Some (R !! a)) ∧
  ∃ R' σ', round_effect now started (task_runs ts) R σ (Forall recorded ran ∧ ∀ t, t ∈ started → is_Some (R !! t)) b' R' σ'.
Proof.
  intros Hok Hj Hb Hh Hg Herr Hst Hr. pose proof (snapshot_id _ _ _ _ _ _ _ Hok) as Hid.
  assert (terminal inv ↔ ¬ going σ) as Hterm.
  { unfold terminal, going. rewrite (snapshot_status _ _ _ _ _ _ _ Hok). split; [by intros ? []|apply dec_stable]. }
  assert (¬ terminal inv → going σ) as Hgo by (rewrite Hterm; apply dec_stable).
  assert (NoDup ([] : list string) ∧ ∀ t, t ∈ ([] : list string) → is_Some (V t) ∧ t ∉ started ∧
    ∀ a, is_Some (V a) → depends V a t → is_Some (R !! a)) as [Hnil1 Hnil2] by (split; [apply NoDup_nil_2|by intros t ?%not_elem_of_nil]).
  destruct Hj as [err Hbusy|t Hs Hn|msg Hi Ht|err Hi Ht Hf|msg out h Hi Ht _ Hall Hsucc _|msg s Hi Ht _ Hall Hno Hev].
  - rewrite Hid in Hbusy. lia.
  - split_and!; [done..|]. exists R, σ. apply effect_nothing; [done|done|]. intros [_ Hrs].
    destruct Hn. by apply (snapshot_run_finished _ _ _ _ Hok), Hrs, Hst.
  - split_and!; [done..|]. exists R, σ. apply effect_nothing; [done|done|]. intros _. by apply Hterm.
  - pose proof (effect_end now uid i started R σ _ (CallFail (err_text err)) (ActFail (WorkflowInvocation_ID inv) err) (fail_task inv err) b Hh Hb eq_refl
      ltac:(rewrite Hid; done) eq_refl I Hr (Hgo Ht) (failure_ended _ _ _ _ _ _ Hok Herr Hf)) as He.
    destruct He as [Hb' He]. by split_and!.
  - assert (ended (deadline < now)%Z R WorkflowInvocationStatus_SUCCEEDED) as Hend.
    { left. split; [done|]. intros t Hv. apply (snapshot_succeeded _ _ _ _ _ _ _ Hok), Hsucc.
      by rewrite (snapshot_view _ _ _ _ _ _ _ Hok). }
    pose proof (effect_end now uid i started R σ _ (CallComplete out h) (ActComplete (WorkflowInvocation_ID inv) out h) (success_task inv out h) b Hh Hb eq_refl
      ltac:(rewrite Hid; done) eq_refl I Hr (Hgo Ht) Hend) as He.
    destruct He as [Hb' He]. by split_and!.
  - assert (task_runs (prewarm_tasks inv s ++ (run_task inv <$> run_ids s)) = run_ids s) as ->
      by by rewrite task_runs_app, task_runs_prewarm, task_runs_run.
    destruct (schedule_runs now started R σ inv s Hok Hno Hev) as (Hnd & Hruns & Hne).
    { intros t Hin. apply (snapshot_run_finished _ _ _ _ Hok). apply Hi. by apply Hst. }
    pose proof (effect_run now uid i started R σ inv s b Hok Hb Hh Hr (Hgo Ht) ltac:(by intros t Hin; apply Hruns)
      (Hne Hall)) as He.
    destruct (run_tasks _ (prewarm_tasks inv s ++ _) b) as [b' ran]. destruct He as [Hb' He]. by split_and!.
Qed.

Lemma round_spec now uid i started R σ e : engine_ok started R σ e →
  ∃ e' ran R' σ', engine_round now uid i e = Some (e', ran) ∧ engine_ok (started ++ executed ran) R' σ' e' ∧
    NoDup (executed ran) ∧
    (∀ t, t ∈ executed ran → is_Some (V t) ∧ t ∉ started ∧ ∀ a, is_Some (V a) → depends V a t → a ∈ started) ∧
    round_effect now started (executed ran) R σ (Forall recorded ran ∧ ∀ t, t ∈ started → is_Some (R !! t))
      (engine_world e') R' σ'.
Proof.
  intros He. destruct (round_judged now uid i started R σ e He)
    as (inv & r & ts & b & c & ex & Hok & Hj & Hb & Hh & Hround & Hid & Herr & Hpool & Hst).
  pose proof (judged_effect now uid i started R σ inv _ _ r ts b Hok Hj Hb Hh (loaded_idle _ (engine_ok_pool _ _ _ _ He))
    (engine_ok_errors _ _ _ _ He) (engine_ok_started _ _ _ _ He) (engine_ok_runs _ _ _ _ He)) as Heff.
  pose proof (executed_run_tasks now uid i ts b) as Hex.
  destruct (run_tasks (closure now uid i) ts b) as [b' ran]. cbn [snd] in Hex. rewrite <- Hex in *.
  destruct Heff as (Hb' & Hnd & Hruns & R' & σ' & Heff). exists (MkEngine b' c ex), ran, R', σ'.
  split_and!; [done| |done| |done].
  - split; [done|by apply (effect_history _ _ _ _ _ _ _ _ _ Heff)|done|done| |done|by apply (effect_runs _ _ _ _ _ _ _ _ _ Heff)].
    intros t. cbn [engine_controller]. rewrite Hst, elem_of_app. tauto.
  - intros t Hin. destruct (Hruns t Hin) as (Hv & Hn & Hd). split_and!; [done|done|].
    intros a Ha Hda. by apply (engine_ok_runs _ _ _ _ He), Hd.
Qed.

(** ** Rounds *)

Lemma executed_app (ran ran' : list (XTask * B * B)) : executed (ran ++ ran') = executed ran ++ executed ran'.
Proof. apply omap_app. Qed.

Lemma ended_late (P Q : Prop) R σ : (P → Q) → ended P R σ → ended Q R σ.
Proof. unfold ended. tauto. Qed.

(** A task that comes after a round comes after what that round started. *)
Lemma ordered_app (l l' started : list string) :
  (∀ t, t ∈ l → ∀ a, is_Some (V a) → depends V a t → a ∈ started) →
  (∀ l1 t l2 a, l' = l1 ++ t :: l2 → is_Some (V a) → depends V a t → a ∈ (started ++ l) ++ l1) →
  ∀ l1 t l2 a, l ++ l' = l1 ++ t :: l2 → is_Some (V a) → depends V a t → a ∈ started ++ l1.
Proof.
  intros Hl Hl' l1 t l2 a Heq Ha Hd. apply app_eq_inv in Heq as [(m & -> & Heq)|(m & -> & Heq)].
  - destruct m as [|x m]; cbn [app] in Heq.
    + rewrite app_nil_r in Hl'. specialize (Hl' [] t l2 a (eq_sym Heq) Ha Hd). by rewrite app_nil_r in Hl'.
    + injection Heq as <- _. apply elem_of_app. left. apply (Hl t); [set_solver|done..].
  - specialize (Hl' m t l2 a Heq Ha Hd). by rewrite <- app_assoc in Hl'.
Qed.

Lemma rounds_spec (late : Prop) rounds started R σ e : engine_ok started R σ e →
  (∀ r, r ∈ rounds → (deadline < r.1.1)%Z → late) →
  ∃ e' ran R' σ', engine_rounds rounds e = Some (e', ran) ∧ engine_ok (started ++ executed ran) R' σ' e' ∧
    NoDup (executed ran) ∧ (∀ t, t ∈ executed ran → is_Some (V t) ∧ t ∉ started) ∧
    (∀ l1 t l2 a, executed ran = l1 ++ t :: l2 → is_Some (V a) → depends V a t → a ∈ started ++ l1) ∧
    (Forall recorded ran → (∀ t, t ∈ started → is_Some (R !! t)) →
      (ended late R σ → ended late R' σ') ∧
      (going σ → NoDup started → (∀ t, t ∈ started → is_Some (V t)) →
        length T < length rounds + length started → ended late R' σ')).
Proof.
  revert started R σ e. induction rounds as [|[[now uid] i] rounds IH]; intros started R σ e He Hlate.
  { exists e, [], R, σ. rewrite app_nil_r. split_and!; [done|done|apply NoDup_nil_2|by intros t ?%not_elem_of_nil| |].
    - intros l1 t l2 a Heq. by destruct l1.
    - intros _ _. split; [done|]. intros _ Hnd Hin Hlt. cbn in Hlt.
      assert (length started ≤ length T); [|lia]. apply submseteq_length, NoDup_submseteq; [done|]. intros t Ht. by apply T_spec, Hin. }
  destruct (round_spec now uid i started R σ e He) as (e1 & ran1 & R1 & σ1 & Hr1 & He1 & Hnd1 & Hruns1 & Heff).
  destruct (IH _ R1 σ1 e1 He1) as (e2 & ran2 & R2 & σ2 & Hr2 & He2 & Hnd2 & Hruns2 & Hord2 & Hset2).
  { intros r Hr. apply Hlate. by right. }
  exists e2, (ran1 ++ ran2), R2, σ2. rewrite executed_app. split_and!.
  - cbn [Engine.engine_rounds]. rewrite Hr1. cbn. by rewrite Hr2.
  - by rewrite app_assoc.
  - apply NoDup_app. split_and!; [done| |done]. intros t Ht1 Ht2. apply Hruns2 in Ht2 as [_ Hn]. apply Hn, elem_of_app. by right.
  - intros t [Ht|Ht]%elem_of_app; [apply Hruns1 in Ht as (? & ? & _); by split|].
    apply Hruns2 in Ht as [Hv Hn]. split; [done|]. intros Hs. apply Hn, elem_of_app. by left.
  - apply ordered_app; [|done]. intros t Ht. by apply Hruns1.
  - intros [Hrec1 Hrec2]%Forall_app Hst.
    destruct (effect_settled _ _ _ _ _ _ _ _ _ Heff (conj Hrec1 Hst)) as (Hle & Hnew & Hgo & Hstay).
    destruct (Hset2 Hrec2) as [Hend2 Hgo2]; [intros t [Ht|Ht]%elem_of_app; [by apply Hle, Hst|by apply Hnew]|]. split.
    + intros Hend. apply Hend2. by destruct (Hstay (ended_final _ _ _ Hend)) as [-> ->].
    + intros Hg Hnd Hin Hlt. cbn [length] in Hlt. destruct (Hgo Hg) as [[Hg1 Hne]|Hend].
      * apply Hgo2; [done| | |].
        -- apply NoDup_app. split_and!; [done| |done]. intros t Hs Ht. by apply Hruns1 in Ht as (_ & Hn & _).
        -- intros t [Ht|Ht]%elem_of_app; [by apply Hin|by apply Hruns1].
        -- rewrite length_app. destruct (executed ran1); [done|]. cbn [length]. lia.
      * apply Hend2. eapply ended_late; [|exact Hend]. apply (Hlate (now, uid, i)). by left.
Qed.

(** An invocation that was just created and its engine: no task was started. *)
Record engine_fresh (σ : WorkflowInvocationStatus_Status) (e : Engine) : Prop := {
  fresh_world : b_ok (engine_world e);
  fresh_history : history_ok ∅ σ (b_stream (engine_world e) k);
  fresh_going : going σ;
  fresh_control : engine_controller e = NewInvocationController id;
  fresh_pool : loaded id capacity [] (engine_pool e) }.

(** C1: Rounds of the engine never fail.  They start only tasks of the workflow, each at most
    once and after every task it waits for.  If every closure recorded its outcome and there were more rounds than tasks,
    the invocation has ended: the history shows that it and all its tasks succeeded, or that it failed and a
    task did not succeed or a round took place after the deadline. *)
Theorem engine_completes rounds σ e : engine_fresh σ e →
  ∃ e' ran, engine_rounds rounds e = Some (e', ran) ∧
    NoDup (executed ran) ∧ (∀ t, t ∈ executed ran → t ∈ T) ∧
    (∀ l1 t l2 a, executed ran = l1 ++ t :: l2 → a ∈ T → depends V a t → a ∈ l1) ∧
    (Forall recorded ran → length T < length rounds →
      ∃ R σ', history_ok R σ' (b_stream (engine_world e') k) ∧
        ended (∃ r, r ∈ rounds ∧ (deadline < r.1.1)%Z) R σ').
Proof.
  intros [Hw Hh Hg Hc Hp].
  destruct (rounds_spec (∃ r, r ∈ rounds ∧ (deadline < r.1.1)%Z) rounds [] ∅ σ e)
    as (e' & ran & R & σ' & Hr & He & Hnd & Hin & Hord & Hend).
  { split; [done|done|by rewrite Hc|by rewrite Hc| |done|].
    - intros t. rewrite Hc. cbn. rewrite lookup_empty. split; [by intros []|by intros ?%not_elem_of_nil].
    - intros t. rewrite lookup_empty. by intros []. }
  { intros r Hr Hlt. by exists r. }
  exists e', ran. split_and!; [done|done| | |].
  - intros t Ht. by apply T_spec, Hin.
  - intros l1 t l2 a Heq Ha Hd. apply (Hord l1 t l2 a Heq); [by apply T_spec|done].
  - intros Hrec Hlt. exists R, σ'. split; [apply (engine_ok_history _ _ _ _ He)|].
    apply Hend; [done|by intros t ?%not_elem_of_nil|done|apply NoDup_nil_2|by intros t ?%not_elem_of_nil|cbn; lia].
Qed.
End rounds.
