(* ===== verification/Store.v ===== *)
(** Component [pkg/api/store]: typed access to the caches of workflows and invocations,
    and the notifications they publish. *)

From stdpp Require Import base gmap strings list.
From S2P Require Import Prelude Data Types Fes Cache.

Section store.
Context {C : Type} `{CacheReaderWriter C}.

(** A cache answers with an entity or an error; an entity of another type is a bug of
    the cache, and panics. *)
(** [pkg/api/store/store.go:26-43] Workflows.GetWorkflow *)
Definition GetWorkflow (now : Z) (workflowID : string) : st C goerror Workflow :=
  entity ← c_GetAggregate now (MkAggregate workflowID TypeWorkflow);
  match entity with
  | EWorkflow wf => mret wf
  | _ => lift (Panic "aggregate type mismatch")
  end.

(** [pkg/api/store/store.go:82-99] Invocations.GetInvocation *)
Definition GetInvocation (now : Z) (invocationID : string) : st C goerror WorkflowInvocation :=
  entity ← c_GetAggregate now (MkAggregate invocationID TypeInvocation);
  match entity with
  | EInvocation wfi => mret wfi
  | _ => lift (Panic "aggregate type mismatch")
  end.

(** Looking an entity up with the reading side of a cache that keeps the laws never
    panics: it answers with the cached entity or an error. *)
Context `{!CacheLaws C}.

Lemma cached_type c k e :
  cache_ok c → cached c !! k = Some e → Entity_Type e = Aggregate_Type k ∧ Entity_ID e = Aggregate_Id k.
Proof. intros Hok Hk. apply cache_key in Hk as <-; [by split|done]. Qed.

Lemma GetInvocation_spec now id c :
  cache_ok c → id ≠ "" →
  let '(r, c') := GetInvocation now id c in
  cache_ok c' ∧ cached c' = cached c ∧
  match cached c !! MkAggregate id TypeInvocation with
  | Some (EInvocation inv) => r = Ret inv ∧ WorkflowInvocation_ID inv = id
  | _ => ∃ err, r = Throw err
  end.
Proof.
  intros Hok Hid. unfold GetInvocation.
  assert (aggregate_valid (MkAggregate id TypeInvocation)) as Hv by (by split).
  pose proof (c_Get_spec now _ c Hok Hv) as Hg.
  destruct (c_GetAggregate now (MkAggregate id TypeInvocation) c) as [r c'] eqn:Hc.
  destruct Hg as (Hok' & Hsame & Hr).
  destruct (cached c !! MkAggregate id TypeInvocation) as [e|] eqn:He.
  - subst r. rewrite (st_bind_Ret _ _ _ _ _ Hc).
    destruct (cached_type _ _ _ Hok He) as [Ht Hi]. by destruct e.
  - destruct Hr as (err & -> & _). rewrite (st_bind_Throw _ _ _ _ _ Hc). eauto.
Qed.

Lemma GetWorkflow_spec now id c :
  cache_ok c → id ≠ "" →
  let '(r, c') := GetWorkflow now id c in
  cache_ok c' ∧ cached c' = cached c ∧
  match cached c !! MkAggregate id TypeWorkflow with
  | Some (EWorkflow wf) => r = Ret wf ∧ Workflow_ID (Some wf) = id
  | _ => ∃ err, r = Throw err
  end.
Proof.
  intros Hok Hid. unfold GetWorkflow.
  assert (aggregate_valid (MkAggregate id TypeWorkflow)) as Hv by (by split).
  pose proof (c_Get_spec now _ c Hok Hv) as Hg.
  destruct (c_GetAggregate now (MkAggregate id TypeWorkflow) c) as [r c'] eqn:Hc.
  destruct Hg as (Hok' & Hsame & Hr).
  destruct (cached c !! MkAggregate id TypeWorkflow) as [e|] eqn:He.
  - subst r. rewrite (st_bind_Ret _ _ _ _ _ Hc).
    destruct (cached_type _ _ _ Hok He) as [Ht Hi]. by destruct e.
  - destruct Hr as (err & -> & _). rewrite (st_bind_Throw _ _ _ _ _ Hc). eauto.
Qed.
End store.

(** The messages a subscription delivers are notifications or something else. *)
(** [pkg/api/store/store.go:130-136] WorkflowSubscription.ToNotification *)
Definition Workflow_ToNotification {M} (as_notification : M → option Notification) (msg : M) :
    res goerror Notification :=
  match as_notification msg with
  | Some update => Ret update
  | None => Throw (ErrNew "received message is not a notification")
  end.

(** [pkg/api/store/store.go:150-156] InvocationSubscription.ToNotification *)
Definition Invocation_ToNotification {M} (as_notification : M → option Notification) (msg : M) :
    res goerror Notification := Workflow_ToNotification as_notification msg.

(** [pkg/api/store/store.go:165-171] ParseNotificationToWorkflow *)
Definition ParseNotificationToWorkflow (update : Notification) : res goerror Workflow :=
  match Notification_Updated update with
  | Some (EWorkflow entity) => Ret entity
  | _ => Throw (ErrNew "received message does not include workflow invocation as payload")
  end.

(** [pkg/api/store/store.go:173-179] ParseNotificationToInvocation *)
Definition ParseNotificationToInvocation (update : Notification) : res goerror WorkflowInvocation :=
  match Notification_Updated update with
  | Some (EInvocation entity) => Ret entity
  | _ => Throw (ErrNew "received message does not include workflow invocation as payload")
  end.
