(* ===== verification/WorkflowRuntime.v ===== *)
(** Component [pkg/fnenv/workflows]: the engine as a runtime of its own functions.  A task
    that runs a workflow creates an invocation and waits for its result, while the rest
    of the engine goes on. *)

From stdpp Require Import base gmap strings list.
From S2P Require Import Prelude Data Types TypedValues ControlFlow Fes Projectors Graph.
From S2P Require Import Validate Lru MemBackend Cache Api ApiSpec Execution ExecutionSpec Store.

(** ** The system *)

(** The event store, the caches of invocations and of workflows, and how often the runtime
    has waited. *)
Record Sys (B C D : Type) := MkSys {
  sys_backend : B;
  sys_invocations : C;
  sys_workflows : D;
  sys_waits : nat }.
Arguments MkSys {B C D} _ _ _ _.
Arguments sys_backend {B C D} _.
Arguments sys_invocations {B C D} _.
Arguments sys_workflows {B C D} _.
Arguments sys_waits {B C D} _.

Section runtime.
Context {B C D : Type} `{EventStore B} `{CacheReaderWriter C} `{CacheReaderWriter D}.
Context `{MapRange} `{Proto} `{PTypes} `{DirectedGraph}.
Context {Ctx : Type} (Background : Ctx) (Inject : Ctx → gmap string string → gmap string string).

(** What the rest of the engine does to the system during the [n]-th wait, whether the
    wait ended because the context was done (and not with a message or the end of a
    pause), and the time after [n] waits. *)
Context (advance : nat → B * C * D → B * C * D) (done_at : nat → bool) (clock : nat → Z).

(** Whether the cache of the invocations is a publisher. *)
Context (publishes : bool).

Notation S := (Sys B C D).
Notation M := (st S goerror).

Definition on_backend {A} (m : Z → st B goerror A) : M A := λ s,
  let '(r, b) := m (clock (sys_waits s)) (sys_backend s) in
  (r, MkSys b (sys_invocations s) (sys_workflows s) (sys_waits s)).
Definition on_invocations {A} (m : Z → st C goerror A) : M A := λ s,
  let '(r, c) := m (clock (sys_waits s)) (sys_invocations s) in
  (r, MkSys (sys_backend s) c (sys_workflows s) (sys_waits s)).
Definition on_workflows {A} (m : Z → st D goerror A) : M A := λ s,
  let '(r, d) := m (clock (sys_waits s)) (sys_workflows s) in
  (r, MkSys (sys_backend s) (sys_invocations s) d (sys_waits s)).

(** The system after a wait. *)
Definition waited (s : S) : S :=
  let '(b, c, d) := advance (sys_waits s) (sys_backend s, sys_invocations s, sys_workflows s) in
  MkSys b c d (Datatypes.S (sys_waits s)).

(** [select]: whether the context was done. *)
Definition wait : M bool := λ s, (Ret (done_at (sys_waits s)), waited s).

(** [rt.api.Cancel] *)
Definition cancel (invocationID : string) : M () :=
  on_backend (λ now, Invocation_Cancel now invocationID).

(** [pkg/fnenv/workflows/workflows.go:149-158] Runtime.checkForInvocationResult *)
Definition checkForInvocationResult (wfiID : string) : M (option WorkflowInvocation) :=
  catch
    (wi ← on_invocations (λ now, GetInvocation now wfiID);
     mret (match WorkflowInvocation_Status wi with
           | Some status => if WorkflowInvocationStatus_Finished status then Some wi else None
           | None => None
           end))
    (λ _, mret None).

(** [pkg/fnenv/workflows/workflows.go:160-170] Runtime.checkForReadyWorkflow *)
Definition checkForReadyWorkflow (workflowID : string) : M Workflow :=
  wf ← catch (on_workflows (λ now, GetWorkflow now workflowID))
    (λ _, throw (ErrFmt ("failed to find workflow " +:+ workflowID +:+ " for new invocation")));
  if WorkflowStatus_Ready (Workflow_Status wf) then mret wf
  else throw (ErrFmt ("cannot invoke non-ready workflow " +:+ workflowID)).

(** [ctx.Err()] *)
Definition ctx_Err : goerror := ErrNew "context done".

(** A poll that goes on for as long as [fuel] lasts. *)
(** [pkg/fnenv/workflows/workflows.go:257-274] Runtime.pollUntilInvocationResult *)
Fixpoint pollUntilInvocationResult (fuel : nat) (wfiID : string) : M (option WorkflowInvocation) :=
  match fuel with
  | O => lift (Panic "fuel")
  | Datatypes.S fuel =>
      result ← checkForInvocationResult wfiID;
      match result with
      | Some result => mret (Some result)
      | None =>
          ended ← wait;
          if (ended : bool) then _ ← cancel wfiID; throw ctx_Err
          else pollUntilInvocationResult fuel wfiID
      end
  end.

(** When the context is done, an invocation of the name of the workflow is cancelled. *)
(** [pkg/fnenv/workflows/workflows.go:276-293] Runtime.pollUntilWorkflowResult *)
Fixpoint pollUntilWorkflowResult (fuel : nat) (workflowID : string) : M Workflow :=
  match fuel with
  | O => lift (Panic "fuel")
  | Datatypes.S fuel =>
      catch (checkForReadyWorkflow workflowID) (λ _,
        ended ← wait;
        if (ended : bool) then _ ← cancel workflowID; throw ctx_Err
        else pollUntilWorkflowResult fuel workflowID)
  end.

(** [pkg/fnenv/workflows/workflows.go:172-207] Runtime.awaitReadyWorkflow *)
Definition awaitReadyWorkflow (fuel : nat) (workflowID : string) : M Workflow :=
  catch (checkForReadyWorkflow workflowID) (λ _,
    if publishes then
      catch (checkForReadyWorkflow workflowID) (λ _,
        _ ← wait; checkForReadyWorkflow workflowID)
    else pollUntilWorkflowResult fuel workflowID).

(** [pkg/fnenv/workflows/workflows.go:209-252] Runtime.awaitInvocationResult *)
Definition awaitInvocationResult (fuel : nat) (invocationID : string) : M (option WorkflowInvocation) :=
  if publishes then
    result ← checkForInvocationResult invocationID;
    match result with
    | Some result => mret (Some result)
    | None =>
        ended ← wait;
        if (ended : bool) then
          result ← checkForInvocationResult invocationID;
          match result with
          | Some result => mret (Some result)
          | None => _ ← cancel invocationID; throw (ErrNew ErrInvocationCanceled)
          end
        else checkForInvocationResult invocationID
    end
  else pollUntilInvocationResult fuel invocationID.

(** [pkg/fnenv/workflows/workflows.go:295-310] toWorkflowSpec *)
Definition toWorkflowSpec (wrap_fuel : nat) (spec : TaskInvocationSpec) : res goerror WorkflowInvocationSpec :=
  fnRef ← deref (TaskInvocationSpec_FnRef spec);
  let wfSpec parent := MkWorkflowInvocationSpec (FnRef_ID fnRef) (TaskInvocationSpec_Inputs spec) parent None
    (TaskInvocationSpec_Deadline spec) in
  match TaskInvocationSpec_Inputs spec !! InputParent with
  | None => Ret (wfSpec "")
  | Some parentTv =>
      match UnwrapString wrap_fuel (Some parentTv) with
      | Ret parentID => Ret (wfSpec parentID)
      | Throw _ => Throw (ErrFmt "invalid parent id")
      | Panic why => Panic why
      end
  end.

Definition with_Workflow (spec : WorkflowInvocationSpec) (wf : Workflow) : WorkflowInvocationSpec :=
  MkWorkflowInvocationSpec (WorkflowInvocationSpec_WorkflowId spec) (WorkflowInvocationSpec_Inputs spec)
    (WorkflowInvocationSpec_ParentId spec) (Some wf) (WorkflowInvocationSpec_Deadline spec).

(** The deadline is only looked at once the invocation was created. *)
(** [pkg/fnenv/workflows/workflows.go:73-145] Runtime.InvokeWorkflow *)
Definition InvokeWorkflow (fuel : nat) (uid : string) (ctx : Ctx) (spec : option WorkflowInvocationSpec) :
    M (option WorkflowInvocation) :=
  _ ← on_backend (λ _, check (validate_WorkflowInvocationSpec spec));
  spec ← lift (deref spec);
  spec ← (match WorkflowInvocationSpec_Workflow spec with
          | None => wf ← awaitReadyWorkflow fuel (WorkflowInvocationSpec_WorkflowId spec);
                    mret (with_Workflow spec wf)
          | Some wf => if WorkflowStatus_Ready (Workflow_Status wf) then mret spec
                       else throw (ErrNew "provided workflow is not ready")
          end);
  invocationID ← on_backend (λ now,
    Invocation_Invoke Background Inject now uid (Some spec) [WithContext ctx]);
  match pt_Timestamp (WorkflowInvocationSpec_Deadline spec) with
  | (_, false) => throw (ErrFmt "timestamp")
  | (_, true) => awaitInvocationResult fuel invocationID
  end.

(** A result that is not there panics. *)
(** [pkg/fnenv/workflows/workflows.go:55-71] Runtime.Invoke *)
Definition Runtime_Invoke (fuel wrap_fuel : nat) (uid : string) (ctx : Ctx)
    (spec : option TaskInvocationSpec) : M TaskInvocationStatus :=
  _ ← on_backend (λ _, check (validate_TaskInvocationSpec spec));
  spec ← lift (deref spec);
  wfSpec ← lift (toWorkflowSpec wrap_fuel spec);
  wfi ← InvokeWorkflow fuel uid ctx (Some wfSpec);
  wfi ← lift (deref wfi);
  status ← lift (deref (WorkflowInvocation_Status wfi));
  mret (ToTaskStatus status).
End runtime.

(** ** What the runtime promises *)

Section spec.
Context {B C D : Type} `{EventStoreLaws B} `{CacheLaws C} `{CacheLaws D}.
Context `{MapRange} `{Proto} `{PTypes} `{DirectedGraph}.
Context {Ctx : Type} (Background : Ctx) (Inject : Ctx → gmap string string → gmap string string).
Context (advance : nat → B * C * D → B * C * D) (done_at : nat → bool) (clock : nat → Z).

Notation Sys := (Sys B C D).

(** The rest of the engine keeps its own invariants. *)
Context (advance_ok : ∀ n b c d, b_ok b → cache_ok c → cache_ok d →
  let '(b', c', d') := advance n (b, c, d) in b_ok b' ∧ cache_ok c' ∧ cache_ok d').

Definition sys_ok (s : Sys) : Prop :=
  b_ok (sys_backend s) ∧ cache_ok (sys_invocations s) ∧ cache_ok (sys_workflows s).

(** The invocation in the cache, if it has ended. *)
Definition finished_in (s : Sys) (id : string) : option WorkflowInvocation :=
  match cached (sys_invocations s) !! MkAggregate id TypeInvocation with
  | Some (EInvocation wi) =>
      match WorkflowInvocation_Status wi with
      | Some status => if WorkflowInvocationStatus_Finished status then Some wi else None
      | None => None
      end
  | _ => None
  end.

Lemma finished_in_Some s id wi :
  finished_in s id = Some wi →
  cached (sys_invocations s) !! MkAggregate id TypeInvocation = Some (EInvocation wi) ∧
  ∃ status, WorkflowInvocation_Status wi = Some status ∧ WorkflowInvocationStatus_Finished status = true.
Proof.
  unfold finished_in. destruct (cached _ !! _) as [[|w|]|]; try done.
  destruct (WorkflowInvocation_Status w) as [status|] eqn:Hs; [|done].
  destruct (WorkflowInvocationStatus_Finished status) eqn:Hf; [|done]. intros [= ->]. eauto.
Qed.

Lemma waited_ok s : sys_ok s → sys_ok (waited advance s) ∧ sys_waits (waited advance s) = S (sys_waits s).
Proof.
  intros (Hb & Hc & Hd). unfold waited.
  pose proof (advance_ok (sys_waits s) (sys_backend s) (sys_invocations s) (sys_workflows s) Hb Hc Hd) as Ha.
  by destruct (advance _ _) as [[b c] d].
Qed.

Lemma check_result_spec id s :
  id ≠ "" → sys_ok s →
  ∃ s', checkForInvocationResult clock id s = (Ret (finished_in s id), s') ∧ sys_ok s' ∧
    sys_backend s' = sys_backend s ∧ sys_waits s' = sys_waits s ∧ finished_in s' id = finished_in s id.
Proof.
  intros Hid (Hb & Hc & Hd).
  pose proof (GetInvocation_spec (clock (sys_waits s)) id (sys_invocations s) Hc Hid) as Hg.
  unfold checkForInvocationResult, on_invocations, catch, mbind, st_bind.
  destruct (GetInvocation _ _ _) as [r c']. destruct Hg as (Hc' & Hsame & Hr).
  eexists (MkSys (sys_backend s) c' (sys_workflows s) (sys_waits s)).
  assert (finished_in (MkSys (sys_backend s) c' (sys_workflows s) (sys_waits s)) id = finished_in s id) as Hf
    by (unfold finished_in; cbn; by rewrite Hsame).
  split; [|by split_and!]. unfold finished_in.
  destruct (cached (sys_invocations s) !! _) as [[| |]|]; cbn in Hr |- *;
    try (by destruct Hr as [err ->]); by destruct Hr as [-> _].
Qed.

(** An event that cancels the invocation was appended, or appending it failed; [s1] is the
    system before. *)
Definition canceled (id : string) (s1 s2 : Sys) (err : goerror) : Prop :=
  let k := NewInvocationAggregate id in
  ∃ r, one_event k (λ ev, made ev k None (InvocationCanceled (Some (MkError ErrInvocationCanceled))))
    (sys_backend s1) (r, sys_backend s2) ∧ ∀ e, (r : res goerror ()) = Throw e → err = e.

Context (cancel_wire : wire (InvocationCanceled (Some (MkError ErrInvocationCanceled)))).

Lemma cancel_spec {A} id err s :
  sys_ok s → id ≠ "" →
  ∃ e s', (_ ← cancel clock id; throw err) s = (Throw e : res goerror A, s') ∧
    sys_ok s' ∧ canceled id s s' e.
Proof.
  intros (Hb & Hc & Hd) Hid.
  pose proof (invocation_event_spec (clock (sys_waits s)) id
    (InvocationCanceled (Some (MkError ErrInvocationCanceled))) completed (sys_backend s) Hb eq_refl
    cancel_wire) as Hs. cbv zeta in Hs.
  unfold cancel, on_backend, Invocation_Cancel, mbind, st_bind. rewrite decide_False by done.
  destruct (invocation_event _ _ _ _ _) as [[u|e|why] b'] eqn:He; [| |done].
  - exists err, (MkSys b' (sys_invocations s) (sys_workflows s) (sys_waits s)).
    split; [done|]. destruct Hs as (Hok & Hs). split; [by split_and!|].
    exists (Ret u). split; [by split|done].
  - exists e, (MkSys b' (sys_invocations s) (sys_workflows s) (sys_waits s)).
    split; [done|]. destruct Hs as (Hok & Hs). split; [by split_and!|].
    exists (Throw e). split; [by split|by intros ? [= <-]].
Qed.

Lemma check_ready_spec id s :
  id ≠ "" → sys_ok s →
  match checkForReadyWorkflow clock id s with
  | (Ret wf, s') => sys_ok s' ∧ WorkflowStatus_Ready (Workflow_Status wf) = true
  | (Throw _, s') => sys_ok s' ∧ sys_waits s' = sys_waits s
  | (Panic _, _) => False
  end.
Proof.
  intros Hid (Hb & Hc & Hd). unfold checkForReadyWorkflow, on_workflows, catch, mbind, st_bind.
  pose proof (GetWorkflow_spec (clock (sys_waits s)) id (sys_workflows s) Hd Hid) as Hg.
  destruct (GetWorkflow _ _ _) as [r d']. destruct Hg as (Hd' & _ & Hr).
  assert (sys_ok (MkSys (sys_backend s) (sys_invocations s) d' (sys_waits s))) as Hok by by split_and!.
  destruct (cached (sys_workflows s) !! _) as [[wf| |]|]; try by destruct Hr as [err ->].
  destruct Hr as [-> _]. destruct (WorkflowStatus_Ready (Workflow_Status wf)) eqn:Hw; by split.
Qed.

(** What waiting for the result of an invocation comes to.  [start] is the number of waits
    before it. *)
Definition awaited (publishes : bool) (id : string) (start : nat)
    (out : res goerror (option WorkflowInvocation) * Sys) : Prop :=
  match out with
  | (Ret (Some wi), s') => sys_ok s' ∧ finished_in s' id = Some wi
  | (Ret None, s') => publishes = true ∧ done_at start = false ∧ finished_in s' id = None
  | (Throw e, s') => sys_ok s' ∧ (∃ k, start ≤ k ∧ done_at k = true) ∧
      ∃ s1, sys_ok s1 ∧ (publishes = true → finished_in s1 id = None) ∧ canceled id s1 s' e
  | (Panic _, _) => False
  end.

Lemma poll_result_awaited fuel id start s :
  id ≠ "" → sys_ok s → start ≤ sys_waits s →
  (∃ k, sys_waits s ≤ k < sys_waits s + fuel ∧ done_at k = true) →
  awaited false id start (pollUntilInvocationResult advance done_at clock fuel id s).
Proof.
  intros Hid. revert s. induction fuel as [|fuel IH]; intros s Hok Hle (k & Hk & Hdone); [lia|].
  cbn [pollUntilInvocationResult].
  destruct (check_result_spec id s Hid Hok) as (s1 & Hc & Hok1 & _ & Hw1 & Hf1).
  rewrite (st_bind_Ret _ _ _ _ _ Hc).
  destruct (finished_in s id) as [wi|]; [by split|].
  destruct (waited_ok s1 Hok1) as [Hok2 Hw2].
  rewrite (st_bind_Ret _ _ s1 (waited advance s1) (done_at (sys_waits s1))) by done. rewrite Hw1 in *.
  destruct (done_at (sys_waits s)) eqn:Hd.
  - destruct (cancel_spec (A := option WorkflowInvocation) id ctx_Err (waited advance s1) Hok2 Hid) as (e & s' & -> & Hok' & Hcan).
    split; [done|]. split; [by exists (sys_waits s)|]. by exists (waited advance s1).
  - apply IH; [done|lia|]. exists k. split; [|done].
    assert (k ≠ sys_waits s) by (intros ->; congruence). lia.
Qed.

Lemma publish_result_awaited fuel id s :
  id ≠ "" → sys_ok s →
  awaited true id (sys_waits s) (awaitInvocationResult advance done_at clock true fuel id s).
Proof.
  intros Hid Hok. unfold awaitInvocationResult.
  destruct (check_result_spec id s Hid Hok) as (s1 & Hc & Hok1 & _ & Hw1 & Hf1).
  rewrite (st_bind_Ret _ _ _ _ _ Hc). destruct (finished_in s id) as [wi|]; [by split|].
  destruct (waited_ok s1 Hok1) as [Hok2 _].
  rewrite (st_bind_Ret _ _ s1 (waited advance s1) (done_at (sys_waits s1))) by done. rewrite Hw1.
  destruct (check_result_spec id (waited advance s1) Hid Hok2) as (s3 & Hc3 & Hok3 & _ & _ & Hf3).
  destruct (done_at (sys_waits s)) eqn:Hd.
  - rewrite (st_bind_Ret _ _ _ _ _ Hc3). destruct (finished_in (waited advance s1) id) as [wi|]; [by split|].
    destruct (cancel_spec (A := option WorkflowInvocation) id (ErrNew ErrInvocationCanceled) s3 Hok3 Hid) as (e & s' & -> & Hok' & Hcan).
    split; [done|]. split; [by exists (sys_waits s)|]. by exists s3.
  - rewrite Hc3. destruct (finished_in (waited advance s1) id) as [wi|]; by split.
Qed.

(** C8: Waiting for the result of an invocation, with notifications or by polling, ends once
    the context is done or a message arrives, and never panics.  It answers with the
    invocation the cache holds, which has ended; or, only after the context was done, it
    fails after having cancelled the invocation with one event (or tried to), and with
    notifications only if the invocation had not ended by then; or it answers with no
    invocation and no error, only if a message arrived before the cache shows the end. *)
Theorem await_answers (publishes : bool) (fuel : nat) (id : string) (s : Sys) :
  id ≠ "" → sys_ok s →
  (publishes = false → ∃ k, sys_waits s ≤ k < sys_waits s + fuel ∧ done_at k = true) →
  awaited publishes id (sys_waits s) (awaitInvocationResult advance done_at clock publishes fuel id s).
Proof.
  intros Hid Hok Hdone. destruct publishes; [by apply publish_result_awaited|].
  by apply poll_result_awaited; auto.
Qed.

(** *** The invariants of the system *)

#[local] Instance Sys_FesBackend : FesBackend Sys :=
  {| b_Get k := on_backend clock (λ _, b_Get k) |}.
#[local] Instance Sys_EventStore : EventStore Sys :=
  {| es_Append ev := on_backend clock (λ _, es_Append ev) |}.

#[local] Instance Sys_BackendLaws : BackendLaws Sys.
Proof.
  refine {| b_ok := sys_ok; b_stream s k := b_stream (sys_backend s) k |}.
  - intros k s (Hb & Hc & Hd) Hk. pose proof (b_Get_spec k (sys_backend s) Hb Hk) as Hg.
    unfold b_Get at 1. cbn [Sys_FesBackend]. unfold on_backend.
    destruct (b_Get k (sys_backend s)) as [r b]. destruct Hg as (? & ? & ?). by split_and!.
  - intros s k ev (Hb & _) Hin. by apply (b_stream_key (sys_backend s)).
Defined.

Lemma keeps_on_backend {A} (m : Z → st B goerror A) :
  (∀ now, keeps (m now)) → keeps (on_backend clock m).
Proof.
  intros Hm s (Hb & Hc & Hd). unfold on_backend.
  pose proof (Hm (clock (sys_waits s)) _ Hb) as Hok. by destruct (m _ _) as [r b].
Qed.

Lemma keeps_wait : keeps (wait advance done_at).
Proof. intros s Hok. by apply waited_ok. Qed.

Lemma keeps_check_ready id : id ≠ "" → keeps (checkForReadyWorkflow clock id).
Proof.
  intros Hid. apply keeps_bind.
  - apply keeps_catch; [|intros; apply keeps_throw]. intros s (Hb & Hc & Hd). unfold on_workflows.
    pose proof (GetWorkflow_spec (clock (sys_waits s)) id (sys_workflows s) Hd Hid) as Hg.
    destruct (GetWorkflow _ _ _) as [r d]. by destruct Hg.
  - intros wf. destruct (WorkflowStatus_Ready _); [apply keeps_ret|apply keeps_throw].
Qed.

Lemma keeps_cancel id : keeps (cancel clock id).
Proof.
  apply keeps_on_backend. intros now. unfold Invocation_Cancel. case_decide; [apply keeps_throw|].
  by apply keeps_event'; eauto with keeps.
Qed.

Lemma keeps_poll_ready fuel id : id ≠ "" → keeps (pollUntilWorkflowResult advance done_at clock fuel id).
Proof.
  intros Hid. induction fuel as [|fuel IH]; [by intros s Hok|]. cbn [pollUntilWorkflowResult].
  apply keeps_catch; [by apply keeps_check_ready|]. intros _. apply keeps_bind; [apply keeps_wait|].
  intros []; [|done]. apply keeps_bind; [apply keeps_cancel|]. intros _. apply keeps_throw.
Qed.

Lemma keeps_await_ready publishes fuel id :
  id ≠ "" → keeps (awaitReadyWorkflow advance done_at clock publishes fuel id).
Proof.
  intros Hid. apply keeps_catch; [by apply keeps_check_ready|]. intros _.
  destruct publishes; [|by apply keeps_poll_ready].
  apply keeps_catch; [by apply keeps_check_ready|]. intros _.
  apply keeps_bind; [apply keeps_wait|]. intros _. by apply keeps_check_ready.
Qed.

Lemma keeps_invoke now uid spec (opts : list (CallOption (B := B) (Ctx := Ctx))) :
  keeps (Invocation_Invoke Background Inject now uid spec opts).
Proof.
  unfold Invocation_Invoke. apply keeps_bind; [apply keeps_check|]. intros _.
  apply keeps_lift_bind. intros sp _. cbv zeta.
  apply keeps_event; [done| |intros; apply keeps_ret]. eauto with keeps.
Qed.

(** A workflow invocation that was made ends in waiting for it. *)
Lemma InvokeWorkflow_awaits publishes fuel uid ctx spec s out s' :
  sys_ok s → WorkflowInvocationSpec_WorkflowId spec ≠ "" →
  InvokeWorkflow Background Inject advance done_at clock publishes fuel uid ctx (Some spec) s =
    (Ret out, s') →
  ∃ s0, sys_ok s0 ∧
    awaitInvocationResult advance done_at clock publishes fuel ("wi-" +:+ uid) s0 = (Ret out, s').
Proof.
  intros Hok Hid Hr. unfold InvokeWorkflow in Hr.
  apply st_bind_inv in Hr as ([] & s1 & Hv & Hr).
  assert (sys_ok s1) as Hok1.
  { pose proof (keeps_on_backend (λ _, check (validate_WorkflowInvocationSpec (Some spec)))
      ltac:(intros; apply keeps_check) s Hok) as Hk. by rewrite Hv in Hk. }
  cbn [deref] in Hr. rewrite st_lift_Ret in Hr. apply st_bind_inv in Hr as (spec' & s2 & Hw & Hr).
  assert (sys_ok s2) as Hok2.
  { assert (keeps (match WorkflowInvocationSpec_Workflow spec with
      | None => wf ← awaitReadyWorkflow advance done_at clock publishes fuel
                       (WorkflowInvocationSpec_WorkflowId spec);
                mret (with_Workflow spec wf)
      | Some wf => if WorkflowStatus_Ready (Workflow_Status wf) then mret spec
                   else throw (ErrNew "provided workflow is not ready")
      end : st Sys goerror WorkflowInvocationSpec)) as Hk.
    { destruct (WorkflowInvocationSpec_Workflow spec) as [wf|].
      - destruct (WorkflowStatus_Ready _); [apply keeps_ret|apply keeps_throw].
      - apply keeps_bind; [by apply keeps_await_ready|intros; apply keeps_ret]. }
    specialize (Hk s1 Hok1). by rewrite Hw in Hk. }
  apply st_bind_inv in Hr as (id & s3 & Hi & Hr).
  assert (sys_ok s3) as Hok3.
  { pose proof (keeps_on_backend (λ now, Invocation_Invoke Background Inject now uid (Some spec')
      [WithContext ctx]) ltac:(intros; apply keeps_invoke) s2 Hok2) as Hk. by rewrite Hi in Hk. }
  assert (id = "wi-" +:+ uid) as ->.
  { unfold on_backend in Hi. destruct (Invocation_Invoke _ _ _ _ _ _ _) as [r b] eqn:Hinv.
    injection Hi as -> _. unfold Invocation_Invoke in Hinv.
    apply st_bind_inv in Hinv as (? & ? & _ & Hinv). cbn [deref] in Hinv. rewrite st_lift_Ret in Hinv.
    apply st_bind_inv in Hinv as (? & ? & _ & Hinv). apply st_bind_inv in Hinv as (? & ? & _ & Hinv).
    by injection Hinv. }
  destruct (pt_Timestamp _) as [? []]; [|done]. by exists s3.
Qed.

(** C9: What a task that runs a workflow reports is the end of the invocation it created: its
    status is final, and is that of the finished invocation in the cache, with its output
    and its error. *)
Theorem Runtime_Invoke_reports (publishes : bool) (fuel wrap_fuel : nat) (uid : string) (ctx : Ctx)
    (spec : TaskInvocationSpec) (fnRef : FnRef) (status : TaskInvocationStatus) (s s' : Sys) :
  sys_ok s → TaskInvocationSpec_FnRef spec = Some fnRef → FnRef_ID fnRef ≠ "" →
  (publishes = false → ∀ n, ∃ k, n ≤ k < n + fuel ∧ done_at k = true) →
  Runtime_Invoke Background Inject advance done_at clock publishes fuel wrap_fuel uid ctx (Some spec) s =
    (Ret status, s') →
  TaskInvocationStatus_Finished status = true ∧
  ∃ wi wi_status, finished_in s' ("wi-" +:+ uid) = Some wi ∧
    WorkflowInvocation_Status wi = Some wi_status ∧ status = ToTaskStatus wi_status.
Proof.
  intros Hok Href Hid Hdone Hr. unfold Runtime_Invoke in Hr.
  apply st_bind_inv in Hr as ([] & s1 & Hv & Hr).
  assert (sys_ok s1) as Hok1.
  { pose proof (keeps_on_backend (λ _, check (validate_TaskInvocationSpec (Some spec)))
      ltac:(intros; apply keeps_check) s Hok) as Hk. by rewrite Hv in Hk. }
  cbn [deref] in Hr. rewrite st_lift_Ret in Hr.
  apply st_bind_inv in Hr as (wfSpec & s2 & Hspec & Hr). injection Hspec as Hspec <-.
  apply st_bind_inv in Hr as (owi & s3 & Hi & Hr).
  apply st_bind_inv in Hr as (wi & s4 & Hwi & Hr). destruct owi as [wi'|]; [|done].
  injection Hwi as -> <-.
  apply st_bind_inv in Hr as (st & s5 & Hst & Hr).
  destruct (WorkflowInvocation_Status wi) as [st'|] eqn:Hs; [|done]. injection Hst as -> <-.
  injection Hr as <- <-.
  destruct (InvokeWorkflow_awaits publishes fuel uid ctx wfSpec s1 (Some wi) s3 Hok1) as (s0 & Hok0 & Ha);
    [|done|].
  { unfold toWorkflowSpec in Hspec. rewrite Href in Hspec. cbn [deref] in Hspec. rewrite bind_Ret_l in Hspec.
    destruct (_ !! InputParent) as [ptv|]; [|by injection Hspec as <-].
    destruct (UnwrapString _ _); [|done..]. by injection Hspec as <-. }
  assert (awaited publishes ("wi-" +:+ uid) (sys_waits s0) (Ret (Some wi), s3)) as [_ Hf].
  { rewrite <- Ha. destruct publishes; [by apply publish_result_awaited|].
    apply poll_result_awaited; auto. }
  destruct (finished_in_Some _ _ _ Hf) as (_ & ended & Hended & Hfin). rewrite Hs in Hended.
  injection Hended as ->. split; [|by exists wi, ended].
  by rewrite (proj1 (ToTaskStatus_faithful ended)).
Qed.

(** Waiting by polling for a workflow that is not ready when the context is done cancels an
    invocation that has the name of the workflow, which nobody asked for: an event is
    appended to the history of that invocation.  Only a workflow that is ready is
    answered. *)
Theorem poll_workflow_cancels_invocation (fuel : nat) (workflowID : string) (s : Sys) :
  workflowID ≠ "" → sys_ok s → (∃ k, sys_waits s ≤ k < sys_waits s + fuel ∧ done_at k = true) →
  match pollUntilWorkflowResult advance done_at clock fuel workflowID s with
  | (Ret wf, s') => sys_ok s' ∧ WorkflowStatus_Ready (Workflow_Status wf) = true
  | (Throw e, s') => sys_ok s' ∧ ∃ s1, sys_ok s1 ∧ canceled workflowID s1 s' e
  | (Panic _, _) => False
  end.
Proof.
  intros Hid. revert s. induction fuel as [|fuel IH]; intros s Hok (k & Hk & Hdone); [lia|].
  cbn [pollUntilWorkflowResult]. unfold catch at 1.
  pose proof (check_ready_spec workflowID s Hid Hok) as Hc.
  destruct (checkForReadyWorkflow clock workflowID s) as [[wf|e|why] s1]; [by destruct Hc| |done].
  destruct Hc as [Hok1 Hw1]. destruct (waited_ok s1 Hok1) as [Hok2 Hw2].
  rewrite (st_bind_Ret _ _ s1 (waited advance s1) (done_at (sys_waits s1))) by done. rewrite Hw1 in *.
  destruct (done_at (sys_waits s)) eqn:Hd.
  - destruct (cancel_spec (A := Workflow) workflowID ctx_Err (waited advance s1) Hok2 Hid)
      as (e' & s' & -> & Hok' & Hcan). split; [done|]. by exists (waited advance s1).
  - apply IH; [done|]. exists k. split; [|done].
    assert (k ≠ sys_waits s) by (intros ->; congruence). lia.
Qed.
End spec.
