(* ===== verification/ApiServer.v ===== *)
(** Component [pkg/apiserver]: the handlers of the gRPC server.  A handler acts on the
    event store and the caches, the system of [WorkflowRuntime]; handlers that wait do so
    while the rest of the engine changes that system. *)

From stdpp Require Import base gmap strings list.
From S2P Require Import Prelude Data Types TypedValues ControlFlow Fes Projectors Graph Validate.
From S2P Require Import ErrorText Lru MemBackend Cache Api ApiSpec Execution ExecutionSpec Store WorkflowRuntime.

(** What a client sees of an error: the status of a request that is not valid, any other error
    as it is, or the error of a workflow, which may be a [nil] pointer. *)
Inductive api_error :=
| InvalidArgument (text : string)
| Plain (err : goerror)
| OfWorkflow (err : option Error).

(** [pkg/apiserver/apiserver.go:26-35] toErrorStatus *)
Definition toErrorStatus (err : goerror) : api_error :=
  match err with
  | ErrInvalid _ _ => InvalidArgument (Format err)
  | _ => Plain err
  end.

(** [pkg/apiserver/admin.go:10-10] StatusOK *)
Definition StatusOK : string := "OK!".

(** [pkg/apiserver/admin.go:15-19] Admin.Status *)
Definition Admin_Status : res api_error string := Ret StatusOK.

(** [pkg/apiserver/invocation.go:163-170] contains *)
Fixpoint contains (haystack : list string) (needle : string) : bool :=
  match haystack with
  | [] => false
  | h :: haystack => if decide (h = needle) then true else contains haystack needle
  end.

(** [pkg/util/util.go:159-166] CmpProtoTimestamps *)
Definition CmpProtoTimestamps (l r : option Timestamp) : bool :=
  let seconds t := match t with Some t => Seconds t | None => 0%Z end in
  let nanos t := match t with Some t => Nanos t | None => 0%Z end in
  if decide (seconds l < seconds r)%Z then true
  else if decide (seconds l > seconds r)%Z then false
  else bool_decide (nanos l ≤ nanos r)%Z.

Section server.
Context {B C D : Type} `{FesBackend B} `{EventStore B} `{CacheReaderWriter C} `{CacheReaderWriter D}.
Context `{MapRange} `{Proto} `{PTypes} `{DirectedGraph}.
Context {Ctx : Type} (Background : Ctx) (Inject : Ctx → gmap string string → gmap string string).
Context (advance : nat → B * C * D → B * C * D) (done_at : nat → bool) (clock : nat → Z) (publishes : bool).

(** [sort.SliceStable]. *)
Context (SliceStable : (Event → Event → bool) → list Event → list Event).

Notation S := (Sys B C D).
Notation M := (st S api_error).

(** [x, err := m; if err != nil { return nil, f(err) }] *)
Definition answer {A} (f : goerror → api_error) (m : st S goerror A) : M A := λ s,
  match m s with
  | (Ret a, s') => (Ret a, s')
  | (Throw e, s') => (Throw (f e), s')
  | (Panic w, s') => (Panic w, s')
  end.

(** The calls of a handler, with the errors turned into statuses. *)
Definition call_api {A} (m : Z → st B goerror A) : M A := answer toErrorStatus (on_backend clock m).
Definition call_invocations {A} (m : Z → st C goerror A) : M A := answer toErrorStatus (on_invocations clock m).
Definition call_workflows {A} (m : Z → st D goerror A) : M A := answer toErrorStatus (on_workflows clock m).

(** ** Workflows *)

(** [pkg/apiserver/workflow.go:36-43] Workflow.Create *)
Definition Workflow_Create (uid : string) (ctx : Ctx) (spec : option WorkflowSpec) : M string :=
  call_api (λ now, Api.Workflow_Create Background Inject now uid spec [WithContext ctx]).

(** The loop of [CreateSync]: [last] is the error of the workflow that was seen last.  [fuel] bounds
    the number of ticks. *)
Fixpoint await_ready (fuel : nat) (id : string) (last : option (option Error)) : M Workflow :=
  match fuel with
  | O => lift (Panic "fuel")
  | Datatypes.S fuel =>
      ended ← answer Plain (wait advance done_at);
      if (ended : bool) then
        throw (match last with Some err => OfWorkflow err | None => toErrorStatus ctx_Err end)
      else
        wf ← catch (wf ← call_workflows (λ now, GetWorkflow now id); mret (Some wf)) (λ _, mret None);
        match wf with
        | None => await_ready fuel id last
        | Some wf =>
            match (match Workflow_Status wf with
                   | Some s => WorkflowStatus_Status_ s | None => WorkflowStatus_QUEUED end) with
            | WorkflowStatus_READY => mret wf
            | WorkflowStatus_DELETED => throw (toErrorStatus (ErrNew "workflow was deleted"))
            | WorkflowStatus_FAILED => await_ready fuel id (Some (Workflow_Status wf ≫= WorkflowStatus_Error))
            | _ => await_ready fuel id last
            end
        end
  end.

(** [pkg/apiserver/workflow.go:45-83] Workflow.CreateSync *)
Definition Workflow_CreateSync (fuel : nat) (uid : string) (ctx : Ctx) (spec : option WorkflowSpec) : M Workflow :=
  id ← Workflow_Create uid ctx spec; await_ready fuel id None.

(** [pkg/apiserver/workflow.go:85-91] Workflow.Get *)
Definition Workflow_Get (workflowID : string) : M Workflow := call_workflows (λ now, GetWorkflow now workflowID).

(** [pkg/apiserver/workflow.go:93-99] Workflow.Delete *)
Definition Workflow_Delete (workflowID : string) : M () :=
  call_api (λ now, Api.Workflow_Delete now workflowID).

(** [pkg/apiserver/workflow.go:101-108] Workflow.List *)
Definition Workflow_List : M (list string) := λ s,
  (Ret (Aggregate_Id <$> c_List (sys_workflows s)), s).

(** [pkg/apiserver/workflow.go:110-116] Workflow.Validate *)
Definition Workflow_Validate (spec : option WorkflowSpec) : M () :=
  answer toErrorStatus (lift (validate_WorkflowSpec spec)).

(** [pkg/apiserver/workflow.go:118-127] Workflow.Events *)
Definition Workflow_Events (id : string) : M (list Event) :=
  call_api (λ _, b_Get (NewWorkflowAggregate id)).

(** ** Invocations *)

(** [pkg/apiserver/invocation.go:40-46] Invocation.Validate *)
Definition Invocation_Validate (spec : option WorkflowInvocationSpec) : M () :=
  answer toErrorStatus (on_backend clock (λ _, check (validate_WorkflowInvocationSpec spec))).

(** The error of the look-up is returned as it is; a [nil] specification panics when the workflow
    is stored in it. *)
(** [pkg/apiserver/invocation.go:48-63] Invocation.Invoke *)
Definition Invocation_Invoke (uid : string) (ctx : Ctx) (spec : option WorkflowInvocationSpec) : M string :=
  let id := match spec with Some s => WorkflowInvocationSpec_WorkflowId s | None => "" end in
  wf ← answer Plain (on_workflows clock (λ now, GetWorkflow now id));
  spec ← lift (deref spec);
  call_api (λ now, Api.Invocation_Invoke Background Inject now uid (Some (with_Workflow spec wf)) [WithContext ctx]).

(** [pkg/apiserver/invocation.go:65-71] Invocation.InvokeSync *)
Definition Invocation_InvokeSync (fuel : nat) (uid : string) (ctx : Ctx) (spec : option WorkflowInvocationSpec) :
    M (option WorkflowInvocation) :=
  answer toErrorStatus (InvokeWorkflow Background Inject advance done_at clock publishes fuel uid ctx spec).

(** [pkg/apiserver/invocation.go:73-80] Invocation.Cancel *)
Definition Invocation_Cancel (id : string) : M () := call_api (λ now, Api.Invocation_Cancel now id).

(** [pkg/apiserver/invocation.go:82-88] Invocation.Get *)
Definition Invocation_Get (id : string) : M WorkflowInvocation := call_invocations (λ now, GetInvocation now id).

(** Whether an entry of the cache is listed: one that cannot be fetched is left out, and one of another
    type panics. *)
Definition listed (workflows : list string) (aggregate : Aggregate) : M bool :=
  if decide (Aggregate_Type aggregate ≠ TypeInvocation) then mret false
  else if decide (workflows = []) then mret true
  else
    entity ← catch (e ← call_invocations (λ now, c_GetAggregate now aggregate); mret (Some e)) (λ _, mret None);
    match entity with
    | None => mret false
    | Some (EInvocation wfi) =>
        mret (contains workflows (match WorkflowInvocation_Spec wfi with
                                  | Some s => WorkflowInvocationSpec_WorkflowId s | None => "" end))
    | Some _ => lift (Panic "interface conversion")
    end.

(** [pkg/apiserver/invocation.go:90-115] Invocation.List *)
Definition Invocation_List (workflows : list string) : M (list string) := λ s,
  loopM (λ invocations aggregate,
    keep ← listed workflows aggregate;
    mret (if (keep : bool) then invocations ++ [Aggregate_Id aggregate] else invocations))
    [] (c_List (sys_invocations s)) s.

(** [pkg/apiserver/invocation.go:117-126] Invocation.AddTask *)
Definition Invocation_AddTask (invocationID : string) (task : option Task) : M () :=
  invocation ← call_invocations (λ now, GetInvocation now invocationID);
  answer Plain (on_backend clock (λ now, Api.Invocation_AddTask now (WorkflowInvocation_ID invocation) task)).

(** [pkg/apiserver/invocation.go:159-161] Invocation.taskEvents *)
Definition taskEvents (taskRunID : string) : st S goerror (list Event) :=
  on_backend clock (λ _, b_Get (NewTaskRunAggregate taskRunID)).

(** The identifier of a task run. *)
Definition task_id (task : TaskInvocation) : string := GetId (TaskInvocation_Metadata task).

(** [pkg/apiserver/invocation.go:128-157] Invocation.Events *)
Definition Invocation_Events (id : string) : M (list Event) :=
  events ← call_api (λ _, b_Get (NewWorkflowAggregate id));
  wi ← call_invocations (λ now, GetInvocation now id);
  let tasks := match WorkflowInvocation_Status wi with
               | Some s => WorkflowInvocationStatus_Tasks s | None => ∅ end in
  events ← loopM (λ events '(_, task),
    more ← answer (λ _, Plain (ErrFmt "failed to fetch task events")) (taskEvents (task_id task));
    mret (events ++ more)) events (range 0 tasks);
  mret (SliceStable (λ l r, CmpProtoTimestamps (Event_Timestamp l) (Event_Timestamp r)) events).
End server.

(** ** What the server promises *)

Section spec.
Context {B C D : Type} `{EventStoreLaws B} `{CacheLaws C} `{CacheLaws D}.
Context `{MapRange} `{Proto} `{PTypes} `{DirectedGraph}.
Context {Ctx : Type} (Background : Ctx) (Inject : Ctx → gmap string string → gmap string string).
Context (advance : nat → B * C * D → B * C * D) (done_at : nat → bool) (clock : nat → Z).
Context (SliceStable : (Event → Event → bool) → list Event → list Event).

Notation Sys := (Sys B C D).

(** The rest of the engine keeps its own invariants. *)
Context (advance_ok : ∀ n b c d, b_ok b → cache_ok c → cache_ok d →
  let '(b', c', d') := advance n (b, c, d) in b_ok b' ∧ cache_ok c' ∧ cache_ok d').

(** The workflow the cache holds. *)
Definition workflow_in (s : Sys) (id : string) : option Workflow :=
  match cached (sys_workflows s) !! NewWorkflowAggregate id with Some (EWorkflow wf) => Some wf | _ => None end.

Definition invocation_in (s : Sys) (id : string) : option WorkflowInvocation :=
  match cached (sys_invocations s) !! MkAggregate id TypeInvocation with Some (EInvocation wi) => Some wi | _ => None end.

(** The caches hold what they held, and so does the event store. *)
Definition same_system (s s' : Sys) : Prop :=
  sys_ok s' ∧ sys_waits s' = sys_waits s ∧ cached (sys_invocations s') = cached (sys_invocations s) ∧
  cached (sys_workflows s') = cached (sys_workflows s) ∧
  ∀ k, b_stream (sys_backend s') k = b_stream (sys_backend s) k.

Lemma same_system_trans s1 s2 s3 : same_system s1 s2 → same_system s2 s3 → same_system s1 s3.
Proof.
  intros (_ & Hw & Hi & Hc & Hs) (Hok & Hw' & Hi' & Hc' & Hs').
  split; [done|]. split; [congruence|]. split; [congruence|]. split; [congruence|].
  intros k. by rewrite Hs', Hs.
Qed.

Lemma same_system_refl s : sys_ok s → same_system s s.
Proof. by intros Hok. Qed.

Lemma call_workflows_spec id s :
  id ≠ "" → sys_ok s →
  ∃ s', same_system s s' ∧
    match workflow_in s id with
    | Some wf => call_workflows clock (λ now, GetWorkflow now id) s = (Ret wf, s') ∧ Workflow_ID (Some wf) = id
    | None => ∃ e, call_workflows clock (λ now, GetWorkflow now id) s = (Throw e, s')
    end.
Proof.
  intros Hid (Hb & Hc & Hd). unfold call_workflows, answer, on_workflows, workflow_in.
  pose proof (GetWorkflow_spec (clock (sys_waits s)) id (sys_workflows s) Hd Hid) as Hg.
  unfold NewWorkflowAggregate.
  destruct (GetWorkflow _ _ _) as [r d']. destruct Hg as (Hd' & Hsame & Hr).
  exists (MkSys (sys_backend s) (sys_invocations s) d' (sys_waits s)). split; [by split_and!|].
  destruct (cached (sys_workflows s) !! _) as [[wf| |]|]; try (destruct Hr as [e ->]; by eexists).
  by destruct Hr as [-> Hi].
Qed.

Lemma call_invocations_spec id s :
  id ≠ "" → sys_ok s →
  ∃ s', same_system s s' ∧
    match invocation_in s id with
    | Some wi => call_invocations clock (λ now, GetInvocation now id) s = (Ret wi, s') ∧ WorkflowInvocation_ID wi = id
    | None => ∃ e, call_invocations clock (λ now, GetInvocation now id) s = (Throw e, s')
    end.
Proof.
  intros Hid (Hb & Hc & Hd). unfold call_invocations, answer, on_invocations, invocation_in.
  pose proof (GetInvocation_spec (clock (sys_waits s)) id (sys_invocations s) Hc Hid) as Hg.
  destruct (GetInvocation _ _ _) as [r c']. destruct Hg as (Hc' & Hsame & Hr).
  exists (MkSys (sys_backend s) c' (sys_workflows s) (sys_waits s)). split; [by split_and!|].
  destruct (cached (sys_invocations s) !! _) as [[|wi|]|]; try (destruct Hr as [e ->]; by eexists).
  by destruct Hr as [-> Hi].
Qed.

Lemma get_events_spec (f : goerror → api_error) k (s : Sys) :
  aggregate_valid k → sys_ok s →
  ∃ s', same_system s s' ∧
    answer f (on_backend clock (λ _, b_Get k)) s = (Ret (b_stream (sys_backend s) k), s').
Proof.
  intros Hk (Hb & Hc & Hd). unfold answer, on_backend. pose proof (b_Get_spec k (sys_backend s) Hb Hk) as Hg.
  destruct (b_Get k (sys_backend s)) as [r b']. destruct Hg as (-> & Hb' & Hs).
  exists (MkSys b' (sys_invocations s) (sys_workflows s) (sys_waits s)). by split_and!.
Qed.

(** *** Creating a workflow and waiting for it *)

(** What [CreateSync] comes to once the workflow was created. *)
Definition created_and_awaited (id : string) (start : nat) (out : res api_error Workflow * Sys) : Prop :=
  match out with
  | (Ret wf, s') => sys_ok s' ∧ workflow_in s' id = Some wf ∧ Workflow_ID (Some wf) = id ∧
      WorkflowStatus_Ready (Workflow_Status wf) = true
  | (Throw e, s') => sys_ok s' ∧
      (e = Plain (ErrNew "workflow was deleted") ∨
       (∃ n, start ≤ n ∧ done_at n = true) ∧ (e = Plain ctx_Err ∨ ∃ err, e = OfWorkflow err))
  | (Panic _, _) => False
  end.

Lemma await_ready_spec fuel id : ∀ last start s,
  id ≠ "" → sys_ok s → start ≤ sys_waits s →
  (∃ k, sys_waits s ≤ k < sys_waits s + fuel ∧ done_at k = true) →
  created_and_awaited id start (await_ready advance done_at clock fuel id last s).
Proof.
  induction fuel as [|fuel IH]; intros last start s Hid Hok Hle (k & Hk & Hdone); [lia|].
  cbn [await_ready]. destruct (waited_ok advance advance_ok s Hok) as [Hok1 Hw1].
  rewrite (st_bind_Ret _ _ s (waited advance s) (done_at (sys_waits s))) by done.
  destruct (done_at (sys_waits s)) eqn:Hd.
  { split; [done|]. right. split; [by exists (sys_waits s)|]. destruct last; [right; by eexists|by left]. }
  assert (∃ k, S (sys_waits s) ≤ k < S (sys_waits s) + fuel ∧ done_at k = true) as Hnext.
  { exists k. split; [|done]. assert (k ≠ sys_waits s) by (intros ->; congruence). lia. }
  destruct (call_workflows_spec id (waited advance s) Hid Hok1) as (s2 & (Hok2 & Hw2 & _ & Hwf2 & _) & Hr).
  assert (∀ last, created_and_awaited id start (await_ready advance done_at clock fuel id last s2)) as Hgo.
  { intros last'. apply IH; [done|done|lia|]. by rewrite Hw2, Hw1. }
  rewrite (st_bind_Ret _ _ (waited advance s) s2 (workflow_in (waited advance s) id)).
  2:{ unfold catch, mbind, st_bind. destruct (workflow_in (waited advance s) id) as [wf|];
        [by destruct Hr as [-> _]|by destruct Hr as [e ->]]. }
  destruct (workflow_in (waited advance s) id) as [wf|] eqn:Hwf; [|apply Hgo].
  destruct Hr as [_ Hi]. destruct (Workflow_Status wf) as [ws|] eqn:Hst; [|apply Hgo].
  destruct (WorkflowStatus_Status_ ws) eqn:Hs; try apply Hgo.
  - split_and!; [done| |done|].
    + unfold workflow_in. rewrite Hwf2. exact Hwf.
    + rewrite Hst. unfold WorkflowStatus_Ready. rewrite Hs. done.
  - split; [done|by left].
Qed.


(** *** The events of an invocation *)

Lemma collect_events (l : list (string * TaskInvocation)) : ∀ (acc : list Event) (s : Sys),
  sys_ok s → Forall (λ p, task_id p.2 ≠ "") l →
  ∃ s', same_system s s' ∧
    loopM (λ events '(_, task),
      more ← answer (λ _, Plain (ErrFmt "failed to fetch task events")) (taskEvents clock (task_id task));
      mret (events ++ more)) acc l s =
    (Ret (acc ++ mjoin ((λ p, b_stream (sys_backend s) (NewTaskRunAggregate (task_id p.2))) <$> l)), s').
Proof.
  induction l as [|[name task] l IH]; intros acc s Hok Hl.
  { exists s. split; [by apply same_system_refl|]. cbn. by rewrite app_nil_r. }
  apply Forall_cons in Hl as [Ht Hl]. cbn [snd] in Ht. cbn [loopM].
  destruct (get_events_spec (λ _, Plain (ErrFmt "failed to fetch task events")) (NewTaskRunAggregate (task_id task)) s)
    as (s1 & Hs1 & Hget); [by split|done|].
  destruct (IH (acc ++ b_stream (sys_backend s) (NewTaskRunAggregate (task_id task))) s1) as (s2 & Hs2 & Hloop);
    [apply Hs1|done|].
  exists s2. split; [by eapply same_system_trans|].
  rewrite (st_bind_Ret _ _ s s1 (acc ++ b_stream (sys_backend s) (NewTaskRunAggregate (task_id task)))).
  - cbn beta. rewrite Hloop. f_equal. f_equal. rewrite fmap_cons. cbn [mjoin list_join snd].
    rewrite <- app_assoc. do 2 f_equal. f_equal. apply list_fmap_ext. intros i p _.
    destruct Hs1 as (_ & _ & _ & _ & Hst). apply Hst.
  - cbn beta. rewrite (st_bind_Ret _ _ s s1 (b_stream (sys_backend s) (NewTaskRunAggregate (task_id task)))); [done|exact Hget].
Qed.

(** The events the server lists for an invocation.  They are looked for in the stream of the
    workflow of that identifier and in the streams of the task runs, and sorted; none of them is an
    event of the invocation, neither its own nor one of its tasks, since all of those
    are stored in the stream of the invocation. *)
Theorem Invocation_Events_foreign (id : string) (wi : WorkflowInvocation) (s : Sys) :
  let tasks := match WorkflowInvocation_Status wi with
               | Some st => WorkflowInvocationStatus_Tasks st | None => ∅ end in
  (∀ less l, SliceStable less l ≡ₚ l) → id ≠ "" → sys_ok s → invocation_in s id = Some wi →
  (∀ name task, tasks !! name = Some task → task_id task ≠ "") →
  ∃ events s', Invocation_Events clock SliceStable id s = (Ret events, s') ∧ same_system s s' ∧
    events ≡ₚ b_stream (sys_backend s) (NewWorkflowAggregate id) ++
              mjoin ((λ p, b_stream (sys_backend s) (NewTaskRunAggregate (task_id p.2))) <$> map_to_list tasks) ∧
    ∀ ev, ev ∈ events → event_key ev ≠ Some (NewInvocationAggregate id).
Proof.
  intros tasks Hsort Hid Hok Hwi Htasks.
  destruct (get_events_spec toErrorStatus (NewWorkflowAggregate id) s) as (s1 & Hs1 & Hget); [by split|done|].
  pose proof Hs1 as (Hok1 & _ & Hinv1 & _ & Hst1).
  destruct (call_invocations_spec id s1 Hid Hok1) as (s2 & Hs2 & Hcall).
  assert (invocation_in s1 id = Some wi) as Hwi1 by (unfold invocation_in; rewrite Hinv1; exact Hwi).
  rewrite Hwi1 in Hcall. destruct Hcall as [Hcall _]. pose proof Hs2 as (Hok2 & _ & _ & _ & Hst2).
  destruct (collect_events (range 0 tasks) (b_stream (sys_backend s) (NewWorkflowAggregate id)) s2 Hok2)
    as (s3 & Hs3 & Hloop).
  { apply Forall_forall. intros [name task] Hin. apply elem_of_range in Hin. by apply (Htasks name). }
  eexists _, s3. unfold Invocation_Events, call_api. rewrite (st_bind_Ret _ _ _ _ _ Hget).
  rewrite (st_bind_Ret _ _ _ _ _ Hcall). cbv zeta. fold tasks. rewrite (st_bind_Ret _ _ _ _ _ Hloop).
  split; [reflexivity|]. split; [by do 2 (eapply same_system_trans; [done|])|].
  assert (∀ k, b_stream (sys_backend s2) k = b_stream (sys_backend s) k) as Hst by (intros; by rewrite Hst2, Hst1).
  assert (∀ l : list (string * TaskInvocation),
    mjoin ((λ p, b_stream (sys_backend s2) (NewTaskRunAggregate (task_id p.2))) <$> l) =
    mjoin ((λ p, b_stream (sys_backend s) (NewTaskRunAggregate (task_id p.2))) <$> l)) as Hsame.
  { intros l. f_equal. apply list_fmap_ext. intros. apply Hst. }
  split.
  - rewrite Hsort, Hsame. by rewrite (range_perm 0 tasks).
  - intros ev Hev. rewrite Hsort, elem_of_app, list_elem_of_join in Hev. destruct Hok as (Hb & _).
    destruct Hev as [Hev|(evs & Hev & Hin)].
    + by rewrite (b_stream_key _ _ _ Hb Hev).
    + rewrite Hsame in *. apply list_elem_of_fmap in Hin as (p & -> & _). rewrite Hst in Hev.
      by rewrite (b_stream_key _ _ _ Hb Hev).
Qed.
End spec.
