(* ===== verification/EnvProxy.v ===== *)
(** Component [pkg/apiserver/fission]: the proxy that makes workflows look like Fission functions.
    The client of the server, the files of a package and the readers of Fission's headers
    and requests are parameters. *)

From stdpp Require Import base gmap strings list.
From S2P Require Import Prelude Data Types TypedValues FnRefs NetHttp MediaType Httpconv Lru.
From Stdlib Require Import Ascii.

(** What the proxy reads of a request to load functions; the metadata is its identifier. *)
Record FunctionLoadRequest := MkFunctionLoadRequest {
  FilePath : string; FunctionName : string; FunctionMetadata : option string }.

Section proxy.
Context `{MapRange} `{Proto} `{PTypes} `{Rfc2231} `{Codecs} `{Fmt} `{!LRU bool} (fuel : nat).
Context {S : Type}.

(** The client of the server, over the state [S] of the engine. *)
Context (client_Get : string → st S goerror Workflow) (client_CreateSync : WorkflowSpec → st S goerror Workflow)
        (client_Invoke : WorkflowInvocationSpec → st S goerror string)
        (client_InvokeSync : WorkflowInvocationSpec → st S goerror WorkflowInvocation).
Context (error_text : goerror → string).

(** The identifier of the function among the headers of a request, a duration, the clock, and the
    files: whether a path is a directory, its entries, and the content of a file. *)
Context (function_uid : Header → string) (ParseDuration : string → option Z) (now : Z).
Context (Stat : string → option bool) (ReadDir : string → res goerror (list string)) (ReadFile : string → res goerror string).
Context (path_Join : string → string → string) (jsonpb_WorkflowSpec : string → option WorkflowSpec).
Context (json_FunctionLoadRequest : string → option FunctionLoadRequest).

(** The proxy, the engine behind it, and the response under way. *)
(** [pkg/apiserver/fission/envproxy.go:33-37] Proxy *)
Record Proxy := MkProxy {
  fissionIds : lru;
  defaultTimeout : Z;
  engine : S;
  response : Response }.

Notation M := (st Proxy goerror).

Definition respond {A} (m : st Response goerror A) : M A := λ p,
  let '(r, w) := m (response p) in (r, MkProxy (fissionIds p) (defaultTimeout p) (engine p) w).
Definition call {A} (m : st S goerror A) : M A := λ p,
  let '(r, s) := m (engine p) in (r, MkProxy (fissionIds p) (defaultTimeout p) s (response p)).

(** The keys of the cache are the identifiers. *)
Definition id_key (fnID : string) : Aggregate := MkAggregate fnID "".
Definition ids_Get (fnID : string) : M bool := λ p,
  let '(v, c) := lru_Get (id_key fnID) (fissionIds p) in
  (Ret (match v with Some _ => true | None => false end), MkProxy c (defaultTimeout p) (engine p) (response p)).
Definition ids_Add (fnID : string) : M () :=
  modifyS (λ p, MkProxy (lru_Add (id_key fnID) true (fissionIds p)).1 (defaultTimeout p) (engine p) (response p)).

(** [pkg/apiserver/fission/envproxy.go:40-53] NewEnvironmentProxyServer *)
Definition NewEnvironmentProxyServer (timeout : Z) (s : S) (w : Response) : res goerror Proxy :=
  match lru_New 10000 with
  | None => Panic "cache"
  | Some cache =>
      if decide (timeout ≤ 0)%Z then Panic "default timeout for the Fission Proxy must be larger than 0"
      else Ret (MkProxy cache timeout s w)
  end.

(** [pkg/apiserver/fission/envproxy.go:62-64] Proxy.handleHealthCheck *)
Definition handleHealthCheck : M () := respond (modifyS (w_WriteHeader 200)).

(** [pkg/apiserver/fission/envproxy.go:310-316] Proxy.hasWorkflow *)
Definition hasWorkflow (fnID : string) : M bool :=
  catch (_ ← call (client_Get fnID); mret true) (λ _, mret false).

Definition timeout_header : string := "X-Fission-Function-Timeout".

(** [pkg/apiserver/fission/envproxy.go:318-327] Proxy.determineDeadline *)
Definition determineDeadline (r : Request) : st Proxy goerror Z := λ p,
  (Ret (match ParseDuration (Header_Get (default ∅ (Req_Header r)) timeout_header) with
        | Some duration => now + duration
        | None => now + defaultTimeout p
        end)%Z, p).

(** [types.NewWorkflowInvocationSpec], with the inputs. *)
Definition invocation_spec (fnID : string) (deadline : Z) (inputs : gmap string (option TypedValue)) :
    res goerror WorkflowInvocationSpec :=
  match pt_TimestampProto deadline with
  | None => Panic "timestamp"
  | Some ts => Ret (MkWorkflowInvocationSpec fnID (omap id inputs) "" None (Some ts))
  end.

(** A failed invocation without an error gets one. *)
Definition with_unknown_error (status : WorkflowInvocationStatus) : option Error :=
  match WorkflowInvocationStatus_Error status with
  | None => if decide (WorkflowInvocationStatus_Status_ status = WorkflowInvocationStatus_SUCCEEDED)
            then None else Some (MkError "Unknown error")
  | err => err
  end.

(** The request of a function that was let through. *)
(** [pkg/apiserver/fission/envproxy.go:106-163] Proxy.handleRequest: the part after the look-up *)
Definition forward (fnID : string) (r : Request) : M () :=
  match ParseRequest fuel DefaultHTTPMapper r with
  | Panic w => lift (Panic w)
  | Throw _ => respond (http_Error "Failed to parse inputs" 400)
  | Ret inputs =>
      deadline ← determineDeadline r;
      wfSpec ← lift (invocation_spec fnID deadline inputs);
      if decide (Header_Get (default ∅ (Req_Header r)) "X-Async" ≠ "") then
        catch (invocationID ← call (client_Invoke wfSpec);
               respond (_ ← modifyS (w_WriteHeader 200);
                        catch (w_Write invocationID) (λ _, mret ())))
              (λ err, respond (http_Error (error_text err) 500))
      else
        wi ← catch (wi ← call (client_InvokeSync wfSpec); mret (Some wi))
                   (λ err, _ ← respond (http_Error (error_text err) 500); mret None);
        match wi with
        | None => mret ()
        | Some wi =>
            status ← lift (deref (WorkflowInvocation_Status wi));
            respond (FormatResponse fuel error_text DefaultHTTPMapper (WorkflowInvocationStatus_Output status)
              (WorkflowInvocationStatus_OutputHeaders status) (with_unknown_error status))
        end
  end.

(** [pkg/apiserver/fission/envproxy.go:66-160] Proxy.handleRequest *)
Definition handleRequest (r : Request) : M () :=
  let fnID := function_uid (default ∅ (Req_Header r)) in
  if decide (fnID = "") then respond (http_Error "Fission function name is missing" 400) else
  ok ← ids_Get fnID;
  if (ok : bool) then forward fnID r else
  has ← hasWorkflow fnID;
  if (has : bool) then respond (http_Error "Unknown fission function name; not specialized" 400) else
  _ ← ids_Add fnID;
  forward fnID r.

(** ** Specialization *)

(** [pkg/apiserver/fission/envproxy.go:242-271] Proxy.findWorkflowFiles *)
Definition findWorkflowFiles (flr : FunctionLoadRequest) : res goerror (list string) :=
  match Stat (FilePath flr) with
  | None => Throw (ErrFmt "no file present")
  | Some true =>
      match ReadDir (FilePath flr) with
      | Throw _ => Throw (ErrFmt "failed to read package")
      | Panic w => Panic w
      | Ret contents =>
          if decide (contents = []) then Throw (ErrFmt "package is empty")
          else Ret (path_Join (FilePath flr) <$> contents)
      end
  | Some false => Ret [FilePath flr]
  end.

Definition named_spec (spec : WorkflowSpec) (id name : string) : WorkflowSpec :=
  MkWorkflowSpec (WorkflowSpec_ApiVersion spec) (WorkflowSpec_Tasks spec) (WorkflowSpec_OutputTask spec)
    (WorkflowSpec_Description spec) id name (WorkflowSpec_Internal spec).

(** [pkg/apiserver/fission/envproxy.go:274-308] Proxy.createWorkflowFromFile *)
Definition createWorkflowFromFile (flr : FunctionLoadRequest) (path : string) : M string :=
  raw ← lift (match ReadFile path with Throw _ => Throw (ErrFmt "failed to read file") | r => r end);
  wfSpec ← lift (match jsonpb_WorkflowSpec raw with
                 | Some wfSpec => Ret wfSpec
                 | None => Throw (ErrFmt "failed to parse bytes to workflow specification") end);
  fissionID ← lift (deref (FunctionMetadata flr));
  let wfSpec := named_spec wfSpec fissionID (FunctionName flr) in
  resp ← catch (call (client_CreateSync wfSpec)) (λ _, throw (ErrFmt "failed to store workflow internally"));
  let wfID := Workflow_ID (Some resp) in
  _ ← ids_Add fissionID;
  mret wfID.

(** [pkg/apiserver/fission/envproxy.go:209-239] Proxy.specialize *)
Definition specialize (flr : option FunctionLoadRequest) : M (list string) :=
  match flr with
  | None => throw (ErrNew "no function load request provided")
  | Some flr =>
      match FunctionMetadata flr with
      | None => throw (ErrNew "no metadata provided in function load request")
      | Some _ =>
          wfPaths ← lift (findWorkflowFiles flr);
          loopM (λ wfIDs wfPath,
            wfID ← catch (createWorkflowFromFile flr wfPath) (λ _, throw (ErrFmt "failed to specialize package"));
            mret (wfIDs ++ [wfID])) [] wfPaths
      end
  end.

(** A status with a text as the body; that the client is gone is not noticed. *)
Definition status_text (code : Z) (text : string) : M () :=
  respond (_ ← modifyS (w_WriteHeader code); catch (w_Write text) (λ _, mret ())).

(** The errors of [specialize] are made by [errors.New] and [fmt.Errorf]: [os.IsNotExist] holds of
    none of them. *)
(** [pkg/apiserver/fission/envproxy.go:162-201] Proxy.handleSpecialize *)
Definition handleSpecialize (r : Request) : M () :=
  body ← lift (deref (Req_Body r));
  match body with
  | Panic w => lift (Panic w)
  | Throw err => status_text 500 ("failed to read body: " +:+ error_text err)
  | Ret bs =>
      match json_FunctionLoadRequest bs with
      | None => status_text 500 "Failed to parse body: json"
      | Some flr =>
          catch (wfIDs ← specialize (Some flr); status_text 200 (join ";" wfIDs))
                (λ err, status_text 500 (error_text err))
      end
  end.

(** ** What the proxy does *)

Context `{!LRULaws bool}.

Definition known (p : Proxy) (fnID : string) : bool := bool_decide (is_Some (contents (fissionIds p) !! id_key fnID)).

(** The same proxy but for the order in which the cache would forget its entries. *)
Definition same_but_order (p p' : Proxy) : Prop :=
  lru_ok (fissionIds p') ∧ contents (fissionIds p') = contents (fissionIds p) ∧
  defaultTimeout p' = defaultTimeout p ∧ engine p' = engine p ∧ response p' = response p.

Lemma ids_Get_spec fnID p : lru_ok (fissionIds p) →
  ∃ p', ids_Get fnID p = (Ret (known p fnID), p') ∧ same_but_order p p'.
Proof.
  intros Hok. unfold ids_Get, known. pose proof (lru_Get_spec (id_key fnID) (fissionIds p) Hok) as (Hok' & Hv & Hc & _).
  destruct (lru_Get (id_key fnID) (fissionIds p)) as [v c]. simpl in *. subst v.
  exists (MkProxy c (defaultTimeout p) (engine p) (response p)). split; [|by split_and!].
  f_equal. f_equal. destruct (contents (fissionIds p) !! id_key fnID) as [b|].
  - symmetry. apply bool_decide_eq_true. by exists b.
  - symmetry. apply bool_decide_eq_false. by intros [].
Qed.

Lemma lru_Add_known k c : lru_ok c → contents (lru_Add k true c).1 !! k = Some true.
Proof.
  intros Hok. destruct (lru_Add_spec k true c Hok) as (_ & _ & [(_ & -> & _)|(_ & k' & v' & _ & -> & _)]);
    apply lookup_insert_eq.
Qed.

Lemma hasWorkflow_spec fnID p :
  hasWorkflow fnID p =
  let '(r, s) := client_Get fnID (engine p) in
  (match r with Ret _ => Ret true | Throw _ => Ret false | Panic w => Panic w end,
   MkProxy (fissionIds p) (defaultTimeout p) s (response p)).
Proof. unfold hasWorkflow, catch, call, mbind, st_bind. by destruct (client_Get fnID (engine p)) as [[]]. Qed.

(** The answer [http.Error] gives. *)
Definition refused (text : string) (code : Z) (w w' : Response) : Prop :=
  http_Error text code w = (Ret (), w').

(** C28: Which requests the proxy lets through.  A request that names no function is refused; one of
    a function the proxy has seen is forwarded; of the others, one whose workflow the
    engine knows is refused as not specialized, and one whose workflow it does not know is
    registered and forwarded, the condition of the code being inverted. *)
Theorem handleRequest_gate (r : Request) (p : Proxy) :
  let fnID := function_uid (default ∅ (Req_Header r)) in
  let out := handleRequest r p in
  lru_ok (fissionIds p) →
  (fnID = "" → out.1 = Ret () ∧ engine out.2 = engine p ∧
     refused "Fission function name is missing" 400 (response p) (response out.2)) ∧
  (fnID ≠ "" → known p fnID = true → ∃ p', same_but_order p p' ∧ out = forward fnID r p') ∧
  (fnID ≠ "" → known p fnID = false →
   match client_Get fnID (engine p) with
   | (Ret _, s) => out.1 = Ret () ∧ engine out.2 = s ∧ known out.2 fnID = false ∧
       refused "Unknown fission function name; not specialized" 400 (response p) (response out.2)
   | (Throw _, s) => ∃ p', out = forward fnID r p' ∧ known p' fnID = true ∧ engine p' = s ∧ response p' = response p
   | (Panic w, _) => out.1 = Panic w
   end).
Proof.
  intros fnID out Hok. subst out. unfold handleRequest. fold fnID. split_and!.
  - intros He. rewrite decide_True by done. unfold respond, refused.
    destruct (http_Error _ _ (response p)) as [u w] eqn:Hw. unfold http_Error in Hw |- *.
    destruct (w_Write _ _) in Hw. injection Hw as <- <-. done.
  - intros Hne Hk. rewrite decide_False by done. destruct (ids_Get_spec fnID p Hok) as (p' & Hg & Hs).
    rewrite (st_bind_Ret _ _ _ _ _ Hg), Hk. by exists p'.
  - intros Hne Hk. rewrite decide_False by done.
    destruct (ids_Get_spec fnID p Hok) as (p' & Hg & Hok' & Hc & Hto & Hen & Hre).
    rewrite (st_bind_Ret _ _ _ _ _ Hg), Hk. pose proof (hasWorkflow_spec fnID p') as Hhas. rewrite Hen in Hhas.
    destruct (client_Get fnID (engine p)) as [[wf|e|w] s]; cbv iota in Hhas.
    + rewrite (st_bind_Ret _ _ _ _ _ Hhas). unfold respond, refused. cbn [response]. rewrite Hre. unfold http_Error.
      destruct (w_Write _ _) as [u w]. split_and!; [done|done| |done].
      unfold known in Hk |- *. cbn [fissionIds snd]. by rewrite Hc.
    + rewrite (st_bind_Ret _ _ _ _ _ Hhas). eexists. split; [reflexivity|]. split_and!; [|done|done].
      unfold known. apply bool_decide_eq_true. cbn. rewrite lru_Add_known by done. eauto.
    + unfold mbind, st_bind. by rewrite Hhas.
Qed.

(** What a forwarded request comes to.  Its body, query, headers and method are the inputs of
    one invocation of the workflow, whose deadline is the one the request asks for or the
    default one; the answer is the identifier of the invocation if the request is
    asynchronous, and otherwise its output, its headers and its error as a response, an
    invocation that failed without an error being reported as an unknown one. *)
Theorem forward_invokes (fnID : string) (r : Request) (p : Proxy) (inputs : gmap string (option TypedValue)) (ts : Timestamp) :
  let headers := default ∅ (Req_Header r) in
  let deadline := (now + default (defaultTimeout p) (ParseDuration (Header_Get headers timeout_header)))%Z in
  let spec := MkWorkflowInvocationSpec fnID (omap id inputs) "" None (Some ts) in
  ParseRequest fuel DefaultHTTPMapper r = Ret inputs → pt_TimestampProto deadline = Some ts →
  if decide (Header_Get headers "X-Async" = "") then
    match client_InvokeSync spec (engine p) with
    | (Ret wi, s) =>
        ∀ status, WorkflowInvocation_Status wi = Some status →
        let '(res, w) := FormatResponse fuel error_text DefaultHTTPMapper (WorkflowInvocationStatus_Output status)
          (WorkflowInvocationStatus_OutputHeaders status) (with_unknown_error status) (response p) in
        forward fnID r p = (res, MkProxy (fissionIds p) (defaultTimeout p) s w)
    | (Throw e, s) => ∃ w, refused (error_text e) 500 (response p) w ∧
        forward fnID r p = (Ret (), MkProxy (fissionIds p) (defaultTimeout p) s w)
    | (Panic y, s) => (forward fnID r p).1 = Panic y
    end
  else
    match client_Invoke spec (engine p) with
    | (Ret invocation, s) => ∃ w,
        forward fnID r p = (Ret (), MkProxy (fissionIds p) (defaultTimeout p) s w) ∧
        (Resp_sent (response p) = None → Resp_broken (response p) = false →
         sent w = (Some (200, Resp_header (response p))%Z, Resp_body (response p) +:+ invocation))
    | (Throw e, s) => ∃ w, refused (error_text e) 500 (response p) w ∧
        forward fnID r p = (Ret (), MkProxy (fissionIds p) (defaultTimeout p) s w)
    | (Panic y, s) => (forward fnID r p).1 = Panic y
    end.
Proof.
  intros headers deadline spec Hin Hts. unfold forward. rewrite Hin.
  assert (determineDeadline r p = (Ret deadline, p)) as Hd.
  { unfold determineDeadline, deadline. fold headers. by destruct (ParseDuration _). }
  rewrite (st_bind_Ret _ _ _ _ _ Hd). unfold invocation_spec. rewrite Hts, st_lift_Ret. fold headers. fold spec.
  destruct (decide (Header_Get headers "X-Async" = "")) as [Ha|Ha].
  - rewrite decide_False by (by intros Hn). unfold catch, call, mbind, st_bind.
    destruct (client_InvokeSync spec (engine p)) as [[wi|e|y] s]; [| |done].
    + intros status Hst. cbn [mret st_ret]. rewrite Hst. cbn [deref lift]. unfold respond. cbn [response].
      by destruct (FormatResponse _ _ _ _ _ _ _) as [res w].
    + unfold respond, refused. cbn [response]. unfold http_Error. destruct (w_Write _ _) as [u w]. by exists w.
  - rewrite decide_True by done. unfold catch, call, mbind, st_bind.
    destruct (client_Invoke spec (engine p)) as [[invocation|e|y] s]; [| |done].
    + unfold respond, modifyS. cbn [response]. cbn [w_WriteHeader w_Write server_writer].
      destruct (server_Write invocation _) as [[[]|e|y] w] eqn:Hw; cbn [mret st_ret].
      * exists w. split; [done|]. intros Hs Hb. unfold server_Write, server_WriteHeader in Hw. rewrite Hs in Hw.
        cbn [Resp_sent Resp_broken] in Hw. rewrite Hb in Hw. by injection Hw as <-.
      * exists w. split; [done|]. intros Hs Hb. unfold server_Write, server_WriteHeader in Hw. rewrite Hs in Hw.
        cbn [Resp_sent Resp_broken] in Hw. by rewrite Hb in Hw.
      * unfold server_Write in Hw. by destruct (Resp_broken _) in Hw.
    + unfold respond, refused. cbn [response]. unfold http_Error. destruct (w_Write _ _) as [u w]. by exists w.
Qed.

(** A package of several files is one workflow.  Every definition of the package is created under
    the identifier of the function, so that, with a server that creates workflows under
    the identifiers they ask for, all of them are the same workflow and each file overwrites the
    one before it; the function is known to the proxy afterwards. *)
Theorem specialize_one_id (flr : FunctionLoadRequest) (uid : string) (p p' : Proxy) (ids : list string) :
  (∀ spec s wf s', client_CreateSync spec s = (Ret wf, s') → WorkflowSpec_ForceId spec ≠ "" →
     Workflow_ID (Some wf) = WorkflowSpec_ForceId spec) →
  FunctionMetadata flr = Some uid → uid ≠ "" → lru_ok (fissionIds p) →
  specialize (Some flr) p = (Ret ids, p') →
  ∃ files, findWorkflowFiles flr = Ret files ∧ ids = replicate (length files) uid ∧
    known p' uid = true ∧ response p' = response p.
Proof.
  intros Hclient Hmeta Huid Hok. unfold specialize. rewrite Hmeta.
  destruct (findWorkflowFiles flr) as [files|e|w] eqn:Hf; [|done|done]. rewrite st_lift_Ret.
  intros Hrun. exists files. split; [done|].
  assert (files ≠ []) as Hne.
  { unfold findWorkflowFiles in Hf. destruct (Stat _) as [[]|]; [|by injection Hf as <-|done].
    destruct (ReadDir _) as [contents|e|w]; [|done|done]. case_decide; [done|]. injection Hf as <-. by destruct contents. }
  set (f := λ (wfIDs : list string) (wfPath : string),
    wfID ← catch (createWorkflowFromFile flr wfPath) (λ _, throw (ErrFmt "failed to specialize package"));
    mret (wfIDs ++ [wfID])) in Hrun.
  assert (∀ wfIDs path q ids q', lru_ok (fissionIds q) → f wfIDs path q = (Ret ids, q') →
    ids = wfIDs ++ [uid] ∧ known q' uid = true ∧ lru_ok (fissionIds q') ∧ response q' = response q) as Hstep.
  { intros wfIDs path q out q' Hq. unfold f. intros Hb. apply st_bind_inv in Hb as (wfID & q1 & Hc & Hret).
    injection Hret as <- <-. unfold catch in Hc.
    destruct (createWorkflowFromFile flr path q) as [[a|e|w] q2] eqn:Hcr; [|done|done]. injection Hc as -> ->.
    unfold createWorkflowFromFile in Hcr. rewrite Hmeta in Hcr.
    destruct (ReadFile path) as [raw|e|w]; [|done|done]. rewrite st_lift_Ret in Hcr.
    destruct (jsonpb_WorkflowSpec raw) as [wfSpec|]; [|done]. rewrite st_lift_Ret in Hcr.
    cbn [deref] in Hcr. rewrite st_lift_Ret in Hcr. unfold catch, call, mbind, st_bind in Hcr.
    destruct (client_CreateSync _ (engine q)) as [[wf|e|w] s] eqn:Hcl; [|done|done].
    apply Hclient in Hcl; [|done]. cbn in Hcl. injection Hcr as <- <-. rewrite Hcl. split; [done|].
    unfold known. cbn. split_and!; [|by apply lru_Add_spec|done].
    apply bool_decide_eq_true. rewrite lru_Add_known by done. eauto. }
  assert (∀ files wfIDs q ids q', lru_ok (fissionIds q) → loopM f wfIDs files q = (Ret ids, q') →
    ids = wfIDs ++ replicate (length files) uid ∧ response q' = response q ∧
    (files ≠ [] ∨ known q uid = true → known q' uid = true)) as Hloop.
  { clear -Hstep. induction files as [|path files IH]; intros wfIDs q out q' Hq Hl.
    - injection Hl as <- <-. rewrite List.app_nil_r. split_and!; [done|done|]. by intros [].
    - cbn [loopM] in Hl. apply st_bind_inv in Hl as (wfIDs1 & q1 & H1 & H2).
      apply Hstep in H1 as (-> & Hk & Hq1 & Hr1); [|done]. apply IH in H2 as (-> & Hr & Hk'); [|done].
      split_and!; [by rewrite <- List.app_assoc|congruence|]. intros _. apply Hk'. by right. }
  destruct (Hloop files [] p ids p' Hok Hrun) as (-> & Hr & Hk). split_and!; [done| |done]. apply Hk. by left.
Qed.
End proxy.
