(* ===== verification/HttpClient.v ===== *)
(** Component [pkg/apiserver/httpclient]: the client of the HTTP gateway, and the waiting of
    [pkg/apiserver/client.go].  The HTTP client and the JSON codec of protocol buffers are
    parameters; the calls that are made are recorded. *)

From stdpp Require Import base gmap strings list.
From S2P Require Import Prelude Data Types TypedValues FnRefs NetHttp.
From Stdlib Require Import Ascii.

(** A call of the gateway and its response; what could be read of the body of the response, and its
    declared length. *)
Record Call := MkCall { Call_Method : string; Call_URL : string; Call_Headers : Header; Call_Body : string }.
Record Reply := MkReply { Reply_StatusCode : Z; Reply_Status : string; Reply_ContentLength : Z; Reply_Body : string }.

Section client.
Context (http_Do : Call → res goerror Reply) (valid_url : string → bool) (error_text : goerror → string).
(** The headers of the tracer of the context. *)
Context (inject : Header → Header).

Notation M := (st (list Call) goerror).

Definition ErrResponseError : string := "response error".
Definition ErrRequestCreate : string := "failed to create request".
Definition ErrRequestSend : string := "failed to send request".
Definition ErrSerialize : string := "failed to serialize input".
Definition ErrDeserialize : string := "failed to deserialize input".

Definition describe (what : string) (err : goerror) : goerror := ErrFmt (what +:+ ": " +:+ error_text err).

Definition http_call (c : Call) : M Reply := λ log, (http_Do c, log ++ [c]).

(** [in] is serialized by [toJSON]; [out] says how the body is read into the result, whose
    initial value is [zero]. *)
(** [pkg/apiserver/httpclient/httpclient.go:39-105] callWithJSON *)
Definition callWithJSON {I O : Type} (toJSON : I → res goerror string) (method url : string) (in_ : option I)
    (zero : O) (out : option (string → res goerror O)) : M O :=
  buf ← lift (match in_ with
              | None => Ret ""
              | Some m => match toJSON m with Throw err => Throw (describe ErrSerialize err) | r => r end end);
  _ ← lift (if valid_url url then Ret () else Throw (describe ErrRequestCreate (ErrFmt "parse")));
  let req := MkCall method url (inject (Header_Set "Content-Type" "application/json" ∅)) buf in
  resp ← catch (http_call req) (λ err, throw (describe ErrRequestSend err));
  if decide (400 ≤ Reply_StatusCode resp)%Z
  then throw (ErrFmt (ErrResponseError +:+ " (" +:+ Reply_Status resp +:+ "): " +:+ TrimSpace (Reply_Body resp)))
  else match out with
       | Some fromJSON =>
           if decide (Reply_ContentLength resp ≠ 0)%Z
           then lift (match fromJSON (Reply_Body resp) with Throw err => Throw (describe ErrDeserialize err) | r => r end)
           else mret zero
       | None => mret zero
       end.

(** [pkg/apiserver/httpclient/httpclient.go:112-114] baseAPI.formatURL *)
Definition formatURL (endpoint path : string) : string := endpoint +:+ path.

(** What a call comes to: an error of the step that fails, or what the body is read to; an
    error of the server is an error of the call, with its text, and an empty response leaves the
    result as it was. *)
Lemma callWithJSON_outcome {I O : Type} (toJSON : I → res goerror string) method url (m : I) (body : string)
    (zero : O) (fromJSON : string → res goerror O) log :
  toJSON m = Ret body → valid_url url = true →
  let req := MkCall method url (inject (Header_Set "Content-Type" "application/json" ∅)) body in
  callWithJSON toJSON method url (Some m) zero (Some fromJSON) log =
  (match http_Do req with
   | Throw err => Throw (describe ErrRequestSend err)
   | Panic w => Panic w
   | Ret resp =>
       if decide (400 ≤ Reply_StatusCode resp)%Z
       then Throw (ErrFmt (ErrResponseError +:+ " (" +:+ Reply_Status resp +:+ "): " +:+ TrimSpace (Reply_Body resp)))
       else if decide (Reply_ContentLength resp ≠ 0)%Z
            then match fromJSON (Reply_Body resp) with Throw err => Throw (describe ErrDeserialize err) | r => r end
            else Ret zero
   end, log ++ [req]).
Proof.
  intros Hm Hu req. unfold callWithJSON. rewrite Hm, st_lift_Ret, Hu, st_lift_Ret. fold req.
  unfold catch, http_call, mbind, st_bind. destruct (http_Do req) as [resp|err|w]; [|done|done].
  do 2 (case_decide; [done|]). done.
Qed.

(** ** The calls of the gateway *)

Context (endpoint : string).

(** [in] is a message with its serialization, [out] the reading of a message. *)
Definition get_ {O} (path : string) (zero : O) (out : string → res goerror O) : M O :=
  callWithJSON (I := Empty_set) (λ _, Ret "") "GET" (formatURL endpoint path) None zero (Some out).
Definition post_ {I O} (toJSON : I → res goerror string) (path : string) (m : I) (zero : O) (out : option (string → res goerror O)) : M O :=
  callWithJSON toJSON "POST" (formatURL endpoint path) (Some m) zero out.
Definition delete_ (path : string) : M () :=
  callWithJSON (I := Empty_set) (λ _, Ret "") "DELETE" (formatURL endpoint path) None () None.

Section messages.
Context (Health Info WorkflowList WorkflowInvocationList ObjectEvents : Type).
Context (z_Health : Health) (z_Info : Info) (z_Workflows : WorkflowList) (z_Invocations : WorkflowInvocationList)
        (z_Events : ObjectEvents) (z_Metadata : ObjectMetadata) (z_Workflow : Workflow) (z_Invocation : WorkflowInvocation).
Context (r_Health : string → res goerror Health) (r_Info : string → res goerror Info)
        (r_Workflows : string → res goerror WorkflowList) (r_Invocations : string → res goerror WorkflowInvocationList)
        (r_Events : string → res goerror ObjectEvents) (r_Metadata : string → res goerror ObjectMetadata)
        (r_Workflow : string → res goerror Workflow) (r_Invocation : string → res goerror WorkflowInvocation).
Context (w_WorkflowSpec : WorkflowSpec → res goerror string) (w_InvocationSpec : WorkflowInvocationSpec → res goerror string).

(** [pkg/apiserver/httpclient/admin.go:24-28] AdminAPI.Status *)
Definition AdminAPI_Status : M Health := get_ "/healthz" z_Health r_Health.
(** [pkg/apiserver/httpclient/admin.go:30-34] AdminAPI.Version *)
Definition AdminAPI_Version : M Info := get_ "/version" z_Info r_Info.

(** [pkg/apiserver/httpclient/invocation.go:24-29] InvocationAPI.Invoke *)
Definition InvocationAPI_Invoke (spec : WorkflowInvocationSpec) : M ObjectMetadata :=
  post_ w_InvocationSpec "/invocation" spec z_Metadata (Some r_Metadata).
(** [pkg/apiserver/httpclient/invocation.go:31-36] InvocationAPI.InvokeSync *)
Definition InvocationAPI_InvokeSync (spec : WorkflowInvocationSpec) : M WorkflowInvocation :=
  post_ w_InvocationSpec "/invocation/sync" spec z_Invocation (Some r_Invocation).
(** [pkg/apiserver/httpclient/invocation.go:38-40] InvocationAPI.Cancel *)
Definition InvocationAPI_Cancel (id : string) : M () := delete_ ("/invocation/" +:+ id).
(** [pkg/apiserver/httpclient/invocation.go:42-46] InvocationAPI.List *)
Definition InvocationAPI_List : M WorkflowInvocationList := get_ "/invocation" z_Invocations r_Invocations.
(** [pkg/apiserver/httpclient/invocation.go:48-52] InvocationAPI.Get *)
Definition InvocationAPI_Get (id : string) : M WorkflowInvocation := get_ ("/invocation/" +:+ id) z_Invocation r_Invocation.
(** [pkg/apiserver/httpclient/invocation.go:54-56] InvocationAPI.Validate *)
Definition InvocationAPI_Validate (spec : WorkflowInvocationSpec) : M () :=
  post_ w_InvocationSpec "/invocation/validate" spec () None.
(** [pkg/apiserver/httpclient/invocation.go:58-62] InvocationAPI.Events *)
Definition InvocationAPI_Events (id : string) : M ObjectEvents :=
  get_ ("/invocation/" +:+ id +:+ "/events") z_Events r_Events.

(** [pkg/apiserver/httpclient/workflow.go:24-28] WorkflowAPI.Create *)
Definition WorkflowAPI_Create (spec : WorkflowSpec) : M ObjectMetadata :=
  post_ w_WorkflowSpec "/workflow" spec z_Metadata (Some r_Metadata).
(** [pkg/apiserver/httpclient/workflow.go:30-34] WorkflowAPI.CreateSync *)
Definition WorkflowAPI_CreateSync (spec : WorkflowSpec) : M Workflow :=
  post_ w_WorkflowSpec "/workflow/sync" spec z_Workflow (Some r_Workflow).
(** [pkg/apiserver/httpclient/workflow.go:36-40] WorkflowAPI.List *)
Definition WorkflowAPI_List : M WorkflowList := get_ "/workflow" z_Workflows r_Workflows.
(** [pkg/apiserver/httpclient/workflow.go:42-46] WorkflowAPI.Get *)
Definition WorkflowAPI_Get (id : string) : M Workflow := get_ ("/workflow/" +:+ id) z_Workflow r_Workflow.
(** [pkg/apiserver/httpclient/workflow.go:48-51] WorkflowAPI.Delete *)
Definition WorkflowAPI_Delete (id : string) : M () := delete_ ("/workflow/" +:+ id).
(** [pkg/apiserver/httpclient/workflow.go:53-57] WorkflowAPI.Events *)
Definition WorkflowAPI_Events (id : string) : M ObjectEvents :=
  get_ ("/workflow/" +:+ id +:+ "/events") z_Events r_Events.
End messages.
End client.

(** ** Waiting for the server *)

(** [status n] is the answer to the [n]-th call of [Status], and [ctx_done n] says whether the context is
    done before it.  A context that is done at once leaves the error [nil]. *)
(** [pkg/apiserver/client.go:16-29] Client.Await *)
Fixpoint Await_loop (status : nat → option goerror) (ctx_done : nat → bool) (fuel n : nat) (err : option goerror) :
    option (option goerror) :=
  match fuel with
  | O => None
  | S fuel =>
      if ctx_done n then Some err
      else match status n with
           | None => Some None
           | Some err => Await_loop status ctx_done fuel (S n) (Some err)
           end
  end.

Definition Await (status : nat → option goerror) (ctx_done : nat → bool) (fuel : nat) : option (option goerror) :=
  Await_loop status ctx_done fuel 0 None.

Definition answered (status : nat → option goerror) (n : nat) : bool :=
  match status n with None => true | Some _ => false end.

(** Waiting ends with the context at the latest, without an error if the server answered before, and
    otherwise with the error of the last call; but with none if the context was done at the start. *)
Lemma Await_loop_spec status ctx_done k : ∀ n err fuel,
  ctx_done (n + k) = true → (∀ m, n ≤ m < n + k → ctx_done m = false) → k < fuel →
  Await_loop status ctx_done fuel n err =
  Some (if existsb (answered status) (seq n k) then None else match k with O => err | S k => status (n + k) end).
Proof.
  induction k as [|k IH]; intros n err [|fuel] Hend Hlive Hf; try lia; cbn [Await_loop seq existsb].
  - rewrite Nat.add_0_r in Hend. by rewrite Hend.
  - rewrite Hlive by lia. unfold answered at 1. destruct (status n) as [e|] eqn:Hs; [|done]. cbn [orb].
    rewrite IH; [|by rewrite Nat.add_succ_comm|intros m Hm; apply Hlive; lia|lia].
    destruct k; [by rewrite Nat.add_0_r, Hs|]. by rewrite <- Nat.add_succ_comm.
Qed.
