(* ===== verification/WorkflowController.v ===== *)
(** Component [pkg/controller/workflow.go]: the controller that drives the parsing of
    one workflow. *)

From stdpp Require Import base gmap strings list.
From S2P Require Import Prelude Data Types Fes Projectors WorkQueue DelayingQueue Executor.
From S2P Require Import Ctrl InvocationController.

(** [pkg/controller/workflow.go:20-23] parseTask *)
Definition parseTask : string := "task".

(** [pkg/controller/workflow.go:26-31] WorkflowController *)
Record WorkflowController := MkWorkflowController {
  wc_errorCount : Z;
  workflowID : string }.

(** [pkg/controller/workflow.go:33-35] NewWorkflowController *)
Definition NewWorkflowController (workflowID : string) : WorkflowController :=
  MkWorkflowController 0 workflowID.

Definition parse_task (workflow : Workflow) : XTask :=
  new_task (Workflow_ID (Some workflow) +:+ "." +:+ parseTask) (Workflow_ID (Some workflow))
    (ActParse workflow).

Definition W_status (workflow : Workflow) : WorkflowStatus_Status :=
  match Workflow_Status workflow with
  | Some st => WorkflowStatus_Status_ st
  | None => WorkflowStatus_QUEUED
  end.

Definition second : Z := 10 ^ 9.

(** [pkg/controller/workflow.go:37-85] WorkflowController.Eval *)
Definition WorkflowController_Eval (now : Z) (processValue : option Ctrl.Event)
    (c : WorkflowController) (ex : Pool) : res Empty_set Result * (WorkflowController * Pool) :=
  match processValue with
  | None => (Panic "nil pointer dereference", (c, ex))
  | Some event =>
      match Notification_Updated (ev_notification event) with
      | Some (EWorkflow workflow) =>
          let id := Workflow_ID (Some workflow) in
          if decide (id ≠ workflowID c)
          then (Ret (Err (ErrFmt "workflow ID expected")), (c, ex)) else
          if decide (0 < GetGroupTasks ex id)%Z
          then (Ret (Err (ErrNew "still executing tasks for workflow")), (c, ex)) else
          match W_status workflow with
          | WorkflowStatus_READY | WorkflowStatus_DELETED => (Ret (Ctrl.Done ""), (c, ex))
          | WorkflowStatus_FAILED =>
              let backoff := to_i64 (wc_errorCount c * second) in
              let '(_, ex) := SubmitAfter now (parse_task workflow) backoff ex in
              (Ret (Success "retrying parsing of the workflow"), (c, ex))
          | WorkflowStatus_QUEUED =>
              let c := MkWorkflowController 0 (workflowID c) in
              let '(_, ex) := Executor.Submit now (parse_task workflow) ex in
              (Ret (Success "parsing of the workflow"), (c, ex))
          | _ => (Ret (Err (ErrNew "unknown workflow state")), (c, ex))
          end
      | _ => (Ret (Err (ErrFmt "entity expected")), (c, ex))
      end
  end.

#[export] Instance WorkflowController_Controller : Controller WorkflowController Pool := {|
  ctrl_Eval := WorkflowController_Eval |}.

(** The factories of the two meta controllers. *)
(** [pkg/controller/workflow.go:114-116] NewWorkflowMetaController (part) *)
Definition workflow_factory (event : Ctrl.Event) (ex : Pool) : res goerror WorkflowController :=
  Ret (NewWorkflowController (ev_Id event)).

(** [pkg/controller/invocation.go:542-561] NewInvocationMetaController (part) *)
Definition invocation_factory (event : Ctrl.Event) (ex : Pool) : res goerror InvocationController :=
  let invocationID := ev_Id event in
  if decide (invocationID = "") then Throw (ErrFmt "invocation ID missing in event")
  else Ret (NewInvocationController invocationID).

(** ** Theorems *)

(** Evaluations of a controller one after the other, whatever the events and the states
    of the executor: the state they leave the controller in. *)
Definition evaluations (l : list (Z * option Ctrl.Event * Pool)) (c : WorkflowController) :
    WorkflowController :=
  foldl (λ c '(now, ev, ex), (WorkflowController_Eval now ev c ex).2.1) c l.

Lemma Eval_fields now ev c ex :
  workflowID (WorkflowController_Eval now ev c ex).2.1 = workflowID c ∧
  (wc_errorCount c = 0%Z → wc_errorCount (WorkflowController_Eval now ev c ex).2.1 = 0%Z).
Proof.
  unfold WorkflowController_Eval. destruct ev as [ev|]; [|done].
  destruct (Notification_Updated _) as [[]|]; try done.
  repeat case_decide; try done.
  destruct (W_status _); try done; [by destruct (Executor.Submit _ _ _)|by destruct (SubmitAfter _ _ _ _)].
Qed.

Lemma evaluations_fields l c :
  workflowID (evaluations l c) = workflowID c ∧
  (wc_errorCount c = 0%Z → wc_errorCount (evaluations l c) = 0%Z).
Proof.
  revert c. induction l as [|[[now ev] ex] l IH]; intros c; [done|]. cbn [evaluations foldl].
  destruct (IH (WorkflowController_Eval now ev c ex).2.1) as [Hi He].
  destruct (Eval_fields now ev c ex) as [Hi' He']. unfold evaluations in *. split; [congruence|auto].
Qed.

(** At any time of its life, and whatever it was evaluated with before, a controller
    submits the parsing of its workflow when the workflow was not parsed or its parsing
    failed, and only then and only when nothing of the workflow is queued or running;
    it retires when the workflow is ready or deleted.  A failed parsing is submitted
    again at once, like the first one: the number of errors is never raised, so that
    the increasing backoff is always zero. *)
Theorem WorkflowController_parses (l : list (Z * option Ctrl.Event * Pool)) (id : string)
    (now : Z) (ev : Ctrl.Event) (wf : Workflow) (ex : Pool) :
  Notification_Updated (ev_notification ev) = Some (EWorkflow wf) → Workflow_ID (Some wf) = id →
  let c := evaluations l (NewWorkflowController id) in
  let '(r, (_, ex')) := WorkflowController_Eval now (Some ev) c ex in
  if decide (0 < GetGroupTasks ex id)%Z then (∃ err, r = Ret (Err err)) ∧ ex' = ex else
  match W_status wf with
  | WorkflowStatus_QUEUED | WorkflowStatus_FAILED =>
      (∃ msg, r = Ret (Success msg)) ∧ ex' = (Executor.Submit now (parse_task wf) ex).2
  | WorkflowStatus_READY | WorkflowStatus_DELETED => (∃ msg, r = Ret (Ctrl.Done msg)) ∧ ex' = ex
  | WorkflowStatus_unrecognized _ => (∃ err, r = Ret (Err err)) ∧ ex' = ex
  end.
Proof.
  intros Hup Hid c. destruct (evaluations_fields l (NewWorkflowController id)) as [Hi He].
  specialize (He eq_refl). fold c in Hi, He. unfold WorkflowController_Eval.
  rewrite Hup, Hi, Hid. cbn [NewWorkflowController workflowID].
  rewrite (decide_False (P := id ≠ id)) by (by intros []). case_decide; [eauto|].
  rewrite He. change (to_i64 (0 * second)) with 0%Z. unfold Executor.Submit.
  destruct (W_status wf); try (destruct (SubmitAfter _ _ _ _)); eauto.
Qed.
