(* ===== verification/Sensors.v ===== *)
(** Component [pkg/controller]: the sensors, which find the entities that need an
    evaluation and submit events for them to the control system. *)

From stdpp Require Import base gmap strings list.
From S2P Require Import Prelude Data Types Fes Projectors Cache WorkQueue DelayingQueue.
From S2P Require Import Executor Ctrl InvocationController Store WorkflowController.

(** [pkg/controller/workflow.go:20-23] EventRefresh *)
Definition EventRefresh : string := "refresh".

Section sensors.
Context `{MapRange} `{PTypes} {C : Type} `{CacheReaderWriter C}.

(** The event of a refresh.  Its aggregate is the address of a variable, which the
    event reads when it is used. *)
Definition refresh_event (now : Z) (aggregate : option Aggregate) : Data.Event :=
  Data.MkEvent "" EventRefresh aggregate (Some (pt_TimestampNow now)) None None None ∅.

(** What a sensor does with a message of its subscription: the error is logged, and
    the notification, [nil] then, is submitted all the same. *)
(** [pkg/controller/invocation.go:642-647] InvocationNotificationSensor.Run (part) *)
Definition forward {M} (as_notification : M → option Notification) (addr : positive) (msg : M) :
    option Ctrl.Event :=
  match Invocation_ToNotification as_notification msg with
  | Ret n => Some (Ctrl.MkEvent addr n)
  | _ => None
  end.

(** The loops run over the keys the cache lists, and submit a fresh event for some of
    them; [&aggregate] is the address of the loop's variable, which ends as the last
    key of the list. *)
Definition poll_loop {E} (f : Aggregate → st C E (option Notification)) (keys : list Aggregate) :
    st C E (list Notification) :=
  foldr (λ aggregate rest,
    n ← f aggregate; ns ← rest; mret (option_list n ++ ns)) (mret []) keys.

(** [x, err := m; if err != nil { continue }] *)
Definition or_skip {A} (m : st C goerror A) : st C Empty_set (option A) := λ c,
  match m c with
  | (Ret a, c') => (Ret (Some a), c')
  | (Throw _, c') => (Ret None, c')
  | (Panic why, c') => (Panic why, c')
  end.

(** One iteration for an invocation that the store lists. *)
(** [pkg/controller/invocation.go:679-720] InvocationStorePollSensor.Poll (part) *)
Definition poll_invocation (now : Z) (variable : option Aggregate) (aggregate : Aggregate) :
    st C Empty_set (option Notification) :=
  if decide (Aggregate_Type aggregate ≠ TypeInvocation) then mret None else
  _ ← or_skip (c_Refresh now aggregate);
  found ← or_skip (GetInvocation now (Aggregate_Id aggregate));
  match found with
  | None => mret None
  | Some wf =>
      match WI_status wf with
      | WorkflowInvocationStatus_ABORTED | WorkflowInvocationStatus_FAILED
      | WorkflowInvocationStatus_SUCCEEDED => mret None
      | _ => mret (Some (MkNotification (Some (EInvocation wf)) (Some (EInvocation wf))
                     (Some (refresh_event now variable)) aggregate))
      end
  end.

(** [pkg/controller/invocation.go:678-722] InvocationStorePollSensor.Poll *)
Definition InvocationStorePollSensor_Poll (now : Z) : st C Empty_set (list Notification) := λ c,
  let keys := c_List c in poll_loop (poll_invocation now (last keys)) keys c.

(** The zero value of the type. *)
Definition zero_Aggregate : Aggregate := MkAggregate "" "".

(** One iteration for a workflow: the event is made without its aggregate. *)
(** [pkg/controller/workflow.go:214-248] WorkflowStorePollSensor.Poll (part) *)
Definition poll_workflow (now : Z) (variable : option Aggregate) (aggregate : Aggregate) :
    st C Empty_set (option Notification) :=
  if decide (Aggregate_Type aggregate ≠ TypeWorkflow) then mret None else
  found ← or_skip (GetWorkflow now (Aggregate_Id aggregate));
  match found with
  | None => mret None
  | Some wf =>
      match W_status wf with
      | WorkflowStatus_DELETED | WorkflowStatus_READY => mret None
      | _ => mret (Some (MkNotification (Some (EWorkflow wf)) (Some (EWorkflow wf))
                     (Some (refresh_event now variable)) zero_Aggregate))
      end
  end.

(** [pkg/controller/workflow.go:213-249] WorkflowStorePollSensor.Poll *)
Definition WorkflowStorePollSensor_Poll (now : Z) : st C Empty_set (list Notification) := λ c,
  let keys := c_List c in poll_loop (poll_workflow now (last keys)) keys c.

(** ** The staleness sensor *)

(** [pkg/controller/invocation.go:564-574] NewInvocationMetaController (part) *)
Definition fetch_invocation (now : Z) (ctrlKey : string) : st C goerror (Aggregate * Entity) :=
  invocation ← GetInvocation now ctrlKey;
  mret (MkAggregate ctrlKey TypeInvocation, EInvocation invocation).

(** [time.Second] *)
Definition maxStaleness : Z := 10 ^ 9.

(** The body of the loop over the statistics: the event it submits, if any. *)
(** [pkg/controller/invocation.go:743-779] StalenessPollSensor.Poll (part) *)
Definition poll_stale {X} (now : Z) (s : System X) (ctrlKey : string) (ctrlStats : ControllerStats) :
    st C Empty_set (option Notification) :=
  let minLastEvaluation := (now - maxStaleness)%Z in
  if decide (minLastEvaluation < LastEvaluatedAt ctrlStats)%Z then mret None else
  match GetController ctrlKey s with
  | Some _ => mret None
  | None =>
      state ← or_skip (fetch_invocation now ctrlKey);
      match state with
      | None => mret None
      | Some (aggregate, entity) =>
          let submit := Some (MkNotification (Some entity) (Some entity)
                                (Some (refresh_event now (Some aggregate))) aggregate) in
          match entity with
          | EInvocation invocation =>
              match WorkflowInvocation_Status invocation with
              | None => lift (Panic "nil pointer dereference")
              | Some status => if WorkflowInvocationStatus_Finished status then mret None else mret submit
              end
          | _ => mret submit
          end
      end
  end.

(** The consumer always returns [true], so the loop sees every controller; a panic
    of the consumer leaves it. *)
(** [pkg/controller/invocation.go:742-780] StalenessPollSensor.Poll *)
Definition StalenessPollSensor_Poll {X} (now : Z) (s : System X) : st C Empty_set (list Notification) :=
  λ c, RangeControllerStats (λ ctrlKey ctrlStats '(r, c),
    match r with
    | Ret ns => (true, ((n ← poll_stale now s ctrlKey ctrlStats; mret (ns ++ option_list n)) c))
    | _ => (false, (r, c))
    end) s (Ret [], c).

(** The events of a poll are submitted in order, each at a fresh address. *)
Fixpoint submit_events {X} (next : positive) (ns : list Notification) (s : System X) : System X :=
  match ns with
  | [] => s
  | n :: ns => submit_events (Pos.succ next) ns (Ctrl.Submit (Some (Ctrl.MkEvent next n)) s).2
  end.
End sensors.

(** ** Theorems *)

Section loops.
Context {C E : Type} (f : Aggregate → st C E (option Notification)).

(** A loop over keys whose body keeps [I] and makes events that satisfy [P]. *)
Lemma poll_loop_spec (I : C → Prop) (P : Aggregate → Notification → Prop) keys c :
  (∀ k c, k ∈ keys → I c → ∃ o c', f k c = (Ret o, c') ∧ I c' ∧ ∀ n, o = Some n → P k n) →
  I c → ∃ ns c' ks, poll_loop f keys c = (Ret ns, c') ∧ I c' ∧ ks `sublist_of` keys ∧ Forall2 P ks ns.
Proof.
  revert c. induction keys as [|k keys IH]; intros c Hf Hc.
  - exists [], c, []. by split_and!.
  - destruct (Hf k c ltac:(by left) Hc) as (o & c1 & Hk & Hc1 & HP).
    destruct (IH c1) as (ns & c2 & ks & Hl & Hc2 & Hsub & Hall);
      [intros k' c' Hk'; apply Hf; by right|done|].
    exists (option_list o ++ ns), c2, (match o with Some _ => k :: ks | None => ks end).
    split_and!; [|done|by destruct o; constructor|destruct o; [constructor|]; auto].
    cbn [poll_loop foldr]. rewrite (st_bind_Ret _ _ _ _ _ Hk). fold (poll_loop f keys).
    by rewrite (st_bind_Ret _ _ _ _ _ Hl).
Qed.
End loops.

Section polls.
Context `{MapRange} `{PTypes} {C : Type} `{CacheLaws C}.

Lemma or_skip_Ret {A} (m : st C goerror A) c c' a :
  m c = (Ret a, c') → or_skip m c = (Ret (Some a), c').
Proof. intros Hm. unfold or_skip. by rewrite Hm. Qed.

Lemma or_skip_Throw {A} (m : st C goerror A) c c' err :
  m c = (Throw err, c') → or_skip m c = (Ret None, c').
Proof. intros Hm. unfold or_skip. by rewrite Hm. Qed.

Lemma get_or_skip_invocation now id c :
  cache_ok c → id ≠ "" →
  ∃ o c', or_skip (GetInvocation now id) c = (Ret o, c') ∧ cache_ok c' ∧
    ∀ inv, o = Some inv → cached c !! MkAggregate id TypeInvocation = Some (EInvocation inv) ∧
      WorkflowInvocation_ID inv = id.
Proof.
  intros Hok Hid. pose proof (GetInvocation_spec now id c Hok Hid) as Hg.
  destruct (GetInvocation now id c) as [r c'] eqn:Hgi. destruct Hg as (Hok' & _ & Hr).
  destruct r as [inv|err|why].
  - exists (Some inv), c'. split_and!; [by apply or_skip_Ret|done|]. intros ? [= <-].
    destruct (cached c !! _) as [[]|]; naive_solver.
  - exists None, c'. split_and!; [by eapply or_skip_Throw|done|done].
  - destruct (cached c !! _) as [[]|]; naive_solver.
Qed.

Lemma get_or_skip_workflow now id c :
  cache_ok c → id ≠ "" →
  ∃ o c', or_skip (GetWorkflow now id) c = (Ret o, c') ∧ cache_ok c' ∧
    ∀ wf, o = Some wf → cached c !! MkAggregate id TypeWorkflow = Some (EWorkflow wf) ∧
      Workflow_ID (Some wf) = id.
Proof.
  intros Hok Hid. pose proof (GetWorkflow_spec now id c Hok Hid) as Hg.
  destruct (GetWorkflow now id c) as [r c'] eqn:Hgi. destruct Hg as (Hok' & _ & Hr).
  destruct r as [wf|err|why].
  - exists (Some wf), c'. split_and!; [by apply or_skip_Ret|done|]. intros ? [= <-].
    destruct (cached c !! _) as [[]|]; naive_solver.
  - exists None, c'. split_and!; [by eapply or_skip_Throw|done|done].
  - destruct (cached c !! _) as [[]|]; naive_solver.
Qed.

(** The poll of the invocation store never fails on valid keys, and submits, in the order
    of the keys and at most once for each, the invocations that are not in a terminal
    state, each under its own key: the control system hands it to its own controller. *)
Theorem InvocationStorePollSensor_sound (now : Z) (c : C) :
  (∀ now k c, cache_ok c → aggregate_valid k →
     ∃ r c', c_Refresh now k c = (r, c') ∧ no_panic r ∧ cache_ok c') →
  cache_ok c → (∀ k, k ∈ c_List c → aggregate_valid k) →
  ∃ ns c' ks, InvocationStorePollSensor_Poll now c = (Ret ns, c') ∧ cache_ok c' ∧
    ks `sublist_of` c_List c ∧
    Forall2 (λ k n, ∃ inv, Notification_Updated n = Some (EInvocation inv) ∧
      Notification_Aggregate n = k ∧ k = GetAggregate (EInvocation inv) ∧ ¬ terminal inv) ks ns.
Proof.
  intros Hrefresh Hok Hkeys. unfold InvocationStorePollSensor_Poll. apply poll_loop_spec; [|done].
  intros k c1 Hk Hc1. pose proof (Hkeys k Hk) as Hv. unfold poll_invocation. case_decide as Hty.
  { by exists None, c1. }
  destruct (Hrefresh now k c1 Hc1 Hv) as (r & c2 & Hr & Hnp & Hc2).
  assert (∃ o, or_skip (c_Refresh now k) c1 = (Ret o, c2)) as [o Ho]
    by (unfold or_skip; rewrite Hr; destruct r; naive_solver).
  rewrite (st_bind_Ret _ _ _ _ _ Ho).
  destruct (get_or_skip_invocation now (Aggregate_Id k) c2 Hc2) as (o' & c3 & Hg & Hc3 & Hinv);
    [apply Hv|].
  rewrite (st_bind_Ret _ _ _ _ _ Hg). destruct o' as [inv|]; [|by exists None, c3].
  destruct (Hinv inv eq_refl) as [_ Hid].
  destruct (WI_status inv) eqn:Hst; try (by exists None, c3);
    (eexists (Some _), c3; split_and!; [done|done|]; intros ? [= <-]; exists inv; split_and!;
       [done|done| |unfold terminal; rewrite Hst; set_solver]).
  all: destruct k as [i t]; simpl in *; by subst.
Qed.

(** The events of the poll of the workflow store carry no key: the control system
    evaluates each with a controller for the workflow of the empty name, which refuses
    it.  No parsing is submitted, and the controllers of the workflows see nothing. *)
Theorem WorkflowStorePollSensor_ineffective (now : Z) (c c' : C) (ns : list Notification)
    (n : Notification) (addr : positive) (s : System WorkflowController) (ex : Pool) :
  cache_ok c → (∀ k, k ∈ c_List c → aggregate_valid k) →
  WorkflowStorePollSensor_Poll now c = (Ret ns, c') → n ∈ ns →
  (∀ ctrl, ctrls s !! "" = Some ctrl → workflowID ctrl = "") →
  ∃ s', handle workflow_factory now (Ctrl.MkEvent addr n) s ex = Ret (s', ex) ∧
    ∀ id, id ≠ "" → ctrls s' !! id = ctrls s !! id.
Proof.
  intros Hok Hkeys Hpoll Hn Hctrl.
  assert (∃ wf, Notification_Updated n = Some (EWorkflow wf) ∧ Notification_Aggregate n = zero_Aggregate ∧
    Workflow_ID (Some wf) ≠ "") as (wf & Hup & Hagg & Hid).
  { destruct (poll_loop_spec (poll_workflow now (last (c_List c))) cache_ok (λ _ n, ∃ wf,
      Notification_Updated n = Some (EWorkflow wf) ∧ Notification_Aggregate n = zero_Aggregate ∧
      Workflow_ID (Some wf) ≠ "") (c_List c) c) as (ns' & c2 & ks & Hl & _ & _ & Hall); [|done|].
    - intros k c1 Hk Hc1. destruct (Hkeys k Hk) as [Hi Ht]. unfold poll_workflow.
      case_decide; [by exists None, c1|].
      destruct (get_or_skip_workflow now (Aggregate_Id k) c1 Hc1 ltac:(done)) as (o & c2 & Hg & Hc2 & Hwf).
      rewrite (st_bind_Ret _ _ _ _ _ Hg). destruct o as [wf|]; [|by exists None, c2].
      destruct (Hwf wf eq_refl) as [_ Hwid].
      destruct (W_status wf); try (by exists None, c2);
        (eexists (Some _), c2; split_and!; [done|done|]; intros ? [= <-]; exists wf; by rewrite Hwid).
    - unfold WorkflowStorePollSensor_Poll in Hpoll. rewrite Hl in Hpoll. injection Hpoll as <- <-.
      apply list_elem_of_lookup in Hn as [i Hi]. by destruct (Forall2_lookup_r _ _ _ _ _ Hall Hi) as (_ & _ & ?). }
  assert (∀ ctrl s, workflowID ctrl = "" → ∃ s', eval now "" ctrl (Ctrl.MkEvent addr n) s ex = (s', ex) ∧
    ∀ id, id ≠ "" → ctrls s' !! id = ctrls s !! id) as Heval.
  { intros ctrl s0 Hc. unfold eval. cbn [ctrl_Eval WorkflowController_Controller].
    unfold WorkflowController_Eval. cbn [ev_notification]. rewrite Hup, decide_True by congruence.
    eexists; split; [done|]. intros id Hne. cbn. by rewrite lookup_insert_ne. }
  unfold handle, GetController, ev_Id. cbn [ev_notification]. rewrite Hagg. cbn [zero_Aggregate Aggregate_Id].
  destruct (ctrls s !! "") as [ctrl|] eqn:Hs.
  - destruct (Heval ctrl s (Hctrl ctrl eq_refl)) as (s' & -> & Hs'). by exists s'.
  - unfold workflow_factory, ev_Id. cbn [ev_notification]. rewrite Hagg. cbn [zero_Aggregate Aggregate_Id].
    destruct (Heval (NewWorkflowController "") (AddController "" (NewWorkflowController "") s) eq_refl)
      as (s' & -> & Hs'). exists s'. split; [done|]. intros id Hne. rewrite Hs' by done.
    cbn. by rewrite lookup_insert_ne.
Qed.

(** The staleness sensor submits events only for controllers the system has dropped: a
    controller that still exists is never evaluated again because it is stale. *)
Theorem StalenessPollSensor_skips_live {X} (now : Z) (s : System X) (c c' : C) ns n :
  StalenessPollSensor_Poll now s c = (Ret ns, c') → n ∈ ns →
  ∃ key stats, ctrlStats s !! key = Some stats ∧ (LastEvaluatedAt stats ≤ now - maxStaleness)%Z ∧
    GetController key s = None ∧ Notification_Aggregate n = MkAggregate key TypeInvocation.
Proof.
  set (P n := ∃ key stats, ctrlStats s !! key = Some stats ∧
    (LastEvaluatedAt stats ≤ now - maxStaleness)%Z ∧
    GetController key s = None ∧ Notification_Aggregate n = MkAggregate key TypeInvocation).
  assert (∀ key stats c1 c2 n, ctrlStats s !! key = Some stats →
    poll_stale now s key stats c1 = (Ret (Some n), c2) → P n) as Hone.
  { intros key stats c1 c2 n' Hst. unfold poll_stale. case_decide; [done|].
    destruct (GetController key s) eqn:Hg; [done|]. intros Hp.
    apply st_bind_inv in Hp as (state & c3 & Hf & Hp). destruct state as [[agg e]|]; [|done].
    assert (agg = MkAggregate key TypeInvocation) as ->.
    { unfold or_skip in Hf. destruct (fetch_invocation now key c1) as [[a| |] c4] eqn:Hfi; try done.
      injection Hf as -> _. unfold fetch_invocation in Hfi.
      apply st_bind_inv in Hfi as (inv & c5 & _ & Hr). by injection Hr. }
    assert (Notification_Aggregate n' = MkAggregate key TypeInvocation) as Ha.
    { destruct e as [|inv|]; try (by injection Hp as <- _).
      destruct (WorkflowInvocation_Status inv) as [st|]; [|done].
      destruct (WorkflowInvocationStatus_Finished st); [done|]. by injection Hp as <- _. }
    exists key, stats. split_and!; [done|by apply Z.nlt_ge|done|done]. }
  unfold StalenessPollSensor_Poll, RangeControllerStats.
  assert (∀ k v, (k, v) ∈ range 0 (ctrlStats s) → ctrlStats s !! k = Some v) as Hin
    by (intros k v; apply elem_of_range).
  revert Hin. generalize (range 0 (ctrlStats s)) as l. intros l Hin.
  assert (∀ ns0, Forall P ns0 → ∀ c, (fix go l x :=
      match l with
      | [] => x
      | (k, v) :: l =>
          let '(continue, x) := (λ ctrlKey ctrlStats '(r, c), match r with
            | Ret ns => (true, ((n ← poll_stale now s ctrlKey ctrlStats; mret (ns ++ option_list n)) c))
            | _ => (false, (r, c)) end) k v x in
          if continue : bool then go l x else x
      end) l (Ret ns0, c) = (Ret ns, c') → Forall P ns) as Hall.
  { induction l as [|[k v] l IH]; intros ns0 Hns0 c0; [by intros [= <- _]|].
    cbv beta iota. destruct (poll_stale now s k v c0) as [[o|[]|why] c1] eqn:Hp.
    - rewrite (st_bind_Ret _ _ _ _ _ Hp). apply IH; [intros; apply Hin; by right|]. apply Forall_app. split; [done|].
      destruct o as [n'|]; [|by apply Forall_nil]. apply Forall_singleton.
      eapply Hone; [apply Hin; by left|done].
    - assert ((n ← poll_stale now s k v; mret (ns0 ++ option_list n)) c0 = (Panic why, c1)) as ->
        by (unfold mbind, st_bind; by rewrite Hp).
      by destruct l as [|[k' v'] l]. }
  intros Hp Hn. specialize (Hall [] (Forall_nil_2 _) c Hp). by eapply Forall_forall in Hall.
Qed.
End polls.
