(* ===== verification/Lifecycle.v ===== *)
(** Components [pkg/api/store] and [pkg/controller]: the subscriptions to the updates of a cache, the
    sensors that forward them to a control system, the sensors that poll, and the meta controllers that
    start and stop a control system with its executor and its sensors. *)

From stdpp Require Import base gmap strings list.
From S2P Require Import Prelude Data Types Fes Projectors Pubsub MemBackend Cache WorkQueue DelayingQueue.
From S2P Require Import Executor Ctrl InvocationController Store WorkflowController Sensors.

(** ** Subscriptions to a store *)

(** [pkg/fes/notification.go:10-15] DefaultNotificationBuffer (part) *)
Definition DefaultNotificationBuffer : Z := 64.

Section subscriptions.
Context {M : Type}.
Implicit Types (pu : DefaultPublisher M).

(** A subscription of the publisher, and what closes it. *)
(** [pkg/api/store/store.go:125-128] WorkflowSubscription *)
Record WorkflowSubscription := MkWorkflowSubscription {
  ws_Subscription : nat;
  ws_closeFn : option (DefaultPublisher M → res goerror (DefaultPublisher M)) }.

(** [pkg/api/store/store.go:145-148] InvocationSubscription *)
Record InvocationSubscription := MkInvocationSubscription {
  is_Subscription : nat;
  is_closeFn : option (DefaultPublisher M → res goerror (DefaultPublisher M)) }.

Definition updates_of (types : list string) : SubscriptionOptions :=
  MkSubscriptionOptions DefaultNotificationBuffer (Some (InMatcher "aggregate.type" types)).

(** The cache of the store may not be a publisher. *)
(** [pkg/api/store/store.go:50-68] Workflows.GetWorkflowUpdates *)
Definition GetWorkflowUpdates (cache : option (DefaultPublisher M)) :
    option (WorkflowSubscription * DefaultPublisher M) :=
  workflowPub ← cache;
  let '(sub, workflowPub) := Subscribe workflowPub [updates_of [TypeWorkflow]] in
  Some (MkWorkflowSubscription sub (Some (λ pu, Unsubscribe pu sub)), workflowPub).

(** [pkg/api/store/store.go:106-123] Invocations.GetInvocationUpdates *)
Definition GetInvocationUpdates (cache : option (DefaultPublisher M)) :
    option (InvocationSubscription * DefaultPublisher M) :=
  invocationPub ← cache;
  let '(sub, invocationPub) := Subscribe invocationPub [updates_of [TypeInvocation; TypeTaskRun]] in
  Some (MkInvocationSubscription sub (Some (λ pu, Unsubscribe pu sub)), invocationPub).

(** [pkg/api/store/store.go:138-143] WorkflowSubscription.Close *)
Definition WorkflowSubscription_Close (sub : WorkflowSubscription) pu : res goerror (DefaultPublisher M) :=
  match ws_closeFn sub with None => Ret pu | Some f => f pu end.

(** [pkg/api/store/store.go:158-163] InvocationSubscription.Close *)
Definition InvocationSubscription_Close (sub : InvocationSubscription) pu : res goerror (DefaultPublisher M) :=
  match is_closeFn sub with None => Ret pu | Some f => f pu end.
End subscriptions.
Arguments WorkflowSubscription : clear implicits.
Arguments InvocationSubscription : clear implicits.

(** What the two kinds of subscriptions have in common. *)
Class UpdateSource (S M : Type) := {
  us_types : list string;
  us_updates : option (DefaultPublisher M) → option (S * DefaultPublisher M);
  us_sub : S → nat;
  us_close : S → DefaultPublisher M → res goerror (DefaultPublisher M) }.

(** Updates are the messages of these types; the subscription that was made is the one that is closed. *)
Class UpdateSourceLaws (S M : Type) `{UpdateSource S M} := {
  us_updates_spec : ∀ pu, ∃ sub, us_updates (Some pu) = Some (sub, (Subscribe pu [updates_of us_types]).2) ∧
    us_sub sub = (Subscribe pu [updates_of us_types]).1 ∧ ∀ pu', us_close sub pu' = Unsubscribe pu' (us_sub sub) }.

Section sources.
Context {M : Type}.

#[export] Instance workflow_source : UpdateSource (WorkflowSubscription M) M := {|
  us_types := [TypeWorkflow]; us_updates := GetWorkflowUpdates;
  us_sub := ws_Subscription; us_close := WorkflowSubscription_Close |}.
#[export] Instance workflow_source_laws : UpdateSourceLaws (WorkflowSubscription M) M.
Proof. split. intros pu. eexists. by split_and!. Qed.

#[export] Instance invocation_source : UpdateSource (InvocationSubscription M) M := {|
  us_types := [TypeInvocation; TypeTaskRun]; us_updates := GetInvocationUpdates;
  us_sub := is_Subscription; us_close := InvocationSubscription_Close |}.
#[export] Instance invocation_source_laws : UpdateSourceLaws (InvocationSubscription M) M.
Proof. split. intros pu. eexists. by split_and!. Qed.
End sources.

(** ** The sensors of notifications *)

(** The goroutine of a sensor: not started, before it subscribes, waiting for messages, over. *)
Inductive listener (S : Type) :=
| NotStarted
| Starting
| Listening (sub : S)
| Stopped.
Arguments NotStarted {S}. Arguments Starting {S}. Arguments Listening {S}. Arguments Stopped {S}.

(** Whether [closeC] was closed, which [done] does, and the goroutine. *)
(** [pkg/controller/invocation.go:612-616] InvocationNotificationSensor *)
Record NotificationSensor (S : Type) := MkNotificationSensor { ns_closed : bool; ns_run : listener S }.
Arguments MkNotificationSensor {S}. Arguments ns_closed {S}. Arguments ns_run {S}.

Section sensor.
Context {M S : Type} `{UpdateSource S M} (as_notification : M → option Notification) (addr_of : M → positive).
Implicit Types (pu : DefaultPublisher M) (s : NotificationSensor S).

(** [pkg/controller/invocation.go:618-625] NewInvocationNotificationSensor *)
Definition NewNotificationSensor : NotificationSensor S := MkNotificationSensor false NotStarted.

(** The goroutine of the first start; the meta controllers start a sensor once. *)
(** [pkg/controller/invocation.go:627-630] InvocationNotificationSensor.Start *)
Definition NotificationSensor_Start s : NotificationSensor S := MkNotificationSensor (ns_closed s) Starting.
(** [pkg/controller/invocation.go:658-661] InvocationNotificationSensor.Close *)
Definition NotificationSensor_Close s : NotificationSensor S := MkNotificationSensor true (ns_run s).

(** A receive on the channel of a subscription: [nil] when it is closed and empty, and
    nothing yet when it is open and empty. *)
Definition receive_from (sub : nat) pu : option (option M * DefaultPublisher M) :=
  s ← heap pu !! sub;
  match recv (Ch s) with
  | Some (msg, ch) => Some (Some msg, MkPublisher (subs pu) (<[sub := Subscription_with_Ch s ch]> (heap pu)))
  | None => if ch_closed (Ch s) then Some (None, pu) else None
  end.

(** What is submitted for a message. *)
Definition submission (msg : option M) : option Ctrl.Event :=
  m ← msg; forward as_notification (addr_of m) m.

(** The goroutine before its loop: it subscribes, or ends when the store has no updates. *)
(** [pkg/controller/invocation.go:632-638] InvocationNotificationSensor.Run (part) *)
Definition NotificationSensor_subscribe (cache : option (DefaultPublisher M)) s :
    NotificationSensor S * option (DefaultPublisher M) :=
  match us_updates cache with
  | None => (MkNotificationSensor (ns_closed s) Stopped, cache)
  | Some (sub, pu) => (MkNotificationSensor (ns_closed s) (Listening sub), Some pu)
  end.

(** An iteration of the loop that takes a message, and the event it submits; [None]: the goroutine does not
    take one. *)
(** [pkg/controller/invocation.go:639-646] InvocationNotificationSensor.Run (part) *)
Definition NotificationSensor_message s pu : option (option Ctrl.Event * DefaultPublisher M) :=
  match ns_run s with
  | Listening sub => '(msg, pu) ← receive_from (us_sub sub) pu; Some (submission msg, pu)
  | _ => None
  end.

(** The iteration that sees the sensor closed; an error of the subscription is logged. *)
(** [pkg/controller/invocation.go:647-656] InvocationNotificationSensor.Run (part) *)
Definition NotificationSensor_stop s pu : option (res goerror (NotificationSensor S * DefaultPublisher M)) :=
  match ns_run s, ns_closed s with
  | Listening sub, true =>
      Some (match us_close sub pu with
            | Ret pu => Ret (MkNotificationSensor true Stopped, pu)
            | Throw _ => Ret (MkNotificationSensor true Stopped, pu)
            | Panic why => Panic why
            end)
  | _, _ => None
  end.
End sensor.

Section sensors.
Context {M : Type} (as_notification : M → option Notification) (addr_of : M → positive).
Implicit Types (pu : DefaultPublisher M).

(** [pkg/controller/invocation.go:612-616] InvocationNotificationSensor *)
Definition InvocationNotificationSensor : Type := NotificationSensor (InvocationSubscription M).
(** [pkg/controller/invocation.go:618-625] NewInvocationNotificationSensor *)
Definition NewInvocationNotificationSensor : InvocationNotificationSensor := NewNotificationSensor.
(** [pkg/controller/invocation.go:627-630] InvocationNotificationSensor.Start *)
Definition InvocationNotificationSensor_Start : InvocationNotificationSensor → InvocationNotificationSensor :=
  NotificationSensor_Start.
(** [pkg/controller/invocation.go:658-661] InvocationNotificationSensor.Close *)
Definition InvocationNotificationSensor_Close : InvocationNotificationSensor → InvocationNotificationSensor :=
  NotificationSensor_Close.
(** [pkg/controller/invocation.go:632-638] InvocationNotificationSensor.Run (part) *)
Definition InvocationSensor_subscribe : option (DefaultPublisher M) → InvocationNotificationSensor →
    InvocationNotificationSensor * option (DefaultPublisher M) := NotificationSensor_subscribe.
(** [pkg/controller/invocation.go:639-646] InvocationNotificationSensor.Run (part) *)
Definition InvocationSensor_message : InvocationNotificationSensor → DefaultPublisher M →
    option (option Ctrl.Event * DefaultPublisher M) := NotificationSensor_message as_notification addr_of.
(** [pkg/controller/invocation.go:647-656] InvocationNotificationSensor.Run (part) *)
Definition InvocationSensor_stop : InvocationNotificationSensor → DefaultPublisher M →
    option (res goerror (InvocationNotificationSensor * DefaultPublisher M)) := NotificationSensor_stop.

(** [pkg/controller/workflow.go:148-152] WorkflowNotificationSensor *)
Definition WorkflowNotificationSensor : Type := NotificationSensor (WorkflowSubscription M).
(** [pkg/controller/workflow.go:154-161] NewWorkflowNotificationSensor *)
Definition NewWorkflowNotificationSensor : WorkflowNotificationSensor := NewNotificationSensor.
(** [pkg/controller/workflow.go:163-166] WorkflowNotificationSensor.Start *)
Definition WorkflowNotificationSensor_Start : WorkflowNotificationSensor → WorkflowNotificationSensor :=
  NotificationSensor_Start.
(** [pkg/controller/workflow.go:194-197] WorkflowNotificationSensor.Close *)
Definition WorkflowNotificationSensor_Close : WorkflowNotificationSensor → WorkflowNotificationSensor :=
  NotificationSensor_Close.
(** [pkg/controller/workflow.go:168-174] WorkflowNotificationSensor.Run (part) *)
Definition WorkflowSensor_subscribe : option (DefaultPublisher M) → WorkflowNotificationSensor →
    WorkflowNotificationSensor * option (DefaultPublisher M) := NotificationSensor_subscribe.
(** [pkg/controller/workflow.go:175-182] WorkflowNotificationSensor.Run (part) *)
Definition WorkflowSensor_message : WorkflowNotificationSensor → DefaultPublisher M →
    option (option Ctrl.Event * DefaultPublisher M) := NotificationSensor_message as_notification addr_of.
(** [pkg/controller/workflow.go:183-192] WorkflowNotificationSensor.Run (part) *)
Definition WorkflowSensor_stop : WorkflowNotificationSensor → DefaultPublisher M →
    option (res goerror (WorkflowNotificationSensor * DefaultPublisher M)) := NotificationSensor_stop.
End sensors.

(** ** What a sensor forwards *)

Section sensing.
Context {M S : Type} `{UpdateSourceLaws S M} (as_notification : M → option Notification) (addr_of : M → positive).
Context (labels_of : M → Labels).
Implicit Types (pu : DefaultPublisher M) (s : NotificationSensor S).

Notation selected := (λ m, selects labels_of (updates_of us_types) m = true).
Notation submission := (submission as_notification addr_of).

(** The publisher, the sensor and what it submitted; as a history, the messages published and received since
    it subscribed, and how many of those it asked for were dropped. *)
Record sensing := MkSensing {
  sg_publisher : DefaultPublisher M;
  sg_sensor : NotificationSensor S;
  sg_submitted : list (option Ctrl.Event);
  sg_published : list M;
  sg_received : list M;
  sg_lost : nat }.

Definition listening_to (σ : sensing) : option nat :=
  match ns_run (sg_sensor σ) with Listening sub => Some (us_sub sub) | _ => None end.

(** The subscription has no room for a message it asks for. *)
Definition dropped (o : option nat) pu msg : bool :=
  match o ≫= λ sub, heap pu !! sub with
  | Some c => accepts labels_of c msg && negb (bool_decide (length (ch_buf (Ch c)) < ch_cap (Ch c)))
  | None => false
  end.

Definition with_publisher pu (σ : sensing) : sensing :=
  MkSensing pu (sg_sensor σ) (sg_submitted σ) (sg_published σ) (sg_received σ) (sg_lost σ).
Definition with_sensor s (σ : sensing) : sensing :=
  MkSensing (sg_publisher σ) s (sg_submitted σ) (sg_published σ) (sg_received σ) (sg_lost σ).

(** The sensor among others: anyone may publish, subscribe, and receive from or end a subscription of
    their own. *)
Inductive sensing_step : sensing → sensing → Prop :=
| sense_publish msg pu σ :
    Publish (E := goerror) labels_of (sg_publisher σ) msg = Ret pu →
    sensing_step σ (MkSensing pu (sg_sensor σ) (sg_submitted σ)
      (if listening_to σ is Some _ then sg_published σ ++ [msg] else sg_published σ) (sg_received σ)
      (sg_lost σ + if dropped (listening_to σ) (sg_publisher σ) msg then 1 else 0))
| sense_subscribe_other opts σ :
    sensing_step σ (with_publisher (Subscribe (sg_publisher σ) opts).2 σ)
| sense_unsubscribe_other sub pu σ :
    listening_to σ ≠ Some sub → sub ∈ subs (sg_publisher σ) →
    Unsubscribe (E := goerror) (sg_publisher σ) sub = Ret pu → sensing_step σ (with_publisher pu σ)
| sense_receive_other sub msg pu σ :
    listening_to σ ≠ Some sub → receive_from sub (sg_publisher σ) = Some (msg, pu) →
    sensing_step σ (with_publisher pu σ)
| sense_start σ :
    ns_run (sg_sensor σ) = NotStarted → sensing_step σ (with_sensor (NotificationSensor_Start (sg_sensor σ)) σ)
| sense_run s pu σ :
    ns_run (sg_sensor σ) = Starting →
    NotificationSensor_subscribe (Some (sg_publisher σ)) (sg_sensor σ) = (s, Some pu) →
    sensing_step σ (MkSensing pu s (sg_submitted σ) [] [] 0)
| sense_message msg ev sub pu pu' σ :
    ns_run (sg_sensor σ) = Listening sub → receive_from (us_sub sub) (sg_publisher σ) = Some (msg, pu) →
    NotificationSensor_message as_notification addr_of (sg_sensor σ) (sg_publisher σ) = Some (ev, pu') →
    sensing_step σ (MkSensing pu' (sg_sensor σ) (sg_submitted σ ++ [ev]) (sg_published σ)
      (sg_received σ ++ option_list msg) (sg_lost σ))
| sense_close σ :
    sensing_step σ (with_sensor (NotificationSensor_Close (sg_sensor σ)) σ)
| sense_stop s pu σ :
    NotificationSensor_stop (sg_sensor σ) (sg_publisher σ) = Some (Ret (s, pu)) →
    sensing_step σ (MkSensing pu s (sg_submitted σ) (sg_published σ) (sg_received σ) (sg_lost σ)).

(** Before anything was started. *)
Definition sensing_initial pu : sensing := MkSensing pu NewNotificationSensor [] [] [] 0.

(** The subscription [sub] of the sensor: open, and holding what was asked for, published and
    neither received nor dropped. *)
Definition in_tune (σ : sensing) (sub : nat) : Prop :=
  sub ∈ subs (sg_publisher σ) ∧ ∃ c, heap (sg_publisher σ) !! sub = Some c ∧
    sub_options c = updates_of us_types ∧ ch_closed (Ch c) = false ∧
    sg_received σ ++ ch_buf (Ch c) `sublist_of` filter selected (sg_published σ) ∧
    length (sg_received σ ++ ch_buf (Ch c)) + sg_lost σ = length (filter selected (sg_published σ)).

Record sensing_ok (σ : sensing) : Prop := {
  sensing_publisher : publisher_ok (sg_publisher σ);
  sensing_submitted : sg_submitted σ = (λ m, submission (Some m)) <$> sg_received σ;
  sensing_received : sg_received σ `sublist_of` filter selected (sg_published σ);
  sensing_unstarted : ns_run (sg_sensor σ) = NotStarted ∨ ns_run (sg_sensor σ) = Starting → sg_received σ = [];
  sensing_listening sub : listening_to σ = Some sub → in_tune σ sub;
  sensing_closes sub : ns_run (sg_sensor σ) = Listening sub → ∀ pu, us_close sub pu = Unsubscribe pu (us_sub sub) }.

Lemma publisher_dom pu : publisher_ok pu → ∀ k, k ∈ subs pu → k ∈ dom (heap pu).
Proof. intros Hok k (c & Hc & _)%(publisher_ok_open _ Hok). by apply elem_of_dom_2 in Hc. Qed.

(** A new subscription leaves the others alone. *)
Lemma Subscribe_others pu opts : publisher_ok pu → publisher_ok (Subscribe pu opts).2 ∧
  ∀ k, k ∈ subs pu → k ∈ subs (Subscribe pu opts).2 ∧ heap (Subscribe pu opts).2 !! k = heap pu !! k.
Proof.
  intros Hpu. destruct (Subscribe pu opts) as [sub pu'] eqn:Hs.
  destruct (Subscribe_ok _ _ _ _ Hpu Hs (publisher_dom _ Hpu)) as (Hpu' & Hnew & Hsubs). split; [done|].
  intros k Hk. split; [cbn; rewrite Hsubs; set_solver|]. injection Hs as <- <-. cbn. rewrite lookup_insert_ne; [done|].
  intros Heq. apply (is_fresh (dom (heap pu))). rewrite Heq. by apply publisher_dom.
Qed.

(** A receive takes a message from the buffer of the subscription and leaves the others alone. *)
Lemma receive_from_inv sub pu msg pu' : publisher_ok pu → receive_from sub pu = Some (msg, pu') →
  publisher_ok pu' ∧ subs pu' = subs pu ∧ (∀ k, k ≠ sub → heap pu' !! k = heap pu !! k) ∧
  ∃ c, heap pu !! sub = Some c ∧
    ((msg = None ∧ ch_closed (Ch c) = true ∧ pu' = pu) ∨
     ∃ m buf, msg = Some m ∧ ch_buf (Ch c) = m :: buf ∧
       heap pu' !! sub = Some (Subscription_with_Ch c (MkChannel (ch_cap (Ch c)) buf (ch_closed (Ch c))))).
Proof.
  intros Hok. unfold receive_from. destruct (heap pu !! sub) as [c|] eqn:Hc; [|done]. cbn. unfold recv.
  destruct (ch_buf (Ch c)) as [|m buf] eqn:Hb.
  - destruct (ch_closed (Ch c)) eqn:Hcl; [|done]. intros [= <- <-]. split_and!; [done..|]. exists c. auto.
  - intros [= <- <-]. cbn. destruct Hok as [Hnd Ho Hbd]. split_and!; [|done|intros; by apply lookup_insert_ne|].
    + split; cbn; [done| |].
      * intros k Hk. destruct (Ho k Hk) as (c' & Hc' & Hcl). destruct (decide (k = sub)) as [->|].
        -- rewrite lookup_insert_eq. eexists. split; [done|]. cbn. congruence.
        -- rewrite lookup_insert_ne by done. eauto.
      * intros k c'. rewrite lookup_insert_Some. intros [[<- <-]|[_ Hk]]; [|by eapply Hbd].
        cbn. specialize (Hbd sub c Hc). rewrite Hb in Hbd. cbn in Hbd. lia.
    + exists c. split; [done|]. right. exists m, buf. rewrite lookup_insert_eq. by split_and!.
Qed.

Lemma in_tune_same σ σ' sub : in_tune σ sub → sub ∈ subs (sg_publisher σ') →
  heap (sg_publisher σ') !! sub = heap (sg_publisher σ) !! sub → sg_published σ' = sg_published σ →
  sg_received σ' = sg_received σ → sg_lost σ' = sg_lost σ → in_tune σ' sub.
Proof. unfold in_tune. intros [_ Hc] Hs -> -> -> ->. by split. Qed.

Lemma in_tune_publish msg pu σ sub : sensing_ok σ → listening_to σ = Some sub →
  Publish (E := goerror) labels_of (sg_publisher σ) msg = Ret pu →
  in_tune (MkSensing pu (sg_sensor σ) (sg_submitted σ) (sg_published σ ++ [msg]) (sg_received σ)
    (sg_lost σ + if dropped (Some sub) (sg_publisher σ) msg then 1 else 0)) sub.
Proof.
  intros Hok Hl Hp. destruct (sensing_listening _ Hok _ Hl) as (Hin & c & Hc & Ho & Hcl & Hsub & Hlen).
  destruct (Publish_spec (E := goerror) labels_of _ msg (sensing_publisher _ Hok)) as (pu' & Hp' & Hs & Hh).
  rewrite Hp in Hp'. injection Hp' as <-. unfold in_tune. cbn [sg_publisher sg_published sg_received sg_lost].
  rewrite Hs, Hh, decide_True, Hc by done. split; [done|]. eexists. split; [done|].
  unfold dropped. cbn [mbind option_bind]. rewrite Hc, filter_app, !length_app. unfold deliver, accepts. rewrite Ho.
  assert (filter selected [msg] = if selects labels_of (updates_of us_types) msg then [msg] else []) as ->.
  { rewrite filter_cons. by destruct (selects labels_of (updates_of us_types) msg). }
  rewrite length_app in Hlen. set (asked := filter selected (sg_published σ)) in *. clearbody asked.
  destruct (selects labels_of (updates_of us_types) msg); cbn [andb].
  - case_bool_decide; cbn; split_and!; try done.
    + rewrite app_assoc. by apply sublist_app.
    + rewrite length_app. cbn. lia.
    + by apply sublist_inserts_r.
    + lia.
  - cbn. rewrite !app_nil_r. split_and!; try done. cbn. lia.
Qed.

Ltac sg_simpl :=
  cbn [sg_publisher sg_sensor sg_submitted sg_published sg_received sg_lost with_publisher with_sensor
       NotificationSensor_Start NotificationSensor_Close ns_run ns_closed] in *.

Lemma sensing_step_ok σ σ' : sensing_step σ σ' → sensing_ok σ → sensing_ok σ'.
Proof.
  intros Hstep Hok. pose proof Hok as [Hpu Hsub Hrec Hun Hli Hcl].
  destruct Hstep as [msg pu σ Hp|opts σ|sub pu σ Hne Hin Hu|sub msg pu σ Hne Hr|σ Hns|s pu σ Hst Hs
    |msg ev sub pu pu' σ Hl Hr Hm|σ|s pu σ Hstop].
  - split; sg_simpl; [by eapply Publish_ok|done| |done| |done].
    + destruct (listening_to σ); [|done]. rewrite filter_app. by apply sublist_inserts_r.
    + intros sub Hl. change (listening_to σ = Some sub) in Hl. rewrite Hl. by apply in_tune_publish.
  - destruct (Subscribe_others (sg_publisher σ) opts Hpu) as [Hpu' Hoth].
    split; sg_simpl; try done. intros sub Hl. pose proof (Hli sub Hl) as Ht.
    destruct (Hoth sub (proj1 Ht)) as [Hin Hh]. by eapply in_tune_same.
  - destruct (Unsubscribe_spec (E := goerror) _ sub Hpu Hin) as (pu' & Hu' & Hpu' & Hsubs & Hh).
    rewrite Hu in Hu'. injection Hu' as <-. split; sg_simpl; try done. intros k Hl. change (listening_to σ = Some k) in Hl. pose proof (Hli k Hl) as Ht.
    eapply in_tune_same; [exact Ht| | |done..]; destruct Ht as [Hk _]; cbn.
    + rewrite Hsubs. apply list_elem_of_filter. split; [congruence|done].
    + apply Hh. congruence.
  - destruct (receive_from_inv _ _ _ _ Hpu Hr) as (Hpu' & Hsubs & Hh & _). split; sg_simpl; try done.
    intros k Hl. change (listening_to σ = Some k) in Hl. pose proof (Hli k Hl) as Ht. eapply in_tune_same; [exact Ht| | |done..]; cbn.
    + rewrite Hsubs. apply Ht.
    + apply Hh. congruence.
  - split; sg_simpl; try done. intros _. apply Hun. by left.
  - unfold NotificationSensor_subscribe in Hs.
    destruct (us_updates_spec (sg_publisher σ)) as (sub & Hup & Hsid & Hclo).
    destruct (Subscribe (sg_publisher σ) [updates_of us_types]) as [k pu'] eqn:Hk.
    rewrite Hup in Hs. cbn [fst snd] in *. injection Hs as <- <-.
    destruct (Subscribe_ok _ _ _ _ Hpu Hk (publisher_dom _ Hpu)) as (Hpu' & _ & Hsubs).
    rewrite Hsub, (Hun (or_intror Hst)). split; sg_simpl; try done; [|by intros sub' [= <-]].
    intros k' [= <-]. rewrite Hsid. unfold in_tune. cbn. rewrite Hsubs. split; [set_solver|].
    injection Hk as <- <-. cbn. rewrite lookup_insert_eq. eexists. split; [done|]. by split_and!.
  - unfold NotificationSensor_message in Hm. rewrite Hl in Hm. cbn in Hm. rewrite Hr in Hm. injection Hm as <- <-.
    destruct (receive_from_inv _ _ _ _ Hpu Hr) as (Hpu' & Hsubs & _ & c & Hc & Hcase).
    assert (listening_to σ = Some (us_sub sub)) as Hlt by (unfold listening_to; by rewrite Hl).
    destruct (Hli _ Hlt) as (Hin & c' & Hc' & Ho & Hopen & Hbuf & Hlen). rewrite Hc in Hc'. injection Hc' as <-.
    destruct Hcase as [(_ & Hcl' & _)|(m & buf & -> & Hb & Hh)]; [congruence|]. rewrite Hb in Hbuf, Hlen. cbn [option_list].
    split; sg_simpl; try done.
    + by rewrite fmap_app, Hsub.
    + etrans; [|exact Hbuf]. apply sublist_app; [done|]. apply sublist_skip, sublist_nil_l.
    + rewrite Hl. by intros [|].
    + intros k Hk. unfold listening_to in Hk. cbn in Hk. rewrite Hl in Hk. injection Hk as <-.
      unfold in_tune. cbn. rewrite Hsubs, Hh. split; [done|]. eexists. split; [done|]. cbn.
      rewrite <- app_assoc. by split_and!.
  - split; sg_simpl; done.
  - unfold NotificationSensor_stop in Hstop. destruct (ns_run (sg_sensor σ)) as [| |sub|] eqn:Hl; try done.
    destruct (ns_closed (sg_sensor σ)); [|done]. injection Hstop as Hstop.
    assert (listening_to σ = Some (us_sub sub)) as Hlt by (unfold listening_to; by rewrite Hl).
    rewrite (Hcl sub eq_refl) in Hstop.
    destruct (Unsubscribe_spec (E := goerror) _ (us_sub sub) Hpu (proj1 (Hli _ Hlt))) as (pu' & Hu & Hpu' & _).
    rewrite Hu in Hstop. injection Hstop as <- <-. split; sg_simpl; try done. by intros [|].
Qed.

Lemma sensing_reachable_ok pu σ : publisher_ok pu → rtc sensing_step (sensing_initial pu) σ → sensing_ok σ.
Proof.
  intros Hpu. apply rtc_ind_r; [split; try done; cbn; by intros|]. intros σ1 σ2 _ Hstep. by apply sensing_step_ok.
Qed.

(** C38: A sensor forwards what its cache publishes of its entities.  Among any other users of the
    publisher, what it has submitted is what it has received, one event for each message; that is a part of
    the messages of its types that were published since it subscribed, in their order; what it has not received yet
    is in its buffer, and nothing is missing unless the buffer was full.  It can always take the next
    message; once closed it can always stop, after which it is no longer subscribed. *)
Theorem sensor_forwards pu σ : publisher_ok pu → rtc sensing_step (sensing_initial pu) σ →
  sg_submitted σ = (λ m, submission (Some m)) <$> sg_received σ ∧
  sg_received σ `sublist_of` filter selected (sg_published σ) ∧
  ∀ sub, ns_run (sg_sensor σ) = Listening sub →
    ∃ c, heap (sg_publisher σ) !! us_sub sub = Some c ∧
      (sg_lost σ = 0 → sg_received σ ++ ch_buf (Ch c) = filter selected (sg_published σ)) ∧
      (∀ m buf, ch_buf (Ch c) = m :: buf → ∃ pu',
         NotificationSensor_message as_notification addr_of (sg_sensor σ) (sg_publisher σ) =
           Some (submission (Some m), pu')) ∧
      (ns_closed (sg_sensor σ) = true → ∃ pu',
         NotificationSensor_stop (sg_sensor σ) (sg_publisher σ) =
           Some (Ret (MkNotificationSensor true Stopped, pu')) ∧ us_sub sub ∉ subs pu').
Proof.
  intros Hpu Hr. pose proof (sensing_reachable_ok _ _ Hpu Hr) as Hok. split_and!; [apply Hok..|].
  intros sub Hl. assert (listening_to σ = Some (us_sub sub)) as Hlt by (unfold listening_to; by rewrite Hl).
  destruct (sensing_listening _ Hok _ Hlt) as (Hin & c & Hc & _ & _ & Hsub & Hlen).
  exists c. split_and!; [done| | |].
  - intros Hz. apply sublist_full; [done|]. lia.
  - intros m buf Hb. unfold NotificationSensor_message, receive_from. rewrite Hl. cbn. rewrite Hc. cbn. unfold recv. rewrite Hb. by eexists.
  - intros Hcl. unfold NotificationSensor_stop. rewrite Hl, Hcl, (sensing_closes _ Hok _ Hl).
    destruct (Unsubscribe_spec (E := goerror) _ _ (sensing_publisher _ Hok) Hin) as (pu' & -> & _ & Hs & _).
    exists pu'. split; [done|]. rewrite Hs. by intros [? _]%list_elem_of_filter.
Qed.
End sensing.

(** ** From an event to a controller *)

Section waking.
Context {C B : Type} `{HC : CacheLaws C} `{HB : BackendLaws B}.
Context {P : Projector} {ty : string} {good : Entity → Prop} {fit : Data.Event → Prop}
  {sim : relation Entity} {HP : ProjectorLaws P ty good fit sim} `{PTypes}.
Context {S : Type} `{UpdateSource S Notification} (addr_of : Notification → positive).

End waking.

(** ** Sensors that poll *)

(** [pkg/controller/ctrl/ctrl.go:228-234] PollSensor *)
Record PollSensor := MkPollSensor { ps_interval : Z; ps_closed : bool; ps_run : listener () }.

(** [pkg/controller/ctrl/ctrl.go:236-244] NewPollSensor *)
Definition NewPollSensor (interval : Z) : PollSensor := MkPollSensor interval false NotStarted.

(** [pkg/controller/invocation.go:670-676] NewInvocationStorePollSensor *)
Definition NewInvocationStorePollSensor (interval : Z) : PollSensor := NewPollSensor interval.
(** [pkg/controller/invocation.go:731-740] NewStalenessPollSensor *)
Definition NewStalenessPollSensor (interval : Z) : PollSensor := NewPollSensor interval.
(** [pkg/controller/workflow.go:205-211] NewWorkflowStorePollSensor *)
Definition NewWorkflowStorePollSensor (interval : Z) : PollSensor := NewPollSensor interval.

(** [pkg/controller/ctrl/ctrl.go:246-249] PollSensor.Close *)
Definition PollSensor_Close (s : PollSensor) : PollSensor := MkPollSensor (ps_interval s) true (ps_run s).
(** [pkg/controller/ctrl/ctrl.go:251-254] PollSensor.Start *)
Definition PollSensor_Start (s : PollSensor) : PollSensor := MkPollSensor (ps_interval s) (ps_closed s) (Listening ()).

(** The steps of the loop: a tick of the clock, after which it polls, whether or not the sensor was closed in the
    meantime; and the end, once it was closed. *)
(** [pkg/controller/ctrl/ctrl.go:256-268] PollSensor.Run *)
Inductive PollSensor_Run {W} (poll : W → W) : PollSensor * W → PollSensor * W → Prop :=
| poll_tick s w : ps_run s = Listening () → PollSensor_Run poll (s, w) (s, poll w)
| poll_closed s w : ps_run s = Listening () → ps_closed s = true →
    PollSensor_Run poll (s, w) (MkPollSensor (ps_interval s) true Stopped, w).

(** ** The meta controllers *)

(** [pkg/controller/ctrl/ctrl.go:26-29] Sensor *)
Class Sensor (S : Type) := { sensor_Start : S → S; sensor_Close : S → S; sensor_closed : S → bool }.
#[export] Instance notification_sensor S : Sensor (NotificationSensor S) := {|
  sensor_Start := NotificationSensor_Start; sensor_Close := NotificationSensor_Close; sensor_closed := ns_closed |}.
#[export] Instance poll_sensor : Sensor PollSensor := {|
  sensor_Start := PollSensor_Start; sensor_Close := PollSensor_Close; sensor_closed := ps_closed |}.
#[export] Instance either_sensor S T `{Sensor S, Sensor T} : Sensor (S + T) := {|
  sensor_Start := sum_map sensor_Start sensor_Start; sensor_Close := sum_map sensor_Close sensor_Close;
  sensor_closed s := match s with inl s => sensor_closed s | inr s => sensor_closed s end |}.

(** A control system whose loop runs once at most. *)
Record Runnable (C : Type) := MkRunnable { rn_system : System C; rn_ran : bool }.
Arguments MkRunnable {C}. Arguments rn_system {C}. Arguments rn_ran {C}.

(** [pkg/controller/ctrl/ctrl.go:157-161] System.Run *)
Definition System_Run {C} (s : Runnable C) : Runnable C :=
  if rn_ran s then s else MkRunnable (rn_system s) true.

Section meta.
Context {C S : Type} `{Sensor S}.

(** [pkg/controller/invocation.go:527-533] InvocationMetaController *)
Record MetaController := MkMetaController {
  mc_executor : Pool;
  mc_ran : bool;
  mc_system : Runnable C;
  mc_sensors : list S }.
Implicit Types m : MetaController.

(** Starting a sensor does not fail. *)
(** [pkg/controller/invocation.go:585-600] InvocationMetaController.run *)
Definition InvocationMetaController_run m : res goerror MetaController :=
  ex ← Start (mc_executor m);
  Ret (MkMetaController ex (mc_ran m) (System_Run (mc_system m)) (sensor_Start <$> mc_sensors m)).

(** The goroutine is done when this returns. *)
(** [pkg/controller/invocation.go:579-583] InvocationMetaController.Run *)
Definition InvocationMetaController_Run m : res goerror MetaController :=
  if mc_ran m then Ret m
  else InvocationMetaController_run (MkMetaController (mc_executor m) true (mc_system m) (mc_sensors m)).

(** [pkg/controller/workflow.go:120-136] WorkflowMetaController.Run *)
Definition WorkflowMetaController_Run m : res goerror MetaController :=
  if mc_ran m then Ret m else
  ex ← Start (mc_executor m);
  Ret (MkMetaController ex true (System_Run (mc_system m)) (sensor_Start <$> mc_sensors m)).

(** The error that is returned is the one of the last sensor, which has none. *)
(** [pkg/controller/invocation.go:602-609] InvocationMetaController.Close *)
Definition InvocationMetaController_Close m : res goerror MetaController :=
  ex ← Executor.Close (mc_executor m);
  Ret (MkMetaController ex (mc_ran m) (MkRunnable (Ctrl.Close (rn_system (mc_system m))) (rn_ran (mc_system m)))
         (sensor_Close <$> mc_sensors m)).

(** [pkg/controller/workflow.go:138-145] WorkflowMetaController.Close *)
Definition WorkflowMetaController_Close m : res goerror MetaController :=
  ex ← Executor.Close (mc_executor m);
  Ret (MkMetaController ex (mc_ran m) (MkRunnable (Ctrl.Close (rn_system (mc_system m))) (rn_ran (mc_system m)))
         (sensor_Close <$> mc_sensors m)).

(** Nothing is accepted any more. *)
Definition meta_closed m : Prop :=
  (∀ now t after, SubmitAfter now t after (mc_executor m) = (false, mc_executor m)) ∧
  (∀ ev, Ctrl.Submit ev (rn_system (mc_system m)) = (false, rn_system (mc_system m))) ∧
  Forall (λ s, sensor_closed s = true) (mc_sensors m).

Lemma closed_executor_rejects ex ex' now t after : Executor.Close (E := goerror) ex = Ret ex' →
  SubmitAfter now t after (ex' : Pool) = (false, ex').
Proof.
  unfold Executor.Close, delaying_ShutDown. destruct (ShuttingDown _); [done|]. intros [= <-].
  unfold SubmitAfter, enqueue, TryAddAfter, delaying_Add, Add. cbn. by case_decide.
Qed.

Lemma meta_Close_spec m :
  shuttingDown (inner (ex_queue (mc_executor m))) = false → (∀ s : S, sensor_closed (sensor_Close s) = true) →
  ∃ m', InvocationMetaController_Close m = Ret m' ∧ meta_closed m' ∧
    InvocationMetaController_Close m' = Panic "close of closed channel".
Proof.
  intros Hopen Hclose. unfold InvocationMetaController_Close.
  assert (Executor.Close (E := goerror) (mc_executor m) = Ret (with_queue (with_inner
    (ShutDown (inner (ex_queue (mc_executor m)))) (ex_queue (mc_executor m))) (mc_executor m))) as Hex.
  { unfold Executor.Close, delaying_ShutDown, ShuttingDown. by rewrite Hopen. }
  rewrite Hex, bind_Ret_l. eexists. split_and!; [done| |done]. split_and!.
  - intros now t after. by eapply closed_executor_rejects.
  - done.
  - cbn [mc_sensors]. apply Forall_fmap, Forall_true. done.
Qed.

(** The life of a meta controller.  However often it is run, its executor gets its workers
    once and the loop of its control system runs once.  Closing it has the executor and the control system
    refuse everything and the sensors stop; closing it again panics. *)
Theorem meta_lifecycle m :
  mc_ran m = false → (0 < maxParallelism (mc_executor m))%Z → shuttingDown (inner (ex_queue (mc_executor m))) = false →
  (∀ s : S, sensor_closed (sensor_Close s) = true) →
  ∃ m1 m2, InvocationMetaController_Run m = Ret m1 ∧ WorkflowMetaController_Run m = Ret m1 ∧
    InvocationMetaController_Run m1 = Ret m1 ∧ WorkflowMetaController_Run m1 = Ret m1 ∧
    workers (mc_executor m1) = workers (mc_executor m) + Z.to_nat (maxParallelism (mc_executor m)) ∧
    rn_ran (mc_system m1) = true ∧ mc_sensors m1 = sensor_Start <$> mc_sensors m ∧
    InvocationMetaController_Close m1 = Ret m2 ∧ WorkflowMetaController_Close m1 = Ret m2 ∧ meta_closed m2 ∧
    InvocationMetaController_Close m2 = Panic "close of closed channel" ∧
    WorkflowMetaController_Close m2 = Panic "close of closed channel".
Proof.
  intros Hran Hpar Hopen Hclose. unfold InvocationMetaController_Run, WorkflowMetaController_Run. rewrite Hran.
  unfold InvocationMetaController_run, Start. cbn [mc_executor mc_ran mc_system mc_sensors]. rewrite decide_False by lia.
  rewrite !bind_Ret_l. set (m1 := MkMetaController _ _ _ _).
  destruct (meta_Close_spec m1 Hopen Hclose) as (m2 & Hc & Hm2 & Hc2). exists m1, m2.
  split_and!; try done. unfold m1. cbn [mc_system]. unfold System_Run. by destruct (rn_ran (mc_system m)) eqn:?.
Qed.
End meta.
Arguments MetaController : clear implicits.

Definition meta_sensor (M : Type) : Type := NotificationSensor M + PollSensor.

(** [pkg/controller/invocation.go:535-577] NewInvocationMetaController (part) *)
Definition NewInvocationMetaController {M} (executor : Pool) (cachePollInterval : Z) :
    MetaController InvocationController (meta_sensor (InvocationSubscription M)) :=
  MkMetaController executor false (MkRunnable NewSystem false)
    [inl NewNotificationSensor; inr (NewInvocationStorePollSensor cachePollInterval);
     inr (NewStalenessPollSensor (100 * 10 ^ 6))].

(** [pkg/controller/workflow.go:102-118] NewWorkflowMetaController *)
Definition NewWorkflowMetaController {M} (executor : Pool) (storePollInterval : Z) :
    MetaController WorkflowController (meta_sensor (WorkflowSubscription M)) :=
  MkMetaController executor false (MkRunnable NewSystem false)
    [inl NewNotificationSensor; inr (NewWorkflowStorePollSensor storePollInterval)].
