(* ===== verification/Following.v ===== *)
(** Component [pkg/fes/cache], continued: a cache that follows an event store.  The store in memory, the
    subscription of the cache and the cache run interleaved: events are appended at any time, wait in the buffer of the
    subscription and are applied one by one, while others read through the cache, which drops and loads
    entities as it likes.  A loaded entity is ahead of the events that wait; nevertheless the cache
    catches up with the store.  Closing the cache, which ends all of this, is not among the steps. *)

From stdpp Require Import base gmap strings list.
From S2P Require Import Prelude Data Types Fes Pubsub Lru MemBackend Cache Lifecycle.

(** ** The store *)

Section store.
Context `{LRULaws (list Event)} `{MapRange}.
Implicit Types (b : Backend) (k : Aggregate) (ev : Event).

Lemma Get_same k b : backend_ok b → same b (Get k b).2.
Proof.
  intros Hok. unfold Get. destruct (ValidateAggregate _); [by apply same_refl, bo_lru|].
  by destruct (get_spec k b (bo_lru _ Hok)) as (b' & -> & Hs).
Qed.

Lemma same_trans b1 b2 b3 : same b1 b2 → same b2 b3 → same b1 b3.
Proof. intros [] []. split; congruence. Qed.

(** An event that is refused is not published. *)
Lemma Append_refused b ev err b' : backend_ok b → Append (Some ev) b = (Throw err, b') →
  backend_ok b' ∧ publisher b' = publisher b ∧ ∀ k, stream b' k = stream b k ∨ stream b' k = None.
Proof.
  intros Hok Happ. destruct (ValidateEvent (Some ev)) as [[]|err'|w] eqn:Hv;
    [|unfold Append in Happ; rewrite Hv in Happ; injection Happ as _ <-; auto|unfold Append in Happ; by rewrite Hv in Happ].
  apply ValidateEvent_valid in Hv. pose proof (event_valid_aggregate _ Hv) as (agg & Hagg & _).
  pose proof (Append_spec b ev agg Hok Hv Hagg) as Hs. rewrite Happ in Hs. cbn in Hs. destruct Hs as (Hok' & _ & Hst & _ & Hsub & _).
  split_and!; [done| |].
  - unfold Append in Happ. rewrite (proj2 (ValidateEvent_valid ev ()) Hv) in Happ. simpl in Happ. rewrite Hagg in Happ. simpl in Happ.
    set (k := stream_key ev agg) in *. destruct (get_spec k b (bo_lru _ Hok)) as (b1 & Hg & Hs1). rewrite Hg in Happ.
    pose proof (same_ok _ _ Hs1 Hok) as Hok1. pose proof (same_stream _ _ k Hs1) as Hst1. rewrite <- (same_publisher _ _ Hs1).
    destruct (stream b k) as [es|] eqn:He.
    + pose proof (append_to_spec b1 k ev agg Hok1 Hagg eq_refl) as Ha. rewrite Hst1, (same_store _ _ Hs1) in Ha. simpl in Ha.
      destruct (_ && _) in Ha; [rewrite Ha in Happ; by injection Happ as _ <-|].
      destruct Ha as (b2 & Ha & _). by rewrite Ha in Happ.
    + destruct (fitBuffer_spec b1 Hok1) as (b2 & Hf & Hfit & _). rewrite Hf in Happ. rewrite <- (fitted_publisher _ _ Hfit).
      destruct (bool_decide _) in Happ; [|by injection Happ as _ <-].
      pose proof (append_to_spec b2 k ev agg (fitted_ok _ _ Hfit Hok1) Hagg eq_refl) as Ha.
      rewrite (fitted_stream _ _ _ Hfit Hst1), (fitted_store _ _ Hfit), (same_store _ _ Hs1) in Ha. simpl in Ha.
      destruct (_ && _) in Ha; [rewrite Ha in Happ; by injection Happ as _ <-|].
      destruct Ha as (b3 & Ha & _). by rewrite Ha in Happ.
  - intros k. unfold stream. rewrite Hst. destruct (store b !! k); [by left|].
    destruct (contents (buf b') !! k) as [es|] eqn:Hc; [|by right]. left. symmetry. by eapply lookup_weaken.
Qed.

Lemma appended_others b b' k ev k' : appended b b' k ev → k' ≠ k →
  default [] (stream b' k') = default [] (stream b k') ∨ default [] (stream b' k') = [].
Proof.
  intros Ha Hne. unfold stream. rewrite (ap_active _ _ _ _ Ha k' Hne). destruct (store b !! k') as [es|]; [by left|].
  destruct (ap_others _ _ _ _ Ha k' Hne) as [-> | ->]; auto.
Qed.
End store.

(** ** What the operations of the cache leave alone *)

Section acting.
Context {C : Type} `{HC : CacheLaws C} `{LRULaws (list Event)} `{MapRange}.
Context {P : Projector} {ty : string} {good : Entity → Prop} {fit : Event → Prop}
  {sim : relation Entity} {HP : ProjectorLaws P ty good fit sim} `{PTypes}.
Notation cache := (SubscribedCache (LoadingCache C Backend)).
Implicit Types (s : cache) (k : Aggregate) (ev : Event).

Definition store_of s : Backend := lc_client (sc_cache s).

(** Acting on the entity [k] changes no stream and no subscription of the store, and drops other entities at most. *)
Record acted k s s' : Prop := {
  acted_ok : sc_ok s';
  acted_store : same (store_of s) (store_of s');
  acted_others : others_kept k (sc_cache s) (sc_cache s') }.

Lemma acted_refl k s : sc_ok s → acted k s s.
Proof. intros Hok. split; [done|apply same_refl, bo_lru, Hok|by left]. Qed.

Lemma acted_trans k s1 s2 s3 : acted k s1 s2 → acted k s2 s3 → acted k s1 s3.
Proof.
  intros [_ Hs1 Ho1] [Hok Hs2 Ho2]. split; [done|by eapply same_trans|]. intros k' Hne.
  destruct (Ho2 k' Hne) as [->|]; auto.
Qed.

Lemma acted_stream k s s' k' : acted k s s' → lc_stream (sc_cache s') k' = lc_stream (sc_cache s) k'.
Proof. intros [_ Hs _]. exact (f_equal (default []) (same_stream _ _ k' Hs)). Qed.

(** The computation [m] acts on [k], and what it returns satisfies [Q]. *)
Definition acts k {A} (Q : A → Prop) (m : st cache goerror A) : Prop :=
  ∀ s, sc_ok s → Forall fit (lc_stream (sc_cache s) k) → acted k s (m s).2 ∧ ∀ a, (m s).1 = Ret a → Q a.

Lemma acts_lift k {A} (Q : A → Prop) (r : res goerror A) : (∀ a, r = Ret a → Q a) → acts k Q (lift r).
Proof. intros Hr s Hok _. split; [by apply acted_refl|done]. Qed.

Lemma acts_ret k {A} (Q : A → Prop) (a : A) : Q a → acts k Q (mret a).
Proof. intros Ha s Hok _. split; [by apply acted_refl|]. by intros ? [= <-]. Qed.

Lemma acts_throw k {A} (Q : A → Prop) err : acts k (A := A) Q (throw err).
Proof. intros s Hok _. split; [by apply acted_refl|done]. Qed.

Lemma acts_bind k {A B} (Q : A → Prop) (R : B → Prop) (m : st cache goerror A) (f : A → st cache goerror B) :
  acts k Q m → (∀ a, Q a → acts k R (f a)) → acts k R (m ≫= f).
Proof.
  intros Hm Hf s Hok Hfit. destruct (Hm s Hok Hfit) as [Ha Hq]. unfold mbind, st_bind.
  destruct (m s) as [[a|err|w] s1]; [|by split..].
  destruct (Hf a (Hq a eq_refl) s1 (acted_ok _ _ _ Ha)) as [Hb Hr]; [by rewrite (acted_stream _ _ _ _ Ha)|].
  split; [by eapply acted_trans|done].
Qed.

Lemma acts_catch k {A} (Q : A → Prop) (m : st cache goerror A) (h : goerror → st cache goerror A) :
  acts k Q m → (∀ err, acts k Q (h err)) → acts k Q (catch m h).
Proof.
  intros Hm Hh s Hok Hfit. destruct (Hm s Hok Hfit) as [Ha Hq]. unfold catch.
  destruct (m s) as [[a|err|w] s1] eqn:Hms; [by split| |by split].
  destruct (Hh err s1 (acted_ok _ _ _ Ha)) as [Hb Hr]; [by rewrite (acted_stream _ _ _ _ Ha)|].
  split; [by eapply acted_trans|done].
Qed.

Lemma acts_getS k : acts k (λ s, publisher_ok (sc_publisher s)) getS.
Proof. intros s Hok _. split; [by apply acted_refl|]. intros ? [= <-]. apply Hok. Qed.

Lemma acts_publisher k pu : publisher_ok pu →
  acts k (λ _, True) (modifyS (λ s : cache, MkSubscribedCache pu (sc_cache s) (sc_createdAt s))).
Proof. intros Hpu s Hok _. split; [|done]. split; [split; [apply Hok|done]|apply same_refl, bo_lru, Hok|by left]. Qed.

Lemma acts_Put k e : GetAggregate e = k → aggregate_valid k → acts k (λ _, True) (on_inner (c_Put (Some e))).
Proof.
  intros He Hk s [[Hc Hb] Hpu] _. split; [|done]. unfold on_inner. cbn. unfold on_cache.
  pose proof (c_Put_spec e (lc_cache (sc_cache s)) Hc ltac:(by rewrite He)) as Hp.
  destruct (c_Put (Some e) (lc_cache (sc_cache s))) as [r c]. destruct Hp as (_ & Hc' & _ & Hout). cbn.
  split; [by split|apply same_refl, bo_lru, Hb|]. rewrite He in Hout. exact Hout.
Qed.

Lemma getFromEventStore_store now k (c : LoadingCache C Backend) : backend_ok (lc_client c) →
  same (lc_client c) (lc_client (getFromEventStore now k c).2).
Proof.
  intros Hok. pose proof (Get_same k _ Hok) as Hs. unfold getFromEventStore, on_client, mbind, st_bind. cbn.
  destruct (Get k (lc_client c)) as [[es|err|w] b]; [|exact Hs..]. case_decide; [exact Hs|]. unfold lift.
  destruct (NewProjection now k) as [base|?|?]; [|exact Hs..].
  destruct (Project now (Some base) es) as [e|?|?]; [|exact Hs..]. unfold on_cache. cbn.
  by destruct (c_Put (Some e) (lc_cache c)) as [[]].
Qed.

Lemma GetAggregate_store now k (c : LoadingCache C Backend) : backend_ok (lc_client c) →
  same (lc_client c) (lc_client (LoadingCache_GetAggregate now k c).2).
Proof.
  intros Hok. unfold LoadingCache_GetAggregate. destruct (ValidateAggregate _); [by apply same_refl, bo_lru|].
  unfold catch, on_cache. destruct (c_GetAggregate now k (lc_cache c)) as [[e|err|w] c']; [by apply same_refl, bo_lru| |by apply same_refl, bo_lru].
  destruct (EventStoreErr_Is ErrEntityNotFound (Some err)); [|by apply same_refl, bo_lru]. by apply (getFromEventStore_store now k (MkLoadingCache c' (lc_client c))).
Qed.

(** A read. *)
Lemma acts_GetAggregate now k : aggregate_valid k →
  acts k (λ e, GetAggregate e = k) (on_inner (c_GetAggregate now k)).
Proof.
  intros Hk s [Hlc Hpu] Hfit. pose proof (LoadingCache_GetAggregate_spec now k (sc_cache s) Hlc Hk Hfit) as Hs.
  pose proof (GetAggregate_store now k (sc_cache s) (proj2 Hlc)) as Hst.
  unfold on_inner. cbn. destruct (LoadingCache_GetAggregate now k (sc_cache s)) as [r c]. destruct Hs as (Hok & _ & Hoth & Hr).
  split; [by split|]. cbn. intros e ->. destruct (lc_cached (sc_cache s) !! k) as [e'|] eqn:He.
  - destruct Hr as [[= ->] _]. by eapply (cache_key (lc_cache (sc_cache s))), He; apply Hlc.
  - case_decide; [done|]. destruct Hr as [Hr _]. symmetry in Hr. eapply replay_key; [exact Hfit| |exact Hr]. by apply stream_keys.
Qed.

Lemma acts_getOrCreate now ev k : event_valid ev → event_key ev = Some k →
  acts k (λ e, GetAggregate e = k) (getOrCreateAggregateForEvent now ev).
Proof.
  intros Hv Hkey. pose proof (event_key_valid _ _ Hv Hkey) as Hk. unfold getOrCreateAggregateForEvent.
  apply (acts_bind k (λ k', k' = k)); [apply acts_lift; intros a Ha; rewrite (getKey_event_key _ _ Hkey) in Ha; by injection Ha|].
  intros ? ->. apply acts_catch; [by apply acts_GetAggregate|]. intros err. destruct (negb _); [apply acts_throw|].
  unfold event_key in Hkey. destruct (Event_Parent ev) as [p|]; [injection Hkey as ->; by apply acts_GetAggregate|].
  apply acts_lift. by intros e [_ He]%NewProjection_good.
Qed.

(** Applying an event acts on its entity, whatever comes of it. *)
Lemma acts_applyEvent now ev k : event_valid ev → event_key ev = Some k → fit ev → acts k (λ _, True) (applyEvent now ev).
Proof.
  intros Hv Hkey Hfit. pose proof (event_key_valid _ _ Hv Hkey) as Hk. unfold applyEvent.
  apply (acts_bind k (λ _, True)); [by apply acts_lift|]. intros _ _.
  apply (acts_bind k (λ _, True)); [by apply acts_lift|]. intros _ _.
  apply (acts_bind k (λ e, GetAggregate e = k)); [by apply acts_getOrCreate|]. intros old Hold.
  apply (acts_bind k (λ e, GetAggregate e = k)).
  { apply acts_lift. intros e He. rewrite <- Hold. eapply Project_key, He; [by constructor|]. rewrite Hold. by constructor. }
  intros new Hnew. apply (acts_bind k (λ _, True)); [by apply acts_Put|]. intros _ _.
  apply (acts_bind k (λ s, publisher_ok (sc_publisher s))); [apply acts_getS|]. intros s Hs. case_decide; [|by apply acts_ret].
  apply (acts_bind k (λ _, True)); [by apply acts_lift|]. intros n _.
  apply (acts_bind k publisher_ok); [apply acts_lift; intros pu Hp; by eapply Publish_ok|]. intros pu Hpu. by apply acts_publisher.
Qed.

(** The entity an event is applied to: what is cached, or what the stream says. *)
Definition current now k s (e : Entity) : Prop :=
  lc_cached (sc_cache s) !! k = Some e ∨
  lc_cached (sc_cache s) !! k = None ∧ lc_stream (sc_cache s) k ≠ [] ∧ replay now k (lc_stream (sc_cache s) k) = Ret e.

Lemma getOrCreate_current now ev k s old : sc_ok s → event_valid ev → event_key ev = Some k →
  Forall fit (lc_stream (sc_cache s) k) → current now k s old → (getOrCreateAggregateForEvent now ev s).1 = Ret old.
Proof.
  intros [Hlc Hpu] Hv Hkey Hfit Hcur. pose proof (event_key_valid _ _ Hv Hkey) as Hk. unfold getOrCreateAggregateForEvent.
  rewrite (st_bind_Ret _ _ s s k) by (unfold lift; by rewrite (getKey_event_key _ _ Hkey)).
  pose proof (LoadingCache_GetAggregate_spec now k (sc_cache s) Hlc Hk Hfit) as Hs.
  unfold catch, on_inner. cbn [c_GetAggregate LoadingCache_CacheReaderWriter].
  destruct (LoadingCache_GetAggregate now k (sc_cache s)) as [r c]. destruct Hs as (_ & _ & _ & Hr).
  destruct Hcur as [Hc|(Hc & Hne & Hrep)]; rewrite Hc in Hr; [by destruct Hr as [-> _]|].
  rewrite decide_False in Hr by done. destruct Hr as [-> _]. by rewrite Hrep.
Qed.

(** Applying an event to an entity that accepts it leaves the result in the cache. *)
Lemma applyEvent_puts now ev k s old new : sc_ok s → event_valid ev → event_key ev = Some k → fit ev →
  Forall fit (lc_stream (sc_cache s) k) → current now k s old → Project now (Some old) [ev] = Ret new →
  lc_cached (sc_cache (applyEvent now ev s).2) !! k = Some new.
Proof.
  intros Hok Hv Hkey Hf Hfit Hcur Hnew. pose proof (event_valid_aggregate _ Hv) as (a & Ha & _).
  destruct (acts_getOrCreate now ev k Hv Hkey s Hok Hfit) as [[[[Hc1 _] _] _ _] Hq].
  pose proof (getOrCreate_current now ev k s old Hok Hv Hkey Hfit Hcur) as Hold. specialize (Hq _ Hold).
  assert (GetAggregate new = k) as Hnk.
  { rewrite <- Hq. eapply Project_key, Hnew; [by constructor|]. rewrite Hq. by constructor. }
  unfold applyEvent. rewrite (st_bind_Ret _ _ s s a) by (by rewrite Ha).
  rewrite (st_bind_Ret _ _ s s ()) by (unfold lift; by rewrite (proj2 (ValidateEvent_valid ev ()) Hv)).
  destruct (getOrCreateAggregateForEvent now ev s) as [r s1] eqn:Hget. cbn in Hold. subst r.
  rewrite (st_bind_Ret _ _ _ _ _ Hget), (st_bind_Ret _ _ s1 s1 new) by (unfold lift; by rewrite Hnew).
  pose proof (c_Put_spec new (lc_cache (sc_cache s1)) Hc1 ltac:(rewrite Hnk; by eapply event_key_valid)) as Hp.
  destruct (c_Put (Some new) (lc_cache (sc_cache s1))) as [r c2] eqn:Hput. destruct Hp as (-> & _ & Hin & _). rewrite Hnk in Hin.
  set (s2 := MkSubscribedCache (sc_publisher s1) (MkLoadingCache c2 (lc_client (sc_cache s1))) (sc_createdAt s1)).
  rewrite (st_bind_Ret _ _ s1 s2 ()) by (unfold on_inner; cbn; unfold on_cache; by rewrite Hput).
  rewrite (st_bind_Ret _ _ s2 s2 s2) by done. case_decide; [|exact Hin]. unfold mbind, st_bind, lift.
  destruct (NewNotification _ _ _) as [n|?|?]; [|exact Hin..]. by destruct (Publish _ _ n).
Qed.

(** Refreshing an entity acts on it, and what is cached afterwards was cached before or is what the stream says. *)
Lemma refresh_acts now k s : aggregate_valid k → sc_ok s → Forall fit (lc_stream (sc_cache s) k) →
  let s' := (on_inner (c_Refresh now k) s).2 in
  acted k s s' ∧ ∀ e, lc_cached (sc_cache s') !! k = Some e →
    lc_cached (sc_cache s) !! k = Some e ∨ replay now k (lc_stream (sc_cache s) k) = Ret e.
Proof.
  intros Hk [Hlc Hpu] Hfit. unfold on_inner. cbn [c_Refresh LoadingCache_CacheReaderWriter]. unfold LoadingCache_Refresh, catch, mbind, st_bind.
  pose proof (getFromEventStore_spec now k (sc_cache s) Hlc Hk Hfit) as Hs.
  pose proof (getFromEventStore_store now k (sc_cache s) (proj2 Hlc)) as Hst.
  destruct (getFromEventStore now k (sc_cache s)) as [[e|err|w] c]; cbn in Hst; destruct Hs as (Hok & _ & Hr & Hc);
    [|by split; [split; [by split|done|intros k' _; left; cbn; by rewrite Hc]|cbn; rewrite Hc; auto]..].
  destruct Hc as (He & _ & Hoth). unfold on_cache.
  pose proof (c_Put_spec e (lc_cache c) (proj1 Hok) ltac:(by rewrite He)) as Hp.
  destruct (c_Put (Some e) (lc_cache c)) as [r c2]. destruct Hp as (-> & Hc2 & Hin & Hout). rewrite He in *. cbn. split.
  - split; [by split; [split; [|apply Hok]|]|done|]. intros k' Hne. destruct (Hout k' Hne) as [Ho|Ho]; [|by right].
    destruct (Hoth k' Hne) as [Ho'|Ho']; unfold lc_cached in *; cbn in *; rewrite Ho, Ho'; auto.
  - intros e' He'. right. unfold lc_cached in He'. cbn in He'. rewrite Hin in He'. injection He' as <-.
    case_decide; [done|]. exact (eq_sym Hr).
Qed.

(** The same of a read. *)
Lemma read_acts now k s : aggregate_valid k → sc_ok s → Forall fit (lc_stream (sc_cache s) k) →
  let s' := (on_inner (c_GetAggregate now k) s).2 in
  acted k s s' ∧ ∀ e, lc_cached (sc_cache s') !! k = Some e →
    lc_cached (sc_cache s) !! k = Some e ∨ replay now k (lc_stream (sc_cache s) k) = Ret e.
Proof.
  intros Hk Hok Hfit s'. split; [by apply acts_GetAggregate|]. subst s'. intros e. unfold on_inner.
  cbn [c_GetAggregate LoadingCache_CacheReaderWriter]. unfold LoadingCache_GetAggregate, catch, on_cache.
  rewrite (proj2 (ValidateAggregate_valid k) Hk). destruct Hok as [[Hc Hb] Hpu].
  pose proof (c_Get_spec now k (lc_cache (sc_cache s)) Hc Hk) as Hg.
  destruct (c_GetAggregate now k (lc_cache (sc_cache s))) as [r c1]. destruct Hg as (Hc1 & Hcon & Hr).
  destruct (cached (lc_cache (sc_cache s)) !! k) as [e'|] eqn:Hck.
  { subst r. unfold lc_cached. cbn. rewrite Hcon. auto. }
  destruct Hr as (err & -> & -> & _). set (c1' := MkLoadingCache c1 (lc_client (sc_cache s))).
  pose proof (getFromEventStore_spec now k c1' (conj Hc1 Hb) Hk Hfit) as Hs.
  destruct (getFromEventStore now k c1') as [r c2]. destruct Hs as (_ & _ & Hr & Hres). cbn.
  destruct r as [e'|err'|w]; [|rewrite Hres; unfold lc_cached, c1'; cbn; rewrite Hcon; auto..].
  destruct Hres as (_ & Hin & _). rewrite Hin. intros [= <-]. right. case_decide; [done|]. exact (eq_sym Hr).
Qed.
End acting.

(** ** The cache among others *)

Section following.
Context {C : Type} `{HC : CacheLaws C} `{LRULaws (list Event)} `{MapRange}.
Context {P : Projector} {ty : string} {good : Entity → Prop} {fit : Event → Prop}
  {sim : relation Entity} {HP : ProjectorLaws P ty good fit sim} {HR : ProjectorReplays P good fit sim} `{PTypes}.
Context (opts : SubscriptionOptions) (sub : nat).
Notation cache := (SubscribedCache (LoadingCache C Backend)).
Implicit Types (s : cache) (k : Aggregate) (ev : Event).

(** The cache with the store it reads; as a history, the events appended to each stream, and the number
    of events that found no room in the buffer of the subscription. *)
Record following := MkFollowing {
  fo_cache : cache; fo_history : Aggregate → list Event; fo_lost : nat }.
Implicit Types σ : following.

Definition fo_store σ : Backend := store_of (fo_cache σ).
Definition fo_stream σ k : list Event := lc_stream (sc_cache (fo_cache σ)) k.
Definition fo_cached σ : gmap Aggregate Entity := lc_cached (sc_cache (fo_cache σ)).

Definition with_store b s : cache :=
  MkSubscribedCache (sc_publisher s) (MkLoadingCache (lc_cache (sc_cache s)) b) (sc_createdAt s).
Definition with_cache s σ : following := MkFollowing s (fo_history σ) (fo_lost σ).
Definition recorded ev (h : Aggregate → list Event) (k : Aggregate) : list Event :=
  if decide (event_key ev = Some k) then h k ++ [ev] else h k.

(** The loop of the cache takes a message. *)
Definition taken now (msg : option Event) (pu : DefaultPublisher Event) σ : following :=
  with_cache (receive now msg (with_store (Backend_with_publisher (fo_store σ) pu) (fo_cache σ))).2 σ.

Definition follow_take σ σ' : Prop :=
  ∃ now msg pu, receive_from sub (publisher (fo_store σ)) = Some (msg, pu) ∧ σ' = taken now msg pu σ.

(** The steps of the program around the cache: an event is appended, or refused; someone reads the store;
    the cache takes an event from its subscription; someone reads through the cache, or refreshes an entity; others
    use the publishers of the store and of the cache. *)
Inductive follow_step : following → following → Prop :=
| follow_append ev b σ :
    fit ev → Append (Some ev) (fo_store σ) = (Ret (), b) →
    follow_step σ (MkFollowing (with_store b (fo_cache σ)) (recorded ev (fo_history σ))
      (fo_lost σ + if dropped event_labels (Some sub) (publisher (fo_store σ)) ev then 1 else 0))
| follow_refused ev err b σ :
    Append (Some ev) (fo_store σ) = (Throw err, b) → follow_step σ (with_cache (with_store b (fo_cache σ)) σ)
| follow_get k σ :
    follow_step σ (with_cache (with_store (Get k (fo_store σ)).2 (fo_cache σ)) σ)
| follow_receive σ σ' : follow_take σ σ' → follow_step σ σ'
| follow_read now k σ :
    aggregate_valid k → follow_step σ (with_cache (on_inner (c_GetAggregate now k) (fo_cache σ)).2 σ)
| follow_refresh now k σ :
    aggregate_valid k → follow_step σ (with_cache (on_inner (c_Refresh now k) (fo_cache σ)).2 σ)
| follow_subscribers pu σ :
    publisher_ok pu → sub ∈ subs pu → heap pu !! sub = heap (publisher (fo_store σ)) !! sub →
    follow_step σ (with_cache (with_store (Backend_with_publisher (fo_store σ) pu) (fo_cache σ)) σ)
| follow_listeners pu σ :
    publisher_ok pu →
    follow_step σ (with_cache (MkSubscribedCache pu (sc_cache (fo_cache σ)) (sc_createdAt (fo_cache σ))) σ).

(** The cache of the store [b], which subscribes and is empty. *)
Definition follow_initial (now : Z) (b : Backend) (c : C) : following :=
  MkFollowing (NewSubscribedCache now (NewLoadingCache c
    (Backend_with_publisher b (Subscribe (publisher b) [opts]).2))) (λ k, default [] (stream b k)) 0.

(** The events that wait in the buffer of the subscription, and those of them that are of [k]. *)
Definition waiting σ : list Event :=
  match heap (publisher (fo_store σ)) !! sub with Some c => ch_buf (Ch c) | None => [] end.
Definition pending_of k (evs : list Event) : list Event := filter (λ ev, event_key ev = Some k) evs.
Definition pending σ k : list Event := pending_of k (waiting σ).

(** The subscription asks for the events of [k]. *)
Definition heard k : Prop :=
  aggregate_valid k ∧ ∀ ev, event_valid ev → fit ev → event_key ev = Some k → selects event_labels opts ev = true.

(** Nothing of [k] is missing: the store still has its stream, and no event was dropped. *)
Definition whole σ k : Prop := fo_stream σ k = fo_history σ k ∧ fo_lost σ = 0.

(** With the events that wait, the cached entity is what the stream says. *)
Definition catching_up σ k : Prop :=
  ∀ now r e, replay now k (fo_stream σ k) = Ret r → fo_cached σ !! k = Some e →
    ∃ e', Project now (Some e) (pending σ k) = Ret e' ∧ sim e' r.

Record follow_ok σ : Prop := {
  follow_cache_ok : sc_ok (fo_cache σ);
  follow_sub : sub ∈ subs (publisher (fo_store σ)) ∧
    ∃ c, heap (publisher (fo_store σ)) !! sub = Some c ∧ sub_options c = opts;
  follow_waiting : Forall (λ ev, event_valid ev ∧ fit ev) (waiting σ);
  follow_fit k : Forall fit (fo_stream σ k);
  follow_history k : fo_stream σ k = fo_history σ k ∨ length (fo_stream σ k) < length (fo_history σ k);
  follow_pending k : heard k → whole σ k → pending σ k `suffix_of` fo_stream σ k;
  follow_catching k : heard k → whole σ k → catching_up σ k }.

(** *** Replays *)

Lemma replay_at now now' k es r : replay now k es = Ret r → ∃ r', replay now' k es = Ret r' ∧ sim r r'.
Proof.
  unfold replay. intros Hr. bind_inv Hr as b Hb. destruct (NewProjection_sim now now' k b Hb) as (b' & -> & Hs).
  rewrite bind_Ret_l. by eapply Project_sim.
Qed.

(** What is loaded is ahead of the events that wait, which changes nothing. *)
Lemma replay_pending now k es p r : Forall fit es → Forall (λ ev, event_key ev = Some k) es → p `suffix_of` es →
  replay now k es = Ret r → ∃ r', Project now (Some r) p = Ret r' ∧ sim r' r.
Proof.
  intros Hfit Hkeys [es' ->] Hr. apply Forall_app in Hfit as [Hf1 Hf2], Hkeys as [Hk1 Hk2].
  unfold replay in Hr. bind_inv Hr as b0 Hb0. rewrite Project_app in Hr. bind_inv Hr as b Hb.
  destruct (NewProjection_good _ _ _ Hb0) as [Hg0 Hk0]. eapply Project_replayed, Hr; [by eapply Project_good|done|].
  assert (GetAggregate b = k) as ->; [|done]. rewrite <- Hk0. eapply Project_key, Hb; [done|]. by rewrite Hk0.
Qed.

(** *** The invariant *)

Lemma pending_of_app k l1 l2 : pending_of k (l1 ++ l2) = pending_of k l1 ++ pending_of k l2.
Proof. apply filter_app. Qed.

Lemma pending_of_all k l : Forall (λ ev, event_key ev = Some k) l → pending_of k l = l.
Proof. induction 1 as [|ev l Hk _ IH]; [done|]. unfold pending_of in *. rewrite filter_cons, decide_True by done. by f_equal. Qed.

Lemma pending_of_none k k' l : k' ≠ k → Forall (λ ev, event_key ev = Some k) l → pending_of k' l = [].
Proof.
  intros Hne. induction 1 as [|ev l Hk _ IH]; [done|]. unfold pending_of in *. rewrite filter_cons, decide_False by congruence. done.
Qed.

Lemma stream_of_key σ k : follow_ok σ → Forall (λ ev, event_key ev = Some k) (fo_stream σ k).
Proof. intros Hok. apply stream_keys, (follow_cache_ok _ Hok). Qed.

(** What is cached of an entity, or would be loaded, is what the stream says once the waiting events are applied. *)
Lemma caught_up now σ k r e0 : follow_ok σ → heard k → whole σ k → replay now k (fo_stream σ k) = Ret r →
  fo_cached σ !! k = Some e0 ∨ replay now k (fo_stream σ k) = Ret e0 →
  ∃ e', Project now (Some e0) (pending σ k) = Ret e' ∧ sim e' r.
Proof.
  intros Hok Hh Hw Hr [Hc|Hl]; [by eapply follow_catching|]. rewrite Hr in Hl. injection Hl as <-.
  eapply replay_pending, Hr; [by apply follow_fit|by apply stream_of_key|by apply follow_pending].
Qed.

(** A step of the cache that takes the events [q] of [k1] from the buffer and acts on [k1]. *)
Lemma follow_acted now σ s' k1 q c : follow_ok σ → sc_ok s' → (∀ k, lc_stream (sc_cache s') k = fo_stream σ k) →
  others_kept k1 (sc_cache (fo_cache σ)) (sc_cache s') →
  sub ∈ subs (publisher (store_of s')) → heap (publisher (store_of s')) !! sub = Some c → sub_options c = opts →
  waiting σ = q ++ ch_buf (Ch c) → Forall (λ ev, event_key ev = Some k1) q →
  (heard k1 → whole σ k1 → ∀ r e, replay now k1 (fo_stream σ k1) = Ret r → lc_cached (sc_cache s') !! k1 = Some e →
    ∃ e0, (fo_cached σ !! k1 = Some e0 ∨ replay now k1 (fo_stream σ k1) = Ret e0) ∧
      (q = [] ∧ e = e0 ∨ Project now (Some e0) q = Ret e)) →
  follow_ok (with_cache s' σ).
Proof.
  intros Hok Hsc Hst Hoth Hsub Hc Hopts Hw Hq Heff. pose proof sim_equiv as Hequiv.
  assert (waiting (with_cache s' σ) = ch_buf (Ch c)) as Hw' by (unfold waiting, fo_store; cbn; by rewrite Hc).
  assert (∀ k, fo_stream (with_cache s' σ) k = fo_stream σ k) as Hst' by done.
  assert (∀ k, whole (with_cache s' σ) k → whole σ k) as Hwh by (intros k [Hw1 Hw2]; split; [by rewrite <- Hst'|done]).
  assert (∀ k, pending σ k = pending_of k q ++ pending (with_cache s' σ) k) as Hp
    by (intros k; unfold pending; by rewrite Hw', Hw, pending_of_app).
  split; [done|by eauto| | | | |].
  - rewrite Hw'. pose proof (follow_waiting _ Hok) as Hf. rewrite Hw in Hf. by apply Forall_app in Hf as [_ ?].
  - intros k. rewrite Hst'. apply (follow_fit _ Hok).
  - intros k. rewrite Hst'. apply (follow_history _ Hok).
  - intros k Hh Hwk. rewrite Hst'. etrans; [|apply (follow_pending _ Hok); auto]. rewrite Hp. by eexists.
  - intros k Hh Hwk now' r e Hr He. rewrite Hst' in Hr. specialize (Hp k). destruct (decide (k = k1)) as [->|Hne].
    + destruct (replay_at now' now k1 _ r Hr) as (r1 & Hr1 & Hs1).
      destruct (Heff Hh (Hwh _ Hwk) r1 e Hr1 He) as (e0 & Hsrc & Hcase).
      destruct (caught_up now σ k1 r1 e0 Hok Hh (Hwh _ Hwk) Hr1 Hsrc) as (e1 & He1 & Hse1).
      rewrite (pending_of_all _ _ Hq) in Hp. rewrite Hp in He1.
      assert (Project now (Some e) (pending (with_cache s' σ) k1) = Ret e1) as He1'.
      { destruct Hcase as [[-> ->]|Hpr]; [done|]. rewrite Project_app, Hpr, bind_Ret_l in He1. done. }
      destruct (Project_sim now now' e e _ e1 (Equivalence_Reflexive e) He1') as (e2 & He2 & Hse2).
      exists e2. split; [done|]. rewrite <- Hse2, Hse1. by symmetry.
    + rewrite (pending_of_none k1) in Hp by done. cbn in Hp. rewrite <- Hp.
      destruct (Hoth k Hne) as [Ho|Ho]; unfold fo_cached in He; cbn in He; [|congruence].
      eapply (follow_catching _ Hok); [done|by auto|exact Hr|]. unfold fo_cached. by rewrite <- Ho.
Qed.

(** A step of others that leaves the subscription and the cached entities alone; a stream may be lost. *)
Lemma follow_idle σ s' : follow_ok σ → sc_ok s' → lc_cached (sc_cache s') = fo_cached σ →
  sub ∈ subs (publisher (store_of s')) →
  heap (publisher (store_of s')) !! sub = heap (publisher (fo_store σ)) !! sub →
  (∀ k, lc_stream (sc_cache s') k = fo_stream σ k ∨ lc_stream (sc_cache s') k = []) → follow_ok (with_cache s' σ).
Proof.
  intros Hok Hsc Hcon Hsub Hh Hst. destruct (follow_sub _ Hok) as (_ & c & Hc & Ho).
  assert (∀ k, whole (with_cache s' σ) k → whole σ k ∧ fo_stream (with_cache s' σ) k = fo_stream σ k) as Hwh.
  { intros k [Hw1 Hw2]. destruct (Hst k) as [Hs|Hs]; [by split; [split; [rewrite <- Hs|]|]|].
    change (lc_stream (sc_cache s') k = fo_history σ k) in Hw1. rewrite Hs in Hw1.
    destruct (follow_history _ Hok k) as [Hhist|Hlt]; [|rewrite <- Hw1 in Hlt; cbn in Hlt; lia].
    split; [by split|]. change (lc_stream (sc_cache s') k = fo_stream σ k). congruence. }
  assert (∀ k, pending (with_cache s' σ) k = pending σ k) as Hp.
  { intros k. unfold pending, waiting, fo_store, with_cache. cbn. by rewrite Hh. }
  split; [done|split; [done|exists c; unfold fo_store; cbn; by rewrite Hh]| | | | |].
  - unfold waiting, fo_store. cbn. rewrite Hh. apply (follow_waiting _ Hok).
  - intros k. change (Forall fit (lc_stream (sc_cache s') k)). destruct (Hst k) as [-> | ->]; [apply (follow_fit _ Hok)|done].
  - intros k. unfold fo_stream. cbn [with_cache fo_cache fo_history].
    destruct (Hst k) as [-> | ->]; [apply (follow_history _ Hok)|].
    destruct (fo_history σ k); [by left|right; cbn; lia].
  - intros k Hh' Hw. destruct (Hwh k Hw) as [Hw' ->]. rewrite Hp. by apply follow_pending.
  - intros k Hh' Hw now r e Hr He. destruct (Hwh k Hw) as [Hw' Hs]. rewrite Hs in Hr. rewrite Hp.
    unfold fo_cached in He. cbn in He. rewrite Hcon in He. by eapply follow_catching.
Qed.

Lemma fo_store_ok σ : follow_ok σ → backend_ok (fo_store σ).
Proof. intros Hok. apply (follow_cache_ok _ Hok). Qed.

Lemma with_store_ok b s : sc_ok s → backend_ok b → sc_ok (with_store b s).
Proof. intros [[Hc _] Hp] Hb. by split. Qed.

Lemma with_publisher_ok b pu : backend_ok b → publisher_ok pu → backend_ok (Backend_with_publisher b pu).
Proof. intros [] Hpu. by split. Qed.

(** What appending an event does to the streams and to the subscription. *)
Lemma follow_append_spec ev b σ : follow_ok σ → fit ev → Append (Some ev) (fo_store σ) = (Ret (), b) →
  ∃ k c c', event_valid ev ∧ event_key ev = Some k ∧ backend_ok b ∧
    default [] (stream b k) = fo_stream σ k ++ [ev] ∧
    (∀ k', k' ≠ k → default [] (stream b k') = fo_stream σ k' ∨ default [] (stream b k') = []) ∧
    sub ∈ subs (publisher b) ∧ heap (publisher (fo_store σ)) !! sub = Some c ∧ heap (publisher b) !! sub = Some c' ∧
    sub_options c = opts ∧ c' = deliver event_labels c ev.
Proof.
  intros Hok Hf Happ. destruct (ValidateEvent (Some ev)) as [[]|err|w] eqn:Hv; [|unfold Append in Happ; by rewrite Hv in Happ..].
  apply ValidateEvent_valid in Hv. pose proof (event_valid_aggregate _ Hv) as (agg & Hagg & _).
  pose proof (Append_spec _ ev agg (fo_store_ok _ Hok) Hv Hagg) as Hs. cbn in Hs. rewrite Happ in Hs. destruct Hs as [Happ' _].
  pose proof Happ' as [Hok' _ Hst _ _ _ _ _ Hpub].
  destruct (follow_sub _ Hok) as (Hin & c & Hc & Ho).
  destruct (Publish_spec (E := goerror) event_labels _ ev (bo_publisher _ (fo_store_ok _ Hok))) as (pu & Hpub' & Hsubs & Hh).
  rewrite Hpub in Hpub'. injection Hpub' as <-. specialize (Hh sub). rewrite decide_True, Hc in Hh by done.
  exists (stream_key ev agg), c, (deliver event_labels c ev). split_and!; try done.
  - unfold event_key, stream_key. rewrite Hagg. by destruct (Event_Parent ev).
  - by rewrite Hst.
  - intros k' Hne. by apply (appended_others _ _ _ _ _ Happ').
  - by rewrite Hsubs.
Qed.

Lemma follow_append_ok ev b σ : follow_ok σ → fit ev → Append (Some ev) (fo_store σ) = (Ret (), b) →
  follow_ok (MkFollowing (with_store b (fo_cache σ)) (recorded ev (fo_history σ))
    (fo_lost σ + if dropped event_labels (Some sub) (publisher (fo_store σ)) ev then 1 else 0)).
Proof.
  intros Hok Hf Happ. destruct (follow_append_spec _ _ _ Hok Hf Happ)
    as (k0 & c & c' & Hv & Hkey & Hb & Hst & Hoth & Hin & Hc & Hc' & Ho & ->).
  set (σ' := MkFollowing _ _ _).
  assert (waiting σ' = waiting σ ++ (if accepts event_labels c ev && bool_decide (length (ch_buf (Ch c)) < ch_cap (Ch c))
    then [ev] else [])) as Hw.
  { unfold waiting. change (fo_store σ') with b. rewrite Hc, Hc'. unfold deliver. case_match; cbn; by rewrite ?app_nil_r. }
  assert (∀ k, k ≠ k0 → pending σ' k = pending σ k) as Hp'.
  { intros k Hne. unfold pending. rewrite Hw, pending_of_app.
    etrans; [|apply app_nil_r]. f_equal. apply (pending_of_none k0); [done|]. case_match; by repeat constructor. }
  assert (∀ k, whole σ' k → whole σ k ∧ (k ≠ k0 → fo_stream σ' k = fo_stream σ k) ∧
    (heard k0 → pending σ' k0 = pending σ k0 ++ [ev])) as Hwh.
  { intros k [Hw1 Hw2]. unfold σ', dropped in Hw2. cbn in Hw2. rewrite Hc in Hw2. change (fo_stream σ' k) with (default [] (stream b k)) in *.
    unfold σ' in Hw1. cbn [fo_history] in Hw1. unfold recorded in Hw1. split_and!.
    - split; [|lia]. destruct (decide (k = k0)) as [->|Hne].
      + rewrite decide_True, Hst in Hw1 by done. by apply app_inj_tail in Hw1 as [? _].
      + rewrite decide_False in Hw1 by congruence. destruct (Hoth k Hne) as [Hs|Hs]; [congruence|].
        destruct (follow_history _ Hok k) as [?|Hlt]; [done|]. rewrite <- Hw1, Hs in Hlt. cbn in Hlt. lia.
    - intros Hne. rewrite decide_False in Hw1 by congruence. destruct (Hoth k Hne) as [Hs|Hs]; [done|].
      destruct (follow_history _ Hok k) as [Hhist|Hlt]; [congruence|]. rewrite <- Hw1, Hs in Hlt. cbn in Hlt. lia.
    - intros [_ Hh]. unfold accepts in *. rewrite Ho, (Hh ev) in Hw, Hw2 by done. cbn [andb] in *.
      case_bool_decide; [|cbn in Hw2; lia]. unfold pending. rewrite Hw, pending_of_app. f_equal. apply pending_of_all. by constructor. }
  split.
  - by apply with_store_ok; [apply (follow_cache_ok _ Hok)|].
  - split; [done|]. exists (deliver event_labels c ev). split; [done|]. unfold deliver. by case_match.
  - rewrite Hw. apply Forall_app. split; [apply (follow_waiting _ Hok)|]. case_match; [|done]. by apply Forall_singleton.
  - intros k. change (fo_stream σ' k) with (default [] (stream b k)). destruct (decide (k = k0)) as [->|Hne].
    + rewrite Hst. apply Forall_app. split; [apply (follow_fit _ Hok)|by constructor].
    + destruct (Hoth k Hne) as [-> | ->]; [apply (follow_fit _ Hok)|done].
  - intros k. change (fo_stream σ' k) with (default [] (stream b k)). cbn [fo_history σ']. unfold recorded. destruct (decide (k = k0)) as [->|Hne].
    + rewrite decide_True, Hst, !length_app by done. destruct (follow_history _ Hok k0) as [->|?]; [by left|right; lia].
    + rewrite decide_False by congruence. destruct (Hoth k Hne) as [-> | ->]; [apply (follow_history _ Hok)|].
      destruct (fo_history σ k); [by left|right; cbn; lia].
  - intros k Hh Hwk. destruct (Hwh k Hwk) as (Hw' & Hs & Hp). destruct (decide (k = k0)) as [->|Hne].
    + rewrite (Hp Hh). change (fo_stream σ' k0) with (default [] (stream b k0)). rewrite Hst. by apply suffix_app, follow_pending.
    + rewrite Hp', Hs by done. by apply follow_pending.
  - intros k Hh Hwk now r e Hr He. destruct (Hwh k Hwk) as (Hw' & Hs & Hp). change (fo_cached σ !! k = Some e) in He.
    destruct (decide (k = k0)) as [->|Hne]; [|rewrite Hs in Hr by done; rewrite Hp' by done; by eapply follow_catching].
    rewrite (Hp Hh). change (fo_stream σ' k0) with (default [] (stream b k0)) in Hr. rewrite Hst, replay_snoc in Hr. bind_inv Hr as r0 Hr0.
    destruct (follow_catching _ Hok k0 Hh Hw' now r0 e Hr0 He) as (e1 & He1 & Hs1). pose proof sim_equiv as Hequiv.
    destruct (Project_sim now now r0 e1 [ev] r (Equivalence_Symmetric _ _ Hs1) Hr) as (e2 & He2 & Hs2).
    exists e2. split; [by rewrite Project_app, He1, bind_Ret_l|by symmetry].
Qed.

Lemma event_has_key ev : event_valid ev → ∃ k, event_key ev = Some k.
Proof. intros [_ (a & Ha & _) _ _]. unfold event_key. rewrite Ha. destruct (Event_Parent ev); eauto. Qed.

(** The cache takes an event: the oldest that waits. *)
Lemma take_inv now msg pu σ : follow_ok σ → receive_from sub (publisher (fo_store σ)) = Some (msg, pu) →
  ∃ ev buf c, msg = Some ev ∧ waiting σ = ev :: buf ∧ publisher_ok pu ∧ sub ∈ subs pu ∧ heap pu !! sub = Some c ∧
    sub_options c = opts ∧ ch_buf (Ch c) = buf ∧ event_valid ev ∧ fit ev ∧
    taken now msg pu σ = with_cache (applyEvent now ev (with_store (Backend_with_publisher (fo_store σ) pu) (fo_cache σ))).2 σ.
Proof.
  intros Hok Hr. pose proof (bo_publisher _ (fo_store_ok _ Hok)) as Hpu.
  destruct (receive_from_inv _ _ _ _ Hpu Hr) as (Hpu' & Hsubs & _ & c & Hc & Hcase). destruct (follow_sub _ Hok) as (Hin & c' & Hc' & Ho).
  rewrite Hc in Hc'. injection Hc' as <-. destruct Hcase as [(-> & Hcl & _)|(ev & buf & -> & Hb & Hh)].
  - destruct (publisher_ok_open _ Hpu _ Hin) as (c' & Hc' & Hop). congruence.
  - assert (waiting σ = ev :: buf) as Hw by (unfold waiting; by rewrite Hc).
    pose proof (follow_waiting _ Hok) as Hf. rewrite Hw in Hf. apply Forall_cons in Hf as [[Hv Hf] _].
    exists ev, buf. eexists. split_and!; try done; [by rewrite Hsubs|].
    unfold taken, receive, catch. by destruct (applyEvent _ _ _) as [[]].
Qed.

Lemma follow_take_ok σ σ' : follow_ok σ → follow_take σ σ' → follow_ok σ'.
Proof.
  intros Hok (now & msg & pu & Hr & ->).
  destruct (take_inv now msg pu σ Hok Hr) as (ev & buf & c & _ & Hw & Hpu & Hin & Hc & Ho & Hb & Hv & Hf & ->).
  set (s1 := with_store _ _). destruct (event_has_key ev Hv) as [k Hkey].
  assert (sc_ok s1) as Hs1
    by (apply with_store_ok; [apply (follow_cache_ok _ Hok)|by apply with_publisher_ok; [apply fo_store_ok|]]).
  assert (∀ k, lc_stream (sc_cache s1) k = fo_stream σ k) as Hst1 by done.
  destruct (acts_applyEvent now ev k Hv Hkey Hf s1 Hs1 (follow_fit _ Hok k)) as [Hact _].
  pose proof Hact as [Hs' Hsame Hoth]. set (s' := (applyEvent now ev s1).2) in *.
  assert (publisher (store_of s') = pu) as Hpub by exact (same_publisher _ _ Hsame).
  apply (follow_acted now σ s' k [ev] c); rewrite ?Hpub; try done.
  - intros k'. rewrite (acted_stream _ _ _ _ Hact). apply Hst1.
  - by rewrite Hw, Hb.
  - by apply Forall_singleton.
  - intros Hh Hwh r e Hrep He. rewrite <- Hb in Hw.
    assert (pending σ k = ev :: pending_of k buf) as Hp.
    { unfold pending. rewrite Hw, Hb. unfold pending_of. by rewrite filter_cons, decide_True. }
    assert (fo_stream σ k ≠ []) as Hne.
    { destruct (follow_pending _ Hok k Hh Hwh) as [l Hl]. rewrite Hl, Hp. by destruct l. }
    assert (∃ old, current now k s1 old ∧ (fo_cached σ !! k = Some old ∨ replay now k (fo_stream σ k) = Ret old)) as (old & Hcur & Hsrc).
    { destruct (fo_cached σ !! k) as [old|] eqn:Hold; [exists old; split; [by left|by left]|].
      exists r. split; [|by right]. right. by split_and!. }
    exists old. split; [done|]. right.
    destruct (caught_up now σ k r old Hok Hh Hwh Hrep Hsrc) as (e1 & He1 & _). rewrite Hp in He1.
    change (ev :: pending_of k buf) with ([ev] ++ pending_of k buf) in He1. rewrite Project_app in He1. bind_inv He1 as new Hnew.
    assert (lc_cached (sc_cache s') !! k = Some new) as Hin'
      by (apply (applyEvent_puts now ev k s1 old new); [done..|exact (follow_fit _ Hok k)|done|done]).
    congruence.
Qed.

Lemma follow_step_ok σ σ' : follow_step σ σ' → follow_ok σ → follow_ok σ'.
Proof.
  intros Hstep Hok. pose proof (follow_cache_ok _ Hok) as Hsc. destruct (follow_sub _ Hok) as (Hin & c & Hc & Ho).
  destruct Hstep as [ev b σ Hf Happ|ev err b σ Happ|k σ|σ σ' Ht|now k σ Hk|now k σ Hk|pu σ Hpu Hs Hh|pu σ Hpu].
  - by apply follow_append_ok.
  - destruct (Append_refused _ _ _ _ (fo_store_ok _ Hok) Happ) as (Hb & Hpub & Hst).
    apply follow_idle; [done|by apply with_store_ok|done|..]; cbn; rewrite ?Hpub; [done..|]. intros k.
    destruct (Hst k) as [Hs|Hs]; [left; exact (f_equal (default []) Hs)|right; exact (f_equal (default []) Hs)].
  - pose proof (Get_same k _ (fo_store_ok _ Hok)) as Hs.
    apply follow_idle; [done|by apply with_store_ok, (same_ok _ _ Hs), fo_store_ok|done|..];
      cbn; rewrite ?(same_publisher _ _ Hs); [done..|]. intros k'. left. exact (f_equal (default []) (same_stream _ _ k' Hs)).
  - by eapply follow_take_ok.
  - destruct (read_acts now k (fo_cache σ) Hk Hsc (follow_fit _ Hok k)) as [Hact Heff].
    pose proof Hact as [Hs' Hsame Hoth]. pose proof (same_publisher _ _ Hsame) as Hpub.
    apply (follow_acted now σ _ k [] c); rewrite ?Hpub; try done.
    + intros k'. by rewrite (acted_stream _ _ _ _ Hact).
    + unfold waiting. by rewrite Hc.
    + intros _ _ r e Hr He. exists e. split; [by apply Heff|by left].
  - destruct (refresh_acts now k (fo_cache σ) Hk Hsc (follow_fit _ Hok k)) as [Hact Heff].
    pose proof Hact as [Hs' Hsame Hoth]. pose proof (same_publisher _ _ Hsame) as Hpub.
    apply (follow_acted now σ _ k [] c); rewrite ?Hpub; try done.
    + intros k'. by rewrite (acted_stream _ _ _ _ Hact).
    + unfold waiting. by rewrite Hc.
    + intros _ _ r e Hr He. exists e. split; [by apply Heff|by left].
  - apply follow_idle; [done|by apply with_store_ok, with_publisher_ok, Hpu; [|apply fo_store_ok]|done..|]. by left.
  - apply follow_idle; [done|by split; [apply Hsc|]|done..|]. by left.
Qed.

Lemma follow_initial_ok now b c : backend_ok b → (∀ k, Forall fit (default [] (stream b k))) → cache_ok c → cached c = ∅ →
  (0 < Buffer opts)%Z → sub = (Subscribe (publisher b) [opts]).1 → follow_ok (follow_initial now b c).
Proof.
  intros Hb Hf Hc He Hbuf Hsub. destruct (Subscribe (publisher b) [opts]) as [k pu] eqn:Hk. cbn in Hsub. subst k.
  destruct (Subscribe_ok _ _ _ _ (bo_publisher _ Hb) Hk (publisher_dom _ (bo_publisher _ Hb))) as (Hpu & _ & Hsubs).
  assert (∃ c, heap pu !! sub = Some c ∧ sub_options c = opts ∧ ch_buf (Ch c) = []) as (ch & Hch & Ho & Hbf).
  { injection Hk as <- <-. cbn. rewrite lookup_insert_eq. eexists. split; [done|]. cbn. by rewrite decide_False by lia. }
  unfold follow_initial. rewrite Hk. cbn [snd].
  assert (waiting (MkFollowing (NewSubscribedCache now (NewLoadingCache c (Backend_with_publisher b pu)))
    (λ k, default [] (stream b k)) 0) = []) as Hw by (unfold waiting; cbn; by rewrite Hch).
  split; [split; [split; [done|by apply with_publisher_ok]|apply NewPublisher_ok]| | | | | |].
  - cbn. split; [rewrite Hsubs; set_solver|by exists ch].
  - by rewrite Hw.
  - exact Hf.
  - intros k. by left.
  - intros k _ _. unfold pending. rewrite Hw. apply suffix_nil.
  - intros k _ _ now' r e _ Hcd. unfold fo_cached, lc_cached in Hcd. cbn in Hcd. by rewrite He, lookup_empty in Hcd.
Qed.

Lemma follow_take_spec σ σ' : follow_ok σ → follow_take σ σ' →
  (∃ ev, waiting σ = ev :: waiting σ') ∧ (∀ k, fo_stream σ' k = fo_stream σ k) ∧
  fo_history σ' = fo_history σ ∧ fo_lost σ' = fo_lost σ.
Proof.
  intros Hok (now & msg & pu & Hr & ->).
  destruct (take_inv now msg pu σ Hok Hr) as (ev & buf & c & _ & Hw & Hpu & Hin & Hc & _ & Hb & Hv & Hf & ->).
  set (s1 := with_store _ _). destruct (event_has_key ev Hv) as [k Hkey].
  assert (sc_ok s1) as Hs1 by (apply with_store_ok; [apply (follow_cache_ok _ Hok)|by apply with_publisher_ok; [apply fo_store_ok|]]).
  destruct (acts_applyEvent now ev k Hv Hkey Hf s1 Hs1 (follow_fit _ Hok k)) as [Hact _].
  split; [|split; [intros k'; exact (acted_stream _ _ _ k' Hact)|done]].
  exists ev. rewrite Hw. f_equal. unfold waiting, fo_store. cbn.
  pose proof (same_publisher _ _ (acted_store _ _ _ Hact)) as Hp. cbn in Hp. rewrite Hp. cbn. by rewrite Hc.
Qed.

(** Taking what waits empties the buffer. *)
Lemma follow_drains σ : follow_ok σ → ∃ σ', rtc follow_take σ σ' ∧ follow_ok σ' ∧ waiting σ' = [] ∧
  (∀ k, fo_stream σ' k = fo_stream σ k) ∧ fo_history σ' = fo_history σ ∧ fo_lost σ' = fo_lost σ.
Proof.
  remember (length (waiting σ)) as n eqn:Hn. revert σ Hn. induction n as [|n IH]; intros σ Hn Hok.
  { exists σ. split_and!; try done. by apply nil_length_inv. }
  destruct (follow_sub _ Hok) as (_ & c & Hc & _).
  assert (∃ σ1, follow_take σ σ1) as [σ1 Ht].
  { unfold waiting in Hn. rewrite Hc in Hn. destruct (ch_buf (Ch c)) as [|ev buf] eqn:Hb; [done|].
    eexists. exists 0%Z, (Some ev). eexists. split; [|done]. unfold receive_from, recv. rewrite Hc. cbn. by rewrite Hb. }
  destruct (follow_take_spec σ σ1 Hok Ht) as ([ev Hw] & Hst & Hh & Hl). rewrite Hw in Hn. cbn in Hn.
  destruct (IH σ1 ltac:(lia) (follow_take_ok _ _ Hok Ht)) as (σ' & Hr & Hok' & Hw' & Hst' & Hh' & Hl').
  exists σ'. split_and!; [by eapply rtc_l|done|done|intros k; by rewrite Hst'|congruence|congruence].
Qed.

(** With nothing waiting, a read answers what the stream says. *)
Lemma read_settled now σ k r : follow_ok σ → heard k → whole σ k → pending σ k = [] → fo_stream σ k ≠ [] →
  replay now k (fo_stream σ k) = Ret r →
  ∃ e, (on_inner (c_GetAggregate now k) (fo_cache σ)).1 = Ret e ∧ sim e r.
Proof.
  intros Hok Hh Hw Hp Hne Hr. destruct (follow_cache_ok _ Hok) as [Hlc _]. pose proof sim_equiv as Hequiv.
  pose proof (LoadingCache_GetAggregate_spec now k (sc_cache (fo_cache σ)) Hlc (proj1 Hh) (follow_fit _ Hok k)) as Hs.
  unfold on_inner. cbn [c_GetAggregate LoadingCache_CacheReaderWriter].
  destruct (LoadingCache_GetAggregate now k (sc_cache (fo_cache σ))) as [r' c]. destruct Hs as (_ & _ & _ & Hs). cbn [fst].
  destruct (lc_cached (sc_cache (fo_cache σ)) !! k) as [e|] eqn:He.
  - destruct Hs as [-> _]. exists e. split; [done|].
    destruct (follow_catching _ Hok k Hh Hw now r e Hr He) as (e' & Hpr & Hsim). rewrite Hp in Hpr.
    assert (GetAggregate e = GetAggregate r) as Hk.
    { rewrite (replay_key now k _ r (follow_fit _ Hok k) (stream_of_key _ _ Hok) Hr). by eapply (cache_key _ _ _ (proj1 Hlc)). }
    assert (Entity_Type e = ty) as Hty.
    { change (Aggregate_Type (GetAggregate e) = ty). rewrite Hk. apply (good_type r). unfold replay in Hr. bind_inv Hr as b Hb.
      eapply Project_good, Hr. exact (proj1 (NewProjection_good _ _ _ Hb)). }
    rewrite Project_nil in Hpr by done. by injection Hpr as ->.
  - rewrite decide_False in Hs by done. destruct Hs as [-> _]. exists r. split; [exact Hr|reflexivity].
Qed.

Lemma follow_reachable_ok σ0 σ : follow_ok σ0 → rtc follow_step σ0 σ → follow_ok σ.
Proof. intros Hok Hr. revert Hok. induction Hr as [|? ? ? Hstep _ IH]; eauto using follow_step_ok. Qed.

(** Taking what waits leads to a read that answers what the stream says. *)
Lemma follow_settles now σ k r : follow_ok σ → heard k → whole σ k → replay now k (fo_stream σ k) = Ret r →
  ∃ σ', rtc follow_take σ σ' ∧ waiting σ' = [] ∧ fo_stream σ' k = fo_stream σ k ∧
    (fo_stream σ k ≠ [] → ∃ e, (on_inner (c_GetAggregate now k) (fo_cache σ')).1 = Ret e ∧ sim e r).
Proof.
  intros Hok Hh [Hw1 Hw2] Hrep.
  destruct (follow_drains σ Hok) as (σ' & Ht & Hok' & Hwait & Hst & Hhist & Hlost). exists σ'. split_and!; [done..|]. intros Hne.
  eapply read_settled; [done|done| | |by rewrite Hst|by rewrite Hst].
  - split; [by rewrite Hst, Hhist|by rewrite Hlost].
  - unfold pending. by rewrite Hwait.
Qed.
End following.
