(* ===== verification/Wiring.v ===== *)
(** Component [cmd/fission-workflows-bundle], continued: the bundle puts the components together.  With the event
    store in memory, the caches of invocations and workflows subscribe to it, and the controllers get their
    executors; what is known of the parts then holds of the whole. *)

From stdpp Require Import base gmap strings list.
From S2P Require Import Prelude Data Types Fes Projectors Replays Pubsub Lru MemBackend Cache Bundle Executor Ctrl.
From S2P Require Import InvocationController Store WorkflowController Sensors Lifecycle Following.

(** ** The caches *)

(** [cmd/fission-workflows-bundle/bundle/bundle.go:55-56] WorkflowsCacheSize (part) *)
Definition WorkflowsCacheSize : Z := 10000.
Definition InvocationsCacheSize : Z := 100000.

Section caches.
Context `{LRULaws (list Event)} `{LRULaws Entity} `{MapRange}.
Notation cache := (SubscribedCache (LoadingCache LRUCache Backend)).

(** The store, the publisher of events, is inside the cache that is returned. *)
(** [cmd/fission-workflows-bundle/bundle/bundle.go:404-422] setupWorkflowInvocationCache *)
Definition setupWorkflowInvocationCache (now : Z) (app : App) (backend : Backend) : res goerror (nat * cache * App) :=
  let '(sub, eventPub) := Subscribe (publisher backend) [invocation_subscription] in
  lru ← NewLRUCache InvocationsCacheSize;
  let c := NewSubscribedCache now (NewLoadingCache lru (Backend_with_publisher backend eventPub)) in
  app ← RegisterCloser ("cache-" +:+ TypeInvocation) None app;
  Ret (sub, c, app).

(** [cmd/fission-workflows-bundle/bundle/bundle.go:424-441] setupWorkflowCache *)
Definition setupWorkflowCache (now : Z) (app : App) (backend : Backend) : res goerror (nat * cache * App) :=
  let '(sub, eventPub) := Subscribe (publisher backend) [workflow_subscription] in
  lru ← NewLRUCache WorkflowsCacheSize;
  let c := NewSubscribedCache now (NewLoadingCache lru (Backend_with_publisher backend eventPub)) in
  app ← RegisterCloser ("cache-" +:+ TypeWorkflow) None app;
  Ret (sub, c, app).

(** Both caches, on the one store. *)
(** [cmd/fission-workflows-bundle/bundle/bundle.go:205-207] Run: the caches *)
Definition bundle_caches (now : Z) (app : App) (backend : Backend) : res goerror (nat * cache * (nat * cache) * App) :=
  '(isub, invocations, app) ← setupWorkflowInvocationCache now app backend;
  '(wsub, workflows, app) ← setupWorkflowCache now app (store_of invocations);
  Ret (isub, with_store (store_of workflows) invocations, (wsub, workflows), app).

Context `{Proto} `{PTypes}.
#[local] Existing Instance InvocationProjector.
Notation fit := event_fit.

(** The cache of invocations hears every event of every invocation. *)
Lemma invocation_heard id : id ≠ "" → heard (fit := fit) invocation_subscription (NewInvocationAggregate id).
Proof.
  intros Hid. split; [done|]. intros ev Hv _ Hkey. destruct (event_valid_aggregate _ Hv) as (a & Ha & _).
  rewrite (proj1 (subscription_labels ev a Ha)). apply bool_decide_eq_true. unfold event_key in Hkey. rewrite Ha in Hkey.
  destruct (Event_Parent ev) as [p|]; injection Hkey as ->; [by right|by left].
Qed.

Lemma setupWorkflowCache_subscribes now app backend sub c app' : publisher_ok (publisher backend) →
  setupWorkflowCache now app backend = Ret (sub, c, app') →
  store_of c = Backend_with_publisher backend (Subscribe (publisher backend) [workflow_subscription]).2 ∧
  app' = app ++ [("cache-" +:+ TypeWorkflow, None)].
Proof.
  intros Hpu. unfold setupWorkflowCache. destruct (Subscribe _ _) as [k pu]. intros Hs.
  bind_inv Hs as lru Hl. bind_inv Hs as app1 Ha. injection Hs as <- <- <-. split; [done|].
  unfold RegisterCloser in Ha. case_decide; [done|]. by injection Ha.
Qed.

(** The two caches of a store that was just made: they are there, the one of invocations follows the store,
    and both are closed at the end. *)
Lemma bundle_caches_follow now backend : NewBackend (E := goerror) [] = Ret backend →
  ∃ isub invocations workflows app, bundle_caches now [] backend = Ret (isub, invocations, workflows, app) ∧
    app = [("cache-" +:+ TypeInvocation, None); ("cache-" +:+ TypeWorkflow, None)] ∧
    isub = (Subscribe (publisher backend) [invocation_subscription]).1 ∧
    follow_ok (fit := fit) (sim := entity_sim) invocation_subscription isub
      (MkFollowing invocations (λ k, default [] (stream backend k)) 0).
Proof.
  intros Hb. destruct (NewBackend_ok (E := goerror) [] backend ltac:(by intros ? ?%not_elem_of_nil) Hb) as (Hok & Hst & Hbuf & _).
  pose proof (lru_New_spec (V := Entity) InvocationsCacheSize) as Hl.
  pose proof (lru_New_spec (V := Entity) WorkflowsCacheSize) as Hlw.
  unfold bundle_caches, setupWorkflowInvocationCache, setupWorkflowCache, NewLRUCache.
  destruct (lru_New InvocationsCacheSize) as [c|]; [|by destruct Hl]. destruct Hl as (_ & Hl & _ & Hc).
  destruct (lru_New WorkflowsCacheSize) as [cw|]; [|by destruct Hlw].
  assert (∀ k, stream backend k = None) as Hn by (intros k; unfold stream; by rewrite Hst, Hbuf, !lookup_empty).
  assert (follow_ok (fit := fit) (sim := entity_sim) invocation_subscription (Subscribe (publisher backend) [invocation_subscription]).1
    (follow_initial invocation_subscription now backend c)) as Hi.
  { apply follow_initial_ok; [done|intros k; by rewrite Hn| |done|done|done].
    split; [done|]. intros k e He. by rewrite Hc, lookup_empty in He. }
  destruct (Subscribe (publisher backend) [invocation_subscription]) as [isub pu] eqn:Hs. rewrite !bind_Ret_l.
  assert (∀ n, RegisterCloser n None [] = Ret [(n, None)]) as Hreg by done. rewrite Hreg, !bind_Ret_l.
  set (ci := NewSubscribedCache _ _).
  destruct (Subscribe (publisher (store_of ci)) [workflow_subscription]) as [wsub pu'] eqn:Hws.
  assert (RegisterCloser ("cache-" +:+ TypeWorkflow) None [("cache-" +:+ TypeInvocation, None)] =
    Ret [("cache-" +:+ TypeInvocation, None); ("cache-" +:+ TypeWorkflow, None)]) as -> by done. rewrite !bind_Ret_l.
  do 4 eexists. split; [done|]. split_and!; [done..|].
  unfold follow_initial in Hi. rewrite Hs in Hi. cbn [fst snd] in Hi. fold ci in Hi.
  destruct (follow_sub _ _ _ Hi) as [Hin _]. change (isub ∈ subs pu) in Hin.
  assert (publisher_ok pu) as Hpu by exact (bo_publisher _ (fo_store_ok _ _ _ Hi)).
  destruct (Subscribe_others pu [workflow_subscription] Hpu) as [Hpu' Hoth].
  change (publisher (store_of ci)) with pu in Hws. rewrite Hws in Hpu', Hoth. destruct (Hoth isub Hin) as [Hin' Hh].
  apply (follow_idle _ _ _ _ Hi); [|done|exact Hin'|exact Hh|by left].
  apply with_store_ok; [apply (follow_cache_ok _ _ _ Hi)|]. by apply with_publisher_ok; [apply (fo_store_ok _ _ _ Hi)|].
Qed.

End caches.

(** ** The controllers *)

(** [cmd/fission-workflows-bundle/bundle/bundle.go:499-510] setupInvocationController *)
Definition setupInvocationController {M} :
    res goerror (MetaController InvocationController (meta_sensor (InvocationSubscription M))) :=
  localExec ← NewLocalExecutor 1000 100000;
  Ret (NewInvocationMetaController localExec (10 ^ 9)).

(** [cmd/fission-workflows-bundle/bundle/bundle.go:512-517] setupWorkflowController *)
Definition setupWorkflowController {M} :
    res goerror (MetaController WorkflowController (meta_sensor (WorkflowSubscription M))) :=
  exec ← NewLocalExecutor 10 1000;
  Ret (NewWorkflowMetaController exec (60 * 10 ^ 9)).

