(* ===== verification/Runs.v ===== *)
(** A concrete run: a workflow of two tasks, its event streams and the states they
    lead to.  The theorems of the development are applied to it, with concrete
    libraries in place of the parameters, so that their hypotheses are seen to hold. *)

From stdpp Require Import base gmap strings list.
From S2P Require Import Prelude Data Types TypedValues ControlFlow Fes Projectors Pubsub Lru.
From S2P Require Import MemBackend Cache Graph Scheduler Validate.

(** ** The workflow: [b] requires [a] and gives the output *)

Definition sample_task (reqs : list string) : TaskSpec :=
  MkTaskSpec "noop" ∅ (Require_ reqs) 0 None None None.
Definition sample_spec : WorkflowSpec :=
  MkWorkflowSpec "v1" {[ "a" := Some (sample_task []); "b" := Some (sample_task ["a"]) ]} "b" "" "" "" false.
Definition parsed_task : TaskStatus :=
  MkTaskStatus TaskStatus_READY None (Some (MkFnRef "internal" "" "noop")) None.
Definition parsed_tasks : gmap string TaskStatus := {[ "a" := parsed_task; "b" := parsed_task ]}.

Definition sample_workflow : Workflow :=
  MkWorkflow (Some (MkObjectMetadata "wf-1" "" (Some (MkTimestamp 100 0)) 1)) (Some sample_spec)
    (Some (MkWorkflowStatus WorkflowStatus_READY None
       ((λ st, MkTask (Some (MkObjectMetadata "" "" None 1)) None (Some st)) <$> parsed_tasks) None)).

Definition sample_invocation_spec : WorkflowInvocationSpec :=
  MkWorkflowInvocationSpec "wf-1" ∅ "" (Some sample_workflow) (Some (MkTimestamp 200 0)).
Definition sample_run_spec : TaskInvocationSpec :=
  MkTaskInvocationSpec (Some (MkFnRef "internal" "" "noop")) "a" ∅ "wi-1" None (Some (MkTimestamp 200 0)).
Definition sample_output : TypedValue :=
  MkTypedValue (Some (MkAny (TypeUrlPrefix +:+ TypeString) "out")) ∅.
Definition sample_result : TaskInvocationStatus :=
  MkTaskInvocationStatus TaskInvocationStatus_SUCCEEDED None (Some sample_output) None None.

(** The payloads of its events, and a codec for them. *)
Definition sample_messages : list message := [
  WorkflowCreated (Some sample_spec); WorkflowParsed parsed_tasks;
  InvocationCreated (Some sample_invocation_spec); TaskStarted (Some sample_run_spec);
  TaskSucceeded (Some sample_result); InvocationCompleted (Some sample_output) None;
  StringValue "wi-1"].
#[export] Instance sample_proto : Proto := table_proto sample_messages.
#[export] Instance sample_ptypes : PTypes := unix_ptypes.
#[export] Instance sample_range : MapRange := plain_range.

Definition event_for (a : Aggregate) (parent : option Aggregate) (m : message) : Event :=
  match NewEvent 5 a (Some m) with Ret e => event_with_parent e parent | _ => sample_event "" false end.

Definition workflow_events : list Event :=
  event_for (NewWorkflowAggregate "wf-1") None <$>
    [WorkflowCreated (Some sample_spec); WorkflowParsed parsed_tasks].
Definition invocation_events : list Event :=
  [event_for (NewInvocationAggregate "wi-1") None (InvocationCreated (Some sample_invocation_spec));
   event_for (NewTaskRunAggregate "a") (Some (NewInvocationAggregate "wi-1")) (TaskStarted (Some sample_run_spec));
   event_for (NewTaskRunAggregate "a") (Some (NewInvocationAggregate "wi-1")) (TaskSucceeded (Some sample_result))].
Definition completed_event : Event :=
  event_for (NewInvocationAggregate "wi-1") None (InvocationCompleted (Some sample_output) None).

(** The invocation that [n] of the events lead to. *)
Definition new_invocation : WorkflowInvocation :=
  match WorkflowInvocation_NewProjection 5 (NewInvocationAggregate "wi-1") with
  | Ret wi => wi | _ => MkWorkflowInvocation None None None end.
Definition replayed (es : list Event) : WorkflowInvocation :=
  match WorkflowInvocation_Project 5 (Some (EInvocation new_invocation)) es with
  | Ret wi => wi | _ => MkWorkflowInvocation None None None end.

(** ** Types and values *)

Lemma sample_workflow_wf : workflow_wf sample_workflow.
Proof.
  split; [by eexists| |].
  - intros st id t [= <-]. cbn. intros Ht. left.
    apply lookup_fmap_Some in Ht as (st & <- & _). done.
  - intros sp id [= <-]. cbn. intros Hid.
    apply lookup_insert_Some in Hid as [[_ ?]|[_ Hid]]; [done|].
    apply lookup_singleton_Some in Hid as [_ ?]. done.
Qed.

Lemma Workflow_Task_store_transparent_witness :
  Workflow_Task (E := Empty_set) (Some (Workflow_Task_store sample_workflow "a")) "a" =
  Workflow_Task (Some sample_workflow) "a".
Proof. by apply (Workflow_Task_store_transparent sample_workflow "a" "a"). Defined.

Lemma task_deadline_bounded_witness :
  ∃ d, pt_Timestamp (Some (MkTimestamp 130 0)) = (d, true) ∧ (d ≤ 200 * 10 ^ 9)%Z.
Proof.
  apply (task_deadline_bounded (MkTimestamp 200 0) (Some (MkDuration 30 0)) (100 * 10 ^ 9)
    (200 * 10 ^ 9) (MkTimestamp 130 0)); by vm_compute.
Defined.

Lemma NewEvent_roundtrip_witness :
  let ev := event_for (NewWorkflowAggregate "wf-1") None (WorkflowParsed parsed_tasks) in
  ValidateEvent (Some ev) = Ret () ∧ ParseEventData ev = Ret (WorkflowParsed parsed_tasks).
Proof.
  apply (NewEvent_roundtrip 5 (NewWorkflowAggregate "wf-1") (WorkflowParsed parsed_tasks));
    [done|unfold wire; cbn; unfold sample_messages; set_solver|by vm_compute].
Defined.

(** ** Projectors *)

Lemma new_invocation_made : WorkflowInvocation_NewProjection 5 (NewInvocationAggregate "wi-1") = Ret new_invocation.
Proof. by vm_compute. Qed.

Lemma replay_invocation :
  WorkflowInvocation_Project 5 (Some (EInvocation new_invocation)) invocation_events =
  Ret (replayed invocation_events).
Proof. by vm_compute. Qed.

Lemma sample_events_wf : Forall event_wf (invocation_events ++ [completed_event]).
Proof.
  repeat apply Forall_cons_2; [..|apply Forall_nil_2];
    (split; [vm_compute; by eexists|intros a Ha Ht; vm_compute in Ha; injection Ha as <-;
      first [by vm_compute in Ht|vm_compute; by eexists]
      |intros m Hm; vm_compute in Hm; injection Hm as <-; vm_compute; first [done|by eexists]]).
Qed.

Lemma sample_payloads : Forall2 (λ ev m, payload_of ev = Some m) invocation_events
  [InvocationCreated (Some sample_invocation_spec); TaskStarted (Some sample_run_spec);
   TaskSucceeded (Some sample_result)].
Proof. repeat apply Forall2_cons_2; [by vm_compute..|apply Forall2_nil_2]. Qed.

Lemma sample_events_sound : Forall event_sound invocation_events.
Proof.
  pose proof sample_payloads as Hp.
  apply Forall2_cons in Hp as [H1 Hp]. apply Forall2_cons in Hp as [H2 Hp].
  apply Forall2_cons in Hp as [H3 _].
  repeat apply Forall_cons_2; [..|apply Forall_nil_2].
  - split; rewrite H1; [done|]. intros spec wf [= <-] [= <-]. apply sample_workflow_wf.
  - split; rewrite H2; [|done]. intros sp a [= <-] Ha. vm_compute in Ha. by injection Ha as <-.
  - split; by rewrite H3.
Qed.

Lemma WorkflowInvocation_Project_no_panic_witness :
  no_panic (WorkflowInvocation_Project 5 (Some (EInvocation new_invocation))
    (invocation_events ++ [completed_event])).
Proof.
  by apply (WorkflowInvocation_Project_no_panic 5 (NewInvocationAggregate "wi-1"));
    [apply new_invocation_made|apply sample_events_wf].
Defined.

Lemma WorkflowInvocation_Project_status_witness :
  WI_status (replayed (invocation_events ++ [completed_event])) = WorkflowInvocationStatus_SUCCEEDED.
Proof.
  rewrite (WorkflowInvocation_Project_status 5 (NewInvocationAggregate "wi-1") new_invocation
    (replayed (invocation_events ++ [completed_event])) (invocation_events ++ [completed_event]));
    by vm_compute.
Defined.

Lemma WorkflowInvocation_Project_tasks_witness :
  ∃ t0 t, WI_task new_invocation "a" = None ∧
    TaskRun_NewProjection 5 (NewTaskRunAggregate "a") = Ret t0 ∧
    TaskRun_Project (Some (ETaskRun t0)) (tail invocation_events) = Ret t ∧
    WI_task (replayed (tail invocation_events)) "a" = Some t.
Proof.
  pose proof (WorkflowInvocation_Project_tasks 5 new_invocation (replayed (tail invocation_events))
    (tail invocation_events) "a") as Ht.
  assert (filter (λ ev, for_task "a" ev = true) (tail invocation_events) = tail invocation_events)
    as Hf by by vm_compute.
  rewrite Hf in Ht. destruct Ht as (t0 & t & [Hn|[Hn Hp]] & Hrun & Hw);
    [by vm_compute|repeat apply Forall_cons_2; by vm_compute|done|].
  exists t0, t. by split_and!.
Defined.

Definition new_workflow : Workflow :=
  match Workflow_NewProjection 5 (NewWorkflowAggregate "wf-1") with
  | Ret wf => wf | _ => MkWorkflow None None None end.
Definition replayed_workflow : Workflow :=
  match Workflow_Project (Some (EWorkflow new_workflow)) workflow_events with
  | Ret wf => wf | _ => MkWorkflow None None None end.

Lemma Workflow_Project_parsed_witness :
  WorkflowStatus_Ready (Workflow_Status replayed_workflow) = true ∧
  Workflow_ID (Some replayed_workflow) = "wf-1" ∧ Workflow_Spec replayed_workflow = Some sample_spec.
Proof.
  destruct (Workflow_Project_parsed new_workflow replayed_workflow
    (event_for (NewWorkflowAggregate "wf-1") None (WorkflowCreated (Some sample_spec)))
    (event_for (NewWorkflowAggregate "wf-1") None (WorkflowParsed parsed_tasks))
    sample_spec parsed_tasks) as (Hr & Hi & Hs & _); [by vm_compute..|].
  split; [exact Hr|]. split; [rewrite Hi; by vm_compute|exact Hs].
Defined.

Lemma replayed_wf : invocation_wf (replayed invocation_events).
Proof.
  apply (replay_wf 5 (NewInvocationAggregate "wi-1") new_invocation _ invocation_events);
    [apply new_invocation_made|apply sample_events_sound|apply replay_invocation].
Qed.

Lemma WorkflowInvocation_Project_wf_witness : invocation_wf (replayed invocation_events).
Proof.
  apply (WorkflowInvocation_Project_wf 5 (NewInvocationAggregate "wi-1") new_invocation
    (replayed invocation_events) invocation_events);
    [apply new_invocation_made|apply sample_events_sound|apply replay_invocation].
Defined.

Lemma Tasks_Task_agree_witness :
  ∃ M, WorkflowInvocation_Tasks (E := Empty_set) (Some (replayed invocation_events)) = Ret M ∧
    WorkflowInvocation_Task (E := Empty_set) (replayed invocation_events) "b" = Ret (M !! "b" ≫= (λ t, t)).
Proof.
  destruct (Tasks_Task_agree (E := Empty_set) (replayed invocation_events)) as (M & HM & Ht).
  - apply replayed_wf.
  - by vm_compute; eexists.
  - exists M. split; [exact HM|apply Ht].
Defined.

(** ** Publishers and the event store *)

Definition text_labels (m : string) : Labels := {[ "text" := m ]}.
Definition odd_matcher : Matcher := InMatcher "text" ["1"; "3"].

Lemma Publish_delivers_witness :
  publisher_ok (NewPublisher string) ∧
  ∃ pu, Publish (E := Empty_set) text_labels (NewPublisher string) "1" = Ret pu ∧ publisher_ok pu.
Proof.
  split; [apply NewPublisher_ok|].
  destruct (Publish_delivers (E := Empty_set) text_labels (NewPublisher string) "1")
    as (pu & Hp & Hok & _); [apply NewPublisher_ok|]. by exists pu.
Defined.

Lemma Publish_lossless_witness :
  ∃ pu s, foldM (Publish (E := Empty_set) text_labels)
      (Subscribe (NewPublisher string) [MkSubscriptionOptions 3 (Some odd_matcher)]).2 ["1"; "2"; "3"] = Ret pu ∧
    heap pu !! (Subscribe (NewPublisher string) [MkSubscriptionOptions 3 (Some odd_matcher)]).1 = Some s ∧
    ch_buf (Ch s) = ["1"; "3"].
Proof.
  destruct (Publish_lossless (E := Empty_set) text_labels (NewPublisher string)
    (MkSubscriptionOptions 3 (Some odd_matcher)) ["1"; "2"; "3"] _ _ NewPublisher_ok
    ltac:(by intros k ?%not_elem_of_nil) eq_refl) as (pu & s & Hp & Hs & Hb); [done|done|].
  exists pu, s. split; [exact Hp|]. split; [exact Hs|]. rewrite Hb. by vm_compute.
Defined.

(** A store of two streams of at most two events, and one that holds the stream ["a"]. *)
Definition new_store : Backend :=
  match NewBackend (E := Empty_set) [MkConfig 2 2] with
  | Ret b => b | _ => MkBackend (MkConfig 2 2) (MkListLru 2 []) ∅ 0 (NewPublisher Event) end.
Definition store_a : Backend := (Append (Some (sample_event "a" false)) new_store).2.
Definition key_of (id : string) : Aggregate := MkAggregate id TypeInvocation.

Lemma new_store_ok : backend_ok new_store.
Proof. by apply (NewBackend_ok (E := Empty_set) [MkConfig 2 2]); [intros c ->%list_elem_of_singleton|]. Qed.

Lemma store_a_ok : backend_ok store_a.
Proof. apply Append_ok, new_store_ok. Qed.

Lemma sample_event_valid id b : id ≠ "" → event_valid (sample_event id b).
Proof. intros Hid. split; cbn; try done. by eexists; split. Qed.

Lemma fit_loop_terminates_witness :
  fit_loop 10 (-1) (Backend_Len store_a) store_a =
  fit_loop (fit_fuel store_a) (-1) (Backend_Len store_a) store_a.
Proof.
  destruct (fit_loop_terminates store_a 10) as [Hf _]; [apply store_a_ok|vm_compute; lia|exact Hf].
Defined.

Lemma reachable_store_ok_witness :
  (Z.of_nat (size (contents (buf store_a))) ≤ 2)%Z.
Proof.
  destruct (reachable_store_ok [MkConfig 2 2] store_a) as (_ & Hs & _).
  - by intros c ->%list_elem_of_singleton.
  - apply reachable_append, reachable_new. reflexivity.
  - exact Hs.
Defined.

Lemma Append_Get_witness :
  (MemBackend.Get (key_of "a") (Append (Some (sample_event "a" true)) store_a).2).1 =
  Ret [sample_event "a" false; sample_event "a" true].
Proof.
  assert ((Append (Some (sample_event "a" true)) store_a).1 = Ret ()) as Hr by by vm_compute.
  assert ((MemBackend.Get (key_of "a") store_a).1 = Ret [sample_event "a" false]) as Hg0 by by vm_compute.
  destruct (Append (Some (sample_event "a" true)) store_a) as [r b] eqn:Ha.
  change (r = Ret ()) in Hr. subst r.
  destruct (Append_Get store_a b (sample_event "a" true) (key_of "a") store_a_ok eq_refl Ha) as (Hg & _).
  change (stream_key (sample_event "a" true) (key_of "a")) with (key_of "a") in Hg.
  rewrite Hg0 in Hg. exact Hg.
Defined.

Definition full_store : Backend :=
  (append_all store_a [sample_event "b" false]).2.

Lemma full_store_ok : backend_ok full_store.
Proof.
  unfold full_store. cbn [append_all].
  pose proof (Append_ok store_a (sample_event "b" false) store_a_ok) as Hok.
  by destruct (Append (Some (sample_event "b" false)) store_a).
Qed.

Lemma Append_error_witness :
  ∃ b err, Append (Some (sample_event "c" false)) full_store = (Throw err, b) ∧
    store b = store full_store ∧ (2 ≤ entries b)%Z.
Proof.
  assert (∃ err, (Append (Some (sample_event "c" false)) full_store).1 = Throw err) as [err He]
    by (vm_compute; by eexists).
  assert (entries (Append (Some (sample_event "c" false)) full_store).2 = 2%Z) as Hn by by vm_compute.
  destruct (Append (Some (sample_event "c" false)) full_store) as [r b] eqn:Ha.
  change (r = Throw err) in He. change (entries b = 2%Z) in Hn. subst r.
  exists b, err. split; [done|]. rewrite Hn.
  split; [|done]. by destruct (Append_error full_store b (sample_event "c" false) err full_store_ok Ha).
Defined.

Lemma active_stream_history_witness :
  default [] (stream (append_all store_a [sample_event "a" false; sample_event "b" true]).2 (key_of "a")) =
  [sample_event "a" false; sample_event "a" false].
Proof.
  assert ((append_all store_a [sample_event "a" false; sample_event "b" true]).1 =
    [sample_event "a" false; sample_event "b" true]) as Hacc by by vm_compute.
  pose proof (active_stream_history store_a [sample_event "a" false; sample_event "b" true] (key_of "a")
    store_a_ok) as Hh.
  destruct (append_all store_a [sample_event "a" false; sample_event "b" true]) as [acc b] eqn:Ha.
  destruct Hh as [Hs _].
  - repeat apply Forall_cons_2; [by apply sample_event_valid..|apply Forall_nil_2].
  - by vm_compute.
  - repeat apply Forall_cons_2; [by intros _|by intros Hb|apply Forall_nil_2].
  - change (acc = [sample_event "a" false; sample_event "b" true]) in Hacc. subst acc.
    change (default [] (stream b (key_of "a")) = [sample_event "a" false; sample_event "a" false]).
    rewrite Hs. by vm_compute.
Defined.

Lemma Append_counted_witness :
  Backend_Len (Append (Some (sample_event "b" false)) store_a).2 = 2%Z.
Proof.
  destruct (Append_counted store_a (sample_event "b" false) (key_of "b")) as [Hl _];
    [apply store_a_ok|by apply sample_event_valid|done|by vm_compute..|].
  rewrite Hl. by vm_compute.
Defined.

(** ** Caches *)

Definition invocation_key : Aggregate := NewInvocationAggregate "wi-1".
#[export] Instance sample_projector : Projector := InvocationProjector.

(** A store that holds the events of the invocation, all but the last of them, and an
    empty cache in front of it. *)
Definition empty_cache : LRUCache := MkListLru 10 [].
Definition store_of (es : list Event) : Backend :=
  foldl (λ b ev, (Append (Some ev) b).2)
    (MkBackend (MkConfig 10 0) (MkListLru 10 []) ∅ 0 (NewPublisher Event)) es.
Definition loading (es : list Event) : LoadingCache LRUCache Backend :=
  MkLoadingCache empty_cache (store_of es).

Lemma store_of_ok es : backend_ok (store_of es).
Proof.
  unfold store_of.
  assert (backend_ok (MkBackend (MkConfig 10 0) (MkListLru 10 []) ∅ 0 (NewPublisher Event))) as Hok
    by by eapply (NewBackend_ok (E := Empty_set) [MkConfig 10 0]); [intros c ->%list_elem_of_singleton|].
  revert Hok. generalize (MkBackend (MkConfig 10 0) (MkListLru 10 []) ∅ 0 (NewPublisher Event)) as b.
  induction es as [|ev es IH]; intros b Hok; [done|]. by apply IH, Append_ok.
Qed.

Lemma empty_cache_ok : cache_ok empty_cache.
Proof.
  pose proof (lru_New_spec (V := Entity) 10) as (_ & Hok & _ & Hc).
  split; [exact Hok|]. intros k e He. change (contents (MkListLru 10 []) !! k = Some e) in He.
  by rewrite Hc in He.
Qed.

Lemma loading_ok es : lc_ok (loading es).
Proof. split; [apply empty_cache_ok|apply store_of_ok]. Qed.

Lemma sample_events_fit : Forall event_fit invocation_events.
Proof.
  pose proof sample_events_wf as Hwf. apply Forall_app in Hwf as [Hwf _].
  unfold invocation_events in *.
  repeat (apply Forall_cons in Hwf as [? Hwf]; apply Forall_cons_2;
    [split; [done|intros a p Ha Ht Hp; vm_compute in Ha, Hp; by simplify_eq/=]|]).
  apply Forall_nil_2.
Qed.

Lemma stored_events : b_stream (store_of invocation_events) invocation_key = invocation_events.
Proof. by vm_compute. Qed.

Lemma LoadingCache_reads_through_witness :
  (LoadingCache_GetAggregate 5 invocation_key (loading invocation_events)).1 =
  Ret (EInvocation (replayed invocation_events)).
Proof.
  pose proof (LoadingCache_reads_through 5 invocation_key (loading invocation_events)
    (loading_ok _)) as Hr.
  destruct (LoadingCache_GetAggregate 5 invocation_key (loading invocation_events)) as [r c].
  destruct Hr as [Hr _]; [by split|unfold lc_stream; cbn [lc_client loading]; rewrite stored_events; apply sample_events_fit|].
  assert (lc_cached (loading invocation_events) !! invocation_key = None) as Hn by by vm_compute.
  rewrite Hn in Hr. unfold lc_stream in Hr. cbn [lc_client loading] in Hr. rewrite stored_events in Hr.
  rewrite decide_False in Hr by done. destruct Hr as [-> _]. cbn [fst]. by vm_compute.
Defined.

Lemma applyEvent_in_step_witness :
  ∃ s e, applyEvent 5 (event_for (NewTaskRunAggregate "a") (Some invocation_key)
      (TaskSucceeded (Some sample_result))) (NewSubscribedCache 5 (loading invocation_events)) = (Ret (), s) ∧
    lc_cached (sc_cache s) !! invocation_key = Some e ∧
    entity_sim e (EInvocation (replayed invocation_events)).
Proof.
  destruct (applyEvent_in_step 5 (event_for (NewTaskRunAggregate "a") (Some invocation_key)
      (TaskSucceeded (Some sample_result))) invocation_key (take 2 invocation_events)
      (EInvocation (replayed invocation_events)) (NewSubscribedCache 5 (loading invocation_events)))
    as (s & e & Ha & _ & Hc & Hs & _).
  - split; [apply loading_ok|apply NewPublisher_ok].
  - by apply (ValidateEvent_valid _ ()); vm_compute.
  - by vm_compute.
  - exact sample_events_fit.
  - exact stored_events.
  - by vm_compute.
  - intros e r He. by vm_compute in He.
  - exists s, e. split; [exact Ha|]. split; [exact Hc|exact Hs].
Defined.

Lemma applyEvent_never_creates_witness :
  ∃ err, (applyEvent 5 (event_for invocation_key None (InvocationCreated (Some sample_invocation_spec)))
    (NewSubscribedCache 5 empty_cache)).1 = Throw err.
Proof.
  destruct (applyEvent_never_creates 5
    (event_for invocation_key None (InvocationCreated (Some sample_invocation_spec)))
    invocation_key (NewSubscribedCache 5 empty_cache)) as (err & s & Ha & _).
  - apply empty_cache_ok.
  - by apply (ValidateEvent_valid _ ()); vm_compute.
  - by vm_compute.
  - by vm_compute.
  - exists err. by rewrite Ha.
Defined.

(** ** The graph and the schedules *)

(** The invocation before any of its tasks was started. *)
Definition fresh_invocation : WorkflowInvocation := replayed (take 1 invocation_events).

Lemma fresh_fields :
  WorkflowInvocation_Workflow fresh_invocation = Some sample_workflow ∧
  ∃ st, WorkflowInvocation_Status fresh_invocation = Some st ∧
    WorkflowInvocationStatus_Tasks st = ∅ ∧ WorkflowInvocationStatus_DynamicTasks st = ∅.
Proof. split; [by vm_compute|]. eexists. by split_and!; [vm_compute|vm_compute|vm_compute]. Qed.

Lemma fresh_wf : invocation_wf fresh_invocation.
Proof.
  apply (replay_wf 5 (NewInvocationAggregate "wi-1") new_invocation _ (take 1 invocation_events));
    [apply new_invocation_made|apply Forall_take, sample_events_sound|by vm_compute].
Qed.

(** The tasks of the workflow, as the invocation shows them. *)
Definition view_of (reqs : list string) (id : string) : Task :=
  MkTask (Some (task_metadata id (Some (MkTimestamp 100 0)))) (Some (sample_task reqs)) (Some parsed_task).

Lemma sample_view id :
  task_view sample_workflow id =
  if decide (id = "a") then Some (view_of [] "a") else
  if decide (id = "b") then Some (view_of ["a"] "b") else None.
Proof.
  case_decide as Ha; [by subst|]. case_decide as Hb; [by subst|].
  assert (parsed_tasks !! id = None) as Hp
    by (unfold parsed_tasks; by rewrite lookup_insert_ne, lookup_singleton_ne).
  assert (WorkflowSpec_Tasks sample_spec !! id = None) as Hs
    by (cbn [WorkflowSpec_Tasks sample_spec]; by rewrite lookup_insert_ne, lookup_singleton_ne).
  assert ((Workflow_Status sample_workflow ≫= λ s, WorkflowStatus_Tasks s !! id) = None) as Ht
    by (cbn [Workflow_Status sample_workflow mbind option_bind WorkflowStatus_Tasks]; by rewrite lookup_fmap, Hp).
  assert (WorkflowSpec_TaskSpec (Workflow_Spec sample_workflow) id = None) as Hts
    by (unfold WorkflowSpec_TaskSpec; cbn [Workflow_Spec sample_workflow mbind option_bind]; by rewrite Hs).
  unfold task_view. by rewrite Ht, Hts.
Qed.

Lemma fresh_view id : inv_task_view fresh_invocation id = task_view sample_workflow id.
Proof.
  destruct fresh_fields as (Hw & st & Hst & _ & Hd). unfold inv_task_view. rewrite Hst, Hw. cbn.
  by rewrite Hd, lookup_empty.
Qed.

Lemma fresh_runs id : run_of fresh_invocation id = None.
Proof.
  destruct fresh_fields as (_ & st & Hst & Ht & _). unfold run_of, WI_task. rewrite Hst. cbn.
  by rewrite Ht, lookup_empty.
Qed.

Lemma fresh_reqs id :
  reqs fresh_invocation id = if decide (id = "b") then Require_ ["a"] else ∅.
Proof.
  unfold reqs. rewrite fresh_view, sample_view.
  case_decide as Ha; [by subst|]. by case_decide.
Qed.

Lemma fresh_schedulable : schedulable fresh_invocation.
Proof.
  split.
  - apply fresh_wf.
  - intros id t. by rewrite fresh_runs.
  - intros id t. rewrite fresh_view, sample_view. repeat case_decide; intros ?; simplify_eq; by eexists.
  - intros id. rewrite fresh_reqs. case_decide as Hb; [by subst|done].
  - assert (∀ k, (is_Some (inv_task_view fresh_invocation k) ∨
      ∃ id, is_Some (reqs fresh_invocation id !! k)) → k = "a" ∨ k = "b") as Hk.
    { intros k [[t Ht]|[id [d Hd]]].
      - rewrite fresh_view, sample_view in Ht. repeat case_decide; auto; done.
      - rewrite fresh_reqs in Hd. case_decide; [|done]. unfold Require_ in Hd. cbn in Hd.
        apply lookup_insert_Some in Hd as [[<- _]|[_ Hd]]; [by left|done]. }
    intros x y Hx%Hk Hy%Hk Heq. destruct Hx as [->| ->], Hy as [->| ->]; [done| | |done]; by vm_compute in Heq.
Qed.

Definition sample_iterator : Iterator := NewTaskSpecIterator (WorkflowSpec_Tasks sample_spec).
Definition node_a : LinkedNode := TaskSpecNode "a" (Some (sample_task [])).
Definition node_b : LinkedNode := TaskSpecNode "b" (Some (sample_task ["a"])).

Lemma sample_nodes : it_nodes sample_iterator = [node_a; node_b] ∨ it_nodes sample_iterator = [node_b; node_a].
Proof. first [left; by vm_compute|right; by vm_compute]. Qed.

Lemma elem_of_sample_nodes n : n ∈ it_nodes sample_iterator ↔ n = node_a ∨ n = node_b.
Proof. destruct sample_nodes as [-> | ->]; set_solver. Qed.

Lemma sample_parsable : parsable (it_nodes sample_iterator).
Proof.
  assert (∀ k, (k ∈ node_key <$> it_nodes sample_iterator ∨
    ∃ n, n ∈ it_nodes sample_iterator ∧ is_Some (req n !! k)) → k = "a" ∨ k = "b") as Hk.
  { intros k [Hin|(n & Hn & [d Hd])].
    - apply list_elem_of_fmap in Hin as (n & -> & Hn).
      apply elem_of_sample_nodes in Hn as [-> | ->]; [by left|by right].
    - apply elem_of_sample_nodes in Hn as [-> | ->]; [done|].
      cbn in Hd. apply lookup_insert_Some in Hd as [[<- _]|[_ Hd]]; [by left|done]. }
  split.
  - intros n [-> | ->]%elem_of_sample_nodes; done.
  - destruct sample_nodes as [-> | ->]; apply (bool_decide_unpack _); by vm_compute.
  - intros n [-> | ->]%elem_of_sample_nodes; done.
  - intros x y Hx%Hk Hy%Hk Heq.
    destruct Hx as [->| ->], Hy as [->| ->]; [done| | |done]; by vm_compute in Heq.
Qed.

Lemma Parse_dependencies_witness :
  ∃ g, Parse (E := Empty_set) sample_iterator = Ret g ∧ node_a ∈ Roots g ∧ node_b ∉ Roots g.
Proof.
  destruct (Parse_dependencies (E := Empty_set) sample_iterator sample_parsable)
    as (g & Hp & _ & _ & Hroots & _).
  assert (static_dep node_a node_b) as Hdep by (by vm_compute; eexists).
  exists g. split; [done|]. rewrite !Hroots, !elem_of_sample_nodes. split.
  - split; [by left|]. intros n (_ & _ & Hd). assert (req node_a = ∅) as Hra by done.
    unfold static_dep, dynamic_dep in Hd. rewrite Hra in Hd.
    destruct Hd as [[d Hd]|(_ & p & _ & [d Hd])]; by apply lookup_empty_Some in Hd.
  - intros [_ Hno]. apply (Hno node_a). split_and!; [apply elem_of_sample_nodes; by left|
      apply elem_of_sample_nodes; by right|by left].
Defined.

Lemma fresh_not_failed : ¬ has_failed fresh_invocation.
Proof. intros (id & t & Hr & _). by rewrite fresh_runs in Hr. Qed.

Lemma fresh_open id : open fresh_invocation id ↔ id = "a" ∨ id = "b".
Proof.
  unfold open. rewrite fresh_runs, fresh_view, sample_view.
  repeat case_decide; split; try naive_solver. all: intros [[? ?] _]; done.
Qed.

Lemma fresh_waits x y : waits fresh_invocation x y ↔ x = "a" ∧ y = "b".
Proof.
  unfold waits. rewrite !fresh_reqs.
  assert (dynamic_parent (Require_ ["a"]) = None) as Hd by by vm_compute.
  assert (dynamic_parent ∅ = None) as Hd0 by by vm_compute.
  split.
  - intros [[d Hd']|(_ & p & Hp & _)].
    + case_decide; [|done]. unfold Require_ in Hd'. cbn in Hd'.
      apply lookup_insert_Some in Hd' as [[<- _]|[_ Hd']]; done.
    + case_decide; congruence.
  - intros [-> ->]. left. by vm_compute; eexists.
Qed.

Lemma fresh_horizon id :
  open fresh_invocation id ∧ (∀ a, open fresh_invocation a → ¬ waits fresh_invocation a id) ↔ id = "a".
Proof.
  rewrite fresh_open. split.
  - intros [[-> | ->] Hno]; [done|]. destruct (Hno "a"); [apply fresh_open; by left|by apply fresh_waits].
  - intros ->. split; [by left|]. by intros a _ [_ ?]%fresh_waits.
Qed.


Lemma Prewarm_partition_witness :
  ∃ s, PrewarmAllPolicy_Evaluate 2 5 fresh_invocation = Ret s ∧
    ∀ id, id ∈ run_ids s ++ prepare_ids s ↔ id = "a" ∨ id = "b".
Proof.
  destruct (Prewarm_partition 2 5 fresh_invocation fresh_schedulable fresh_not_failed)
    as (sh & sa & sp & _ & He & _ & _ & _ & _ & Hall & _).
  exists sa. split; [exact He|]. intros id. rewrite Hall. apply fresh_open.
Defined.

Definition failed_run : TaskInvocation :=
  MkTaskInvocation (Some (NewObjectMetadata 5 "a")) None
    (Some (MkTaskInvocationStatus TaskInvocationStatus_FAILED None None (Some (MkError "boom")) None)).
Definition failed_invocation : WorkflowInvocation :=
  MkWorkflowInvocation None None (Some (MkWorkflowInvocationStatus WorkflowInvocationStatus_IN_PROGRESS
    None {[ "a" := failed_run ]} None ∅ None None)).

Lemma Policy_aborts_witness :
  ∃ s, Policy_Evaluate HorizonPolicy 5 failed_invocation = Ret s ∧
    Schedule_Abort s = Some (MkAbortAction "boom").
Proof.
  destruct (Policy_aborts HorizonPolicy 5 failed_invocation) as
    (s & reason & He & Ha & _ & _ & id & t & Hr & _ & Hre); [by eexists|by exists "a", failed_run|].
  exists s. split; [exact He|]. rewrite Ha. do 2 f_equal.
  cbn in Hr. apply lookup_singleton_Some in Hr as [_ <-]. exact Hre.
Defined.

Lemma fresh_acyclic id : ¬ tc (open_waits fresh_invocation) id id.
Proof.
  assert (∀ x y, tc (open_waits fresh_invocation) x y → x = "a" ∧ y = "b") as Htc.
  { intros x y Hxy. induction Hxy as [x y (_ & _ & Hw)|x y z (_ & _ & Hw) _ [? ?]].
    - by apply fresh_waits.
    - apply fresh_waits in Hw as [? ?]. by simplify_eq. }
  by intros [-> ?]%Htc.
Qed.

Lemma Policy_progress_witness :
  ∃ s id, Policy_Evaluate HorizonPolicy 5 fresh_invocation = Ret s ∧ id ∈ run_ids s.
Proof.
  apply (Policy_progress HorizonPolicy 5 fresh_invocation fresh_schedulable fresh_not_failed fresh_acyclic).
  exists "a". apply fresh_open. by left.
Defined.
