(* ===== verification/RunsEngine.v ===== *)
(** The concrete run continued: the controllers, the sensors and the API at work on
    the workflow of [Runs]. *)

From stdpp Require Import base gmap strings list.
From S2P Require Import Prelude Data Types TypedValues ControlFlow Fes Projectors Pubsub Lru.
From S2P Require Import MemBackend Cache Graph Scheduler Validate WorkQueue DelayingQueue.
From S2P Require Import Executor Ctrl Api ApiSpec InvocationController Store.
From S2P Require Import WorkflowController Sensors Runs.

(** ** The controller of the invocation *)

Definition sample_pool : Pool := MkLocalExecutor 2 (NewDelayingQueue 10) 2 ∅.
Definition fresh_event : Ctrl.Event :=
  Ctrl.MkEvent 1 (MkNotification None (Some (EInvocation fresh_invocation)) None invocation_key).
Definition fresh_controller : InvocationController := NewInvocationController "wi-1".

Lemma fresh_evaluable : evaluable 5 fresh_invocation.
Proof.
  destruct fresh_fields as (Hw & st & Hst & _ & Hd). split.
  - apply fresh_schedulable.
  - rewrite Hw. by eexists.
  - intros st' Hst'. rewrite Hst in Hst'. injection Hst' as <-. rewrite Hd. split; [|by vm_compute; lia].
    intros id t Ht. by rewrite lookup_empty in Ht.
Qed.

Lemma fresh_id : WorkflowInvocation_ID fresh_invocation = "wi-1".
Proof. by vm_compute. Qed.

Lemma fresh_idle : idle fresh_invocation fresh_controller sample_pool.
Proof.
  split; [by vm_compute|]. intros id [? Hs]. cbn [fresh_controller NewInvocationController startedTasks] in Hs.
  by rewrite lookup_empty in Hs.
Qed.

Lemma fresh_not_terminal : ¬ terminal fresh_invocation.
Proof.
  unfold terminal. assert (WI_status fresh_invocation = WorkflowInvocationStatus_IN_PROGRESS) as ->
    by by vm_compute.
  intros Hin. repeat (apply elem_of_cons in Hin as [?|Hin]; [done|]). by apply not_elem_of_nil in Hin.
Qed.

Lemma Eval_judged_witness :
  ∃ r ts, judged HorizonPolicy 0 fresh_invocation fresh_controller sample_pool r ts ∧
    InvocationController_Eval HorizonPolicy 5 0 (Some fresh_event) (fresh_controller, sample_pool) =
      (Ret r, after_submits 0 ts fresh_controller sample_pool).
Proof.
  apply (Eval_judged HorizonPolicy 5 0 fresh_event fresh_invocation fresh_controller sample_pool
    fresh_evaluable eq_refl fresh_id).
Defined.

Definition sample_evaluations : list evaluation :=
  [MkEvaluation 0 fresh_event fresh_invocation sample_pool;
   MkEvaluation 9 fresh_event fresh_invocation sample_pool].

Lemma tasks_start_once_witness :
  ∃ log c, evaluates HorizonPolicy 5 sample_evaluations fresh_controller log c ∧
    NoDup (accepted_runs log).
Proof.
  destruct (tasks_start_once HorizonPolicy 5 "wi-1" sample_evaluations) as (log & c & Hev & Hnd & _).
  - intros e He. repeat (apply elem_of_cons in He as [->|He]; [by split_and!; [apply fresh_evaluable|apply fresh_id|]|]).
    by apply not_elem_of_nil in He.
  - exists log, c. split; [exact Hev|exact Hnd].
Defined.

Lemma Eval_progress_witness :
  ∃ r ts, InvocationController_Eval HorizonPolicy 5 0 (Some fresh_event) (fresh_controller, sample_pool) =
      (Ret r, after_submits 0 ts fresh_controller sample_pool) ∧ ts ≠ [].
Proof.
  destruct (Eval_progress HorizonPolicy 5 0 fresh_event fresh_invocation fresh_controller sample_pool
    fresh_evaluable eq_refl fresh_id fresh_idle fresh_not_terminal) as (r & ts & Hev & Hts).
  - intros id [r Hr]. by rewrite fresh_runs in Hr.
  - apply fresh_acyclic.
  - exists r, ts. split; [exact Hev|]. destruct Hts as [[err ->]|[(out & h & ->)|(id & Hin & _)]]; [done..|].
    intros ->. by apply not_elem_of_nil in Hin.
Defined.

(** Task [a] was started, but the snapshot does not show its run. *)
Definition waiting_controller : InvocationController :=
  MkInvocationController "wi-1" {[ "a" := () ]} 0.

Lemma unfinished_task_blocks_witness :
  InvocationController_Eval HorizonPolicy 5 (10 ^ 20) (Some fresh_event) (waiting_controller, sample_pool) =
  (Ret (Success ""), (waiting_controller, sample_pool)).
Proof.
  apply (unfinished_task_blocks HorizonPolicy 5 (10 ^ 20) fresh_event fresh_invocation waiting_controller
    sample_pool "a").
  - apply fresh_schedulable.
  - reflexivity.
  - destruct fresh_fields as [-> _]. by eexists.
  - apply fresh_id.
  - by eexists.
  - intros (r & Hr & _). by rewrite fresh_runs in Hr.
  - by vm_compute.
Defined.

(** ** The controller of the workflow and the sensors *)

Definition queued_workflow : Workflow :=
  MkWorkflow (Some (MkObjectMetadata "wf-1" "" None 1)) (Some sample_spec)
    (Some (MkWorkflowStatus WorkflowStatus_FAILED None ∅ None)).
Definition workflow_event : Ctrl.Event :=
  Ctrl.MkEvent 2 (MkNotification None (Some (EWorkflow queued_workflow)) None (NewWorkflowAggregate "wf-1")).

Lemma WorkflowController_parses_witness :
  (WorkflowController_Eval 0 (Some workflow_event) (NewWorkflowController "wf-1") sample_pool).2.2 =
  (Executor.Submit 0 (parse_task queued_workflow) sample_pool).2.
Proof.
  pose proof (WorkflowController_parses [] "wf-1" 0 workflow_event queued_workflow sample_pool
    eq_refl eq_refl) as Hp.
  change (evaluations [] (NewWorkflowController "wf-1")) with (NewWorkflowController "wf-1") in Hp.
  cbv zeta in Hp.
  destruct (WorkflowController_Eval 0 (Some workflow_event) (NewWorkflowController "wf-1") sample_pool)
    as [r [c ex]].
  rewrite decide_False in Hp by done. apply Hp.
Defined.

(** A cache that holds the invocation and the workflow. *)
Definition entity_cache : LRUCache :=
  MkListLru 10 [(invocation_key, EInvocation fresh_invocation);
                (NewWorkflowAggregate "wf-1", EWorkflow queued_workflow)].
Definition invocation_cache : LRUCache := (c_Put (Some (EInvocation fresh_invocation)) empty_cache).2.
Definition workflow_cache : LRUCache := (c_Put (Some (EWorkflow queued_workflow)) empty_cache).2.

Lemma put_ok e : aggregate_valid (GetAggregate e) → cache_ok (c_Put (Some e) empty_cache).2.
Proof.
  intros Hv. pose proof (c_Put_spec e empty_cache empty_cache_ok Hv) as Hp.
  destruct (c_Put (Some e) empty_cache). by destruct Hp as (_ & ? & _).
Qed.

Lemma InvocationStorePollSensor_sound_witness :
  ∃ ns c, InvocationStorePollSensor_Poll 5 invocation_cache = (Ret ns, c) ∧ cache_ok c.
Proof.
  destruct (InvocationStorePollSensor_sound (C := LRUCache) 5 invocation_cache)
    as (ns & c & ks & Hp & Hc & _).
  - intros now k c Hc _. exists (Ret ()), c. by split_and!.
  - apply put_ok. split; by vm_compute.
  - assert (c_List invocation_cache = [invocation_key]) as -> by by vm_compute.
    intros k ->%list_elem_of_singleton. by split.
  - exists ns, c. split; [exact Hp|exact Hc].
Defined.

Definition polled : Notification :=
  MkNotification (Some (EWorkflow queued_workflow)) (Some (EWorkflow queued_workflow))
    (Some (refresh_event 5 (Some (NewWorkflowAggregate "wf-1")))) zero_Aggregate.

Lemma WorkflowStorePollSensor_ineffective_witness :
  ∃ s, handle workflow_factory 5 (Ctrl.MkEvent 3 polled) NewSystem sample_pool = Ret (s, sample_pool).
Proof.
  destruct (WorkflowStorePollSensor_ineffective (C := LRUCache) 5 workflow_cache
    (WorkflowStorePollSensor_Poll 5 workflow_cache).2 [polled] polled 3 NewSystem sample_pool)
    as (s & Hs & _).
  - apply put_ok. split; by vm_compute.
  - assert (c_List workflow_cache = [NewWorkflowAggregate "wf-1"]) as -> by by vm_compute.
    intros k ->%list_elem_of_singleton. by split.
  - reflexivity.
  - by left.
  - intros ctrl Hc. cbn [NewSystem ctrls] in Hc. by rewrite lookup_empty in Hc.
  - exists s. exact Hs.
Defined.

(** The controller of the invocation was dropped a while ago. *)
Definition stale_system : System InvocationController :=
  MkSystem ∅ {[ "wi-1" := MkControllerStats 0 3 ]} (NewWorkQueue 10 true).

Lemma StalenessPollSensor_skips_live_witness :
  ∃ key stats, ctrlStats stale_system !! key = Some stats ∧ GetController key stale_system = None.
Proof.
  destruct (StalenessPollSensor_Poll (3 * 10 ^ 9) stale_system invocation_cache) as [r c] eqn:Hp.
  assert (∃ n, r = Ret [n]) as [n ->].
  { change r with (r, c).1. rewrite <- Hp. by eexists. }
  destruct (StalenessPollSensor_skips_live (3 * 10 ^ 9) stale_system invocation_cache c [n] n Hp)
    as (key & stats & Hs & _ & Hg & _); [by left|]. exists key, stats. split; [exact Hs|exact Hg].
Defined.

(** ** The API *)

(** A codec for the messages of these calls. *)
Definition proxy_input : TypedValue :=
  MkTypedValue (Some (MkAny (TypeUrlPrefix +:+ TypeString) "")) ∅.
Definition child_ref : FnRef := createFnRef "wf-7".
Definition stub_task : TaskSpec := MkTaskSpec "noop" ∅ ∅ 0 None None None.
Definition added_task : Data.Task := proxy_task 5 "a" child_ref (proxy_spec "a" child_ref proxy_input stub_task).
Definition run_spec : TaskInvocationSpec :=
  MkTaskInvocationSpec (Some (MkFnRef "internal" "" "noop")) "a" ∅ "wi-1" (Some (view_of [] "a")) None.
Definition api_messages : list message := [
  StringValue "wi-1"; WorkflowCreated (Some (sanitizeWorkflow sample_spec)); InvocationTaskAdded added_task;
  TaskStarted (Some run_spec); TaskSucceeded (Some sample_result);
  InvocationCreated (Some sample_invocation_spec); InvocationCompleted (Some sample_output) None].
#[local] Instance api_proto : Proto := table_proto api_messages.

Ltac in_table :=
  match goal with |- wire ?m => change (m ∈ api_messages) end; unfold api_messages;
  repeat first [by apply list_elem_of_here|apply list_elem_of_further].

Definition created_event : Data.Event :=
  match NewEvent 5 invocation_key (Some (InvocationCreated (Some sample_invocation_spec))) with
  | Ret e => e | _ => sample_event "" false end.
Definition created_store : Backend := store_of [created_event].

Lemma created_ok : b_ok created_store.
Proof. exact (store_of_ok _). Qed.

Lemma invocation_call_effect_witness :
  let '(r, b) := run_call (B := Backend) 5 "wi-1" (CallComplete (Some sample_output) None) created_store in
  r = Ret () ∧ ∃ ev, b_stream b invocation_key = b_stream created_store invocation_key ++ [ev].
Proof.
  assert (wire (call_payload (CallComplete (Some sample_output) None))) as Hw by in_table.
  pose proof (invocation_call_effect (B := Backend) 5 5 "wi-1" (CallComplete (Some sample_output) None)
    created_store created_ok Hw) as Hs.
  assert ((run_call (B := Backend) 5 "wi-1" (CallComplete (Some sample_output) None) created_store).1 = Ret ())
    as Hr by by vm_compute.
  destruct (run_call 5 "wi-1" (CallComplete (Some sample_output) None) created_store) as [r b].
  change (r = Ret ()) in Hr. subst r. split; [reflexivity|]. destruct Hs as (_ & [ev Hev] & _).
  exists ev. exact Hev.
Defined.

(** A runtime that succeeds. *)
Definition sample_runtime : gmap string (Runtime (B := Backend) (Ctx := ())) :=
  {[ "internal" := MkRuntime (λ _ _ _, mret (Some sample_result)) None ]}.
Definition no_inject (c : ()) (m : gmap string string) : gmap string string := m.
Definition keep_output : CallOption (B := Backend) (Ctx := ()) := PostTransformer (λ ti, mret ti).


Lemma addDynamicWorkflow_adds_child_witness :
  is_child (child_id "a") added_task ∧
  is_ret (addDynamicWorkflow () no_inject 5 "7" "wi-1" "a" (Some sample_spec) (Some stub_task) created_store).1.
Proof.
  split; [|by vm_compute].
  destruct (addDynamicWorkflow_adds_child (B := Backend) () no_inject 5 "7" "wi-1" "a" sample_spec stub_task
    proxy_input created_store created_ok) as [Hc _];
    [done|by vm_compute|by vm_compute|in_table|in_table|exact Hc].
Defined.
