(* ===== verification/RunsLifecycle.v ===== *)
(** The concrete run continued: the sensor of invocations hears of a task that succeeded, and a meta
    controller is run and closed. *)

From stdpp Require Import base gmap strings list.
From S2P Require Import Prelude Data Types Fes Projectors Pubsub Lru MemBackend Cache WorkQueue DelayingQueue.
From S2P Require Import Executor Ctrl InvocationController Store WorkflowController Sensors Lifecycle.
From S2P Require Import Runs RunsEngine.

Definition same_addr (n : Notification) : positive := 1.

(** ** A cache with a sensor *)

Definition success_event : Data.Event :=
  event_for (NewTaskRunAggregate "a") (Some invocation_key) (TaskSucceeded (Some sample_result)).
Definition heard : DefaultPublisher Notification :=
  (Subscribe (NewPublisher Notification) [updates_of (us_types (S := InvocationSubscription Notification))]).2.
Definition heard_cache : SubscribedCache (LoadingCache LRUCache Backend) :=
  MkSubscribedCache heard (loading invocation_events) 3.

Lemma heard_ok : publisher_ok heard.
Proof.
  destruct (Subscribe (NewPublisher Notification) [updates_of (us_types (S := InvocationSubscription Notification))])
    as [sub pu] eqn:Hs. unfold heard. rewrite Hs.
  by apply (Subscribe_ok _ _ _ _ NewPublisher_ok Hs); intros k ?%not_elem_of_nil.
Qed.


(** ** A sensor at work *)

Definition some_update : Notification :=
  MkNotification None (Some (EInvocation fresh_invocation)) (Some success_event) invocation_key.
Notation sensing := (Lifecycle.sensing (M := Notification) (S := InvocationSubscription Notification)).
Notation sensing_step :=
  (Lifecycle.sensing_step (S := InvocationSubscription Notification) Some same_addr notification_labels).

Definition published (pu : DefaultPublisher Notification) : DefaultPublisher Notification :=
  match Publish (E := goerror) notification_labels pu some_update with Ret pu => pu | _ => pu end.
Definition received (pu : DefaultPublisher Notification) : DefaultPublisher Notification :=
  match receive_from (Subscribe (NewPublisher Notification) []).1 pu with Some (_, pu) => pu | None => pu end.
Definition attached : InvocationSubscription Notification :=
  MkInvocationSubscription (Subscribe (NewPublisher Notification) []).1
    (Some (λ pu, Unsubscribe pu (Subscribe (NewPublisher Notification) []).1)).
Definition before_message : sensing :=
  MkSensing (published (published heard)) (MkNotificationSensor false (Listening attached)) []
    [some_update; some_update] [] 0.
Definition after_message : sensing :=
  MkSensing (received (published (published heard))) (MkNotificationSensor false (Listening attached))
    [Some (Ctrl.MkEvent 1 some_update)] [some_update; some_update] [some_update] 0.

(** The sensor is started, subscribes, and forwards the first of two updates that were published. *)
Lemma sample_sensing : rtc sensing_step (sensing_initial (NewPublisher Notification)) after_message.
Proof.
  assert (receive_from (us_sub attached) (published (published heard)) =
    Some (Some some_update, received (published (published heard)))) as Hr by (by vm_compute).
  eapply rtc_l; [by apply sense_start|].
  eapply rtc_l; [by apply (sense_run _ _ _ (MkNotificationSensor false (Listening attached)) heard)|].
  eapply rtc_l; [apply (sense_publish _ _ _ some_update (published heard)); by vm_compute|].
  eapply rtc_l; [apply (sense_publish _ _ _ some_update (published (published heard))); by vm_compute|].
  match goal with |- rtc _ ?σ _ => assert (σ = before_message) as -> by (by vm_compute) end. apply rtc_once.
  refine (sense_message _ _ _ (Some some_update) _ attached _ _ before_message eq_refl Hr _).
  unfold NotificationSensor_message. cbn [before_message sg_sensor ns_run sg_publisher]. by rewrite Hr.
Qed.

Lemma sensor_forwards_witness : ∃ σ : sensing,
  rtc sensing_step (sensing_initial (NewPublisher Notification)) σ ∧
  sg_submitted σ = [Some (Ctrl.MkEvent 1 some_update)] ∧
  ∃ k c, heap (sg_publisher σ) !! k = Some c ∧ ch_buf (Ch c) = [some_update].
Proof.
  pose proof sample_sensing as Hr. exists after_message. split; [exact Hr|].
  destruct (sensor_forwards Some same_addr notification_labels (NewPublisher Notification) after_message NewPublisher_ok Hr)
    as (Hs & _ & Hl).
  split; [exact Hs|]. destruct (Hl attached eq_refl) as (c & Hc & Hall & _). exists (us_sub attached), c.
  split; [exact Hc|]. apply (app_inv_head [some_update]).
  etrans; [exact (Hall eq_refl)|]. by vm_compute.
Defined.

(** ** A meta controller *)

Definition sample_meta : MetaController InvocationController (meta_sensor (InvocationSubscription Notification)) :=
  NewInvocationMetaController sample_pool (10 ^ 9).

Lemma meta_lifecycle_witness : ∃ m1 m2, InvocationMetaController_Run sample_meta = Ret m1 ∧
  InvocationMetaController_Run m1 = Ret m1 ∧ InvocationMetaController_Close m1 = Ret m2 ∧ meta_closed m2.
Proof.
  destruct (meta_lifecycle sample_meta) as (m1 & m2 & H1 & _ & H2 & _ & _ & _ & _ & H3 & _ & H4 & _).
  - reflexivity.
  - done.
  - reflexivity.
  - by intros [s|s].
  - exists m1, m2. split_and!; [exact H1|exact H2|exact H3|exact H4].
Defined.
