(* ===== verification/RunsFollowing.v ===== *)
(** The concrete run continued: the cache of invocations follows the event store, and its readers
    see an invocation go back in time on the way. *)

From stdpp Require Import base gmap strings list.
From S2P Require Import Prelude Data Types Fes Projectors Replays Pubsub Lru MemBackend Cache Store Lifecycle Following Bundle Wiring.
From S2P Require Import Runs.

(** ** A replay *)

Lemma sample_keys : Forall (λ ev, event_key ev = Some invocation_key) invocation_events.
Proof. repeat apply Forall_cons_2; [by vm_compute..|apply Forall_nil_2]. Qed.

Lemma Project_last_writer_wins_witness :
  look (replayed invocation_events) (FRun "a" RStatus) = TaskInvocationStatus_SUCCEEDED.
Proof.
  assert (invocation_ok new_invocation) as Hok.
  { apply (WorkflowInvocation_new_ok 5 invocation_key). exact new_invocation_made. }
  destruct (Project_last_writer_wins 5 new_invocation (replayed invocation_events) invocation_events Hok
    sample_events_fit sample_keys replay_invocation) as [Hl _].
  rewrite (Hl (FRun "a" RStatus)). by vm_compute.
Defined.

(** ** A cache that follows *)

(** The bundle with a store that was just made. *)
Definition sample_store : Backend :=
  match NewBackend (E := goerror) [] with Ret b => b | _ => store_of [] end.
Definition sample_caches : nat * SubscribedCache (LoadingCache LRUCache Backend) :=
  match bundle_caches 3 [] sample_store with
  | Ret (isub, invocations, _, _) => (isub, invocations)
  | _ => (0, NewSubscribedCache 3 (loading []))
  end.
Definition cache_sub : nat := sample_caches.1.
Notation following := (following (C := LRUCache)).
Notation follow_step := (follow_step (C := LRUCache) (fit := event_fit) cache_sub).

Definition sample_start : following := MkFollowing sample_caches.2 (λ k, default [] (stream sample_store k)) 0.
Definition append_event (ev : Event) (σ : following) : following :=
  MkFollowing (with_store (Append (Some ev) (fo_store σ)).2 (fo_cache σ)) (recorded ev (fo_history σ))
    (fo_lost σ + if dropped event_labels (Some cache_sub) (publisher (fo_store σ)) ev then 1 else 0).
Definition read_invocation (σ : following) : following :=
  with_cache (on_inner (c_GetAggregate 5 invocation_key) (fo_cache σ)).2 σ.
Definition take_event (σ : following) : following :=
  match receive_from cache_sub (publisher (fo_store σ)) with Some (msg, pu) => taken 5 msg pu σ | None => σ end.

Lemma append_step ev σ : event_fit ev → (Append (Some ev) (fo_store σ)).1 = Ret () → follow_step σ (append_event ev σ).
Proof.
  intros Hf Ha. apply follow_append; [done|]. rewrite <- Ha. by destruct (Append (Some ev) (fo_store σ)).
Qed.

Lemma take_step σ : is_Some (receive_from cache_sub (publisher (fo_store σ))) → follow_step σ (take_event σ).
Proof.
  intros [[msg pu] Hr]. apply follow_receive. exists 5%Z, msg, pu. unfold take_event. by rewrite Hr.
Qed.

(** All events are appended before the cache takes any; an early reader has it load the invocation. *)
Definition appended_all : following := foldl (λ σ ev, append_event ev σ) sample_start invocation_events.
Definition loaded_early : following := read_invocation appended_all.

Lemma appended_all_reachable : rtc follow_step sample_start appended_all.
Proof.
  pose proof sample_events_fit as Hf. unfold appended_all. unfold invocation_events in *. cbn [foldl].
  apply Forall_cons in Hf as [H1 Hf]. apply Forall_cons in Hf as [H2 Hf]. apply Forall_cons in Hf as [H3 _].
  eapply rtc_l; [apply append_step; [exact H1|by vm_compute]|].
  eapply rtc_l; [apply append_step; [exact H2|by vm_compute]|].
  apply rtc_once, append_step; [exact H3|by vm_compute].
Qed.

Lemma loaded_early_reachable : rtc follow_step sample_start loaded_early.
Proof. eapply rtc_r; [apply appended_all_reachable|]. by apply follow_read. Qed.

Lemma sample_caches_made : ∃ workflows app, bundle_caches 3 [] sample_store = Ret (cache_sub, sample_caches.2, workflows, app).
Proof.
  destruct (bundle_caches_follow 3 sample_store eq_refl) as (isub & invocations & workflows & app & Hs & _).
  unfold cache_sub, sample_caches. rewrite Hs. eauto.
Qed.


(** ** Reads that go back *)

(** What a reader sees of the task. *)
Definition seen (σ : following) : option TaskInvocationStatus_Status :=
  match (GetInvocation 5 "wi-1" (sc_cache (fo_cache σ))).1 with
  | Ret wi => TI_status <$> WI_task wi "a"
  | _ => None
  end.

(** Reads are not monotonic.  Of a task that succeeded, the reader whose read loads the invocation sees
    the success; when the cache then takes the events it had been sent before, later readers see no run of the task
    at all, and after that one in progress, before the success shows again. *)
Theorem reads_go_back : ∃ σ1 σ2 σ3 σ4 : following,
  rtc follow_step sample_start σ1 ∧ follow_step σ1 σ2 ∧ follow_step σ2 σ3 ∧ follow_step σ3 σ4 ∧
  seen σ1 = Some TaskInvocationStatus_SUCCEEDED ∧ seen σ2 = None ∧
  seen σ3 = Some TaskInvocationStatus_IN_PROGRESS ∧ seen σ4 = Some TaskInvocationStatus_SUCCEEDED.
Proof.
  exists loaded_early, (take_event loaded_early), (take_event (take_event loaded_early)),
    (take_event (take_event (take_event loaded_early))).
  split_and!; [apply loaded_early_reachable| | | |by vm_compute..]; apply take_step; vm_compute; by eexists.
Qed.
