(* ===== verification/RunsExec.v ===== *)
(** The concrete run continued: the scopes, the expressions and the closures of the
    controllers at work. *)

From stdpp Require Import base gmap strings list.
From S2P Require Import Prelude Data Types TypedValues ControlFlow Fes Projectors Lru.
From S2P Require Import MemBackend Cache Graph Scheduler Validate WorkQueue DelayingQueue.
From S2P Require Import Executor Ctrl Api ApiSpec InvocationController Expr Execution ExecutionSpec.
From S2P Require Import Runs RunsEngine.

(** ** An engine *)

(** The program [boom] fails; any other tells whether the current task has that input. *)
#[export] Instance sample_otto : Otto Scope := {|
  otto_Set _ _ := None;
  otto_Run src task s :=
    (if decide (src = "boom") then JSError (ErrNew "boom") else
     JSValue (VBool (bool_decide (is_Some (Scope_Tasks s !! task ≫= λ ts, TaskScope_Inputs ts !! src)))),
     s) |}.
#[export] Instance sample_mergo : Mergo := plain_mergo.

(** ** A workflow with inputs: [flag] of [t] asks for the input [x] *)

Definition typed (i : nat) (m : message) (md : gmap string string) : TypedValue :=
  MkTypedValue (Some (MkAny (TypeUrlPrefix +:+ MessageName m) (unary i))) md.
Definition input_x : TypedValue := typed 0 (StringValue "") {[ "priority" := "1" ]}.
Definition input_flag : TypedValue := typed 1 (Expression "") ∅.
Definition input_boom : TypedValue := typed 2 (Expression "") ∅.
Definition inputs_t : gmap string TypedValue := {[ "x" := input_x; "flag" := input_flag ]}.
Definition inputs_u : gmap string TypedValue := {[ "y" := input_boom ]}.
Definition exec_messages : list message := [
  StringValue "hello"; Expression "{x}"; Expression "{boom}"; BoolValue true; BoolValue false;
  MapValue ∅; MapValue inputs_t; MapValue inputs_u; ArrayValue [typed 3 (BoolValue true) ∅; typed 0 (StringValue "") ∅];
  ArrayValue [input_flag; typed 0 (StringValue "") ∅]].
#[local] Instance exec_proto : Proto := table_proto exec_messages.

Definition task_with (inputs : gmap string TypedValue) : TaskSpec :=
  MkTaskSpec "noop" inputs ∅ 0 None None None.
Definition exec_workflow : Workflow :=
  MkWorkflow (Some (MkObjectMetadata "wf-2" "" None 1))
    (Some (MkWorkflowSpec "v1" {[ "t" := Some (task_with inputs_t); "u" := Some (task_with inputs_u) ]}
       "t" "" "" "" false))
    (Some (MkWorkflowStatus WorkflowStatus_READY None
       {[ "t" := Data.MkTask None None (Some parsed_task); "u" := Data.MkTask None None (Some parsed_task) ]} None)).
Definition exec_status : WorkflowInvocationStatus :=
  MkWorkflowInvocationStatus WorkflowInvocationStatus_IN_PROGRESS None ∅ None ∅ None None.
Definition exec_invocation : WorkflowInvocation :=
  MkWorkflowInvocation (Some (MkObjectMetadata "wi-2" "" None 1))
    (Some (MkWorkflowInvocationSpec "wf-2" ∅ "" (Some exec_workflow) None)) (Some exec_status).

Lemma exec_workflow_wf : workflow_wf exec_workflow.
Proof.
  split; [by eexists| |].
  - intros st id t [= <-]. cbn. intros Ht. left.
    by apply lookup_insert_Some in Ht as [[_ <-]|[_ [_ <-]%lookup_singleton_Some]].
  - intros sp id [= <-]. cbn. by intros [[_ ?]|[_ [_ ?]%lookup_singleton_Some]]%lookup_insert_Some.
Qed.

Lemma exec_wf : invocation_wf exec_invocation.
Proof.
  split; [intros wf [= <-]; apply exec_workflow_wf|by eexists|..];
    intros st id t [= <-]; cbn; by rewrite lookup_empty.
Qed.

Definition exec_view (inputs : gmap string TypedValue) (id : string) : Data.Task :=
  Data.MkTask (Some (task_metadata id None)) (Some (task_with inputs)) (Some parsed_task).

Lemma exec_task id t :
  inv_task_view exec_invocation id = Some t →
  (id = "t" ∧ t = exec_view inputs_t "t") ∨ (id = "u" ∧ t = exec_view inputs_u "u").
Proof.
  intros Hv. destruct (decide (id = "t")) as [->|Ht]; [left; split; [done|]; by injection Hv as <-|].
  destruct (decide (id = "u")) as [->|Hu]; [right; split; [done|]; by injection Hv as <-|]. exfalso.
  assert ((Workflow_Status exec_workflow ≫= λ s, WorkflowStatus_Tasks s !! id) = None) as Hst
    by (cbn [Workflow_Status exec_workflow mbind option_bind WorkflowStatus_Tasks];
        by rewrite lookup_insert_ne, lookup_singleton_ne).
  assert (WorkflowSpec_TaskSpec (Workflow_Spec exec_workflow) id = None) as Hsp
    by (unfold WorkflowSpec_TaskSpec; cbn [Workflow_Spec exec_workflow mbind option_bind WorkflowSpec_Tasks];
        by rewrite lookup_insert_ne, lookup_singleton_ne).
  assert (inv_task_view exec_invocation id = task_view exec_workflow id) as Hiv
    by (unfold inv_task_view; cbn [exec_invocation WorkflowInvocation_Status exec_status mbind option_bind
          WorkflowInvocationStatus_DynamicTasks]; by rewrite lookup_empty).
  unfold task_view in Hiv. rewrite Hst, Hsp in Hiv. rewrite Hiv in Hv. done.
Qed.

Lemma exec_scopable : scopable 5 exec_invocation exec_status.
Proof.
  split.
  - apply exec_wf.
  - reflexivity.
  - by eexists.
  - intros wf [= <-]. by eexists.
  - intros id t [[_ ->]|[_ ->]]%exec_task; by eexists.
  - intros id t. cbn [exec_status WorkflowInvocationStatus_DynamicTasks]. by rewrite lookup_empty.
  - vm_compute. lia.
  - intros id run. cbn [exec_status WorkflowInvocationStatus_Tasks]. by rewrite lookup_empty.
  - intros spec [= <-]. by vm_compute.
  - intros id t [[_ ->]|[_ ->]]%exec_task; by vm_compute.
Qed.

Lemma NewScope_describes_witness :
  ∃ scope, NewScope 5 None (Some exec_invocation) = Ret scope ∧
    ∃ ts, Scope_Tasks scope !! "t" = Some ts ∧ TaskScope_Inputs ts !! "x" = Some (VString "hello").
Proof.
  destruct (NewScope_describes 5 exec_invocation exec_status exec_scopable) as (_ & _ & Hd).
  assert (is_ret (NewScope 5 None (Some exec_invocation))) as [scope Hs]%is_ret_ex by by vm_compute.
  exists scope. split; [exact Hs|]. specialize (Hd scope "t" Hs).
  assert (inv_task_view exec_invocation "t" = Some (exec_view inputs_t "t")) as Hv by reflexivity.
  rewrite Hv in Hd. destruct (Scope_Tasks scope !! "t") as [ts|]; [|destruct Hd].
  exists ts. split; [reflexivity|]. pose proof (describes_inputs _ _ _ _ _ _ Hd) as Hi. cbn [Task_Spec exec_view] in Hi.
  assert (∃ m, UnwrapMapTypedValue 5 inputs_t = Ret m ∧ m !! "x" = Some (VString "hello")) as (m & Hm & Hx).
  { eexists. split; [vm_compute; reflexivity|by vm_compute]. }
  change (TaskSpec_Inputs (task_with inputs_t)) with inputs_t in Hi. rewrite Hm in Hi. injection Hi as <-. exact Hx.
Defined.

(** ** Expressions *)

Lemma exec_faithful m b : value_message m → @marshal exec_proto m = Some b → @wire exec_proto m.
Proof. intros _. apply table_marshal_wire. Qed.

(** A list with an expression and a text, in a scope in which the expression is true. *)
Definition flags : gval := VList [VString "{x}"; VString "hello"].
Definition scope_x : Scope :=
  MkScope None None {[ "t" := MkTaskScope None "" 0 {[ "x" := VNil ]} ∅ VNil VNil "" ]}.
Definition yes (s : string) : gval := VBool true.


(** An engine that is always interrupted. *)
Definition stuck_otto : Otto () := {| otto_Set _ _ := None; otto_Run _ _ s := (JSTimeOut, s) |}.

Lemma Resolve_timeout_is_nil_witness :
  let _ := stuck_otto in Resolve (R := ()) 5 1 "t" (Some input_flag) () = (Ret None, ()).
Proof.
  apply (Resolve_timeout_is_nil (H1 := stuck_otto) 5 0 () () "t" "{x}" (Some input_flag)); by vm_compute.
Defined.

Lemma DeepCopy_plain_witness :
  DeepCopy (E := ()) 3 flags = Ret flags ∧ ∃ why, DeepCopy (E := ()) 3 (VBytes "x") = Panic why.
Proof.
  split.
  - destruct (DeepCopy_plain (E := ()) 1 flags 3) as [[Hd _]|(why & Hd & _)]; [|lia|exact Hd|by vm_compute in Hd].
    apply plain_list. intros v [->|[->|[]%elem_of_nil]%elem_of_cons]%elem_of_cons; by constructor.
  - destruct (DeepCopy_plain (E := ()) 1 (VBytes "x") 3) as [[_ Hd]|(why & Hd & _)];
      [by constructor|lia|by destruct Hd; constructor|by exists why].
Defined.

(** ** Resolving inputs *)

Definition no_scopes : World Backend := MkWorld created_store NewStore.

Lemma no_scopes_ok : b_ok no_scopes.
Proof. exact created_ok. Qed.

Definition has_input (s : Scope) (src : string) : gval :=
  VBool (bool_decide (is_Some (Scope_Tasks s !! "t" ≫= λ ts, TaskScope_Inputs ts !! src))).
Definition values_t (key : string) : gval := if decide (key = "x") then VString "hello" else VString "{x}".

Lemma inputs_t_carry key val :
  inputs_t !! key = Some val → carries 0 val (values_t key) ∧ pure_input 0 has_input values_t "t" key.
Proof.
  unfold inputs_t. intros [[<- <-]|[Hne Hk]]%lookup_insert_Some.
  - split; [split_and!; [by constructor|by vm_compute|split; [by eexists|]]|].
    + intros [|f] Hf; [lia|reflexivity].
    + intros s e He. inversion He as [Hx| |]; subst. by vm_compute in Hx.
  - apply lookup_singleton_Some in Hk as [<- <-].
    split; [split_and!; [by constructor|by vm_compute|split; [by eexists|]]|].
    + intros [|f] Hf; [lia|reflexivity].
    + intros s e He. inversion He; subst. split_and!; [reflexivity| |by constructor].
      change (RemoveExpressionDelimiters "{x}") with "x". reflexivity.
Qed.


(** ** Running tasks *)

(** The calls of a closure in this world, with a runtime that succeeds. *)
Definition world_runtime : gmap string (Runtime (B := World Backend) (Ctx := ())) :=
  {[ "internal" := MkRuntime (λ _ _ _, mret (Some sample_result)) None ]}.
Definition run_sample `{Proto} (now : Z) (inv : WorkflowInvocation) (taskID : string) :=
  execTask (B := World Backend) () no_inject (λ c _, c) (λ c, c) world_runtime 5 now "7" inv taskID.

Lemma world_runtime_keeps : runtimes_keep world_runtime.
Proof.
  unfold world_runtime. intros name rt [_ <-]%lookup_singleton_Some. split; [|done].
  intros c t s. apply keeps_ret.
Qed.

(** The inputs of [u] cannot be resolved. *)
Lemma lost_task_blocks_witness :
  ¬ is_ret (run_sample 5 exec_invocation "u" no_scopes).1 ∧
  b_stream (run_sample 5 exec_invocation "u" no_scopes).2 (NewInvocationAggregate "wi-2") =
  b_stream no_scopes (NewInvocationAggregate "wi-2").
Proof.
  pose proof (lost_task_blocks () no_inject (λ c _, c) (λ c, c) world_runtime 5 HorizonPolicy 5 "7"
    exec_invocation "u" (exec_view inputs_u "u") no_scopes exec_wf ltac:(by eexists) ltac:(reflexivity)
    ltac:(done)) as Hl.
  unfold run_sample. specialize (Hl ltac:(intros Hn; by apply (f_equal (lookup "y")) in Hn)).
  specialize (Hl ltac:(by vm_compute)).
  destruct (execTask () no_inject (λ c _, c) (λ c, c) world_runtime 5 5 "7" exec_invocation "u" no_scopes)
    as [r b]. destruct Hl as (Hr & Hs & _). split; [exact Hr|exact Hs].
Defined.

(** The task [a] of the first workflow, with the codec of the API. *)
#[local] Existing Instance api_proto.

Definition bare_invocation : WorkflowInvocation :=
  MkWorkflowInvocation (Some (MkObjectMetadata "wi-1" "" None 1))
    (Some (MkWorkflowInvocationSpec "wf-1" ∅ "" (Some sample_workflow) None)) (Some exec_status).

Lemma bare_wf : invocation_wf bare_invocation.
Proof.
  split; [intros wf [= <-]; apply sample_workflow_wf|by eexists|..];
    intros st id t [= <-]; cbn [exec_status WorkflowInvocationStatus_DynamicTasks WorkflowInvocationStatus_Tasks];
    by rewrite lookup_empty.
Qed.

Lemma api_outcomes_faithful : outcomes_faithful.
Proof. intros r s. apply table_marshal_wire. Qed.


Definition no_resolve (ref : string) : res goerror FnRef := Throw (ErrNew "").

Lemma run_action_keeps_witness :
  b_ok (run_action (B := World Backend) () no_inject (λ c _, c) (λ c, c) world_runtime 5
    no_resolve 6 "7" 0 (ActExecTask bare_invocation "a") no_scopes).2.
Proof. apply (run_action_keeps _ _ _ _ _ _ _ _ _ _ _ _ world_runtime_keeps no_scopes_ok). Defined.

Definition prewarm_a : PrepareTaskAction := MkPrepareTaskAction "a" None.
Definition prewarm_b : PrepareTaskAction := MkPrepareTaskAction "b" None.

Lemma prewarm_prepares_last_witness :
  run_action (B := World Backend) () no_inject (λ c _, c) (λ c, c) world_runtime 5 no_resolve 6 "7" 2
    (Executor.Apply (new_task "wi-1.prewarm.a" "wi-1" (ActPrepareTask bare_invocation [prewarm_a; prewarm_b])))
    no_scopes =
  prepare_action world_runtime 6 0 bare_invocation [prewarm_b] no_scopes.
Proof.
  apply (prewarm_prepares_last () no_inject (λ c _, c) (λ c, c) world_runtime 5 no_resolve 6 "7" bare_invocation
    (MkSchedule "wi-1" None None [] [prewarm_a; prewarm_b]) prewarm_b 2 no_scopes eq_refl).
  - vm_compute. lia.
  - by left.
Defined.
