(* ===== verification/RunsRounds.v ===== *)
(** The concrete run continued: rounds of the engine take the invocation of [Runs] from its creation to its
    end. *)

From stdpp Require Import base gmap strings list.
From S2P Require Import Prelude Data Types TypedValues ControlFlow Fes Projectors Lru.
From S2P Require Import MemBackend Cache Graph Scheduler Validate WorkQueue DelayingQueue.
From S2P Require Import Executor Ctrl Api ApiSpec InvocationController Expr Execution ExecutionSpec.
From S2P Require Import Engine EngineSpec Runs RunsEngine RunsExec.

(** A codec for what the rounds encode. *)
Definition start_of (now : Z) (id : string) (reqs : list string) : message :=
  TaskStarted (Some (NewTaskInvocationSpec fresh_invocation (Some (view_of reqs id)) now)).
Definition round_messages : list message := [
  StringValue "wi-1"; start_of 6 "a" []; start_of 7 "b" ["a"]; TaskSucceeded (Some sample_result);
  InvocationCreated (Some sample_invocation_spec); InvocationCompleted (Some sample_output) None].
#[local] Instance round_proto : Proto := table_proto round_messages.

Definition first_event : Data.Event :=
  match NewEvent 5 invocation_key (Some (InvocationCreated (Some sample_invocation_spec))) with
  | Ret e => e | _ => sample_event "" false end.
Definition fresh_engine : Engine (B := World Backend) :=
  MkEngine (MkWorld (store_of [first_event]) NewStore) fresh_controller sample_pool.
Definition sample_rounds : list (Z * string * nat) := [(6%Z, "7", 0); (7%Z, "8", 0); (8%Z, "9", 0)].
Definition run_rounds : option (Engine (B := World Backend) * list (XTask * World Backend * World Backend)) :=
  engine_rounds () no_inject (λ c _, c) (λ c, c) world_runtime HorizonPolicy 5 no_resolve "wi-1" sample_rounds fresh_engine.

Notation sample_tasks := (task_view sample_workflow).

Lemma sample_requires t : requires sample_tasks t = if decide (t = "b") then Require_ ["a"] else ∅.
Proof. unfold requires. rewrite sample_view. case_decide as Ha; [by subst|]. by case_decide. Qed.

Lemma sample_waits x y : depends sample_tasks x y → x = "a" ∧ y = "b".
Proof.
  assert (∀ z, is_Some (requires sample_tasks y !! z) → z = "a" ∧ y = "b") as Hr.
  { intros z. rewrite sample_requires. case_decide as Hy; [|by intros []].
    intros [d Hd]. unfold Require_ in Hd. cbn in Hd. by apply lookup_insert_Some in Hd as [[<- _]|[_ Hd]]. }
  intros [Hd|[_ (p & Hp & _)]]; [by apply Hr|]. rewrite sample_requires in Hp. by case_decide.
Qed.

Lemma sample_acyclic t : ¬ tc (waits_in sample_tasks) t t.
Proof.
  assert (∀ x y, tc (waits_in sample_tasks) x y → x = "a" ∧ y = "b") as Htc.
  { induction 1 as [x y (_ & _ & Hw)|x y z (_ & _ & Hw) _ IH]; [by apply sample_waits|].
    apply sample_waits in Hw. destruct Hw as [-> ->]. by destruct IH. }
  intros [-> Ht]%Htc. done.
Qed.

Lemma sample_listed t : t ∈ ["a"; "b"] ↔ is_Some (sample_tasks t).
Proof.
  rewrite sample_view, !elem_of_cons. case_decide; [naive_solver|]. case_decide; [naive_solver|].
  split; [by intros [|[|?%not_elem_of_nil]]|by intros []].
Qed.

Lemma fresh_snapshot : snapshot_ok 5 "wi-1" sample_tasks (200 * 10 ^ 9) ∅ WorkflowInvocationStatus_IN_PROGRESS fresh_invocation.
Proof.
  split.
  - apply fresh_evaluable.
  - by vm_compute.
  - by vm_compute.
  - apply fresh_view.
  - intros t. rewrite fresh_runs, lookup_empty. split; by intros [].
  - intros t. rewrite lookup_empty. by intros [].
  - intros t. rewrite lookup_empty. split; [|done]. intros (r & Hr & _). by rewrite fresh_runs in Hr.
  - by vm_compute.
Qed.

Lemma fresh_loaded : loaded "wi-1" 10 [] sample_pool.
Proof. split; try done; [by intros t ?%not_elem_of_nil|apply NoDup_nil_2|by intros t ?%not_elem_of_nil]. Qed.

Lemma sample_fresh : engine_fresh 5 "wi-1" sample_tasks (200 * 10 ^ 9) 10 WorkflowInvocationStatus_IN_PROGRESS fresh_engine.
Proof.
  split.
  - exact (store_of_ok _).
  - intros now. exists fresh_invocation. split; [by vm_compute|apply fresh_snapshot].
  - intros Hin. repeat (apply elem_of_cons in Hin as [?|Hin]; [done|]). by apply not_elem_of_nil in Hin.
  - done.
  - apply fresh_loaded.
Qed.

Lemma world_plain : plain_runtimes world_runtime "wi-1".
Proof.
  unfold world_runtime. intros name rt [_ <-]%lookup_singleton_Some. split; [|done]. intros c t s. split; [by intros b|].
  intros b r b' [= <- _]. by vm_compute.
Qed.

Lemma round_faithful : codec_faithful.
Proof. intros m s _. apply table_marshal_wire. Qed.

(** Both tasks ran, and the history shows how the invocation ended. *)
Lemma engine_completes_witness :
  ∃ e ran, run_rounds = Some (e, ran) ∧ executed ran = ["a"; "b"] ∧
    ∃ R σ, history_ok 5 "wi-1" sample_tasks (200 * 10 ^ 9) R σ (b_stream (engine_world e) invocation_key) ∧
      ended sample_tasks (∃ r, r ∈ sample_rounds ∧ (200 * 10 ^ 9 < r.1.1)%Z) R σ.
Proof.
  destruct (engine_completes () no_inject (λ c _, c) (λ c, c) world_runtime HorizonPolicy 5 no_resolve "wi-1"
    ltac:(done) sample_tasks (200 * 10 ^ 9) world_plain round_faithful ["a"; "b"] sample_listed 10 ltac:(done)
    sample_acyclic sample_rounds WorkflowInvocationStatus_IN_PROGRESS fresh_engine sample_fresh)
    as (e & ran & Hr & _ & _ & _ & Hend).
  assert (match run_rounds with
          | Some (_, ran) => bool_decide (executed ran = ["a"; "b"] ∧ Forall (recorded "wi-1") ran)
          | None => false end = true) as Hrec by by vm_compute.
  unfold run_rounds in *. rewrite Hr in Hrec |- *. apply bool_decide_eq_true in Hrec as [Hex Hrec].
  exists e, ran. split_and!; [done|done|]. apply Hend; [done|cbn; lia].
Defined.
