(* ===== verification/RunsBuiltins.v ===== *)
(** Concrete runs of the built-in functions: two rounds of a [repeat], a [foreach] over two
    elements, a [while], a [switch], and the runtime. *)

From stdpp Require Import base gmap strings list pretty.
From S2P Require Import Prelude Data Types TypedValues ControlFlow Graph Validate.
From S2P Require Import Builtins BuiltinsSpec.

(** ** Values *)

(** The value serialized as entry [i] of the table below. *)
Definition entry (i : nat) (m : message) (md : gmap string string) : TypedValue :=
  MkTypedValue (Some (MkAny (TypeUrlPrefix +:+ MessageName m) (unary i))) md.

Definition noop_task : TaskSpec := MkTaskSpec "noop" ∅ ∅ 0 None None None.
Definition two : TypedValue := entry 0 (Int64Value 2) ∅.
Definition do_noop : TypedValue := entry 1 (TaskSpecMessage noop_task) ∅.
Definition output_0 : TypedValue := entry 2 (Expression "") ∅.
Definition output_1 : TypedValue := entry 3 (Expression "") ∅.
Definition item_x : TypedValue := entry 4 (StringValue "") ∅.
Definition item_y : TypedValue := entry 5 (StringValue "") ∅.
Definition items_xy : TypedValue := entry 6 (ArrayValue []) ∅.
Definition outputs_01 : TypedValue := entry 7 (ArrayValue []) ∅.
Definition yes : TypedValue := entry 8 (BoolValue true) {[ "src" := "{true}" ]}.
Definition yes_source : TypedValue := entry 9 (Expression "") ∅.
Definition no_delay : TypedValue := entry 10 (StringValue "") ∅.
Definition action_output : TypedValue := entry 11 (Expression "") ∅.
Definition one : TypedValue := entry 12 (Int64Value 1) ∅.
Definition case_x : TypedValue := entry 13 (MapValue ∅) ∅.
Definition cases_x : TypedValue := entry 14 (ArrayValue []) ∅.

Definition prioritized (p : string) (tv : TypedValue) : TypedValue := with_metadata tv MetadataPriority p.

Definition while_wf : WorkflowSpec :=
  while_workflow item_x yes_source no_delay two (prioritized "100" one) (prioritized "100" action_output) 0.

Definition value_messages : list message := [
  Int64Value 2; TaskSpecMessage noop_task; Expression "{output('do_0')}"; Expression "{output('do_1')}";
  StringValue "x"; StringValue "y"; ArrayValue [item_x; item_y]; ArrayValue [output_0; output_1];
  BoolValue true; Expression "{true}"; StringValue "0s"; Expression "{ $.Tasks.action.Output }";
  Int64Value 1; MapValue {[ "case" := item_x; "action" := item_y ]}; ArrayValue [case_x];
  WorkflowSpecMessage while_wf].
#[local] Instance builtin_proto : Proto := table_proto value_messages.
#[local] Instance builtin_range : MapRange := plain_range.
#[local] Instance builtin_ptypes : PTypes := unix_ptypes.

Lemma builtin_faithful m b : marshal m = Some b → wire m.
Proof. apply table_marshal_wire. Qed.

Definition task_run (fn : string) (inputs : gmap string TypedValue) : TaskInvocationSpec :=
  MkTaskInvocationSpec (Some (MkFnRef "native" "" fn)) "t" inputs "wi" None None.

Definition output_of_round (j : nat) : TypedValue := match j with O => output_0 | S _ => output_1 end.

Lemma output_of_round_wraps fuel n j : S j < S n → n ≤ 2 →
  must_wrap (S fuel) (VString (output_of (taskID (Z.of_nat j)))) = Ret (output_of_round j).
Proof. intros Hj Hn. destruct j as [|[|j]]; [by vm_compute..|lia]. Qed.

(** ** Runs *)

Lemma Repeat_chain_witness :
  ∃ wf, FunctionRepeat 5 id id (task_run "repeat" {[ "times" := two; "do" := do_noop ]}) =
      MustWrap 5 (VMessage (WorkflowSpecMessage wf)) ∧
    WorkflowSpec_OutputTask wf = "do_1" ∧
    WorkflowSpec_Tasks wf !! "do_1" = Some (Some (repeated noop_task output_of_round 1)) ∧
    validate_WorkflowSpec (Some wf) = Ret ().
Proof.
  destruct (Repeat_chain 5 id id (task_run "repeat" {[ "times" := two; "do" := do_noop ]})
    two do_noop 2 noop_task output_of_round) as (wf & Hr & Ht & Ho & Hv);
    [reflexivity|by vm_compute|lia|reflexivity|by vm_compute| |].
  { intros j Hj. apply (output_of_round_wraps 4 1 j); lia. }
  exists wf. split; [exact Hr|]. split; [rewrite Ho; reflexivity|].
  split; [apply Ht; exists 1; split; [lia|]; split; reflexivity|].
  apply Hv; [done|]. apply (names_apart_list wf ["do_0"; "do_1"]); [|by vm_compute].
  intros id [x (k & Hk & -> & _)%Ht]. destruct k as [|[|k]]; [left|right; left|lia].
Defined.

Lemma Foreach_elements_witness :
  ∃ wf, FunctionForeach 5 (task_run "foreach" {[ "foreach" := items_xy; "do" := do_noop ]}) =
      Wrap 5 (VMessage (WorkflowSpecMessage wf)) ∧
    WorkflowSpec_OutputTask wf = "collector" ∧
    WorkflowSpec_Tasks wf !! "do_1" = Some (Some (element_task noop_task false 1 item_y)).
Proof.
  destruct (Foreach_elements 5 (task_run "foreach" {[ "foreach" := items_xy; "do" := do_noop ]})
    items_xy do_noop outputs_01 [VString "x"; VString "y"] [item_x; item_y] (FlowTask (Some noop_task))
    noop_task true false) as (wf & Hr & Ht & Ho & _);
    [reflexivity|by vm_compute|reflexivity|reflexivity|by vm_compute|reflexivity|reflexivity
    |reflexivity|reflexivity| |by vm_compute|].
  { repeat constructor; by vm_compute. }
  exists wf. split; [exact Hr|]. split; [exact Ho|].
  apply Ht. left. exists 1, item_y. split; [reflexivity|]. split; reflexivity.
Defined.

Definition while_inputs : gmap string TypedValue :=
  {[ "expr" := yes; "limit" := two; "do" := item_x ]}.
Definition while_0 : TaskInvocationSpec := task_run "while" while_inputs.
Definition while_1 : TaskInvocationSpec := task_run "while" (<["_count" := prioritized "100" one]> while_inputs).
Definition while_condition_1 : TaskSpec :=
  default noop_task (mjoin (WorkflowSpec_Tasks while_wf !! "condition")).


Lemma Switch_selects_witness :
  FunctionSwitch 5 (task_run "switch" {[ "switch" := item_x; "cases" := cases_x; "default" := two ]}) =
    Ret (Some item_y).
Proof.
  refine (Switch_selects 5 (task_run "switch" {[ "switch" := item_x; "cases" := cases_x; "default" := two ]})
    item_x cases_x "x" [VMap {[ "case" := VString "x"; "action" := VString "y" ]}] [("x", Some item_y)]
    _ _ _ _ _); [reflexivity|by vm_compute|reflexivity|by vm_compute|].
  repeat constructor. eexists. split; [reflexivity|]. split; [reflexivity|by vm_compute].
Defined.

(** A function that panics leaves neither a status nor an error. *)
Lemma FunctionEnv_Invoke_contains_witness :
  FunctionEnv_Invoke (RegisterFn (NewFunctionEnv ∅) "bad" (λ _, Panic "bad")) 7 (λ _, "")
    (Some (task_run "bad" ∅)) = Ret None.
Proof.
  destruct (FunctionEnv_Invoke_contains (NewFunctionEnv ∅) 7 (λ _, "") (task_run "bad" ∅)
    (MkFnRef "native" "" "bad") (λ _, Panic "bad")) as [_ Hv].
  destruct Hv as (_ & _ & Hp & _); [reflexivity|reflexivity|].
  apply Hp. by exists "bad".
Defined.
