(* ===== verification/RunsRuntime.v ===== *)
(** The concrete run continued: a task that runs the workflow of [Runs] through the
    workflow runtime. *)

From stdpp Require Import base gmap strings list.
From S2P Require Import Prelude Data Types TypedValues ControlFlow Fes Projectors Pubsub Lru.
From S2P Require Import MemBackend Cache Graph Validate Api ApiSpec Execution ExecutionSpec Store.
From S2P Require Import WorkflowRuntime Runs.

Definition runtime_messages : list message :=
  [InvocationCreated (Some sample_invocation_spec);
   InvocationCanceled (Some (MkError ErrInvocationCanceled))].
#[local] Instance runtime_proto : Proto := table_proto runtime_messages.

Lemma cancel_wired : wire (InvocationCanceled (Some (MkError ErrInvocationCanceled))).
Proof. change (InvocationCanceled (Some (MkError ErrInvocationCanceled)) ∈ runtime_messages). set_solver. Qed.

(** The invocation the runtime creates, once it has ended. *)
Definition ended_status : WorkflowInvocationStatus :=
  MkWorkflowInvocationStatus WorkflowInvocationStatus_SUCCEEDED None ∅ (Some sample_output) ∅ None None.
Definition ended_invocation : WorkflowInvocation :=
  MkWorkflowInvocation (Some (MkObjectMetadata "wi-7" "" None 3)) (Some sample_invocation_spec)
    (Some ended_status).

(** The engine runs the invocation during the second wait. *)
Definition engine_runs (n : nat) (w : Backend * LRUCache * LRUCache) : Backend * LRUCache * LRUCache :=
  let '(b, c, d) := w in
  if decide (n = 1) then (b, (c_Put (Some (EInvocation ended_invocation)) c).2, d) else w.

Lemma engine_runs_ok n b c d :
  b_ok b → cache_ok c → cache_ok d →
  let '(b', c', d') := engine_runs n (b, c, d) in b_ok b' ∧ cache_ok c' ∧ cache_ok d'.
Proof.
  intros Hb Hc Hd. unfold engine_runs. case_decide; [|by split_and!].
  assert (aggregate_valid (GetAggregate (EInvocation ended_invocation))) as Hv by by split.
  pose proof (c_Put_spec (EInvocation ended_invocation) c Hc Hv) as Hp.
  destruct (c_Put _ c) as [r c']. by destruct Hp as (_ & ? & _).
Qed.

Definition ready_cache : LRUCache := (c_Put (Some (EWorkflow sample_workflow)) empty_cache).2.

Lemma ready_cache_ok : cache_ok ready_cache.
Proof.
  assert (aggregate_valid (GetAggregate (EWorkflow sample_workflow))) as Hv by by split.
  pose proof (c_Put_spec (EWorkflow sample_workflow) empty_cache empty_cache_ok Hv) as Hp.
  unfold ready_cache. destruct (c_Put _ empty_cache). by destruct Hp as (_ & ? & _).
Qed.

Definition idle_sys : Sys Backend LRUCache LRUCache := MkSys (store_of []) empty_cache ready_cache 0.

Lemma idle_sys_ok : sys_ok idle_sys.
Proof. split; [apply (store_of_ok [])|]. split; [apply empty_cache_ok|apply ready_cache_ok]. Qed.

(** The contexts are done at every third wait. *)
Definition gives_up (n : nat) : bool := bool_decide (n mod 3 = 2).
Definition patient_clock (n : nat) : Z := Z.of_nat n.

Lemma await_answers_witness :
  awaited gives_up false "wi-7" 0 (awaitInvocationResult engine_runs gives_up patient_clock false 5 "wi-7" idle_sys).
Proof.
  refine (await_answers engine_runs gives_up patient_clock engine_runs_ok cancel_wired false 5 "wi-7" idle_sys
    _ idle_sys_ok _); [discriminate|].
  intros _. exists 2. split; [cbn; lia|reflexivity].
Defined.

(** Nobody creates the workflow [wf-9]. *)
Lemma poll_workflow_cancels_invocation_witness :
  match pollUntilWorkflowResult engine_runs gives_up patient_clock 5 "wf-9" idle_sys with
  | (Throw e, s') => ∃ s1, canceled "wf-9" s1 s' e | _ => True end.
Proof.
  pose proof (poll_workflow_cancels_invocation engine_runs gives_up patient_clock engine_runs_ok cancel_wired
    5 "wf-9" idle_sys) as Hp.
  destruct (pollUntilWorkflowResult _ _ _ 5 "wf-9" idle_sys) as [[wf|e|why] s']; [exact I| |exact I].
  destruct Hp as (_ & s1 & _ & Hc); [discriminate|apply idle_sys_ok| |exists s1; exact Hc].
  exists 2. split; [cbn; lia|reflexivity].
Defined.

Definition workflow_run : TaskInvocationSpec :=
  MkTaskInvocationSpec (Some (MkFnRef "workflows" "" "wf-1")) "t" ∅ "wi-1" None (Some (MkTimestamp 200 0)).
Definition reported : res goerror TaskInvocationStatus * Sys Backend LRUCache LRUCache :=
  Runtime_Invoke () (λ _ m, m) engine_runs gives_up patient_clock false 5 2 "7" () (Some workflow_run) idle_sys.

Lemma Runtime_Invoke_reports_witness :
  TaskInvocationStatus_Finished (ToTaskStatus ended_status) = true ∧
  ∃ wi wi_status, finished_in reported.2 "wi-7" = Some wi ∧
    WorkflowInvocation_Status wi = Some wi_status ∧ ToTaskStatus ended_status = ToTaskStatus wi_status.
Proof.
  apply (Runtime_Invoke_reports () (λ _ m, m) engine_runs gives_up patient_clock engine_runs_ok cancel_wired
    false 5 2 "7" () workflow_run (MkFnRef "workflows" "" "wf-1") (ToTaskStatus ended_status) idle_sys reported.2).
  - apply idle_sys_ok.
  - reflexivity.
  - discriminate.
  - intros _ n. pose proof (Nat.mod_upper_bound n 3 ltac:(lia)) as Hb.
    exists (n + (2 - n mod 3)). split; [lia|]. unfold gives_up. apply bool_decide_eq_true.
    rewrite (Nat.div_mod_eq n 3) at 1. replace (3 * (n / 3) + n mod 3 + (2 - n mod 3)) with (2 + (n / 3) * 3) by lia.
    by rewrite Nat.Div0.mod_add.
  - assert (reported.1 = Ret (ToTaskStatus ended_status)) as Hr by by vm_compute.
    change (reported = (Ret (ToTaskStatus ended_status), reported.2)).
    rewrite <- Hr. by destruct reported.
Defined.
