(* ===== verification/RunsServer.v ===== *)
(** The concrete run continued: requests to the server about the workflow of [Runs]. *)

From stdpp Require Import base gmap strings list.
From S2P Require Import Prelude Data Types TypedValues ControlFlow Fes Projectors Pubsub Lru.
From S2P Require Import MemBackend Cache Graph Validate Api ApiSpec Execution ExecutionSpec Store.
From S2P Require Import WorkflowRuntime ApiServer Runs RunsRuntime.

#[local] Instance server_proto : Proto := table_proto [WorkflowCreated (Some sample_spec)].


(** The event store holds the events of the invocation, and the cache the invocation. *)
Definition listed_status : WorkflowInvocationStatus :=
  MkWorkflowInvocationStatus WorkflowInvocationStatus_IN_PROGRESS None
    {[ "a" := MkTaskInvocation (Some (MkObjectMetadata "run-1" "" None 1)) None None ]} None ∅ None None.
Definition listed_invocation : WorkflowInvocation :=
  MkWorkflowInvocation (Some (MkObjectMetadata "wi-1" "" None 1)) (Some sample_invocation_spec) (Some listed_status).
Definition listed_cache : LRUCache := (c_Put (Some (EInvocation listed_invocation)) empty_cache).2.

Lemma listed_cache_ok : cache_ok listed_cache.
Proof.
  assert (aggregate_valid (GetAggregate (EInvocation listed_invocation))) as Hv by by split.
  pose proof (c_Put_spec (EInvocation listed_invocation) empty_cache empty_cache_ok Hv) as Hp.
  unfold listed_cache. destruct (c_Put _ empty_cache). by destruct Hp as (_ & ? & _).
Qed.

Definition listed_sys : Sys Backend LRUCache LRUCache := MkSys (store_of invocation_events) listed_cache ready_cache 0.

Lemma Invocation_Events_foreign_witness :
  length (b_stream (sys_backend listed_sys) (NewInvocationAggregate "wi-1")) = length invocation_events ∧
  ∃ events s', Invocation_Events patient_clock (λ _ l, l) "wi-1" listed_sys = (Ret events, s') ∧
    same_system listed_sys s' ∧
    events ≡ₚ b_stream (sys_backend listed_sys) (NewWorkflowAggregate "wi-1") ++
              mjoin ((λ p, b_stream (sys_backend listed_sys) (NewTaskRunAggregate (task_id p.2))) <$>
                     map_to_list (WorkflowInvocationStatus_Tasks listed_status)) ∧
    ∀ ev, ev ∈ events → event_key ev ≠ Some (NewInvocationAggregate "wi-1").
Proof.
  split; [by vm_compute|].
  apply (Invocation_Events_foreign patient_clock (λ _ l, l) "wi-1" listed_invocation listed_sys).
  - done.
  - discriminate.
  - split; [apply (store_of_ok invocation_events)|]. split; [apply listed_cache_ok|apply ready_cache_ok].
  - by vm_compute.
  - intros name task Hlook. cbn in Hlook. apply lookup_singleton_Some in Hlook as [_ <-]. discriminate.
Defined.

(** The list of the server is empty. *)
Example no_events_listed :
  (Invocation_Events patient_clock (λ _ l, l) "wi-1" listed_sys).1 = Ret [].
Proof. by vm_compute. Qed.
