(* ===== verification/RunsHttp.v ===== *)
(** Runs of the conversions between typed values and HTTP, of a function behind HTTP and of a workflow behind the proxy, with concrete libraries: a JSON
    codec that knows one value, a registry with one message. *)

From stdpp Require Import base gmap strings list pretty.
From S2P Require Import Prelude Data Types TypedValues FnRefs NetHttp MediaType Httpconv Remote Lru EnvProxy.
From Stdlib Require Import Ascii.

(** The value [{"k":"v"}]. *)
Definition json_value : gval := VMap {[ "k" := VString "v" ]}.
Definition json_text : string := "{k:v}".

#[refine] Definition one_value_codecs : Codecs := {|
  json_Marshal v := match v with VMap _ => Some json_text | _ => None end;
  json_Unmarshal s := if decide (s = json_text) then Some json_value else None;
  MessageType name := bool_decide (name = TypeMap);
  json_Unmarshal_message _ _ := None;
  jsonpb_Unmarshal _ _ := None;
  proto_Unmarshal _ _ := None;
  json_wire v := v = json_value |}.
Proof.
  - intros v ->. by exists json_text.
  - intros name ->%bool_decide_eq_true. by vm_compute.
Defined.

#[refine] Definition plain_fmt : Fmt := {| Sprint v := match v with VString s => s | _ => "?" end |}.
Proof. done. Defined.

(** The typed values of a request, by their place in the table of messages. *)
Definition string_tv (i : nat) : TypedValue :=
  MkTypedValue (Some (MkAny "types.fission.io/google.protobuf.StringValue" (unary i))) ∅.
Definition map_tv (i : nat) : TypedValue :=
  MkTypedValue (Some (MkAny "types.fission.io/fission.workflows.types.MapValue" (unary i))) ∅.

Definition http_messages : list message := [
  StringValue "hello"; StringValue "PUT"; StringValue "v";
  MapValue {[ "k" := string_tv 2 ]}; MapValue {[ "X-Key" := string_tv 2 ]};
  StringValue "text/plain"; StringValue "5";
  MapValue {[ "X-Key" := string_tv 2; "Content-Type" := string_tv 5; "Content-Length" := string_tv 6 ]};
  BytesValue "hello"; StringValue "wf-1"; MapValue {[ "X-Fission-Function-Uid" := string_tv 9 ]} ].

Definition http_proto : Proto := table_proto http_messages.

(** A request to a URL without a query. *)
Definition fresh_request : Request := MkRequest "GET" (Some "") None None.

Section runs.
Let range_instance : MapRange := plain_range.
Let proto_instance : Proto := http_proto.
Let rfc2231_instance : Rfc2231 := no_continuations.
Let codecs_instance : Codecs := one_value_codecs.
Let fmt_instance : Fmt := plain_fmt.
#[local] Existing Instances range_instance proto_instance rfc2231_instance codecs_instance fmt_instance.


(** The same run, evaluated. *)
Definition sample_request : Request :=
  (FormatRequest 3 DefaultHTTPMapper
    (Some (request_inputs (string_tv 0) (string_tv 1) (map_tv 3) (map_tv 4))) fresh_request).2.

Example request_run :
  Req_RawQuery sample_request = Some "k=v" ∧
  (inputs ← ParseRequest 3 DefaultHTTPMapper sample_request;
   Ret ((λ k, inputs !! k) <$> [InputBody; InputMain; InputMethod; InputQuery; InputHeaders])) =
  Ret [Some (Some (string_tv 0)); Some (Some (string_tv 0)); Some (Some (string_tv 1));
       Some (Some (map_tv 3)); Some (Some (map_tv 7))].
Proof. split; vm_compute; reflexivity. Qed.

Lemma structured_request_refused_witness :
  ∃ req', FormatRequest 3 DefaultHTTPMapper
      (Some (request_inputs (map_tv 3) (string_tv 1) (map_tv 3) (map_tv 4))) fresh_request = (Ret (), req') ∧
    Req_Body req' = Some (Ret json_text) ∧
    ParseRequest 3 DefaultHTTPMapper req' = Throw (ErrFmt "failed to parse request").
Proof.
  apply (structured_request_refused 3 json_value "PUT" {[ "k" := "v" ]} {[ "X-Key" := "v" ]}
           (map_tv 3) (string_tv 1) (map_tv 3) (map_tv 4)) with (query := "")
    (msg := MapValue {[ "k" := string_tv 2 ]}).
  - split; by vm_compute.
  - split; by vm_compute.
  - split; by vm_compute.
  - split; by vm_compute.
  - apply map_Forall_singleton. by vm_compute.
  - by vm_compute.
  - split; by vm_compute.
  - by vm_compute.
  - by vm_compute.
  - done.
  - done.
Defined.


(** A float as a text is formatted with a verb for integers. *)
Example text_of_float : Sprintf_d (VFloat64 0) = "%!d(float64=?)".
Proof. by vm_compute. Qed.

(** ** A function behind HTTP *)

Let ptypes_instance : PTypes := unix_ptypes.
#[local] Existing Instance ptypes_instance.

(** A client that fails once, having read the body, and then answers. *)
Definition flaky_client (n : nat) (s : Sent) : res goerror ClientResponse :=
  match n with
  | O => Throw (ErrFmt "connection refused")
  | _ => Ret (MkClientResponse 200 {[ "Content-Type" := ["text/plain"] ]} (Ret "hello"))
  end.
Definition drained (n : nat) (b : string) : string := "".
Definition no_literals (s : string) : option string := None.

Definition remote_fn : FnRef := MkFnRef "http" "" "foo.example".
Definition remote_spec : TaskInvocationSpec :=
  MkTaskInvocationSpec (Some remote_fn) "t" {[ InputBody := string_tv 0 ]} "i" None (Some (MkTimestamp 100 0)).

Definition remote_request : Request :=
  (FormatRequest 3 http_mapper (Some (Some <$> TaskInvocationSpec_Inputs remote_spec)) (MkRequest "" (Some "") None None)).2.


(** The same run: the second attempt succeeds, without the body. *)
Example remote_run :
  let '(r, log) := http_Invoke 3 no_literals flaky_client drained (λ _, 12) (Some remote_spec) [] in
  r = Ret (succeeded_status (Some (string_tv 0)) None) ∧
  (λ s, Req_Body (Sent_Request s)) <$> log = [Some (Ret "hello"); Some (Ret "")].
Proof. vm_compute. done. Qed.

(** ** A workflow behind the proxy *)

(** A server with the workflow [wf-1]; its state is the number of invocations. *)
Definition server_Get (id : string) : st nat goerror Workflow :=
  if decide (id = "wf-1") then mret (MkWorkflow (Some (MkObjectMetadata "wf-1" "" None 1)) None None)
  else throw (ErrFmt "not found").
Definition server_CreateSync (spec : WorkflowSpec) : st nat goerror Workflow :=
  mret (MkWorkflow (Some (MkObjectMetadata (WorkflowSpec_ForceId spec) "" None 1)) (Some spec) None).
Definition server_Invoke (spec : WorkflowInvocationSpec) : st nat goerror string :=
  λ n, (Ret "wi-1", S n).
Definition server_InvokeSync (spec : WorkflowInvocationSpec) : st nat goerror WorkflowInvocation :=
  λ n, (Ret (MkWorkflowInvocation None (Some spec) (Some (MkWorkflowInvocationStatus
    WorkflowInvocationStatus_SUCCEEDED None ∅ (Some (string_tv 0)) ∅ None None))), S n).

Definition uid_of (h : Header) : string := Header_Get h "X-Fission-Function-Uid".
Definition proxy_headers : Header := {[ "X-Fission-Function-Uid" := ["wf-1"] ]}.
Definition proxy_request : Request :=
  MkRequest "PUT" (Some "k=v") (Some proxy_headers) (Some (Ret "hello")).
Definition sample_proxy : Proxy (S := nat) := MkProxy (MkListLru 10 []) (10 ^ 9) 0 (MkResponse ∅ None "" false).

Notation handle := (handleRequest 3 server_Get server_Invoke server_InvokeSync (λ _, "error") uid_of (λ _, None) 0).

(** The workflow exists, and the proxy does not know it. *)
Lemma handleRequest_gate_witness :
  (handle proxy_request sample_proxy).1 = Ret () ∧ engine (handle proxy_request sample_proxy).2 = 0 ∧
  refused "Unknown fission function name; not specialized" 400 (response sample_proxy)
    (response (handle proxy_request sample_proxy).2).
Proof.
  pose proof (λ Hok, proj2 (proj2 (handleRequest_gate 3 server_Get server_Invoke server_InvokeSync (λ _, "error") uid_of
                (λ _, None) 0 proxy_request sample_proxy Hok))) as Hg.
  replace (uid_of (default ∅ (Req_Header proxy_request))) with "wf-1" in Hg by (vm_compute; reflexivity).
  assert (lru_ok (fissionIds sample_proxy)) as Hok by (split_and!; [constructor|simpl; lia..]).
  assert (known sample_proxy "wf-1" = false) as Hk by (vm_compute; reflexivity).
  specialize (Hg Hok ltac:(discriminate) Hk). unfold server_Get in Hg at 1. rewrite decide_True in Hg by done.
  cbn [mret st_ret] in Hg. destruct Hg as (Hr & He & _ & Href). exact (conj Hr (conj He Href)).
Defined.

Definition proxy_inputs : gmap string (option TypedValue) := {[
  InputBody := Some (MkTypedValue (Some (MkAny "types.fission.io/google.protobuf.BytesValue" (unary 8))) ∅);
  InputMain := Some (MkTypedValue (Some (MkAny "types.fission.io/google.protobuf.BytesValue" (unary 8))) ∅);
  InputQuery := Some (map_tv 3); InputHeaders := Some (map_tv 10); InputMethod := Some (string_tv 1) ]}.

(** Every input is set: the values are serialized in as many letters as they have bytes. *)
Lemma sample_inputs : ParseRequest 3 DefaultHTTPMapper proxy_request = Ret proxy_inputs.
Proof. vm_compute. reflexivity. Qed.

Lemma forward_invokes_witness :
  ∃ w, forward 3 server_Invoke server_InvokeSync (λ _, "error") (λ _, None) 0 "wf-1" proxy_request sample_proxy =
         (Ret (), MkProxy (fissionIds sample_proxy) (10 ^ 9) 1 w) ∧
       sent w = (Some (200, ∅)%Z, "hello").
Proof.
  pose proof (forward_invokes 3 server_Invoke server_InvokeSync (λ _, "error") (λ _, None) 0 "wf-1" proxy_request
    sample_proxy proxy_inputs (MkTimestamp 1 0) sample_inputs eq_refl) as Hf.
  rewrite decide_True in Hf by (vm_compute; reflexivity). simpl in Hf. specialize (Hf _ eq_refl).
  destruct (FormatResponse _ _ _ _ _ _ _) as [res w] eqn:Hw in Hf. vm_compute in Hw. injection Hw as <- <-.
  eexists. split; [exact Hf|reflexivity].
Defined.

Definition sample_load : FunctionLoadRequest := MkFunctionLoadRequest "/pkg" "fn" (Some "uid-1").
Definition empty_workflow : WorkflowSpec := MkWorkflowSpec "" ∅ "" "" "" "" false.

(** A package of two files. *)
Definition specialized : res goerror (list string) * Proxy (S := nat) :=
  specialize server_CreateSync (λ _, Some true) (λ _, Ret ["a.wf"; "b.wf"]) (λ _, Ret "{}")
    (λ d f, d +:+ "/" +:+ f) (λ _, Some empty_workflow) (Some sample_load) sample_proxy.

Lemma specialize_one_id_witness :
  ∃ files, findWorkflowFiles (λ _, Some true) (λ _, Ret ["a.wf"; "b.wf"]) (λ d f, d +:+ "/" +:+ f) sample_load = Ret files ∧
    ["uid-1"; "uid-1"] = replicate (length files) "uid-1" ∧
    known specialized.2 "uid-1" = true ∧ response specialized.2 = response sample_proxy.
Proof.
  apply (specialize_one_id server_CreateSync (λ _, Some true) (λ _, Ret ["a.wf"; "b.wf"]) (λ _, Ret "{}")
    (λ d f, d +:+ "/" +:+ f) (λ _, Some empty_workflow) sample_load "uid-1" sample_proxy specialized.2 ["uid-1"; "uid-1"]).
  - intros spec s wf s' [= <- _] _. reflexivity.
  - reflexivity.
  - discriminate.
  - split; [constructor|simpl; lia].
  - reflexivity.
Defined.
End runs.
