(* ===== verification/RunsNats.v ===== *)
(** Concrete runs of the event store on NATS. *)

From stdpp Require Import base gmap strings list pretty.
From S2P Require Import Prelude Data Types TypedValues FnRefs NetHttp Fes Pubsub MemBackend Nats NatsWatch.
From Stdlib Require Import Ascii.

(** A server that keeps the data of every subject in a map, numbers the messages as it hands them
    out, refuses subjects with wildcards, and grants every subscription. *)
Notation Server := (gmap string (list string)).

Definition server_log (subject : string) (s : Server) : list Msg :=
  imap (λ i d, MkMsg (Z.of_nat i + 1) subject d) (default [] (s !! subject)).

#[export] Instance map_stan : Stan Server := {|
  stan_Publish subject data s :=
    if hasWildcard subject then (Throw (ErrFmt "invalid subject"), s)
    else (Ret (), <[subject := default [] (s !! subject) ++ [data]]> s);
  stan_Subscribe _ _ := None;
  stan_Unsubscribe _ _ := None;
  stan_log := server_log |}.

#[export] Instance map_stan_laws : StanLaws Server.
Proof.
  split; cbn; unfold server_log.
  - intros subject s i m Hi. rewrite list_lookup_imap in Hi. apply fmap_Some in Hi as (d & _ & ->). done.
  - intros subject data s r s'. destruct (hasWildcard subject); intros [= <- <-]; [by split; [|left]|]. split.
    + intros other Hne. by rewrite lookup_insert_ne.
    + rewrite lookup_insert_eq. cbn. rewrite imap_app, length_imap. cbn. by rewrite Nat.add_0_r.
Qed.

(** Two events of a workflow and its invocation, and their encodings. *)
Definition workflow_key : Aggregate := MkAggregate "wf-1" "workflow".
Definition invocation_key : Aggregate := MkAggregate "wi-1" "invocation".
Definition nats_event (ty : string) (key : Aggregate) : Event :=
  MkEvent "" ty (Some key) (Some (MkTimestamp 1 0)) None None None ∅.
Definition created : Event := nats_event "WorkflowCreated" workflow_key.
Definition parsed : Event := nats_event "WorkflowParsed" workflow_key.
Definition invoked : Event := nats_event "InvocationCreated" invocation_key.

#[export] Instance sample_codecs : EventCodecs := {|
  json_Marshal e := if decide (SubjectEvent_Type e = noop) then Some ("0" +:+ SubjectEvent_Subject e) else None;
  json_Unmarshal d := match d with String "0" s => Some (MkSubjectEvent s noop) | _ => None end;
  json_text _ := True;
  proto_Marshal_Event e := if decide (e = created) then Some "c" else if decide (e = parsed) then Some "p"
                           else if decide (e = invoked) then Some "i" else None;
  proto_Unmarshal_Event d := if decide (d = "c") then Some created else if decide (d = "p") then Some parsed
                             else if decide (d = "i") then Some invoked else None |}.

#[export] Instance sample_codec_laws : EventCodecLaws.
Proof.
  split; cbn.
  - intros [subject ty] d. cbn. case_decide; [|done]. intros [= <-] _. by subst.
  - intros e d. repeat case_decide; intros [= <-]; by subst.
Qed.

Definition sample_appends : st Server goerror () :=
  loopM (λ _ ev, nats_Append (Some ev)) () [created; invoked; parsed].
Definition filled : Server := (sample_appends ∅).2.

Lemma nats_history_witness :
  nats_Get workflow_key filled filled = Some (Ret [event_with_id created "1"; event_with_id parsed "2"]).
Proof.
  rewrite (nats_history [created; invoked; parsed] ∅ filled filled workflow_key).
  - reflexivity.
  - intros subject. cbn. unfold server_log. by rewrite lookup_empty.
  - repeat apply Forall_cons_2; [| | |constructor]; intros key [= <-]; by vm_compute.
  - vm_compute. reflexivity.
  - done.
  - by vm_compute.
  - by split.
Defined.

(** Of an aggregate without events, reading is an error. *)
Example nats_Get_missing : nats_Get (MkAggregate "wf-2" "workflow") filled filled = Some (Throw no_boundary).
Proof. by vm_compute. Qed.

(** Waiting for a number that was not published does not end. *)
Example Conn_Msg_blocks : Conn_Msg "workflow.wf-1" 3 filled filled = None.
Proof. by vm_compute. Qed.

#[local] Definition range_instance : MapRange := plain_range.
#[local] Existing Instance range_instance.

Lemma nats_List_announced_witness :
  ∃ l, nats_List None filled filled = Some (Ret l) ∧ NoDup l ∧
    ∀ a, a ∈ l ↔ (∃ subject, announced (stan_log subjectActivity filled) subject ∧ toAggregate subject = Some a) ∧ True.
Proof.
  refine (nats_List_announced None filled filled _ _).
  - by split.
  - intros subject (m & Hm & ev & Hj & <-).
    assert (m ∈ [MkMsg 1 "_activity" "0workflow.wf-1"; MkMsg 2 "_activity" "0invocation.wi-1";
                 MkMsg 3 "_activity" "0workflow.wf-1"]) as Hin by exact Hm.
    rewrite !elem_of_cons, elem_of_nil in Hin. destruct Hin as [->|[->|[->|[]]]]; injection Hj as <-; eexists; by vm_compute.
Defined.

(** ** Watching *)

Definition watched : EventStore (S := Server) * list (string * Event) :=
  let es := (Watch (MkAggregate "" "workflow") (NewEventStore ∅)).2 in
  let append ev es := set_server (nats_Append (Some ev) (es_server es)).2 es in
  let es := append invoked (append created es) in
  let es1 := (deliver_next 0 es).2 in
  let tr1 := published es1 1 in
  let es2 := append parsed (deliver_next 1 es1).2 in
  let tr2 := published es2 1 in
  let es3 := (deliver_next 0 (deliver_next 0 (deliver_next 1 es2).2).2).2 in
  (es3, tr1 ++ tr2).

Lemma plain_workflow : plain_type "workflow".
Proof. split; [done|]. by split; vm_compute. Qed.

Lemma watched_run :
  run (Watch (MkAggregate "" "workflow") (NewEventStore ∅)).2 watched.2 watched.1.
Proof.
  assert (∀ ev key, event_key ev = Some key → ev ∈ [created; parsed; invoked] → key_ok key) as Hok.
  { intros ev key Hk Hin. rewrite !elem_of_cons, elem_of_nil in Hin.
    destruct Hin as [->|[->|[->|[]]]]; injection Hk as <-; by split. }
  assert (∀ es tr es1 i, run es tr es1 → run es (tr ++ published es1 i) (deliver_next (S := Server) i es1).2) as Hd.
  { intros es tr es1 i Hr. eapply run_deliver; [exact Hr|apply surjective_pairing]. }
  assert (∀ es tr es1 ev, ev ∈ [created; parsed; invoked] → run es tr es1 →
    run es tr (set_server (S := Server) (nats_Append (Some ev) (es_server es1)).2 es1)) as Ha.
  { intros es tr es1 ev Hin Hr. eapply run_append; [exact Hr|intros key Hk; by eapply Hok|apply surjective_pairing]. }
  unfold watched. cbn [fst snd].
  eassert (∀ tr tr' es es1, run (S := Server) es tr es1 → tr = tr' → run es tr' es1) as Heq by (by intros; subst).
  eapply Heq.
  - do 2 apply Hd. apply Hd. apply Ha; [set_solver|]. apply Hd. apply Hd. apply Ha; [set_solver|]. apply Ha; [set_solver|].
    apply run_refl.
  - vm_compute. reflexivity.
Qed.

